(** * OLT manager: protocol layer and sync jobs

    A shallow embedding of the polling core of the OLT manager
    (vendor adapters under [vendors/], the sync and periodic jobs of
    [tasks.py] and the tables of [database/models.py] they use), the
    properties of it that the specification states, and further properties
    read off the code.

    Python strings are lists of characters, dictionaries are
    insertion-ordered association lists, awaits on the network are answered
    by an explicit script of the device, the database session is an explicit
    pair of a committed and a working table. *)

From Stdlib Require Import Ascii String DecimalString.
From Stdlib Require Import List ZArith NArith Bool Arith Lia.
Import ListNotations.

Set Implicit Arguments.

(* ================================================================ *)
(** * Part I: the embedding                                          *)
(* ================================================================ *)

(** ** Strings *)

Module Str.

Definition str := list ascii.

Definition lit (s : string) : str := list_ascii_of_string s.

Definition code (c : ascii) : nat := nat_of_ascii c.

Definition between (lo hi : nat) (c : ascii) : bool :=
  (lo <=? code c) && (code c <=? hi).

Definition is_char (a c : ascii) : bool := Ascii.eqb a c.

(** [\d], [\w], [\s] and [.] of Python's [re] on ASCII text. *)
Definition is_digit (c : ascii) : bool := between 48 57 c.
Definition is_upper (c : ascii) : bool := between 65 90 c.
Definition is_lower (c : ascii) : bool := between 97 122 c.
Definition is_word (c : ascii) : bool :=
  is_digit c || is_upper c || is_lower c || is_char "_" c.
Definition is_space (c : ascii) : bool :=
  between 9 13 c || between 28 31 c || (code c =? 32).
Definition is_any (c : ascii) : bool := negb (code c =? 10).

(** [0-9a-fA-F] *)
Definition is_hex (c : ascii) : bool :=
  is_digit c || between 97 102 c || between 65 70 c.

(** [\x00-\x1F\x7F] *)
Definition is_control (c : ascii) : bool :=
  between 0 31 c || (code c =? 127).

Fixpoint streq (a b : str) : bool :=
  match a, b with
  | [], [] => true
  | x :: a', y :: b' => Ascii.eqb x y && streq a' b'
  | _, _ => false
  end.

Definition LF : ascii := ascii_of_nat 10.
Definition CR : ascii := ascii_of_nat 13.
Definition BS : ascii := ascii_of_nat 8.

(** [s.startswith(p)] *)
Fixpoint starts_with (p s : str) : bool :=
  match p, s with
  | [], _ => true
  | _ :: _, [] => false
  | a :: p', b :: s' => Ascii.eqb a b && starts_with p' s'
  end.

(** [p in s] *)
Fixpoint contains (p s : str) : bool :=
  starts_with p s ||
  match s with
  | [] => false
  | _ :: s' => contains p s'
  end.

(** [s.replace(old, new)] for a non-empty [old]: occurrences are taken
    from the left and do not overlap.  [skip] counts the characters of
    the occurrence being replaced that are still to be dropped. *)
Fixpoint replace_from (old new s : str) (skip : nat) : str :=
  match s with
  | [] => []
  | c :: s' =>
      match skip with
      | S k => replace_from old new s' k
      | O =>
          if starts_with old s
          then new ++ replace_from old new s' (length old - 1)
          else c :: replace_from old new s' 0
      end
  end.

Definition replace (old new s : str) : str := replace_from old new s 0.

(** [c.lower()] and [s.lower()] on ASCII. *)
Definition lower_char (c : ascii) : ascii :=
  if is_upper c then ascii_of_nat (code c + 32) else c.

Definition lower (s : str) : str := map lower_char s.

(** [s.strip()] *)
Fixpoint lstrip (s : str) : str :=
  match s with
  | c :: s' => if is_space c then lstrip s' else s
  | [] => []
  end.

Definition rstrip (s : str) : str := rev (lstrip (rev s)).

Definition strip (s : str) : str := rstrip (lstrip s).

(** [s.splitlines()] on ASCII text: LF, CR, CR LF, VT, FF, FS, GS and RS
    end a line; a last line is kept only when it is not empty. *)
Definition is_linebreak (c : ascii) : bool :=
  between 10 13 c || between 28 30 c.

Fixpoint splitlines_from (s cur : str) : list str :=
  match s with
  | [] => match cur with [] => [] | _ => [rev cur] end
  | c :: s' =>
      if is_linebreak c then
        match s' with
        | d :: s'' =>
            if (code c =? 13) && (code d =? 10)
            then rev cur :: splitlines_from s'' []
            else rev cur :: splitlines_from s' []
        | [] => [rev cur]
        end
      else splitlines_from s' (c :: cur)
  end.

Definition splitlines (s : str) : list str := splitlines_from s [].

(** [s.split('.')] *)
Fixpoint split_from (sep : ascii) (s cur : str) : list str :=
  match s with
  | [] => [rev cur]
  | c :: s' =>
      if Ascii.eqb c sep then rev cur :: split_from sep s' []
      else split_from sep s' (c :: cur)
  end.

Definition split (sep : ascii) (s : str) : list str := split_from sep s [].

(** [sep.join(parts)] *)
Fixpoint join (sep : str) (parts : list str) : str :=
  match parts with
  | [] => []
  | [p] => p
  | p :: rest => p ++ sep ++ join sep rest
  end.

(** [int(s)] for a string of ASCII digits. *)
Definition digit_val (c : ascii) : N := N.of_nat (code c - 48).

Definition int_of_digits (s : str) : N :=
  fold_left (fun acc c => (10 * acc + digit_val c)%N) s 0%N.

(** [str(n)] for a natural number. *)
Definition of_nat (n : nat) : str :=
  lit (NilZero.string_of_uint (Nat.to_uint n)).

(** [s[i:i+2] for i in range(0, len(s), 2)] *)
Fixpoint pairs (s : str) : list str :=
  match s with
  | a :: b :: s' => [a; b] :: pairs s'
  | [a] => [[a]]
  | [] => []
  end.

End Str.

Import Str.

(** ** Regular expressions

    The fragment of Python's [re] the adapters use: character classes,
    greedy [*] and [+] over a class, sequence, ordered alternation, numbered
    groups and [$].  Matching is by backtracking with the priorities of
    [re]: a greedy repetition first takes as many characters as it can and
    gives them back one by one, an alternation tries its left branch
    first. *)

Module Re.

Inductive re : Type :=
| Eps
| Cls (p : ascii -> bool)
| Star (p : ascii -> bool)
| Plus (p : ascii -> bool)
| Seq (a b : re)
| Alt (a b : re)
| Grp (i : nat) (r : re)
| Eos.

Definition Chr (c : ascii) : re := Cls (is_char c).

Fixpoint Lit (s : str) : re :=
  match s with
  | [] => Eps
  | c :: s' => Seq (Chr c) (Lit s')
  end.

Fixpoint seqs (rs : list re) : re :=
  match rs with
  | [] => Eps
  | [r] => r
  | r :: rs' => Seq r (seqs rs')
  end.

Definition captures := list (nat * str).

Fixpoint group (i : nat) (caps : captures) : option str :=
  match caps with
  | [] => None
  | (j, s) :: caps' => if Nat.eqb i j then Some s else group i caps'
  end.

Section Matcher.
Variable A : Type.

Fixpoint star_k (p : ascii -> bool) (s : str) (k : str -> option A)
  : option A :=
  match s with
  | c :: s' =>
      if p c then
        match star_k p s' k with
        | Some r => Some r
        | None => k s
        end
      else k s
  | [] => k s
  end.

Fixpoint run (r : re) (s : str) (caps : captures)
  (k : str -> captures -> option A) : option A :=
  match r with
  | Eps => k s caps
  | Cls p =>
      match s with
      | c :: s' => if p c then k s' caps else None
      | [] => None
      end
  | Star p => star_k p s (fun s' => k s' caps)
  | Plus p =>
      match s with
      | c :: s' => if p c then star_k p s' (fun s'' => k s'' caps) else None
      | [] => None
      end
  | Seq a b => run a s caps (fun s' caps' => run b s' caps' k)
  | Alt a b =>
      match run a s caps k with
      | Some x => Some x
      | None => run b s caps k
      end
  | Grp i r' =>
      run r' s caps
        (fun s' caps' => k s' ((i, firstn (length s - length s') s) :: caps'))
  | Eos =>
      match s with
      | [] => k s caps
      | [c] => if code c =? 10 then k s caps else None
      | _ => None
      end
  end.
End Matcher.

(** [pattern.match(s)]: the text left after the match, and the groups. *)
Definition match_at (r : re) (s : str) : option (str * captures) :=
  run r s [] (fun rest caps => Some (rest, caps)).

(** [re.search(pattern, s)]: the leftmost position where a match starts. *)
Fixpoint search (r : re) (s : str) : option (str * captures) :=
  match match_at r s with
  | Some m => Some m
  | None =>
      match s with
      | [] => None
      | _ :: s' => search r s'
      end
  end.

(** [re.sub(pattern, repl, s)] for a pattern that matches no empty
    string.  [skip] counts the characters of the current match still to
    be dropped. *)
Fixpoint sub_from (r : re) (repl s : str) (skip : nat) : str :=
  match s with
  | [] => []
  | c :: s' =>
      match skip with
      | S k => sub_from r repl s' k
      | O =>
          match match_at r s with
          | Some (rest, _) =>
              match length s - length rest with
              | O => c :: sub_from r repl s' 0
              | S n => repl ++ sub_from r repl s' n
              end
          | None => c :: sub_from r repl s' 0
          end
      end
  end.

Definition sub (r : re) (repl s : str) : str := sub_from r repl s 0.

End Re.

Import Re.

(** ** Python dictionaries: association lists in insertion order *)

Module PyDict.
Section Dict.
Variable V : Type.

Definition dict := list (str * V).

(** [d.get(k)] *)
Fixpoint get (k : str) (d : dict) : option V :=
  match d with
  | [] => None
  | (k', v) :: d' => if streq k k' then Some v else get k d'
  end.

(** [k in d] *)
Definition mem (k : str) (d : dict) : bool :=
  match get k d with Some _ => true | None => false end.

(** [d[k] = v]: an existing key keeps its place, a new key goes last. *)
Fixpoint set (k : str) (v : V) (d : dict) : dict :=
  match d with
  | [] => [(k, v)]
  | (k', v') :: d' =>
      if streq k k' then (k, v) :: d' else (k', v') :: set k v d'
  end.

(** [{key(x): val(x) for x in xs}] *)
Definition of_list (kvs : list (str * V)) : dict :=
  fold_left (fun d kv => set (fst kv) (snd kv) d) kvs [].
End Dict.
End PyDict.

(** ** JSON values and canonical records *)

#[warnings="-register-all"]
Inductive json : Type :=
| JStr (s : str)
| JInt (n : Z)
| JObj (fields : list (str * json)).

(** The dictionary every interactive parser and the EPON correlator
    builds: ["identifier"], ["pon_interface"], ["vendor_name"],
    ["details"]. *)
Record onu_item : Type := OnuItem {
  identifier : str;
  pon_interface : str;
  vendor_name : str;
  details : json
}.

(** What an adapter's [get_onus()] returns: [{"error": msg}] or
    [{"count": n, "onus": [...]}]. *)
Inductive fetch_result : Type :=
| FetchError (msg : str)
| FetchOnus (onus : list onu_item).

(** ** Hioso, Telnet: the parser ([vendors/hioso/telnet_service.py]) *)

Module HiosoParser.

(** [--+ Press Enter Or Space To Continue --+[\x08]*] *)
Definition paging_banner : re :=
  seqs [Chr "-"; Plus (is_char "-");
        Lit (lit " Press Enter Or Space To Continue ");
        Chr "-"; Plus (is_char "-"); Star (is_char BS)].

(** [[0-9a-fA-F:.-]] *)
Definition is_mac_char (c : ascii) : bool :=
  is_hex c || is_char ":" c || is_char "." c || is_char "-" c.

Definition onu_pattern : re :=
  seqs [Star is_space;
        Grp 1 (seqs [Plus is_digit; Chr "/"; Plus is_digit; Chr ":";
                     Plus is_digit]);
        Plus is_space;
        Grp 2 (Plus is_mac_char); Plus is_space;
        Grp 3 (Plus is_word); Plus is_space;
        Grp 4 (Plus is_digit); Plus is_space;
        Grp 5 (Plus is_word); Plus is_space;
        Grp 6 (Plus is_word); Plus is_space;
        Grp 7 (Plus is_digit); Plus is_space;
        Grp 8 (Plus is_word); Plus is_space;
        Grp 9 (Plus is_digit); Plus is_space;
        Grp 10 (Plus is_any)].

(** [match.group(i)]; every group of [onu_pattern] takes part in a
    match. *)
Definition grp (i : nat) (caps : captures) : str :=
  match group i caps with Some s => s | None => [] end.

Definition details_of (caps : captures) : json :=
  JObj [(lit "onuId", JStr (grp 1 caps));
        (lit "onuMac", JStr (grp 2 caps));
        (lit "status", JStr (grp 3 caps));
        (lit "ports", JInt (Z.of_N (int_of_digits (grp 4 caps))));
        (lit "chipId", JStr (grp 5 caps));
        (lit "version", JStr (grp 6 caps));
        (lit "flags", JInt (Z.of_N (int_of_digits (grp 7 caps))));
        (lit "authMode", JStr (grp 8 caps));
        (lit "distance", JInt (Z.of_N (int_of_digits (grp 9 caps))));
        (lit "time", JStr (strip (grp 10 caps)))].

(** [re.sub(r'[^0-9a-fA-F]', '', mac)] *)
Definition hex_only (mac : str) : str := filter is_hex mac.

Definition record_of (caps : captures) : onu_item :=
  {| identifier := hex_only (grp 2 caps);
     pon_interface := grp 1 caps;
     vendor_name := lit "hioso";
     details := details_of caps |}.

(** The body of the [for] loop over the lines. *)
Definition clean_line (line : str) : str :=
  strip (filter (fun c => negb (is_control c)) line).

Definition parse_line (line : str) : option onu_item :=
  match clean_line line with
  | [] => None
  | l =>
      match match_at onu_pattern l with
      | Some (_, caps) => Some (record_of caps)
      | None => None
      end
  end.

Fixpoint parse_lines (lines : list str) : list onu_item :=
  match lines with
  | [] => []
  | line :: rest =>
      match parse_line line with
      | Some r => r :: parse_lines rest
      | None => parse_lines rest
      end
  end.

Definition _parse_onus (raw_output : str) : list onu_item :=
  let cleaned_output := sub paging_banner [LF] raw_output in
  parse_lines (splitlines cleaned_output).

End HiosoParser.

(** ** Exceptions and results *)

Inductive exn_kind : Type :=
| KTimeout                (* asyncio.TimeoutError *)
| KOther (type_name : str).

Record exn : Type := Exn { kind : exn_kind; message : str }.

(** [type(e).__name__] *)
Definition type_name_of (e : exn) : str :=
  match kind e with
  | KTimeout => lit "TimeoutError"
  | KOther n => n
  end.

Definition is_timeout (e : exn) : bool :=
  match kind e with KTimeout => true | KOther _ => false end.

Inductive result (A : Type) : Type :=
| Ok (a : A)
| Raise (e : exn).
Arguments Ok {A} a.
Arguments Raise {A} e.

(** ** Hioso, Telnet: the session ([vendors/hioso/telnet_service.py])

    The device is a script: what it answers at each point where the
    adapter waits for it.  The session records what was written and the
    state of the transport. *)

Module HiosoTelnet.

Inductive wait_outcome : Type :=
| Seen                  (* the prompt arrived in time *)
| TimedOut              (* [asyncio.wait_for] expired *)
| Broken (e : exn).     (* [readuntil] raised something else *)

Inductive read_event : Type :=
| Chunk (s : str)       (* [reader.read(4096)] returned [s] *)
| ReadTimeout           (* nothing for 5 seconds *)
| ReadBroken (e : exn).

(** One PON port submenu. *)
Record port_script : Type := PortScript {
  enter : wait_outcome;           (* after [pon 1/i]: the submenu prompt *)
  back_after_skip : wait_outcome; (* after the [exit] of a skipped port *)
  listing : list read_event;      (* the reads after [show onu all] *)
  back : wait_outcome             (* after the [exit] that follows a listing *)
}.

Record device : Type := Device {
  open_connection : option exn;   (* [Some e]: the connection attempt raises *)
  menu : str -> wait_outcome;     (* the waits of [connect()] and of the two
                                     menu commands, by awaited prompt *)
  port : nat -> port_script;
  write_fault : nat -> option exn;
                                  (* [Some e]: at the n-th write of the
                                     session the connection is found
                                     reset, with the error [e]:
                                     [writer.write] closes the transport
                                     and [drain()] returns *)
  connection_lost : exn -> bool   (* [true]: the reader raises this
                                     exception because the connection is
                                     gone; the transport is closing from
                                     then on *)
}.

Inductive writer_state : Type :=
| NoWriter              (* [self.writer is None] *)
| WriterOpen            (* [not self.writer.is_closing()] *)
| WriterClosed.         (* [self.writer.is_closing()]: [close()] was
                           called, or the connection is lost *)

Record session : Type := Session {
  sent : list str;      (* every string handed to [writer.write], in order *)
  writer : writer_state
}.

Definition fresh : session := {| sent := []; writer := NoWriter |}.

(** The session once the connection is gone. *)
Definition hung_up (st : session) : session :=
  {| sent := sent st;
     writer := match writer st with
               | NoWriter => NoWriter
               | _ => WriterClosed
               end |}.

(** Computations on a session that may raise. *)
Definition M (A : Type) : Type := session -> result A * session.

Definition ret {A} (a : A) : M A := fun st => (Ok a, st).
Definition raise {A} (e : exn) : M A := fun st => (Raise e, st).
Definition bind {A B} (m : M A) (f : A -> M B) : M B :=
  fun st =>
    match m st with
    | (Ok a, st') => f a st'
    | (Raise e, st') => (Raise e, st')
    end.

Declare Scope session_scope.
Delimit Scope session_scope with session.
Notation "x <- m ;; k" := (bind m (fun x => k))
  (at level 61, m at next level, right associativity) : session_scope.
Notation "m ;; k" := (bind m (fun _ => k))
  (at level 61, right associativity) : session_scope.
Local Open Scope session_scope.

(** [try: m  except asyncio.TimeoutError: h] *)
Definition except_timeout {A} (m : M A) (h : M A) : M A :=
  fun st =>
    match m st with
    | (Raise e, st') => if is_timeout e then h st' else (Raise e, st')
    | r => r
    end.

(** [try: m  except Exception as e: h e] *)
Definition except_any {A} (m : M A) (h : exn -> M A) : M A :=
  fun st =>
    match m st with
    | (Raise e, st') => h e st'
    | r => r
    end.

(** [try: m  finally: f] *)
Definition finally {A} (m : M A) (f : M unit) : M A :=
  fun st =>
    let (r, st') := m st in
    match f st' with
    | (Ok _, st'') => (r, st'')
    | (Raise e, st'') => (Raise e, st'')
    end.

Section Adapter.
Variable d : device.

(** The reader raises [e]. *)
Definition broken {A} (e : exn) : M A :=
  fun st => (Raise e, if connection_lost d e then hung_up st else st).

Definition _read_until (o : wait_outcome) (prompt : str) : M unit :=
  match o with
  | Seen => ret tt
  | TimedOut =>
      raise (Exn KTimeout (lit "Timeout waiting for prompt: " ++ prompt))
  | Broken e => broken e
  end.

(** [asyncio.wait_for(self._read_until(prompt), timeout=2.0)]: the
    outer two seconds expire before the inner fifteen. *)
Definition _read_until_2s (o : wait_outcome) (prompt : str) : M unit :=
  match o with
  | Seen => ret tt
  | TimedOut => raise (Exn KTimeout [])
  | Broken e => broken e
  end.

(** [self.writer.write(data)] and [await self.writer.drain()]: neither
    raises; a write that meets a reset connection leaves the transport
    closing. *)
Definition _write (data : str) : M unit :=
  fun st =>
    let st' := {| sent := sent st ++ [data]; writer := writer st |} in
    match write_fault d (length (sent st)) with
    | Some _ => (Ok tt, hung_up st')
    | None => (Ok tt, st')
    end.

(** [self.writer.close()] *)
Definition close : M unit :=
  fun st => (Ok tt, {| sent := sent st; writer := WriterClosed |}).

Variables username password : str.

(** [self.access_password] and [self.enable_password] are the login
    password. *)
Definition access_password : str := password.
Definition enable_password : str := password.

Definition expect (prompt : str) : M unit :=
  _read_until (menu d prompt) prompt.

Definition open : M unit :=
  fun st =>
    match open_connection d with
    | Some e => (Raise e, st)
    | None => (Ok tt, {| sent := sent st; writer := WriterOpen |})
    end.

Definition connect : M unit :=
  open ;;
  expect (lit "login:") ;;
  _write (username ++ [LF]) ;;
  expect (lit "Password:") ;;
  _write (password ++ [LF]) ;;
  expect (lit "Revision:") ;;
  _write [LF] ;;
  expect (lit "Access Password:") ;;
  _write (access_password ++ [LF]) ;;
  expect (lit "EPON>") ;;
  _write (lit "enable" ++ [LF]) ;;
  expect (lit "Enable Password:") ;;
  _write (enable_password ++ [LF]) ;;
  expect (lit "EPON#").

(** [if self.writer and not self.writer.is_closing():] *)
Definition disconnect : M unit :=
  fun st =>
    match writer st with
    | WriterOpen => (_write (lit "exit" ++ [LF]) ;; close) st
    | _ => (Ok tt, st)
    end.

(** [--+ (More|Press Enter Or Space To Continue) --+] *)
Definition paging_marker : re :=
  seqs [Chr "-"; Plus (is_char "-"); Chr " ";
        Alt (Lit (lit "More"))
            (Lit (lit "Press Enter Or Space To Continue"));
        Chr " "; Chr "-"; Plus (is_char "-")].

(** ["---- More ----" in chunk or
     "Press Enter Or Space To Continue" in chunk] *)
Definition paging_detected (chunk : str) : bool :=
  contains (lit "---- More ----") chunk ||
  contains (lit "Press Enter Or Space To Continue") chunk.

(** The [while True] loop that follows [show onu all].  A script that
    has run out means the device sends nothing more: the read times
    out. *)
Fixpoint read_loop (prompt : str) (events : list read_event)
  (full_output : str) : M str :=
  match events with
  | [] => ret full_output
  | ReadTimeout :: _ => ret full_output
  | ReadBroken e :: _ => broken e
  | Chunk chunk :: rest =>
      match chunk with
      | [] => ret full_output
      | _ =>
          full_output <-
            (if paging_detected chunk
             then _write (lit " ") ;;
                  ret (sub paging_marker [] (full_output ++ chunk))
             else ret (full_output ++ chunk)) ;;
          if contains prompt full_output
          then ret full_output
          else read_loop prompt rest full_output
      end
  end.

Definition pon_prompt (i : nat) : str :=
  lit "EPON(epon-pon-1/" ++ of_nat i ++ lit ")#".

(** [f"pon 1/{i}"] *)
Definition pon_command (i : nat) : str := lit "pon 1/" ++ of_nat i.

(** One turn of [for i in range(1, 3)]. *)
Definition query_port (i : nat) (all_parsed_onus : list onu_item)
  : M (list onu_item) :=
  let p := port d i in
  _write (pon_command i ++ [LF]) ;;
  entered <-
    except_timeout
      (_read_until (enter p) (pon_prompt i) ;; ret true)
      (_write (lit "exit" ++ [LF]) ;;
       _read_until_2s (back_after_skip p) (lit "EPON(epon)#") ;;
       ret false) ;;
  if entered : bool then
    _write (lit "show onu all" ++ [LF]) ;;
    full_output <- read_loop (pon_prompt i) (listing p) [] ;;
    _write (lit "exit" ++ [LF]) ;;
    _read_until (back p) (lit "EPON(epon)#") ;;
    ret (all_parsed_onus ++ HiosoParser._parse_onus full_output)
  else ret all_parsed_onus.

Fixpoint query_ports (ports : list nat) (all_parsed_onus : list onu_item)
  : M (list onu_item) :=
  match ports with
  | [] => ret all_parsed_onus
  | i :: rest =>
      acc <- query_port i all_parsed_onus ;;
      query_ports rest acc
  end.

Definition error_text (e : exn) : str :=
  lit "An exception of type " ++ type_name_of e ++
  lit " occurred: " ++ message e.

(** The body of the [try]. *)
Definition fetch_all : M fetch_result :=
  connect ;;
  _write (lit "configure terminal" ++ [LF]) ;;
  expect (lit "EPON(config)#") ;;
  _write (lit "epon" ++ [LF]) ;;
  expect (lit "EPON(epon)#") ;;
  all_parsed_onus <- query_ports (seq 1 2) [] ;;
  ret (FetchOnus all_parsed_onus).

Definition get_onus : M fetch_result :=
  finally
    (except_any fetch_all (fun e => ret (FetchError (error_text e))))
    disconnect.
End Adapter.

End HiosoTelnet.

(** ** HSGQ EPON, SSH: the read loop ([vendors/hsgq/epon_ssh_service.py]) *)

Module HsgqEponSsh.

(** One turn of the [while True] of [wait_for_prompt]. *)
Inductive tick : Type :=
| Deadline              (* the overall timeout has passed *)
| Idle                  (* [read(1)] timed out or returned nothing *)
| Got (c : ascii).      (* [read(1)] returned one character *)

(** [\x1B\[[0-?]*[ -/]*[@-~]] *)
Definition ansi_escape : re :=
  seqs [Chr (ascii_of_nat 27); Chr "["; Star (between 48 63);
        Star (between 32 47); Cls (between 64 126)].

Definition more : str := lit "--More--".

(** The buffer and what was written to [proc.stdin].  A script that has
    run out means no further data: the deadline passes. *)
Fixpoint wait_for_prompt (prompts : list str) (ticks : list tick)
  (buf : str) (stdin : list str) : str * list str :=
  match ticks with
  | [] => (buf, stdin)
  | Deadline :: _ => (buf, stdin)
  | Idle :: rest => wait_for_prompt prompts rest buf stdin
  | Got ch :: rest =>
      let ch_clean := sub ansi_escape [] [ch] in
      let buf := buf ++ ch_clean in
      let '(buf, stdin) :=
        if contains more buf
        then (replace more [] buf, stdin ++ [[CR; LF]])
        else (buf, stdin) in
      if existsb (fun p => contains p buf) prompts
      then (buf, stdin)
      else wait_for_prompt prompts rest buf stdin
  end.

End HsgqEponSsh.

(** ** HSGQ, SSH: the parsers ([vendors/hsgq/ssh_service.py],
    [vendors/hsgq/epon_ssh_service.py]) *)

Module Findall.

(** [r{n}] *)
Fixpoint times (n : nat) (r : re) : re :=
  match n with
  | O => Eps
  | S n' => Seq r (times n' r)
  end.

(** [\S] *)
Definition is_nonspace (c : ascii) : bool := negb (is_space c).

(** [pattern.findall(s)] for a pattern with groups that matches no empty
    string: the groups of the matches, found from the left and not
    overlapping.  [skip] counts the characters of the current match still
    to be passed. *)
Fixpoint findall_from (r : re) (s : str) (skip : nat) : list captures :=
  match s with
  | [] =>
      match skip, match_at r [] with
      | O, Some (_, caps) => [caps]
      | _, _ => []
      end
  | _ :: s' =>
      match skip with
      | S k => findall_from r s' k
      | O =>
          match match_at r s with
          | Some (rest, caps) =>
              caps :: findall_from r s' (length s - length rest - 1)
          | None => findall_from r s' 0
          end
      end
  end.

Definition findall (r : re) (s : str) : list captures := findall_from r s 0.

(** [m[i]] for a tuple [m] of [findall]: group [i + 1], empty when the
    group took no part in the match. *)
Definition item (i : nat) (m : captures) : str :=
  match group (S i) m with Some s => s | None => [] end.

End Findall.

Import Findall.

Module HsgqSsh.

(** [[\d.]], [[\d.\-]] and [[A-Za-z0-9_\-/]] *)
Definition is_number_char (c : ascii) : bool := is_digit c || is_char "." c.
Definition is_power_char (c : ascii) : bool :=
  is_digit c || is_char "." c || is_char "-" c.
Definition is_name_char (c : ascii) : bool :=
  is_upper c || is_lower c || is_digit c || is_char "_" c || is_char "-" c ||
  is_char "/" c.

Definition onu_pattern : re :=
  seqs [Grp 1 (seqs [Plus is_digit; Chr "/"; Plus is_digit]); Plus is_space;
        Grp 2 (Plus is_nonspace); Plus is_space;
        Grp 3 (Plus is_digit); Plus is_space; Chr "C"; Plus is_space;
        Grp 4 (Plus is_number_char); Plus is_space; Chr "V"; Plus is_space;
        Grp 5 (Plus is_number_char); Plus is_space; Lit (lit "mA");
        Plus is_space;
        Grp 6 (Plus is_power_char); Plus is_space; Lit (lit "dBm");
        Plus is_space;
        Grp 7 (Plus is_power_char); Plus is_space; Lit (lit "dBm");
        Plus is_space;
        Grp 8 (Plus is_name_char)].

(** The dictionary [onu] of the first loop. *)
Definition onu_of (m : captures) : list (str * json) :=
  [(lit "pon_onu", JStr (item 0 m));
   (lit "ont_sn", JStr (item 1 m));
   (lit "temp", JStr (item 2 m ++ lit " C"));
   (lit "voltage", JStr (item 3 m ++ lit " V"));
   (lit "bias", JStr (item 4 m ++ lit " mA"));
   (lit "tx_power", JStr (item 5 m ++ lit " dBm"));
   (lit "rx_power", JStr (item 6 m ++ lit " dBm"));
   (lit "ont_name", JStr (item 7 m))].

(** The second loop: [onu_data["ont_sn"]] and [onu_data["pon_onu"]] are
    the entries written by the first. *)
Definition normalized (m : captures) : onu_item :=
  {| identifier := item 1 m;
     pon_interface := item 0 m;
     vendor_name := lit "hsgq";
     details := JObj (onu_of m) |}.

Definition _parse_onus (raw_output : str) : list onu_item :=
  let text := replace [CR] [] raw_output in
  map normalized (findall onu_pattern text).

End HsgqSsh.

Module HsgqEponSshParser.

(** [[0-9a-fA-F:]] *)
Definition is_mac_char (c : ascii) : bool := is_hex c || is_char ":" c.

Definition truth : re := Alt (Lit (lit "TRUE")) (Lit (lit "FALSE")).

Definition digits (n : nat) : re := times n (Cls is_digit).

Definition onu_info_pattern : re :=
  seqs [Grp 1 (seqs [Plus is_digit; Chr "/"; Plus is_digit]); Plus is_space;
        Grp 2 (times 17 (Cls is_mac_char)); Plus is_space;
        Grp 3 (Alt (Lit (lit "Online")) (Lit (lit "Offline"))); Plus is_space;
        Grp 4 truth; Plus is_space;
        Grp 5 truth; Plus is_space;
        Grp 6 (seqs [digits 4; Chr "/"; digits 2; Chr "/"; digits 2;
                     Plus is_space;
                     digits 2; Chr ":"; digits 2; Chr ":"; digits 2]);
        Plus is_space;
        Grp 7 (Plus is_nonspace); Plus is_space;
        Grp 8 (Plus is_nonspace)].

Definition record_of (m : captures) : onu_item :=
  let mac_address := lower (item 1 m) in
  {| identifier := mac_address;
     pon_interface := item 0 m;
     vendor_name := lit "hsgq";
     details :=
       JObj [(lit "pon_interface", JStr (item 0 m));
             (lit "mac_address", JStr mac_address);
             (lit "status", JStr (item 2 m));
             (lit "auth", JStr (item 3 m));
             (lit "cfg", JStr (item 4 m));
             (lit "reg_time", JStr (item 5 m));
             (lit "onu_name", JStr (item 6 m));
             (lit "onu_desc", JStr (item 7 m))] |}.

Definition _parse_onu_info (raw_output : str) : list onu_item :=
  let text := replace (lit "--More--") [] (replace [CR] [] raw_output) in
  map record_of (findall onu_info_pattern text).

End HsgqEponSshParser.

(** ** SNMP walks and their correlation *)

Module Snmp.

(** What [walk_cmd] yields, one element per response. *)
Inductive walk_step : Type :=
| VarBinds (var_binds : list (str * str)) (* (str(oid), value.prettyPrint()) *)
| WalkError                               (* error_indication or error_status *)
| WalkException.                          (* the iteration raised *)

(** The agent of one device: the responses to a walk of a base OID. *)
Definition agent := str -> list walk_step.

Definition record_binding (index_of : str -> option str)
  (results : PyDict.dict str) (vb : str * str) : PyDict.dict str :=
  match index_of (fst vb) with
  | Some onu_index => PyDict.set onu_index (snd vb) results
  | None => results
  end.

(** The body shared by the three [_snmp_walk]s; they differ in how the
    index is taken from the OID. *)
Fixpoint walk (index_of : str -> option str) (steps : list walk_step)
  (results : PyDict.dict str) : PyDict.dict str :=
  match steps with
  | [] => results
  | WalkError :: _ => results
  | WalkException :: _ => results
  | VarBinds var_binds :: rest =>
      walk index_of rest (fold_left (record_binding index_of) var_binds results)
  end.

(** [onus_by_index[index][data_key] = value], creating
    [{'onu_index': index}] first. *)
Definition record_value (data_key : str)
  (onus_by_index : PyDict.dict (PyDict.dict str)) (iv : str * str)
  : PyDict.dict (PyDict.dict str) :=
  let row :=
    match PyDict.get (fst iv) onus_by_index with
    | Some r => r
    | None => [(lit "onu_index", fst iv)]
    end in
  PyDict.set (fst iv) (PyDict.set data_key (snd iv) row) onus_by_index.

Definition correlate (snmp_data : list (str * PyDict.dict str))
  : PyDict.dict (PyDict.dict str) :=
  fold_left
    (fun acc kv => fold_left (record_value (fst kv)) (snd kv) acc)
    snmp_data [].

(** [{key: walk(oid) for key, oid in oids.items()}] *)
Definition walk_all (index_of : str -> option str) (a : agent)
  (oids : PyDict.dict str) : list (str * PyDict.dict str) :=
  map (fun ko => (fst ko, walk index_of (a (snd ko)) [])) oids.

Definition json_of_row (data : PyDict.dict str) : json :=
  JObj (map (fun kv => (fst kv, JStr (snd kv))) data).

(** What the generic SNMP adapters return per ONU:
    [{"identifier": ..., "details": ...}]. *)
Record snmp_item : Type := SnmpItem {
  snmp_identifier : str;
  snmp_details : json
}.

(** [get_onus_snmp] of the Hioso and HSGQ GPON adapters. *)
Definition get_onus_snmp (index_of : str -> option str)
  (default_identifier_key : str) (a : agent) (oids : PyDict.dict str)
  : list snmp_item :=
  let onus_by_index := correlate (walk_all index_of a oids) in
  let identifier_key :=
    match PyDict.get (lit "identifier_key") oids with
    | Some k => k
    | None => default_identifier_key
    end in
  flat_map
    (fun id =>
       match PyDict.get identifier_key (snd id) with
       | Some v => [{| snmp_identifier := v;
                       snmp_details := json_of_row (snd id) |}]
       | None => []
       end)
    onus_by_index.

End Snmp.

(** *** HSGQ ([vendors/hsgq/snmp_service.py], [epon_snmp_service.py]) *)

Module HsgqSnmp.

(** [\.(\d+)$|(\d+)\.(?:0\.0|65535\.65535)$] *)
Definition onu_index_pattern : re :=
  Alt (seqs [Chr "."; Grp 1 (Plus is_digit); Eos])
      (seqs [Grp 2 (Plus is_digit); Chr ".";
             Alt (Lit (lit "0.0")) (Lit (lit "65535.65535")); Eos]).

(** [match.group(1) or match.group(2)] of the [re.search]. *)
Definition onu_index (oid_str : str) : option str :=
  match search onu_index_pattern oid_str with
  | Some (_, caps) =>
      match group 1 caps with
      | Some (c :: g) => Some (c :: g)
      | _ => group 2 caps
      end
  | None => None
  end.

Definition get_onus_snmp : Snmp.agent -> PyDict.dict str -> list Snmp.snmp_item :=
  Snmp.get_onus_snmp onu_index (lit "serial_number").

End HsgqSnmp.

(** *** Hioso ([vendors/hioso/snmp_service.py]) *)

Module HiosoSnmp.

(** [parts[-2:]] *)
Definition last_two (parts : list str) : list str :=
  skipn (length parts - 2) parts.

(** "Hioso index is the last two parts of the OID". *)
Definition onu_index (oid_str : str) : option str :=
  let parts := split "." oid_str in
  if 2 <? length parts then Some (join (lit ".") (last_two parts)) else None.

Definition get_onus_snmp : Snmp.agent -> PyDict.dict str -> list Snmp.snmp_item :=
  Snmp.get_onus_snmp onu_index (lit "mac_address").

End HiosoSnmp.

(** ** The tables ([database/models.py]) *)

Module Db.

Record Vendor : Type := MkVendor {
  v_id : Z;
  v_name : str
}.

Record OLT : Type := MkOLT {
  olt_id : Z;
  olt_ip : str;
  olt_username : str;
  olt_password : str;
  olt_type : option str;
  olt_vendor_id : option Z
}.

Record OID : Type := MkOID {
  oid_oid : str;
  oid_fungsi : str;
  oid_model : option str;
  oid_vendor_id : option Z
}.

Record Onu : Type := MkOnu {
  onu_id : Z;
  onu_olt_id : Z;
  onu_identifier : str;
  onu_pon_interface : option str;
  onu_vendor_name : option str;
  onu_last_seen : Z;
  onu_details : option json;
  onu_details_snmp : option json
}.

Record database : Type := MkDb {
  vendors : list Vendor;
  olts : list OLT;
  oids : list OID;
  onus : list Onu
}.

Definition opt_eqb {A} (eqb : A -> A -> bool) (a b : option A) : bool :=
  match a, b with
  | Some x, Some y => eqb x y
  | None, None => true
  | _, _ => false
  end.

(** [db.query(models.OLT).filter(models.OLT.id == olt_id).first()] *)
Definition get_olt (db : database) (id : Z) : option OLT :=
  find (fun o => Z.eqb (olt_id o) id) (olts db).

(** [olt.vendor] *)
Definition vendor_of (db : database) (olt : OLT) : option Vendor :=
  match olt_vendor_id olt with
  | Some vid => find (fun v => Z.eqb (v_id v) vid) (vendors db)
  | None => None
  end.

(** [db.query(models.OID).filter(models.OID.vendor_id == olt.vendor_id,
     models.OID.model == olt.olt_type).all()] *)
Definition oids_of_olt (db : database) (olt : OLT) : list OID :=
  filter
    (fun o => opt_eqb Z.eqb (oid_vendor_id o) (olt_vendor_id olt) &&
              opt_eqb streq (oid_model o) (olt_type olt))
    (oids db).

(** [crud.get_oids_by_vendor_and_model] *)
Definition get_oids_by_vendor_and_model (db : database)
  (vendor_name model : str) : list OID :=
  match find (fun v => streq (v_name v) vendor_name) (vendors db) with
  | None => []
  | Some vendor =>
      filter
        (fun o => opt_eqb Z.eqb (oid_vendor_id o) (Some (v_id vendor)) &&
                  opt_eqb streq (oid_model o) (Some model))
        (oids db)
  end.

(** [{oid.fungsi: oid.oid for oid in records}] *)
Definition oids_dict (records : list OID) : PyDict.dict str :=
  PyDict.of_list (map (fun o => (oid_fungsi o, oid_oid o)) records).

(** The filter of
    [db.query(models.Onu).filter(models.Onu.identifier == identifier,
     models.Onu.olt_id == olt.id)]. *)
Definition is_onu (olt : Z) (identifier : str) (r : Onu) : bool :=
  streq (onu_identifier r) identifier && Z.eqb (onu_olt_id r) olt.

(** [....first()]: the first row of the table that passes the filter. *)
Definition first_onu (olt : Z) (identifier : str) (rows : list Onu)
  : option Onu :=
  find (is_onu olt identifier) rows.

(** Assignments to the attributes of the row [first()] returned: the
    row is changed where it stands in the table. *)
Fixpoint update_first (p : Onu -> bool) (f : Onu -> Onu) (rows : list Onu)
  : list Onu :=
  match rows with
  | [] => []
  | r :: rest => if p r then f r :: rest else r :: update_first p f rest
  end.

(** The primary key of a new row. *)
Definition next_id (rows : list Onu) : Z :=
  (1 + fold_left (fun m r => Z.max m (onu_id r)) rows 0)%Z.

(** Modelled from the spec: [database/database.py], which configures
    [SessionLocal], is not among the sources.  The session is taken as
    the spec describes the upsert: a query sees the rows this session
    has added ([db.add] followed by SQLAlchemy's autoflush), so the
    working table below is what both [query] and [commit] read. *)
Record db_session : Type := MkSession {
  committed : database;
  working : list Onu
}.

Definition begin (db : database) : db_session :=
  {| committed := db; working := onus db |}.

Definition set_working (s : db_session) (rows : list Onu) : db_session :=
  {| committed := committed s; working := rows |}.

(** [db.add(row)] *)
Definition add (s : db_session) (r : Onu) : db_session :=
  set_working s (working s ++ [r]).

(** [db.commit()]; [fault] is the exception the store raises, if any. *)
Definition commit (fault : option exn) (s : db_session)
  : result unit * db_session :=
  match fault with
  | Some e => (Raise e, s)
  | None =>
      (Ok tt,
       {| committed :=
            {| vendors := vendors (committed s); olts := olts (committed s);
               oids := oids (committed s); onus := working s |};
          working := working s |})
  end.

(** [db.rollback()] *)
Definition rollback (s : db_session) : db_session :=
  set_working s (onus (committed s)).

(** [db.close()]: what the store holds once the session is gone. *)
Definition close (s : db_session) : database := committed s.

End Db.

(** *** HSGQ EPON, SNMP ([vendors/hsgq/epon_snmp_service.py]) *)

Module HsgqEponSnmp.

Definition get_fallback_oids : PyDict.dict str :=
  [(lit "name", lit "1.3.6.1.4.1.50224.3.3.2.1.2");
   (lit "tx_power", lit "1.3.6.1.4.1.50224.3.3.3.1.4");
   (lit "rx_power", lit "1.3.6.1.4.1.50224.3.3.3.1.5");
   (lit "status", lit "1.3.6.1.4.1.50224.3.3.2.1.8");
   (lit "distance", lit "1.3.6.1.4.1.50224.3.3.2.1.15");
   (lit "mac_address", lit "1.3.6.1.4.1.50224.3.3.2.1.7")].

(** [query_fault]: the catalog query raised. *)
Definition _load_oids (db : Db.database) (query_fault : bool)
  : PyDict.dict str :=
  if query_fault then get_fallback_oids
  else
    match Db.get_oids_by_vendor_and_model db (lit "hsgq") (lit "epon") with
    | [] => get_fallback_oids
    | oid_records => Db.oids_dict oid_records
    end.

(** [raw_mac.replace('0x', '').replace(' ', '').replace(':', '').lower()] *)
Definition clean_mac (raw_mac : str) : str :=
  lower (replace (lit ":") [] (replace (lit " ") [] (replace (lit "0x") [] raw_mac))).

(** [':'.join(cleaned_mac[i:i+2] for i in range(0, len(cleaned_mac), 2))] *)
Definition format_mac (cleaned_mac : str) : str :=
  join (lit ":") (pairs cleaned_mac).

Definition status_map (status : option str) : str :=
  match status with
  | Some s =>
      if streq s (lit "1") then lit "Online"
      else if streq s (lit "2") then lit "Offline"
      else lit "Unknown"
  | None => lit "Unknown"
  end.

Definition get_or (k : str) (dflt : str) (data : PyDict.dict str) : str :=
  match PyDict.get k data with Some v => v | None => dflt end.

Section Records.
(** Floating point stays outside the embedding:
    [float_centi s] is [f"{float(s) / 100.0:.2f}"], and [None] where
    [float(s)] raises [ValueError]. *)
Variable float_centi : str -> option str.

(** [float(data.get(key, 0)) / 100.0], two decimals. *)
Definition power (key : str) (data : PyDict.dict str) : option str :=
  match PyDict.get key data with
  | Some s => float_centi s
  | None => Some (lit "0.00")
  end.

Definition powers (data : PyDict.dict str) : str * str :=
  match power (lit "tx_power") data, power (lit "rx_power") data with
  | Some tx, Some rx => (tx ++ lit " dBm", rx ++ lit " dBm")
  | _, _ => (lit "N/A", lit "N/A")
  end.

(** One turn of the loop over [onus_by_index]. *)
Definition record_of (index : str) (data : PyDict.dict str)
  : option onu_item :=
  match PyDict.get (lit "mac_address") data with
  | None => None
  | Some [] => None
  | Some raw_mac =>
      let cleaned_mac := clean_mac raw_mac in
      if length cleaned_mac =? 12 then
        let formatted_mac := format_mac cleaned_mac in
        let (tx_power, rx_power) := powers data in
        Some {| identifier := formatted_mac;
                pon_interface := lit "N/A";
                vendor_name := lit "hsgq_epon";
                details :=
                  JObj [(lit "onu_index", JStr index);
                        (lit "name", JStr (get_or (lit "name") (lit "N/A") data));
                        (lit "mac_address", JStr formatted_mac);
                        (lit "tx_power", JStr tx_power);
                        (lit "rx_power", JStr rx_power);
                        (lit "status",
                         JStr (status_map (PyDict.get (lit "status") data)));
                        (lit "distance",
                         JStr (get_or (lit "distance") (lit "N/A") data
                               ++ lit " m"))] |}
      else None
  end.

Fixpoint records_of (onus_by_index : PyDict.dict (PyDict.dict str))
  : list onu_item :=
  match onus_by_index with
  | [] => []
  | (index, data) :: rest =>
      match record_of index data with
      | Some r => r :: records_of rest
      | None => records_of rest
      end
  end.

(** [get_onus] of a service whose catalog is [OIDS]. *)
Definition get_onus (OIDS : PyDict.dict str) (a : Snmp.agent)
  : fetch_result :=
  let onus_by_index :=
    Snmp.correlate (Snmp.walk_all HsgqSnmp.onu_index a OIDS) in
  FetchOnus (records_of onus_by_index).
End Records.

End HsgqEponSnmp.

(** ** The sync jobs ([tasks.py]) *)

Module Tasks.
Import Db.

(** [{"error": msg}] and [{"message": msg}] *)
Inductive payload : Type :=
| PError (msg : str)
| PMessage (msg : str).

(** A job returns a payload, or lets an exception out. *)
Inductive job_result : Type :=
| Returned (p : payload)
| Raised (e : exn).

(** What a job meets outside the store. *)
Record env : Type := MkEnv {
  now : nat -> Z;                       (* [datetime.now(wib_timezone)] at
                                           the k-th item of the loop *)
  hioso_telnet : HiosoTelnet.device;
  hsgq_ssh : result fetch_result;       (* [asyncio.run(service.get_onus())] *)
  hsgq_epon_ssh : result fetch_result;
  snmp_agent : Snmp.agent;
  oid_query_fault : bool;
  commit_fault : option exn
}.

(** [str(n)] for an integer. *)
Definition str_of_Z (z : Z) : str := lit (NilZero.string_of_int (Z.to_int z)).

(** [f"{x}"] for a nullable string column. *)
Definition str_of_opt (o : option str) : str :=
  match o with Some s => s | None => lit "None" end.

Definition not_found (olt_id : Z) : payload :=
  PError (lit "OLT with id " ++ str_of_Z olt_id ++ lit " not found.").

(** [olt.vendor.name] on a device without vendor. *)
Definition no_vendor : exn :=
  Exn (KOther (lit "AttributeError"))
      (lit "'NoneType' object has no attribute 'name'").

Definition is_epon (olt : OLT) : bool :=
  opt_eqb streq (olt_type olt) (Some (lit "epon")).

(** *** Interactive sync *)

(** The assignments of the [if db_onu:] branch. *)
Definition set_details (d : json) (t : Z) (r : Onu) : Onu :=
  {| onu_id := onu_id r; onu_olt_id := onu_olt_id r;
     onu_identifier := onu_identifier r;
     onu_pon_interface := onu_pon_interface r;
     onu_vendor_name := onu_vendor_name r;
     onu_last_seen := t;
     onu_details := Some d;
     onu_details_snmp := onu_details_snmp r |}.

(** [models.Onu(olt_id=..., identifier=..., pon_interface=...,
     vendor_name=..., details=..., last_seen=...)] *)
Definition new_onu (id olt : Z) (t : Z) (item : onu_item) : Onu :=
  {| onu_id := id; onu_olt_id := olt;
     onu_identifier := identifier item;
     onu_pon_interface := Some (pon_interface item);
     onu_vendor_name := Some (vendor_name item);
     onu_last_seen := t;
     onu_details := Some (details item);
     onu_details_snmp := None |}.

(** One turn of [for onu_item in onus_from_olt]. *)
Definition upsert (olt : Z) (current_time_wib : Z) (onu_item : onu_item)
  (s : db_session) : db_session :=
  match first_onu olt (identifier onu_item) (working s) with
  | Some _ =>
      set_working s
        (update_first (is_onu olt (identifier onu_item))
           (set_details (details onu_item) current_time_wib) (working s))
  | None =>
      add s (new_onu (next_id (working s)) olt current_time_wib onu_item)
  end.

Fixpoint upsert_all (olt : Z) (clock : nat -> Z) (k : nat)
  (onus_from_olt : list onu_item) (s : db_session) : db_session :=
  match onus_from_olt with
  | [] => s
  | onu_item :: rest =>
      upsert_all olt clock (S k) rest (upsert olt (clock k) onu_item s)
  end.

(** The adapter of the device, run; [None] for a vendor without one. *)
Definition interactive_fetch (e : env) (olt : OLT) (vendor_name : str)
  : option (result fetch_result) :=
  if streq vendor_name (lit "hsgq") then
    if is_epon olt then Some (hsgq_epon_ssh e) else Some (hsgq_ssh e)
  else if streq vendor_name (lit "hioso") then
    Some (fst (HiosoTelnet.get_onus (hioso_telnet e)
                 (olt_username olt) (olt_password olt) HiosoTelnet.fresh))
  else None.

Definition synced_message (synced_count : nat) (olt : OLT) : payload :=
  PMessage (lit "Successfully synced " ++ of_nat synced_count ++
            lit " ONUs for OLT " ++ olt_ip olt).

(** What the job does with the adapter's answer: the lines after the
    dispatch, with the [except] and the [finally]. *)
Definition store_fetched (e : env) (olt : OLT) (vendor : Vendor)
  (s : db_session) (fetched : option (result fetch_result))
  : job_result * database :=
  match fetched with
  | None =>
      (Returned (PError (lit "Sync not implemented for vendor: '" ++
                         v_name vendor ++ lit "'")),
       close s)
  | Some (Raise ex) =>
      (Returned (PError (message ex)), close (rollback s))
  | Some (Ok (FetchError error_msg)) =>
      (Returned (PError error_msg), close s)
  | Some (Ok (FetchOnus onus_from_olt)) =>
      let s := upsert_all (Db.olt_id olt) (now e) 0 onus_from_olt s in
      match commit (commit_fault e) s with
      | (Raise ex, s) =>
          (Returned (PError (message ex)), close (rollback s))
      | (Ok _, s) =>
          (Returned (synced_message (length onus_from_olt) olt), close s)
      end
  end.

Definition run_ssh_telnet_sync (e : env) (db : database) (olt_id : Z)
  : job_result * database :=
  match get_olt db olt_id with
  | None => (Returned (not_found olt_id), db)
  | Some olt =>
      match vendor_of db olt with
      | None => (Raised no_vendor, db)
      | Some vendor =>
          let vendor_name := lower (v_name vendor) in
          store_fetched e olt vendor (begin db)
            (interactive_fetch e olt vendor_name)
      end
  end.

(** *** SNMP sync *)

(** The assignments of the [if db_onu:] branch. *)
Definition set_details_snmp (d : json) (t : Z) (r : Onu) : Onu :=
  {| onu_id := onu_id r; onu_olt_id := onu_olt_id r;
     onu_identifier := onu_identifier r;
     onu_pon_interface := onu_pon_interface r;
     onu_vendor_name := onu_vendor_name r;
     onu_last_seen := t;
     onu_details := onu_details r;
     onu_details_snmp := Some d |}.

(** One turn of [for onu_item in onus_from_snmp]: the session and
    [updated_count]. *)
Definition refresh (olt : Z) (current_time_wib : Z)
  (onu_item : Snmp.snmp_item) (st : db_session * nat) : db_session * nat :=
  let (s, updated_count) := st in
  match first_onu olt (Snmp.snmp_identifier onu_item) (working s) with
  | Some _ =>
      (set_working s
         (update_first (is_onu olt (Snmp.snmp_identifier onu_item))
            (set_details_snmp (Snmp.snmp_details onu_item) current_time_wib)
            (working s)),
       S updated_count)
  | None => (s, updated_count)
  end.

Fixpoint refresh_all (olt : Z) (clock : nat -> Z) (k : nat)
  (onus_from_snmp : list Snmp.snmp_item) (st : db_session * nat)
  : db_session * nat :=
  match onus_from_snmp with
  | [] => st
  | onu_item :: rest =>
      refresh_all olt clock (S k) rest (refresh olt (clock k) onu_item st)
  end.

Inductive snmp_outcome : Type :=
| SnmpUnsupported                       (* no adapter for the vendor *)
| SnmpError (msg : str)                 (* ["error" in onu_data] *)
| SnmpOnus (onus_from_snmp : list Snmp.snmp_item).

(** The two keys the job reads of an EPON record. *)
Definition as_snmp_item (o : onu_item) : Snmp.snmp_item :=
  {| Snmp.snmp_identifier := identifier o; Snmp.snmp_details := details o |}.

Definition updated_message (updated_count : nat) (olt : OLT) : payload :=
  PMessage (lit "Sync complete for OLT " ++ olt_ip olt ++
            lit " via SNMP. Updated " ++ of_nat updated_count ++ lit " ONUs.").

Definition oids_not_found (vendor_name : str) (olt : OLT) : payload :=
  PError (lit "SNMP OIDs not found for vendor: " ++ vendor_name ++
          lit " and model: " ++ str_of_opt (olt_type olt)).

Definition no_onus_found : payload :=
  PMessage (lit "No ONUs found via SNMP or error in communication.").

Section Snmp_job.
Variable float_centi : str -> option str.

(** The catalog the EPON service works with. *)
Definition epon_OIDS (e : env) (db : database) : PyDict.dict str :=
  HsgqEponSnmp._load_oids db (oid_query_fault e).

Definition snmp_fetch (e : env) (db : database) (olt : OLT)
  (vendor_name : str) (oids_dict : PyDict.dict str) : snmp_outcome :=
  if streq vendor_name (lit "hioso") then
    SnmpOnus (HiosoSnmp.get_onus_snmp (snmp_agent e) oids_dict)
  else if streq vendor_name (lit "hsgq") then
    if is_epon olt then
      match HsgqEponSnmp.get_onus float_centi (epon_OIDS e db) (snmp_agent e) with
      | FetchError msg => SnmpError msg
      | FetchOnus onus => SnmpOnus (map as_snmp_item onus)
      end
    else SnmpOnus (HsgqSnmp.get_onus_snmp (snmp_agent e) oids_dict)
  else SnmpUnsupported.

(** What the job does with the adapter's answer. *)
Definition store_refreshed (e : env) (olt : OLT) (vendor_name : str)
  (s : db_session) (fetched : snmp_outcome) : job_result * database :=
  match fetched with
  | SnmpUnsupported =>
      (Returned (PError (lit "SNMP sync not implemented for vendor: '"
                         ++ vendor_name ++ lit "'")),
       close s)
  | SnmpError msg => (Returned (PError msg), close s)
  | SnmpOnus [] => (Returned no_onus_found, close s)
  | SnmpOnus onus_from_snmp =>
      let (s, updated_count) :=
        refresh_all (Db.olt_id olt) (now e) 0 onus_from_snmp (s, 0) in
      match commit (commit_fault e) s with
      | (Raise ex, s) =>
          (Returned (PError (message ex)), close (rollback s))
      | (Ok _, s) =>
          (Returned (updated_message updated_count olt), close s)
      end
  end.

Definition run_snmp_sync (e : env) (db : database) (olt_id : Z)
  : job_result * database :=
  match get_olt db olt_id with
  | None => (Returned (not_found olt_id), db)
  | Some olt =>
      match vendor_of db olt with
      | None => (Raised no_vendor, db)
      | Some vendor =>
          let vendor_name := lower (v_name vendor) in
          let s := begin db in
          let db_oids := oids_of_olt db olt in
          match db_oids, is_epon olt with
          | [], false => (Returned (oids_not_found vendor_name olt), close s)
          | _, _ =>
              store_refreshed e olt vendor_name s
                (snmp_fetch e db olt vendor_name (Db.oids_dict db_oids))
          end
      end
  end.
End Snmp_job.

End Tasks.

(** ** The periodic jobs ([tasks.py]) *)

Module Periodic.
Import Db Tasks.

(** [models.Subscription] *)
Record Subscription : Type := MkSubscription {
  sub_id : Z;
  sub_tenant_id : Z;
  sub_stripe_subscription_id : str;
  sub_plan_name : str;
  sub_status : str;
  sub_max_olts : option Z;
  sub_max_onus : option Z;
  sub_current_period_end : Z          (* a [DateTime], as seconds *)
}.

(** The filter of [check_expired_subscriptions]:
    [current_period_end < now, status == 'active']. *)
Definition is_expired (now : Z) (s : Subscription) : bool :=
  (sub_current_period_end s <? now)%Z && streq (sub_status s) (lit "active").

(** [sub.status = 'expired'] *)
Definition expire (s : Subscription) : Subscription :=
  {| sub_id := sub_id s; sub_tenant_id := sub_tenant_id s;
     sub_stripe_subscription_id := sub_stripe_subscription_id s;
     sub_plan_name := sub_plan_name s;
     sub_status := lit "expired";
     sub_max_olts := sub_max_olts s; sub_max_onus := sub_max_onus s;
     sub_current_period_end := sub_current_period_end s |}.

(** [check_expired_subscriptions]: the rows the query returned are the
    rows of the table, so the assignment in the loop changes each of them
    where it stands.  [now] is [datetime.utcnow()], [commit_fault] the
    exception [db.commit()] raises, if any. *)
Definition check_expired_subscriptions (now : Z) (commit_fault : option exn)
  (subscriptions : list Subscription) : payload * list Subscription :=
  let expired_subscriptions := filter (is_expired now) subscriptions in
  match expired_subscriptions with
  | [] => (PMessage (lit "No expired subscriptions found."), subscriptions)
  | _ =>
      match commit_fault with
      | Some e => (PError (message e), subscriptions)
      | None =>
          (PMessage (lit "Deactivated " ++
                     of_nat (length expired_subscriptions) ++
                     lit " expired subscriptions."),
           map (fun sub => if is_expired now sub then expire sub else sub)
             subscriptions)
      end
  end.

(** The columns of [models.OLT] the status check works on, beside those
    the sync jobs read. *)
Record OltRow : Type := MkOltRow {
  olt_row : OLT;
  olt_name : str;
  olt_status : option str;
  olt_last_checked : option Z
}.

(** How [subprocess.run(['ping', ...], timeout=15)] ends. *)
Inductive ping_result : Type :=
| PingExit (returncode : Z)
| PingTimeoutExpired
| PingException.

(** ["online"] when the return code is 0, ["offline"] otherwise and when
    the command timed out or raised. *)
Definition ping_status (r : ping_result) : str :=
  match r with
  | PingExit 0 => lit "online"
  | _ => lit "offline"
  end.

(** One turn of [for olt in olts]. *)
Definition check_one (ping : str -> ping_result) (utcnow : Z) (olt : OltRow)
  : OltRow :=
  let status := ping_status (ping (olt_ip (olt_row olt))) in
  {| olt_row := olt_row olt;
     olt_name := olt_name olt;
     olt_status :=
       if negb (opt_eqb streq (olt_status olt) (Some status))
       then Some status else olt_status olt;
     olt_last_checked := Some utcnow |}.

Fixpoint check_each (ping : str -> ping_result) (clock : nat -> Z) (k : nat)
  (olts : list OltRow) : list OltRow :=
  match olts with
  | [] => []
  | olt :: rest =>
      check_one ping (clock k) olt :: check_each ping clock (S k) rest
  end.

(** [check_all_olts_status] *)
Definition check_all_olts_status (ping : str -> ping_result)
  (clock : nat -> Z) (commit_fault : option exn) (olts : list OltRow)
  : payload * list OltRow :=
  let checked := check_each ping clock 0 olts in
  match commit_fault with
  | Some e => (PError (message e), olts)
  | None =>
      (PMessage (lit "Checked " ++ of_nat (length olts) ++ lit " OLTs."),
       checked)
  end.

(** What [.delay(olt.id)] puts on the queue. *)
Inductive queued : Type :=
| QueuedSshTelnetSync (olt_id : Z)
| QueuedSnmpSync (olt_id : Z).

Definition is_online (olt : OltRow) : bool :=
  opt_eqb streq (olt_status olt) (Some (lit "online")).

(** The loop of [sync_all_olts_data]; [delay_fault n] is the exception
    the n-th [.delay()] of the run raises, if any. *)
Fixpoint queue_each (delay_fault : nat -> option exn) (olts : list OltRow)
  (n : nat) (queue : list queued) : result unit * list queued :=
  match olts with
  | [] => (Ok tt, queue)
  | olt :: rest =>
      match delay_fault n with
      | Some e => (Raise e, queue)
      | None =>
          let queue := queue ++ [QueuedSshTelnetSync (olt_id (olt_row olt))] in
          match delay_fault (S n) with
          | Some e => (Raise e, queue)
          | None =>
              queue_each delay_fault rest (S (S n))
                (queue ++ [QueuedSnmpSync (olt_id (olt_row olt))])
          end
      end
  end.

(** [sync_all_olts_data] *)
Definition sync_all_olts_data (delay_fault : nat -> option exn)
  (all_olts : list OltRow) (queue : list queued) : payload * list queued :=
  let olts := filter is_online all_olts in
  match olts with
  | [] => (PMessage (lit "No online OLTs found to sync."), queue)
  | _ =>
      match queue_each delay_fault olts 0 queue with
      | (Ok _, queue) =>
          (PMessage (lit "Queued data sync for " ++ of_nat (length olts) ++
                     lit " OLTs."),
           queue)
      | (Raise e, queue) => (PError (message e), queue)
      end
  end.

End Periodic.

(** ** Vocabulary of the properties *)

Module Props.
Import Db.

(** Two rows that differ at most in the SNMP detail map and the
    timestamp. *)
Definition same_but_snmp (r r' : Onu) : Prop :=
  onu_id r = onu_id r' /\
  onu_olt_id r = onu_olt_id r' /\
  onu_identifier r = onu_identifier r' /\
  onu_pon_interface r = onu_pon_interface r' /\
  onu_vendor_name r = onu_vendor_name r' /\
  onu_details r = onu_details r'.

(** A row with its timestamp blanked: what "timestamp excepted"
    compares. *)
Definition forget_time (r : Onu) : Onu :=
  {| onu_id := onu_id r; onu_olt_id := onu_olt_id r;
     onu_identifier := onu_identifier r;
     onu_pon_interface := onu_pon_interface r;
     onu_vendor_name := onu_vendor_name r;
     onu_last_seen := 0;
     onu_details := onu_details r;
     onu_details_snmp := onu_details_snmp r |}.

(** How many of the fetched records have a stored row of the device. *)
Definition stored_count (olt : Z) (items : list Snmp.snmp_item)
  (rows : list Onu) : nat :=
  length
    (filter (fun it => existsb (is_onu olt (Snmp.snmp_identifier it)) rows)
       items).

(** A Hioso device that lets the adapter in: the connection opens and
    every prompt of the login and of the two menu commands arrives. *)
Definition lets_in (d : HiosoTelnet.device) : Prop :=
  HiosoTelnet.open_connection d = None /\
  forall prompt, HiosoTelnet.menu d prompt = HiosoTelnet.Seen.

(** Every write of the session is accepted: none meets a reset
    connection. *)
Definition accepts_writes (d : HiosoTelnet.device) : Prop :=
  forall n, HiosoTelnet.write_fault d n = None.

(** The session after some more writes. *)
Definition after_writes (st : HiosoTelnet.session) (data : list str)
  : HiosoTelnet.session :=
  {| HiosoTelnet.sent := HiosoTelnet.sent st ++ data;
     HiosoTelnet.writer := HiosoTelnet.writer st |}.

(** What the adapter reads in the submenu of port [i] after
    [show onu all]. *)
Definition listed (d : HiosoTelnet.device) (i : nat) : result str :=
  fst (HiosoTelnet.read_loop d (HiosoTelnet.pon_prompt i)
         (HiosoTelnet.listing (HiosoTelnet.port d i)) [] HiosoTelnet.fresh).

(** What leaving a skipped port gives. *)
Definition skip_outcome (d : HiosoTelnet.device) (i : nat)
  (acc : list onu_item) : result (list onu_item) :=
  match HiosoTelnet.back_after_skip (HiosoTelnet.port d i) with
  | HiosoTelnet.Seen => Ok acc
  | HiosoTelnet.TimedOut => Raise (Exn KTimeout [])
  | HiosoTelnet.Broken e => Raise e
  end.

(** What one port adds to the records gathered so far, read off the
    script of the device: the session left aside. *)
Definition port_outcome (d : HiosoTelnet.device) (i : nat)
  (acc : list onu_item) : result (list onu_item) :=
  match HiosoTelnet.enter (HiosoTelnet.port d i) with
  | HiosoTelnet.Seen =>
      match listed d i with
      | Ok out =>
          match HiosoTelnet.back (HiosoTelnet.port d i) with
          | HiosoTelnet.Seen => Ok (acc ++ HiosoParser._parse_onus out)
          | HiosoTelnet.TimedOut =>
              Raise (Exn KTimeout
                       (lit "Timeout waiting for prompt: " ++ lit "EPON(epon)#"))
          | HiosoTelnet.Broken e => Raise e
          end
      | Raise e => Raise e
      end
  | HiosoTelnet.TimedOut => skip_outcome d i acc
  | HiosoTelnet.Broken e =>
      if is_timeout e then skip_outcome d i acc else Raise e
  end.

(** An interface locator of port [1/i]. *)
Definition on_port (i : nat) (locator : str) : Prop :=
  starts_with (lit "1/" ++ of_nat i ++ lit ":") locator = true.

(** A numeric component of an OID: a non-empty string of digits. *)
Definition is_number (c : str) : Prop :=
  c <> [] /\ Forall (fun x => is_digit x = true) c.

(** [str(oid)] for an OID with the given components. *)
Definition oid_of (components : list str) : str := join (lit ".") components.

(** The OID ends in [.n.0.0] or [.n.65535.65535]. *)
Definition ends_in_sentinel (components : list str) (n : str) : Prop :=
  exists before,
    components = before ++ [n; lit "0"; lit "0"] \/
    components = before ++ [n; lit "65535"; lit "65535"].

(** A string that lower-casing leaves as it is. *)
Definition case_normalized (s : str) : Prop := lower s = s.

(** No row before [r] in the table passes the filter [p]. *)
Definition first_at (p : Onu -> bool) (before : list Onu) : Prop :=
  Forall (fun x => p x = false) before.

(** The text accumulated at each page break of a listing that arrives in
    [pages], after [acc]. *)
Fixpoint page_breaks (acc : str) (pages : list str) : list str :=
  match pages with
  | [] => []
  | p :: ps => (acc ++ p) :: page_breaks (acc ++ p) ps
  end.

(** No match of [r] starts inside [b] when [t] follows it. *)
Fixpoint no_match_inside (r : re) (b t : str) : bool :=
  match b with
  | [] => true
  | _ :: b' =>
      match match_at r (b ++ t) with
      | Some _ => false
      | None => no_match_inside r b' t
      end
  end.

(** A Hioso listing that arrives in pages, every page but the last one
    closed by the marker [M]. *)
Definition hioso_paged (M : str) (pages : list str) (last_page : str)
  : list HiosoTelnet.read_event :=
  map (fun p => HiosoTelnet.Chunk (p ++ M)) pages ++
  [HiosoTelnet.Chunk last_page].

(** The characters an HSGQ EPON shell sends for the same listing. *)
Definition epon_paged (pages : list str) (last_page : str)
  : list HsgqEponSsh.tick :=
  map HsgqEponSsh.Got
    (concat (map (fun p => p ++ HsgqEponSsh.more) pages) ++ last_page).

(** Neither [--More--] nor one of the prompts occurs in [s]. *)
Definition quiet (prompts : list str) (s : str) : bool :=
  negb (contains HsgqEponSsh.more s) &&
  negb (existsb (fun p => contains p s) prompts).

(** Two rows that differ at most in the primary detail map and the
    timestamp. *)
Definition same_but_details (r r' : Onu) : Prop :=
  onu_id r = onu_id r' /\
  onu_olt_id r = onu_olt_id r' /\
  onu_identifier r = onu_identifier r' /\
  onu_pon_interface r = onu_pon_interface r' /\
  onu_vendor_name r = onu_vendor_name r' /\
  onu_details_snmp r = onu_details_snmp r'.

(** The key the jobs look a row up by. *)
Definition onu_key (r : Onu) : Z * str := (onu_olt_id r, onu_identifier r).

(** The records the interactive adapter of the device hands to the job:
    none without device, vendor, adapter or record list. *)
Definition fetched_interactively (e : Tasks.env) (db : database) (olt_id : Z)
  : list onu_item :=
  match get_olt db olt_id with
  | Some olt =>
      match vendor_of db olt with
      | Some vendor =>
          match Tasks.interactive_fetch e olt (lower (v_name vendor)) with
          | Some (Ok (FetchOnus items)) => items
          | _ => []
          end
      | None => []
      end
  | None => []
  end.

(** The records the SNMP adapter of the device hands to the job. *)
Definition fetched_by_snmp (float_centi : str -> option str) (e : Tasks.env)
  (db : database) (olt_id : Z) : list Snmp.snmp_item :=
  match get_olt db olt_id with
  | Some olt =>
      match vendor_of db olt with
      | Some vendor =>
          match oids_of_olt db olt, Tasks.is_epon olt with
          | [], false => []
          | db_oids, _ =>
              match Tasks.snmp_fetch float_centi e db olt
                      (lower (v_name vendor)) (oids_dict db_oids) with
              | Tasks.SnmpOnus items => items
              | _ => []
              end
          end
      | None => []
      end
  | None => []
  end.

(** [onus_by_index[index][field]], where both keys are present. *)
Definition cell (onus_by_index : PyDict.dict (PyDict.dict str))
  (index field : str) : option str :=
  match PyDict.get index onus_by_index with
  | Some row => PyDict.get field row
  | None => None
  end.

(** What the walk of a field of the catalog recorded for an index. *)
Definition walked (index_of : str -> option str) (a : Snmp.agent)
  (oids : PyDict.dict str) (field index : str) : option str :=
  match PyDict.get field oids with
  | Some oid => PyDict.get index (Snmp.walk index_of (a oid) [])
  | None => None
  end.

(** Every string the Hioso adapter may hand to the writer. *)
Definition hioso_vocabulary (username password : str) : list str :=
  [username ++ [LF]; password ++ [LF]; [LF]; lit "enable" ++ [LF];
   lit "configure terminal" ++ [LF]; lit "epon" ++ [LF];
   lit "pon 1/1" ++ [LF]; lit "pon 1/2" ++ [LF];
   lit "show onu all" ++ [LF]; lit " "; lit "exit" ++ [LF]].

(** The way into the first port submenu: the prompts the Hioso adapter
    waits for, each with what it writes once the prompt is there. *)
Definition hioso_script (username password : str) : list (str * str) :=
  [(lit "login:", username ++ [LF]);
   (lit "Password:", password ++ [LF]);
   (lit "Revision:", [LF]);
   (lit "Access Password:", password ++ [LF]);
   (lit "EPON>", lit "enable" ++ [LF]);
   (lit "Enable Password:", password ++ [LF]);
   (lit "EPON#", lit "configure terminal" ++ [LF]);
   (lit "EPON(config)#", lit "epon" ++ [LF]);
   (lit "EPON(epon)#", lit "pon 1/1" ++ [LF])].

(** A computation on a session that hands to the writer only strings
    of [P]. *)
Definition only_sends (P : str -> Prop) (A : Type) (m : HiosoTelnet.M A)
  : Prop :=
  forall st,
    Forall P (HiosoTelnet.sent st) ->
    Forall P (HiosoTelnet.sent (snd (m st))).

(** A non-empty string of characters of the class [p]. *)
Definition is_token (p : ascii -> bool) (s : str) : Prop :=
  s <> [] /\ Forall (fun c => p c = true) s.

(** Free text on one line: no control character, and no blank at either
    end. *)
Definition is_remark (s : str) : Prop :=
  s <> [] /\ Forall (fun c => is_control c = false) s /\
  is_space (hd " "%char s) = false /\ is_space (last s " "%char) = false.

(** A line of [show onu all] with its ten columns one blank apart. *)
Definition hioso_line
  (slot port onu mac status ports chip version flags auth distance time : str)
  : str :=
  slot ++ lit "/" ++ port ++ lit ":" ++ onu ++ lit " " ++ mac ++ lit " " ++
  status ++ lit " " ++ ports ++ lit " " ++ chip ++ lit " " ++ version ++
  lit " " ++ flags ++ lit " " ++ auth ++ lit " " ++ distance ++ lit " " ++
  time.

(** What follows a column does not begin with a character of the
    column's class. *)
Definition starts_outside (p : ascii -> bool) (s : str) : Prop :=
  match s with c :: _ => p c = false | [] => True end.

(** A relational reading of the patterns: [matches r m rest caps caps']
    says that [r] can match the text [m] in front of [rest], and that the
    groups [caps] become [caps'] on the way. *)
Inductive matches : re -> str -> str -> captures -> captures -> Prop :=
| M_Eps rest caps : matches Eps [] rest caps caps
| M_Cls p c rest caps : p c = true -> matches (Cls p) [c] rest caps caps
| M_Star p m rest caps :
    Forall (fun c => p c = true) m -> matches (Star p) m rest caps caps
| M_Plus p m rest caps : is_token p m -> matches (Plus p) m rest caps caps
| M_Seq a b m1 m2 rest c0 c1 c2 :
    matches a m1 (m2 ++ rest) c0 c1 -> matches b m2 rest c1 c2 ->
    matches (Seq a b) (m1 ++ m2) rest c0 c2
| M_Alt_l a b m rest c0 c1 :
    matches a m rest c0 c1 -> matches (Alt a b) m rest c0 c1
| M_Alt_r a b m rest c0 c1 :
    matches b m rest c0 c1 -> matches (Alt a b) m rest c0 c1
| M_Grp i r m rest c0 c1 :
    matches r m rest c0 c1 -> matches (Grp i r) m rest c0 ((i, m) :: c1)
| M_Eos rest caps :
    rest = [] \/ rest = [LF] -> matches Eos [] rest caps caps.

(** A table as a device prints it: a heading, the rows one to a line, and
    what follows the last row. *)
Definition listing (head : str) (rows : list str) (foot : str) : str :=
  head ++ concat (map (fun row => row ++ [LF]) rows) ++ foot.

Definition no_digit (s : str) : Prop :=
  Forall (fun c => is_digit c = false) s.

(** [n] digits. *)
Definition has_digits (n : nat) (s : str) : Prop :=
  length s = n /\ Forall (fun c => is_digit c = true) s.

(** [2024/01/31] and [23:59:07]. *)
Definition is_date (s : str) : Prop :=
  exists y m d,
    s = y ++ lit "/" ++ m ++ lit "/" ++ d /\
    has_digits 4 y /\ has_digits 2 m /\ has_digits 2 d.

Definition is_clock (s : str) : Prop :=
  exists h m sec,
    s = h ++ lit ":" ++ m ++ lit ":" ++ sec /\
    has_digits 2 h /\ has_digits 2 m /\ has_digits 2 sec.

(** A row of [show onu-info all]; [e_gap i] is the blank space after the
    [i]-th column. *)
Record epon_onu : Type := EponOnu {
  e_pon : str;
  e_onu : str;
  e_mac : str;
  e_status : str;
  e_auth : str;
  e_cfg : str;
  e_date : str;
  e_clock : str;
  e_name : str;
  e_desc : str;
  e_gap : nat -> str
}.

Definition epon_row (o : epon_onu) : str :=
  e_pon o ++ lit "/" ++ e_onu o ++ e_gap o 1 ++ e_mac o ++ e_gap o 2 ++
  e_status o ++ e_gap o 3 ++ e_auth o ++ e_gap o 4 ++ e_cfg o ++ e_gap o 5 ++
  e_date o ++ e_gap o 6 ++ e_clock o ++ e_gap o 7 ++ e_name o ++ e_gap o 8 ++
  e_desc o.

Definition epon_row_ok (o : epon_onu) : Prop :=
  is_token is_digit (e_pon o) /\ is_token is_digit (e_onu o) /\
  length (e_mac o) = 17 /\
  Forall (fun c => HsgqEponSshParser.is_mac_char c = true) (e_mac o) /\
  (e_status o = lit "Online" \/ e_status o = lit "Offline") /\
  (e_auth o = lit "TRUE" \/ e_auth o = lit "FALSE") /\
  (e_cfg o = lit "TRUE" \/ e_cfg o = lit "FALSE") /\
  is_date (e_date o) /\ is_clock (e_clock o) /\
  is_token is_nonspace (e_name o) /\ is_token is_nonspace (e_desc o) /\
  forall i, is_token is_space (e_gap o i).

Definition epon_record (o : epon_onu) : onu_item :=
  {| identifier := lower (e_mac o);
     pon_interface := e_pon o ++ lit "/" ++ e_onu o;
     vendor_name := lit "hsgq";
     details :=
       JObj [(lit "pon_interface", JStr (e_pon o ++ lit "/" ++ e_onu o));
             (lit "mac_address", JStr (lower (e_mac o)));
             (lit "status", JStr (e_status o));
             (lit "auth", JStr (e_auth o));
             (lit "cfg", JStr (e_cfg o));
             (lit "reg_time", JStr (e_date o ++ e_gap o 6 ++ e_clock o));
             (lit "onu_name", JStr (e_name o));
             (lit "onu_desc", JStr (e_desc o))] |}.

(** A row of [show ont-optical all]; [g_gap i] is the [i]-th blank space
    of the row. *)
Record gpon_ont : Type := GponOnt {
  g_pon : str;
  g_onu : str;
  g_sn : str;
  g_temp : str;
  g_voltage : str;
  g_bias : str;
  g_tx : str;
  g_rx : str;
  g_name : str;
  g_gap : nat -> str
}.

Definition gpon_row (o : gpon_ont) : str :=
  g_pon o ++ lit "/" ++ g_onu o ++ g_gap o 1 ++ g_sn o ++ g_gap o 2 ++
  g_temp o ++ g_gap o 3 ++ lit "C" ++ g_gap o 4 ++
  g_voltage o ++ g_gap o 5 ++ lit "V" ++ g_gap o 6 ++
  g_bias o ++ g_gap o 7 ++ lit "mA" ++ g_gap o 8 ++
  g_tx o ++ g_gap o 9 ++ lit "dBm" ++ g_gap o 10 ++
  g_rx o ++ g_gap o 11 ++ lit "dBm" ++ g_gap o 12 ++ g_name o.

Definition gpon_row_ok (o : gpon_ont) : Prop :=
  is_token is_digit (g_pon o) /\ is_token is_digit (g_onu o) /\
  is_token is_nonspace (g_sn o) /\ is_token is_digit (g_temp o) /\
  is_token HsgqSsh.is_number_char (g_voltage o) /\
  is_token HsgqSsh.is_number_char (g_bias o) /\
  is_token HsgqSsh.is_power_char (g_tx o) /\
  is_token HsgqSsh.is_power_char (g_rx o) /\
  is_token HsgqSsh.is_name_char (g_name o) /\
  forall i, is_token is_space (g_gap o i).

Definition gpon_record (o : gpon_ont) : onu_item :=
  {| identifier := g_sn o;
     pon_interface := g_pon o ++ lit "/" ++ g_onu o;
     vendor_name := lit "hsgq";
     details :=
       JObj [(lit "pon_onu", JStr (g_pon o ++ lit "/" ++ g_onu o));
             (lit "ont_sn", JStr (g_sn o));
             (lit "temp", JStr (g_temp o ++ lit " C"));
             (lit "voltage", JStr (g_voltage o ++ lit " V"));
             (lit "bias", JStr (g_bias o ++ lit " mA"));
             (lit "tx_power", JStr (g_tx o ++ lit " dBm"));
             (lit "rx_power", JStr (g_rx o ++ lit " dBm"));
             (lit "ont_name", JStr (g_name o))] |}.

End Props.

(** ** Concrete devices, tables and transcripts *)

Module Examples.
Import Db Tasks.

Definition quiet_device : HiosoTelnet.device :=
  {| HiosoTelnet.open_connection := None;
     HiosoTelnet.menu := fun _ => HiosoTelnet.Seen;
     HiosoTelnet.port := fun _ =>
       HiosoTelnet.PortScript HiosoTelnet.Seen HiosoTelnet.Seen []
         HiosoTelnet.Seen;
     HiosoTelnet.write_fault := fun _ => None;
     HiosoTelnet.connection_lost := fun _ => false |}.

(** A listing line as the Hioso shell prints it, for a given ONU id and
    MAC address. *)
Definition onu_line (onu_id mac : string) : str :=
  lit onu_id ++ lit " " ++ lit mac ++
  lit " Up 1 0x0 0x4853 0 Undef 120 22 hours 2 minites 15 seconds" ++ [CR; LF].

(** Port 1/1 does not answer, port 1/2 lists one ONU. *)
Definition one_port_device : HiosoTelnet.device :=
  {| HiosoTelnet.open_connection := None;
     HiosoTelnet.menu := fun _ => HiosoTelnet.Seen;
     HiosoTelnet.port := fun i =>
       match i with
       | 1 => HiosoTelnet.PortScript HiosoTelnet.TimedOut HiosoTelnet.Seen []
                HiosoTelnet.Seen
       | _ => HiosoTelnet.PortScript HiosoTelnet.Seen HiosoTelnet.Seen
                [HiosoTelnet.Chunk
                   (onu_line "1/2:1" "98c7a4.5e30c9" ++ lit "EPON(epon-pon-1/2)#")]
                HiosoTelnet.Seen
       end;
     HiosoTelnet.write_fault := fun _ => None;
     HiosoTelnet.connection_lost := fun _ => false |}.

(** Port 1/1 lists two ONUs on two pages, port 1/2 lists one. *)
Definition two_port_device : HiosoTelnet.device :=
  {| HiosoTelnet.open_connection := None;
     HiosoTelnet.menu := fun _ => HiosoTelnet.Seen;
     HiosoTelnet.port := fun i =>
       match i with
       | 1 => HiosoTelnet.PortScript HiosoTelnet.Seen HiosoTelnet.Seen
                [HiosoTelnet.Chunk
                   (onu_line "1/1:1" "98c7a4.5e30b8" ++ lit "---- More ----");
                 HiosoTelnet.Chunk
                   (onu_line "1/1:2" "98c7a4.5e30b9" ++ lit "EPON(epon-pon-1/1)#")]
                HiosoTelnet.Seen
       | _ => HiosoTelnet.PortScript HiosoTelnet.Seen HiosoTelnet.Seen
                [HiosoTelnet.Chunk
                   (onu_line "1/2:1" "98c7a4.5e30c9" ++ lit "EPON(epon-pon-1/2)#")]
                HiosoTelnet.Seen
       end;
     HiosoTelnet.write_fault := fun _ => None;
     HiosoTelnet.connection_lost := fun _ => false |}.

(** A device that lists under port 1/1 an ONU it numbers 1/3:5. *)
Definition misfiling_device : HiosoTelnet.device :=
  {| HiosoTelnet.open_connection := None;
     HiosoTelnet.menu := fun _ => HiosoTelnet.Seen;
     HiosoTelnet.port := fun i =>
       match i with
       | 1 => HiosoTelnet.PortScript HiosoTelnet.Seen HiosoTelnet.Seen
                [HiosoTelnet.Chunk
                   (onu_line "1/3:5" "98c7a4.5e30c9" ++ lit "EPON(epon-pon-1/1)#")]
                HiosoTelnet.Seen
       | _ => HiosoTelnet.PortScript HiosoTelnet.Seen HiosoTelnet.Seen []
                HiosoTelnet.Seen
       end;
     HiosoTelnet.write_fault := fun _ => None;
     HiosoTelnet.connection_lost := fun _ => false |}.

Definition connection_reset : exn :=
  Exn (KOther (lit "ConnectionResetError")) (lit "Connection lost").

(** A device that answers everything and whose connection drops as the
    logout command is written (the fifteenth write of the session). *)
Definition reset_at_logout : HiosoTelnet.device :=
  {| HiosoTelnet.open_connection := None;
     HiosoTelnet.menu := fun _ => HiosoTelnet.Seen;
     HiosoTelnet.port := fun _ =>
       HiosoTelnet.PortScript HiosoTelnet.Seen HiosoTelnet.Seen []
         HiosoTelnet.Seen;
     HiosoTelnet.write_fault := fun n =>
       if Nat.eqb n 14 then Some connection_reset else None;
     HiosoTelnet.connection_lost := fun _ => true |}.

(** A device that closes the connection instead of asking for the
    password. *)
Definition end_of_stream : exn :=
  Exn (KOther (lit "IncompleteReadError"))
    (lit "0 bytes read on a total of undefined expected bytes").

Definition hangs_up_at_password : HiosoTelnet.device :=
  {| HiosoTelnet.open_connection := None;
     HiosoTelnet.menu := fun prompt =>
       if streq prompt (lit "login:") then HiosoTelnet.Seen
       else HiosoTelnet.Broken end_of_stream;
     HiosoTelnet.port := fun _ =>
       HiosoTelnet.PortScript HiosoTelnet.Seen HiosoTelnet.Seen []
         HiosoTelnet.Seen;
     HiosoTelnet.write_fault := fun _ => None;
     HiosoTelnet.connection_lost := fun _ => true |}.

(** An agent that knows three ONUs by MAC address: one written with
    [0x], one with colons and capitals, one whose value is no MAC. *)
Definition mac_agent : Snmp.agent := fun oid =>
  if streq oid (lit "1.3.6.1.4.1.50224.3.3.2.1.7") then
    [Snmp.VarBinds
       [(oid ++ lit ".16777473", lit "0x98c7a45e30b8");
        (oid ++ lit ".16777474", lit "98:C7:A4:5E:30:B9")];
     Snmp.VarBinds [(oid ++ lit ".16777475", lit "n/a")]]
  else [].

Definition silent_agent : Snmp.agent := fun _ => [].

(** A stand-in for the float conversion where no power reading occurs. *)
Definition no_float : str -> option str := fun _ => None.

Definition two_vendors : list Vendor :=
  [MkVendor 1 (lit "hsgq"); MkVendor 2 (lit "hioso")].

Definition gpon_olt : OLT :=
  MkOLT 10 (lit "10.0.0.1") (lit "admin") (lit "secret")
    (Some (lit "gpon")) (Some 1%Z).

Definition epon_olt : OLT :=
  MkOLT 11 (lit "10.0.0.2") (lit "admin") (lit "secret")
    (Some (lit "epon")) (Some 1%Z).

(** A store with two HSGQ devices, no OID rows and no ONU yet. *)
Definition empty_store : database :=
  {| vendors := two_vendors; olts := [gpon_olt; epon_olt];
     oids := []; onus := [] |}.

(** A fetch in which one serial number is listed twice. *)
Definition gpon_fetch : list onu_item :=
  [OnuItem (lit "HWTC1234") (lit "1/1") (lit "hsgq") (JStr (lit "first"));
   OnuItem (lit "HWTC5678") (lit "1/2") (lit "hsgq") (JStr (lit "other"));
   OnuItem (lit "HWTC1234") (lit "1/3") (lit "hsgq") (JStr (lit "second"))].

(** A fetch that lists every serial number once: one ONU the store may
    already hold and one it does not. *)
Definition gpon_fetch_once : list onu_item :=
  [OnuItem (lit "HWTC1234") (lit "1/3") (lit "hsgq") (JStr (lit "fresh"));
   OnuItem (lit "HWTC5678") (lit "1/2") (lit "hsgq") (JStr (lit "other"))].

Definition gpon_env_once (clock : nat -> Z) : env :=
  {| now := clock;
     hioso_telnet := quiet_device;
     hsgq_ssh := Ok (FetchOnus gpon_fetch_once);
     hsgq_epon_ssh := Ok (FetchOnus []);
     snmp_agent := silent_agent;
     oid_query_fault := false;
     commit_fault := None |}.

Definition gpon_env (clock : nat -> Z) : env :=
  {| now := clock;
     hioso_telnet := quiet_device;
     hsgq_ssh := Ok (FetchOnus gpon_fetch);
     hsgq_epon_ssh := Ok (FetchOnus []);
     snmp_agent := silent_agent;
     oid_query_fault := false;
     commit_fault := None |}.

(** Two listing pages and the page that ends with the prompt. *)
Definition first_page : str := onu_line "1/1:1" "98c7a4.5e30b8".
Definition second_page : str := onu_line "1/1:2" "98c7a4.5e30b9".
Definition closing_page : str :=
  onu_line "1/1:3" "98c7a4.5e30ba" ++ lit "EPON(epon-pon-1/1)#".

Definition epon_closing_body : str :=
  onu_line "1/1:3" "98c7a4.5e30ba" ++ lit "MSNet_Fiber(config)".

(** A store that already holds two ONUs of the GPON device, one of
    them no longer reported, and one ONU of the EPON device. *)
Definition stocked_store : database :=
  {| vendors := two_vendors; olts := [gpon_olt; epon_olt]; oids := [];
     onus :=
       [{| onu_id := 1; onu_olt_id := 10; onu_identifier := lit "HWTC1234";
           onu_pon_interface := Some (lit "1/1");
           onu_vendor_name := Some (lit "hsgq"); onu_last_seen := 5;
           onu_details := Some (JStr (lit "old"));
           onu_details_snmp := None |};
        {| onu_id := 2; onu_olt_id := 10; onu_identifier := lit "HWTC9999";
           onu_pon_interface := Some (lit "1/4");
           onu_vendor_name := Some (lit "hsgq"); onu_last_seen := 5;
           onu_details := Some (JStr (lit "gone"));
           onu_details_snmp := None |};
        {| onu_id := 3; onu_olt_id := 11;
           onu_identifier := lit "98:c7:a4:5e:30:b8";
           onu_pon_interface := Some (lit "N/A");
           onu_vendor_name := Some (lit "hsgq"); onu_last_seen := 5;
           onu_details := Some (JStr (lit "epon"));
           onu_details_snmp := None |}] |}.

(** What the EPON shell lists for the two ONUs [mac_agent] knows. *)
Definition epon_fetch : list onu_item :=
  [OnuItem (lit "98:c7:a4:5e:30:b8") (lit "0/1") (lit "hsgq")
     (JStr (lit "first"));
   OnuItem (lit "98:c7:a4:5e:30:b9") (lit "0/2") (lit "hsgq")
     (JStr (lit "second"))].

(** The surroundings of a sync of the EPON device against that shell and
    against [mac_agent]. *)
Definition mac_env : env :=
  {| now := Z.of_nat;
     hioso_telnet := quiet_device;
     hsgq_ssh := Ok (FetchOnus gpon_fetch);
     hsgq_epon_ssh := Ok (FetchOnus epon_fetch);
     snmp_agent := mac_agent;
     oid_query_fault := false;
     commit_fault := None |}.

(** An agent whose walk of the MAC column fails after the first
    response. *)
Definition failing_agent : Snmp.agent := fun oid =>
  if streq oid (lit "1.3.6.1.4.1.50224.3.3.2.1.7") then
    [Snmp.VarBinds [(oid ++ lit ".1", lit "0x98c7a45e30b8")];
     Snmp.WalkError;
     Snmp.VarBinds [(oid ++ lit ".2", lit "0x98c7a45e30b9")]]
  else [].

(** A device that never shows [Password:]. *)
Definition stuck_at_password : HiosoTelnet.device :=
  {| HiosoTelnet.open_connection := None;
     HiosoTelnet.menu := fun prompt =>
       if streq prompt (lit "Password:") then HiosoTelnet.TimedOut
       else HiosoTelnet.Seen;
     HiosoTelnet.port := fun _ =>
       HiosoTelnet.PortScript HiosoTelnet.Seen HiosoTelnet.Seen []
         HiosoTelnet.Seen;
     HiosoTelnet.write_fault := fun _ => None;
     HiosoTelnet.connection_lost := fun _ => false |}.

(** A device that refuses the connection. *)
Definition unreachable_device : HiosoTelnet.device :=
  {| HiosoTelnet.open_connection :=
       Some (Exn (KOther (lit "ConnectionRefusedError"))
               (lit "[Errno 111] Connect call failed"));
     HiosoTelnet.menu := fun _ => HiosoTelnet.Seen;
     HiosoTelnet.port := fun _ =>
       HiosoTelnet.PortScript HiosoTelnet.Seen HiosoTelnet.Seen []
         HiosoTelnet.Seen;
     HiosoTelnet.write_fault := fun _ => None;
     HiosoTelnet.connection_lost := fun _ => false |}.

Import Props.

(** Two rows of [show onu-info all], and the transcript of the command
    with a pagination marker between them. *)
Definition epon_onu_a : epon_onu :=
  {| e_pon := lit "1"; e_onu := lit "1"; e_mac := lit "98:C7:A4:5E:30:B8";
     e_status := lit "Online"; e_auth := lit "TRUE"; e_cfg := lit "TRUE";
     e_date := lit "2024/01/31"; e_clock := lit "23:59:07";
     e_name := lit "ONU-1"; e_desc := lit "NA";
     e_gap := fun _ => lit "  " |}.

Definition epon_onu_b : epon_onu :=
  {| e_pon := lit "1"; e_onu := lit "2"; e_mac := lit "a4:5e:30:b8:98:c7";
     e_status := lit "Offline"; e_auth := lit "FALSE"; e_cfg := lit "TRUE";
     e_date := lit "2023/12/01"; e_clock := lit "08:00:00";
     e_name := lit "ONU-2"; e_desc := lit "NA";
     e_gap := fun _ => lit " " |}.

Definition epon_heading : str :=
  lit "show onu-info all" ++ [LF] ++
  lit "PON/ONU  MAC  Status  Auth  Cfg  Reg-time  ONU-Name  ONU-Desc" ++ [LF].

Definition epon_prompt : str := lit "MSNet_Fiber(config)# ".

Definition epon_transcript : str :=
  lit "show onu-info all" ++ [CR; LF] ++
  lit "PON/ONU  MAC  Status  Auth  Cfg  Reg-time  ONU-Name  ONU-Desc" ++
  [CR; LF] ++
  epon_row epon_onu_a ++ [CR; LF] ++ lit "--More--" ++
  epon_row epon_onu_b ++ [CR; LF] ++ epon_prompt.

(** A row of [show ont-optical all] and the transcript of the command. *)
Definition gpon_ont_a : gpon_ont :=
  {| g_pon := lit "0"; g_onu := lit "1"; g_sn := lit "HWTC1234ABCD";
     g_temp := lit "45"; g_voltage := lit "3.30"; g_bias := lit "12.5";
     g_tx := lit "2.31"; g_rx := lit "-18.42"; g_name := lit "home_1";
     g_gap := fun _ => lit " " |}.

Definition gpon_heading : str :=
  lit "show ont-optical all" ++ [LF] ++
  lit "PON/ONU ONT-SN Temp Voltage Bias Tx-power Rx-power ONT-Name" ++ [LF].

Definition gpon_prompt : str := lit "OLT(config)# ".

Definition gpon_transcript : str :=
  lit "show ont-optical all" ++ [CR; LF] ++
  lit "PON/ONU ONT-SN Temp Voltage Bias Tx-power Rx-power ONT-Name" ++
  [CR; LF] ++
  gpon_row gpon_ont_a ++ [CR; LF] ++ gpon_prompt.

End Examples.

(* ================================================================ *)
(** * Part II: the properties                                        *)
(* ================================================================ *)

Import Db Props.

(** ** The record store *)

Section Store_lemmas.

Lemma find_split (p : Onu -> bool) (rows : list Onu) (r : Onu) :
  find p rows = Some r ->
  exists before after,
    rows = before ++ r :: after /\ first_at p before /\ p r = true.
Proof.
  induction rows as [|x rows IH]; simpl; [discriminate|].
  destruct (p x) eqn:Hx.
  - intros [= ->]. exists [], rows. repeat split; [constructor | exact Hx].
  - intros H. destruct (IH H) as (b & a & -> & Hb & Hr).
    exists (x :: b), a. repeat split; [constructor; assumption | exact Hr].
Qed.

Lemma update_first_split (p : Onu -> bool) (f : Onu -> Onu)
  (before after : list Onu) (r : Onu) :
  first_at p before -> p r = true ->
  update_first p f (before ++ r :: after) = before ++ f r :: after.
Proof.
  intros Hb Hr. induction Hb as [|x b Hx _ IH]; simpl.
  - now rewrite Hr.
  - now rewrite Hx, IH.
Qed.

Lemma update_first_none (p : Onu -> bool) (f : Onu -> Onu) (rows : list Onu) :
  find p rows = None -> update_first p f rows = rows.
Proof.
  induction rows as [|x rows IH]; simpl; [reflexivity|].
  destruct (p x); [discriminate|]. intros H. now rewrite IH.
Qed.

Lemma update_first_Forall2 (R : Onu -> Onu -> Prop) (p : Onu -> bool)
  (f : Onu -> Onu) (rows : list Onu) :
  (forall r, R r r) -> (forall r, R r (f r)) ->
  Forall2 R rows (update_first p f rows).
Proof.
  intros Hrefl Hf. induction rows as [|x rows IH]; simpl; [constructor|].
  destruct (p x); constructor; auto.
  clear IH. induction rows; constructor; auto.
Qed.

Lemma Forall2_trans (A : Type) (R : A -> A -> Prop) (l1 l2 l3 : list A) :
  (forall a b c, R a b -> R b c -> R a c) ->
  Forall2 R l1 l2 -> Forall2 R l2 l3 -> Forall2 R l1 l3.
Proof.
  intros Htr H12. revert l3.
  induction H12 as [|a b l1 l2 Hab _ IH]; intros l3 H23; inversion H23; subst.
  - constructor.
  - constructor; [eapply Htr; eassumption | now apply IH].
Qed.

Lemma Forall2_refl (A : Type) (R : A -> A -> Prop) (l : list A) :
  (forall a, R a a) -> Forall2 R l l.
Proof. intros H. induction l; constructor; auto. Qed.

Lemma same_but_snmp_refl (r : Onu) : same_but_snmp r r.
Proof. repeat split. Qed.

Lemma same_but_snmp_trans (a b c : Onu) :
  same_but_snmp a b -> same_but_snmp b c -> same_but_snmp a c.
Proof.
  unfold same_but_snmp. intros (?&?&?&?&?&?) (?&?&?&?&?&?).
  repeat split; congruence.
Qed.

Lemma set_details_snmp_frame (d : json) (t : Z) (r : Onu) :
  same_but_snmp r (Tasks.set_details_snmp d t r).
Proof. repeat split. Qed.

End Store_lemmas.

(** ** SNMP sync: records are refreshed, never created *)

Section Snmp_sync.
Import Tasks Snmp.

Lemma refresh_committed (olt : Z) (t : Z) (item : snmp_item)
  (st : db_session * nat) :
  committed (fst (refresh olt t item st)) = committed (fst st).
Proof.
  destruct st as [s n]. unfold refresh.
  destruct (first_onu _ _ _); reflexivity.
Qed.

Lemma refresh_frame (olt : Z) (t : Z) (item : snmp_item)
  (st : db_session * nat) :
  Forall2 same_but_snmp (working (fst st))
          (working (fst (refresh olt t item st))).
Proof.
  destruct st as [s n]. unfold refresh.
  destruct (first_onu _ _ _); simpl.
  - apply update_first_Forall2;
      [apply same_but_snmp_refl | apply set_details_snmp_frame].
  - apply Forall2_refl, same_but_snmp_refl.
Qed.

Lemma refresh_all_committed (olt : Z) (clock : nat -> Z)
  (items : list snmp_item) :
  forall k st,
    committed (fst (refresh_all olt clock k items st)) = committed (fst st).
Proof.
  induction items as [|x items IH]; intros k st; simpl; [reflexivity|].
  rewrite IH. apply refresh_committed.
Qed.

Lemma refresh_all_frame (olt : Z) (clock : nat -> Z)
  (items : list snmp_item) :
  forall k st,
    Forall2 same_but_snmp (working (fst st))
            (working (fst (refresh_all olt clock k items st))).
Proof.
  induction items as [|x items IH]; intros k st; simpl.
  - apply Forall2_refl, same_but_snmp_refl.
  - eapply Forall2_trans;
      [exact same_but_snmp_trans | apply refresh_frame | apply IH].
Qed.

(** What one fetched record does to the table. *)
Lemma refresh_step (olt : Z) (t : Z) (item : snmp_item) (s : db_session)
  (n : nat) :
  match first_onu olt (snmp_identifier item) (working s) with
  | None => refresh olt t item (s, n) = (s, n)
  | Some r =>
      exists before after,
        working s = before ++ r :: after /\
        first_at (is_onu olt (snmp_identifier item)) before /\
        refresh olt t item (s, n) =
          (set_working s
             (before ++ set_details_snmp (snmp_details item) t r :: after),
           S n)
  end.
Proof.
  unfold refresh. destruct (first_onu _ _ _) as [r|] eqn:Hf; [|reflexivity].
  destruct (find_split _ _ Hf) as (b & a & Hw & Hb & Hr).
  exists b, a. repeat split; try assumption.
  now rewrite Hw, update_first_split.
Qed.

Lemma store_refreshed_frame (e : env) (olt : OLT) (vendor_name : str)
  (db : database) (fetched : snmp_outcome) :
  let db' := snd (store_refreshed e olt vendor_name (begin db) fetched) in
  vendors db' = vendors db /\ olts db' = olts db /\ oids db' = oids db /\
  Forall2 same_but_snmp (onus db) (onus db').
Proof.
  assert (Hsame : vendors db = vendors db /\ olts db = olts db /\
                  oids db = oids db /\ Forall2 same_but_snmp (onus db) (onus db)).
  { repeat split. apply Forall2_refl, same_but_snmp_refl. }
  destruct fetched as [|msg|[|x l]]; try exact Hsame.
  unfold store_refreshed.
  pose proof (refresh_all_frame (Db.olt_id olt) (now e) (x :: l) 0 (begin db, 0)) as Hf.
  pose proof (refresh_all_committed (Db.olt_id olt) (now e) (x :: l) 0 (begin db, 0)) as Hc.
  destruct (refresh_all _ _ _ _ _) as [s n]. simpl fst in Hf, Hc.
  unfold commit. destruct (commit_fault e); simpl.
  - rewrite Hc. exact Hsame.
  - rewrite Hc. simpl. repeat split. exact Hf.
Qed.

Lemma run_snmp_sync_frame (float_centi : str -> option str) (e : env)
  (db : database) (olt_id : Z) :
  let db' := snd (run_snmp_sync float_centi e db olt_id) in
  vendors db' = vendors db /\ olts db' = olts db /\ oids db' = oids db /\
  Forall2 same_but_snmp (onus db) (onus db').
Proof.
  assert (Hsame : vendors db = vendors db /\ olts db = olts db /\
                  oids db = oids db /\ Forall2 same_but_snmp (onus db) (onus db)).
  { repeat split. apply Forall2_refl, same_but_snmp_refl. }
  unfold run_snmp_sync.
  destruct (get_olt db olt_id) as [olt|]; [|exact Hsame].
  destruct (vendor_of db olt) as [vendor|]; [|exact Hsame].
  destruct (oids_of_olt db olt), (is_epon olt);
    try apply store_refreshed_frame. exact Hsame.
Qed.

(** C1. For every ONU record an SNMP fetch returns, the SNMP sync job
    inserts nothing: the tables of vendors, devices and OIDs are as before,
    the ONU table has the same rows in the same places, and each row keeps
    its key, its interface locator, its vendor tag and its primary detail
    map (only [details_snmp] and [last_seen] may differ).  Record by
    record: when no stored row has the key (device, identifier) the step
    changes nothing; otherwise it writes the fetched detail map and the
    time into [details_snmp] and [last_seen] of the first such row.  The
    table a successful job commits is the one these steps build. *)
Theorem snmp_sync_refreshes_existing_only
  (float_centi : str -> option str) (e : env) (db : database) (olt_id : Z) :
  let db' := snd (run_snmp_sync float_centi e db olt_id) in
  (vendors db' = vendors db /\ olts db' = olts db /\ oids db' = oids db /\
   Forall2 same_but_snmp (onus db) (onus db')) /\
  length (onus db') = length (onus db) /\
  (forall (olt : Z) (t : Z) (item : snmp_item) (s : db_session) (n : nat),
      match first_onu olt (snmp_identifier item) (working s) with
      | None => refresh olt t item (s, n) = (s, n)
      | Some r =>
          exists before after,
            working s = before ++ r :: after /\
            first_at (is_onu olt (snmp_identifier item)) before /\
            refresh olt t item (s, n) =
              (set_working s
                 (before ++ set_details_snmp (snmp_details item) t r :: after),
               S n)
      end) /\
  (forall (olt : OLT) (vendor : Vendor) (x : snmp_item) (items : list snmp_item),
      get_olt db olt_id = Some olt ->
      vendor_of db olt = Some vendor ->
      oids_of_olt db olt <> [] \/ is_epon olt = true ->
      snmp_fetch float_centi e db olt (lower (v_name vendor))
        (oids_dict (oids_of_olt db olt)) = SnmpOnus (x :: items) ->
      commit_fault e = None ->
      onus db' =
        working (fst (refresh_all (Db.olt_id olt) (now e) 0 (x :: items)
                        (begin db, 0)))).
Proof.
  pose proof (run_snmp_sync_frame float_centi e db olt_id) as Hframe.
  cbv zeta in *. split; [exact Hframe|]. split.
  { destruct Hframe as (_ & _ & _ & H). symmetry. eapply Forall2_length, H. }
  split; [intros; apply refresh_step|].
  intros olt vendor x items Holt Hvendor Hguard Hfetch Hcommit.
  unfold run_snmp_sync. rewrite Holt, Hvendor. cbv zeta.
  assert (Hrun :
    snd (store_refreshed e olt (lower (v_name vendor)) (begin db)
           (SnmpOnus (x :: items))) =
    {| vendors := vendors db; olts := olts db; oids := oids db;
       onus := working (fst (refresh_all (Db.olt_id olt) (now e) 0 (x :: items)
                               (begin db, 0))) |}).
  { unfold store_refreshed.
    pose proof (refresh_all_committed (Db.olt_id olt) (now e) (x :: items) 0
                  (begin db, 0)) as Hc.
    destruct (refresh_all _ _ _ _ _) as [s n]. simpl fst in *.
    rewrite Hcommit. simpl. now rewrite Hc. }
  rewrite Hfetch.
  destruct (oids_of_olt db olt) eqn:Ho, (is_epon olt) eqn:He;
    try (rewrite Hrun; reflexivity).
  destruct Hguard; congruence.
Qed.

End Snmp_sync.

(** ** Interactive sync: upsert by (device, identifier) *)

Lemma streq_eq (a b : str) : streq a b = true <-> a = b.
Proof.
  revert b. induction a as [|x a IH]; destruct b as [|y b]; simpl;
    try (split; [discriminate|discriminate]); try tauto.
  rewrite andb_true_iff, IH, Ascii.eqb_eq. split.
  - intros [-> ->]. reflexivity.
  - intros [= -> ->]. tauto.
Qed.

Lemma streq_refl (a : str) : streq a a = true.
Proof. now apply streq_eq. Qed.

Section Update_first.
Variables p q : Onu -> bool.
Variables f g : Onu -> Onu.

Lemma find_update_first (rows : list Onu) :
  (forall r, p (g r) = p r) ->
  (forall r, q r = true -> p r = false) ->
  find p (update_first q g rows) = find p rows.
Proof.
  intros Hg Hd. induction rows as [|x rows IH]; simpl; [reflexivity|].
  destruct (q x) eqn:Hq; simpl.
  - rewrite Hg, (Hd _ Hq). reflexivity.
  - now rewrite IH.
Qed.

Lemma update_first_same (rows : list Onu) :
  (forall r, p (g r) = p r) ->
  update_first p f (update_first p g rows) =
  update_first p (fun r => f (g r)) rows.
Proof.
  intros Hg. induction rows as [|x rows IH]; simpl; [reflexivity|].
  destruct (p x) eqn:Hp; simpl.
  - now rewrite Hg, Hp.
  - now rewrite Hp, IH.
Qed.

Lemma update_first_comm (rows : list Onu) :
  (forall r, p (g r) = p r) -> (forall r, q (f r) = q r) ->
  (forall r, q r = true -> p r = false) ->
  update_first p f (update_first q g rows) =
  update_first q g (update_first p f rows).
Proof.
  intros Hg Hf Hd. induction rows as [|x rows IH]; simpl; [reflexivity|].
  destruct (q x) eqn:Hq, (p x) eqn:Hp; simpl.
  - rewrite (Hd _ Hq) in Hp. discriminate.
  - now rewrite Hg, Hp, Hq.
  - now rewrite Hf, Hq, Hp.
  - now rewrite Hp, Hq, IH.
Qed.

Lemma update_first_fixed (rows : list Onu) (r : Onu) :
  find p rows = Some r -> f r = r -> update_first p f rows = rows.
Proof.
  induction rows as [|x rows IH]; simpl; [discriminate|].
  destruct (p x).
  - intros [= ->] ->. reflexivity.
  - intros H1 H2. now rewrite IH.
Qed.

Lemma update_first_ext (rows : list Onu) :
  (forall r, f r = g r) -> update_first p f rows = update_first p g rows.
Proof.
  intros H. induction rows as [|x rows IH]; simpl; [reflexivity|].
  now rewrite H, IH.
Qed.

Lemma find_app_found (rows more : list Onu) (r : Onu) :
  find p rows = Some r -> find p (rows ++ more) = Some r.
Proof.
  induction rows as [|x rows IH]; simpl; [discriminate|].
  destruct (p x); auto.
Qed.

Lemma find_app_missing (rows : list Onu) (r : Onu) :
  find p rows = None -> find p (rows ++ [r]) = if p r then Some r else None.
Proof.
  induction rows as [|x rows IH]; simpl; [reflexivity|].
  destruct (p x); [discriminate|auto].
Qed.

Lemma find_update_first_hit (rows : list Onu) (r : Onu) :
  (forall x, p (f x) = p x) ->
  find p rows = Some r -> find p (update_first p f rows) = Some (f r).
Proof.
  intros Hf. induction rows as [|x rows IH]; simpl; [discriminate|].
  destruct (p x) eqn:Hp; simpl.
  - intros [= ->]. now rewrite Hf, Hp.
  - rewrite Hp. auto.
Qed.

End Update_first.

Section Upsert.
Import Tasks.
Variable olt : Z.

Lemma is_onu_set_details (k : str) (d : json) (t : Z) (r : Onu) :
  is_onu olt k (set_details d t r) = is_onu olt k r.
Proof. reflexivity. Qed.

Lemma is_onu_disjoint (k k' : str) (r : Onu) :
  k <> k' -> is_onu olt k' r = true -> is_onu olt k r = false.
Proof.
  unfold is_onu. intros Hk H. apply andb_true_iff in H as [H _].
  apply streq_eq in H. destruct (streq (onu_identifier r) k) eqn:E; [|reflexivity].
  apply streq_eq in E. congruence.
Qed.

Lemma is_onu_new (k : str) (id : Z) (t : Z) (x : onu_item) :
  is_onu olt k (new_onu id olt t x) = streq (identifier x) k.
Proof. unfold is_onu. simpl. now rewrite Z.eqb_refl, andb_true_r. Qed.

(** The step with the clock stopped at 0, and its update-only form. *)
Let U (x : onu_item) (s : db_session) : db_session := upsert olt 0 x s.
Let upd (k : str) (d : json) (s : db_session) : db_session :=
  set_working s (update_first (is_onu olt k) (set_details d 0) (working s)).
Let first_row (k : str) (s : db_session) : option Onu :=
  first_onu olt k (working s).
Let F (items : list onu_item) (s : db_session) : db_session :=
  upsert_all olt (fun _ => 0%Z) 0 items s.

Lemma upsert_all_stopped (items : list onu_item) :
  forall k s, upsert_all olt (fun _ => 0%Z) k items s = F items s.
Proof.
  unfold F. induction items as [|x items IH]; intros k s; simpl; [reflexivity|].
  now rewrite !IH.
Qed.

Lemma F_cons (x : onu_item) (items : list onu_item) (s : db_session) :
  F (x :: items) s = F items (U x s).
Proof. unfold F at 1. simpl. apply upsert_all_stopped. Qed.

Lemma U_present (x : onu_item) (s : db_session) (r : Onu) :
  first_row (identifier x) s = Some r ->
  U x s = upd (identifier x) (details x) s.
Proof. unfold U, upsert, first_row, upd. now intros ->. Qed.

Lemma upd_upd (k : str) (d1 d2 : json) (s : db_session) :
  upd k d2 (upd k d1 s) = upd k d2 s.
Proof.
  unfold upd, set_working. simpl. f_equal.
  rewrite update_first_same by reflexivity.
  apply update_first_ext. reflexivity.
Qed.

Lemma upd_comm (k k' : str) (d d' : json) (s : db_session) :
  k <> k' -> upd k d (upd k' d' s) = upd k' d' (upd k d s).
Proof.
  intros Hk. unfold upd, set_working. simpl. f_equal.
  apply update_first_comm; try reflexivity.
  intros r. now apply is_onu_disjoint.
Qed.

Lemma upd_fixed (k : str) (d : json) (s : db_session) (r : Onu) :
  first_row k s = Some r -> onu_details r = Some d -> onu_last_seen r = 0%Z ->
  upd k d s = s.
Proof.
  unfold first_row, first_onu, upd, set_working. intros Hf Hd Ht.
  rewrite (update_first_fixed _ _ _ Hf).
  - now destruct s.
  - destruct r; simpl in *; subst; reflexivity.
Qed.

Lemma first_row_upd_other (k k' : str) (d : json) (s : db_session) :
  k <> k' -> first_row k (upd k' d s) = first_row k s.
Proof.
  intros Hk. unfold first_row, first_onu, upd. simpl.
  apply find_update_first; [reflexivity|].
  intros r. now apply is_onu_disjoint.
Qed.

Lemma first_row_upd_same (k : str) (d : json) (s : db_session) (r : Onu) :
  first_row k s = Some r -> first_row k (upd k d s) = Some (set_details d 0 r).
Proof.
  unfold first_row, first_onu, upd. simpl.
  apply find_update_first_hit. reflexivity.
Qed.

(** After the step for [x], the first row with the key of [x] holds the
    detail map of [x]. *)
Lemma first_row_U_same (x : onu_item) (s : db_session) :
  exists r, first_row (identifier x) (U x s) = Some r /\
            onu_details r = Some (details x) /\ onu_last_seen r = 0%Z.
Proof.
  destruct (first_row (identifier x) s) as [r|] eqn:Hf.
  - rewrite (U_present _ _ Hf). exists (set_details (details x) 0 r).
    split; [now apply first_row_upd_same | split; reflexivity].
  - unfold U, upsert. fold (first_row (identifier x) s). rewrite Hf.
    eexists. split.
    + unfold first_row, first_onu, add. simpl.
      rewrite find_app_missing by exact Hf.
      rewrite is_onu_new, streq_refl. reflexivity.
    + split; reflexivity.
Qed.

(** A step for another key leaves the first row of a stored key alone. *)
Lemma first_row_U_other (k : str) (x : onu_item) (s : db_session) (r : Onu) :
  identifier x <> k ->
  first_row k s = Some r -> first_row k (U x s) = Some r.
Proof.
  intros Hk Hf. destruct (first_row (identifier x) s) as [r'|] eqn:Hx.
  - rewrite (U_present _ _ Hx), first_row_upd_other; auto.
  - unfold U, upsert. fold (first_row (identifier x) s). rewrite Hx.
    unfold first_row, first_onu, add. simpl. now apply find_app_found.
Qed.

Let stored (k : str) (s : db_session) : Prop :=
  exists r, first_row k s = Some r.

Lemma stored_U (k : str) (x : onu_item) (s : db_session) :
  stored k s -> stored k (U x s).
Proof.
  intros [r Hr]. destruct (list_eq_dec ascii_dec (identifier x) k) as [<-|Hk].
  - destruct (first_row_U_same x s) as (r' & H & _). now exists r'.
  - exists r. now apply first_row_U_other.
Qed.

Lemma stored_F (k : str) (items : list onu_item) :
  forall s, stored k s -> stored k (F items s).
Proof.
  induction items as [|x items IH]; intros s H; [exact H|].
  rewrite F_cons. apply IH, stored_U, H.
Qed.

Lemma stored_after_F (items : list onu_item) :
  forall s x, In x items -> stored (identifier x) (F items s).
Proof.
  induction items as [|y items IH]; intros s x Hin; [destruct Hin|].
  destruct Hin as [<-|Hin]; rewrite F_cons.
  - apply stored_F. destruct (first_row_U_same y s) as (r & H & _). now exists r.
  - now apply IH.
Qed.

Lemma first_row_F_other (k : str) (items : list onu_item) :
  forall s r, ~ In k (map identifier items) ->
    first_row k s = Some r -> first_row k (F items s) = Some r.
Proof.
  induction items as [|x items IH]; intros s r Hk Hf; [exact Hf|].
  rewrite F_cons. simpl in Hk. apply IH; [tauto|].
  apply first_row_U_other; [tauto|exact Hf].
Qed.

(** An update of a key that a later item of the batch writes again is
    overwritten. *)
Lemma F_upd_absorbed (k : str) (d : json) (items : list onu_item) :
  forall s, In k (map identifier items) ->
    (forall x, In x items -> stored (identifier x) s) ->
    F items (upd k d s) = F items s.
Proof.
  induction items as [|y items IH]; intros s Hk Hs; [destruct Hk|].
  rewrite !F_cons.
  destruct (Hs y (or_introl eq_refl)) as [r Hr].
  destruct (list_eq_dec ascii_dec (identifier y) k) as [Hy|Hy].
  - subst k. rewrite (U_present _ _ Hr).
    assert (Hr' : first_row (identifier y) (upd (identifier y) d s)
                  = Some (set_details d 0 r))
      by now apply first_row_upd_same.
    rewrite (U_present _ _ Hr'). now rewrite upd_upd.
  - assert (Hr' : first_row (identifier y) (upd k d s) = Some r)
      by (rewrite first_row_upd_other; auto).
    rewrite (U_present _ _ Hr'), (U_present _ _ Hr).
    rewrite upd_comm by auto. rewrite <- (U_present _ _ Hr).
    apply IH.
    + destruct Hk as [Hk|Hk]; [congruence|exact Hk].
    + intros x Hx. apply stored_U, Hs. now right.
Qed.

Lemma F_app (pre suf : list onu_item) :
  forall s, F (pre ++ suf) s = F suf (F pre s).
Proof.
  induction pre as [|p pre IH]; intros s; [reflexivity|].
  simpl. now rewrite !F_cons, IH.
Qed.

(** Replaying a tail of the batch on the table the batch has built
    changes nothing. *)
Lemma F_replay_tail (items : list onu_item) (s : db_session) :
  forall pre suf, items = pre ++ suf -> F suf (F items s) = F items s.
Proof.
  intros pre suf. revert pre.
  induction suf as [|x suf IH]; intros pre Hitems; [reflexivity|].
  rewrite F_cons.
  assert (Hall : forall y, In y items -> stored (identifier y) (F items s))
    by (intros; now apply stored_after_F).
  assert (Hx : In x items) by (rewrite Hitems; apply in_elt).
  destruct (Hall x Hx) as [r Hr]. rewrite (U_present _ _ Hr).
  assert (IH' : F suf (F items s) = F items s).
  { apply (IH (pre ++ [x])). now rewrite <- app_assoc. }
  destruct (in_dec (list_eq_dec ascii_dec) (identifier x) (map identifier suf))
    as [Hin|Hout].
  - rewrite F_upd_absorbed; [exact IH'|exact Hin|].
    intros y Hy. apply Hall. rewrite Hitems. apply in_or_app. right. now right.
  - rewrite upd_fixed with (r := r); [exact IH'|exact Hr| |].
    all: assert (Hsplit : F items s = F suf (U x (F pre s)))
      by (rewrite Hitems, F_app, F_cons; reflexivity).
    all: destruct (first_row_U_same x (F pre s)) as (r0 & H0 & Hd & Ht).
    all: pose proof (first_row_F_other _ _ _ Hout H0) as H1.
    all: rewrite <- Hsplit, Hr in H1; injection H1 as ->; assumption.
Qed.

Lemma F_idempotent (items : list onu_item) (s : db_session) :
  F items (F items s) = F items s.
Proof. now apply F_replay_tail with (pre := []). Qed.

End Upsert.

Section Forget_time.
Import Tasks.
Variable olt : Z.

Lemma find_map_forget (p : Onu -> bool) (rows : list Onu) :
  (forall r, p (forget_time r) = p r) ->
  find p (map forget_time rows) = option_map forget_time (find p rows).
Proof.
  intros Hp. induction rows as [|x rows IH]; simpl; [reflexivity|].
  rewrite Hp. destruct (p x); [reflexivity|exact IH].
Qed.

Lemma next_id_forget (rows : list Onu) :
  next_id (map forget_time rows) = next_id rows.
Proof.
  unfold next_id. f_equal. generalize 0%Z.
  induction rows as [|x rows IH]; intros m; simpl; [reflexivity|apply IH].
Qed.

Lemma update_first_forget (k : str) (d : json) (t : Z) (rows : list Onu) :
  map forget_time (update_first (is_onu olt k) (set_details d t) rows) =
  update_first (is_onu olt k) (set_details d 0) (map forget_time rows).
Proof.
  induction rows as [|x rows IH]; simpl; [reflexivity|].
  change (is_onu olt k (forget_time x)) with (is_onu olt k x).
  destruct (is_onu olt k x); simpl; [reflexivity|now rewrite IH].
Qed.

Lemma upsert_committed (t : Z) (x : onu_item) (s : db_session) :
  committed (upsert olt t x s) = committed s.
Proof. unfold upsert. destruct (first_onu _ _ _); reflexivity. Qed.

Lemma upsert_all_committed (clock : nat -> Z) (items : list onu_item) :
  forall k s, committed (upsert_all olt clock k items s) = committed s.
Proof.
  induction items as [|x items IH]; intros k s; simpl; [reflexivity|].
  now rewrite IH, upsert_committed.
Qed.

(** Blanking the timestamps commutes with a step. *)
Lemma upsert_forget (t : Z) (x : onu_item) (s : db_session) :
  set_working (upsert olt t x s)
    (map forget_time (working (upsert olt t x s))) =
  upsert olt 0 x (set_working s (map forget_time (working s))).
Proof.
  unfold upsert, first_onu, set_working, add. simpl.
  rewrite find_map_forget by reflexivity.
  destruct (find _ (working s)); simpl.
  - now rewrite update_first_forget.
  - now rewrite map_app, next_id_forget.
Qed.

Lemma upsert_all_forget (clock : nat -> Z) (items : list onu_item) :
  forall k s,
    set_working (upsert_all olt clock k items s)
      (map forget_time (working (upsert_all olt clock k items s))) =
    upsert_all olt (fun _ => 0%Z) 0 items
      (set_working s (map forget_time (working s))).
Proof.
  induction items as [|x items IH]; intros k s; simpl; [reflexivity|].
  rewrite IH, upsert_forget. now rewrite upsert_all_stopped with (k := 1).
Qed.

Lemma upsert_working_ext (t : Z) (x : onu_item) (s s' : db_session) :
  working s = working s' ->
  working (upsert olt t x s) = working (upsert olt t x s').
Proof.
  unfold upsert, add, set_working. intros ->.
  destruct (first_onu _ _ _); reflexivity.
Qed.

Lemma upsert_all_working_ext (clock : nat -> Z) (items : list onu_item) :
  forall k s s', working s = working s' ->
    working (upsert_all olt clock k items s) =
    working (upsert_all olt clock k items s').
Proof.
  induction items as [|x items IH]; intros k s s' H; simpl; [exact H|].
  apply IH, upsert_working_ext, H.
Qed.

(** Two runs of the loop on the same batch, whatever the clocks: the
    second changes timestamps only. *)
Lemma upsert_all_twice (c1 c2 : nat -> Z) (items : list onu_item)
  (s s' : db_session) :
  working s' = working (upsert_all olt c1 0 items s) ->
  map forget_time (working (upsert_all olt c2 0 items s')) =
  map forget_time (working (upsert_all olt c1 0 items s)).
Proof.
  intros Hs'.
  pose proof (f_equal working (upsert_all_forget c2 items 0 s')) as H2.
  pose proof (f_equal working (upsert_all_forget c1 items 0 s)) as H1.
  simpl in H1, H2. rewrite H2, H1.
  set (s0 := set_working s (map forget_time (working s))) in *.
  rewrite <- (F_idempotent olt items s0).
  apply upsert_all_working_ext. simpl. now rewrite Hs', H1.
Qed.

End Forget_time.

Section Interactive_sync.
Import Tasks.

(** What one fetched record does to the table. *)
Lemma upsert_step (olt : Z) (t : Z) (x : onu_item) (s : db_session) :
  committed (upsert olt t x s) = committed s /\
  match first_onu olt (identifier x) (working s) with
  | Some r =>
      exists before after r',
        working s = before ++ r :: after /\
        first_at (is_onu olt (identifier x)) before /\
        working (upsert olt t x s) = before ++ r' :: after /\
        onu_details r' = Some (details x) /\
        onu_last_seen r' = t /\
        onu_id r' = onu_id r /\
        onu_olt_id r' = onu_olt_id r /\
        onu_identifier r' = onu_identifier r /\
        onu_pon_interface r' = onu_pon_interface r /\
        onu_vendor_name r' = onu_vendor_name r /\
        onu_details_snmp r' = onu_details_snmp r
  | None =>
      exists r,
        working (upsert olt t x s) = working s ++ [r] /\
        onu_olt_id r = olt /\
        onu_identifier r = identifier x /\
        onu_pon_interface r = Some (pon_interface x) /\
        onu_vendor_name r = Some (vendor_name x) /\
        onu_details r = Some (details x) /\
        onu_last_seen r = t /\
        onu_details_snmp r = None
  end.
Proof.
  unfold upsert. destruct (first_onu _ _ _) as [r|] eqn:Hf.
  - split; [reflexivity|].
    destruct (find_split _ _ Hf) as (b & a & Hw & Hb & Hr).
    exists b, a, (set_details (details x) t r).
    split; [exact Hw|]. split; [exact Hb|].
    split; [cbn [working set_working]; now rewrite Hw, update_first_split|].
    repeat split.
  - split; [reflexivity|]. eexists. repeat split.
Qed.

Lemma store_fetched_success (e : env) (olt : OLT) (vendor : Vendor)
  (db : database) (items : list onu_item) :
  commit_fault e = None ->
  store_fetched e olt vendor (begin db) (Some (Ok (FetchOnus items))) =
  (Returned (synced_message (length items) olt),
   {| vendors := vendors db; olts := olts db; oids := oids db;
      onus := working (upsert_all (Db.olt_id olt) (now e) 0 items (begin db)) |}).
Proof.
  intros Hc. unfold store_fetched, commit. rewrite Hc. simpl.
  now rewrite upsert_all_committed.
Qed.

(** C2. For every canonical record an interactive fetch returns, the
    interactive sync job upserts by (device, identifier): when a stored row
    has the key, the first such row gets the fetched detail map as its
    primary detail map and the time as its timestamp, and keeps its id,
    its key, its interface locator, its vendor tag and its SNMP detail
    map, and the rows before and after it stay; when none has, a row is
    appended that carries the fetched identifier, interface locator,
    vendor tag and detail map, the time, and no SNMP detail map; no step
    touches what is committed.  A successful job commits the table these
    steps build and reports the number of fetched records; run again on
    the same fetched records, it reports the same and leaves the same
    number of rows with the same fields, the timestamps excepted. *)
Theorem interactive_sync_upserts_idempotently
  (e1 e2 : env) (db : database) (olt_id : Z) (olt : OLT) (vendor : Vendor)
  (items : list onu_item) :
  get_olt db olt_id = Some olt ->
  vendor_of db olt = Some vendor ->
  interactive_fetch e1 olt (lower (v_name vendor)) = Some (Ok (FetchOnus items)) ->
  interactive_fetch e2 olt (lower (v_name vendor)) = Some (Ok (FetchOnus items)) ->
  commit_fault e1 = None ->
  commit_fault e2 = None ->
  let r1 := run_ssh_telnet_sync e1 db olt_id in
  let r2 := run_ssh_telnet_sync e2 (snd r1) olt_id in
  (forall (o : Z) (t : Z) (x : onu_item) (s : db_session),
      committed (upsert o t x s) = committed s /\
      match first_onu o (identifier x) (working s) with
      | Some r =>
          exists before after r',
            working s = before ++ r :: after /\
            first_at (is_onu o (identifier x)) before /\
            working (upsert o t x s) = before ++ r' :: after /\
            onu_details r' = Some (details x) /\
            onu_last_seen r' = t /\
            onu_id r' = onu_id r /\
            onu_olt_id r' = onu_olt_id r /\
            onu_identifier r' = onu_identifier r /\
            onu_pon_interface r' = onu_pon_interface r /\
            onu_vendor_name r' = onu_vendor_name r /\
            onu_details_snmp r' = onu_details_snmp r
      | None =>
          exists r,
            working (upsert o t x s) = working s ++ [r] /\
            onu_olt_id r = o /\
            onu_identifier r = identifier x /\
            onu_pon_interface r = Some (pon_interface x) /\
            onu_vendor_name r = Some (vendor_name x) /\
            onu_details r = Some (details x) /\
            onu_last_seen r = t /\
            onu_details_snmp r = None
      end) /\
  onus (snd r1) =
    working (upsert_all (Db.olt_id olt) (now e1) 0 items (begin db)) /\
  fst r1 = Returned (synced_message (length items) olt) /\
  fst r2 = Returned (synced_message (length items) olt) /\
  length (onus (snd r2)) = length (onus (snd r1)) /\
  map forget_time (onus (snd r2)) = map forget_time (onus (snd r1)).
Proof.
  intros Holt Hvendor Hf1 Hf2 Hc1 Hc2 r1 r2.
  assert (H1 : r1 =
    (Returned (synced_message (length items) olt),
     {| vendors := vendors db; olts := olts db; oids := oids db;
        onus := working (upsert_all (Db.olt_id olt) (now e1) 0 items (begin db)) |})).
  { unfold r1, run_ssh_telnet_sync. rewrite Holt, Hvendor. cbv zeta.
    rewrite Hf1. now apply store_fetched_success. }
  set (db1 := snd r1).
  assert (Hdb1 : db1 = {| vendors := vendors db; olts := olts db; oids := oids db;
        onus := working (upsert_all (Db.olt_id olt) (now e1) 0 items (begin db)) |})
    by (unfold db1; now rewrite H1).
  assert (H2 : r2 =
    (Returned (synced_message (length items) olt),
     {| vendors := vendors db1; olts := olts db1; oids := oids db1;
        onus := working (upsert_all (Db.olt_id olt) (now e2) 0 items (begin db1)) |})).
  { unfold r2, run_ssh_telnet_sync. fold db1.
    assert (Ho : get_olt db1 olt_id = Some olt) by (rewrite Hdb1; exact Holt).
    assert (Hv : vendor_of db1 olt = Some vendor) by (rewrite Hdb1; exact Hvendor).
    rewrite Ho, Hv. cbv zeta. rewrite Hf2. now apply store_fetched_success. }
  assert (Hsame : map forget_time (onus (snd r2)) = map forget_time (onus (snd r1))).
  { rewrite H2. fold db1. simpl.
    replace (onus db1) with
      (working (upsert_all (Db.olt_id olt) (now e1) 0 items (begin db)))
      by now rewrite Hdb1.
    apply upsert_all_twice. simpl. now rewrite Hdb1. }
  clear Hdb1. subst db1.
  split; [intros; apply upsert_step|].
  split; [now rewrite H1|]. split; [now rewrite H1|]. split; [now rewrite H2|].
  split; [|exact Hsame].
  rewrite <- (length_map forget_time (onus (snd r2))), Hsame. apply length_map.
Qed.

End Interactive_sync.

Lemma interactive_sync_twice_witness :
  let r1 := Tasks.run_ssh_telnet_sync
              (Examples.gpon_env_once (fun k => Z.of_nat k))
              Examples.stocked_store 10 in
  let r2 := Tasks.run_ssh_telnet_sync
              (Examples.gpon_env_once (fun k => 100 + Z.of_nat k)%Z)
              (snd r1) 10 in
  map (fun r => (onu_id r, onu_identifier r, onu_pon_interface r,
                 onu_details r, onu_last_seen r)) (onus (snd r1)) =
    [(1, lit "HWTC1234", Some (lit "1/1"), Some (JStr (lit "fresh")), 0);
     (2, lit "HWTC9999", Some (lit "1/4"), Some (JStr (lit "gone")), 5);
     (3, lit "98:c7:a4:5e:30:b8", Some (lit "N/A"),
      Some (JStr (lit "epon")), 5);
     (4, lit "HWTC5678", Some (lit "1/2"), Some (JStr (lit "other")), 1)]%Z /\
  fst r1 = fst r2 /\
  length (onus (snd r2)) = 4 /\
  map Props.forget_time (onus (snd r2)) =
    map Props.forget_time (onus (snd r1)).
Proof.
  cbv zeta.
  pose proof (@interactive_sync_upserts_idempotently
                (Examples.gpon_env_once (fun k => Z.of_nat k))
                (Examples.gpon_env_once (fun k => 100 + Z.of_nat k)%Z)
                Examples.stocked_store 10 Examples.gpon_olt
                (MkVendor 1 (lit "hsgq")) Examples.gpon_fetch_once
                eq_refl eq_refl eq_refl eq_refl eq_refl eq_refl) as H.
  cbv zeta in H. destruct H as (_ & _ & H1 & H2 & Hlen & Hsame).
  split; [reflexivity|]. split; [now rewrite H1, H2|].
  split; [rewrite Hlen; reflexivity|exact Hsame].
Defined.

(** ** The jobs answer with payloads *)

Section Payloads.
Import Tasks Snmp.

Lemma existsb_find (p : Onu -> bool) (rows : list Onu) :
  existsb p rows = match find p rows with Some _ => true | None => false end.
Proof.
  induction rows as [|x rows IH]; simpl; [reflexivity|].
  destruct (p x); [reflexivity|exact IH].
Qed.

Lemma existsb_update_first (p q : Onu -> bool) (f : Onu -> Onu)
  (rows : list Onu) :
  (forall r, p (f r) = p r) ->
  existsb p (update_first q f rows) = existsb p rows.
Proof.
  intros Hf. induction rows as [|x rows IH]; simpl; [reflexivity|].
  destruct (q x); simpl; [now rewrite Hf | now rewrite IH].
Qed.

Lemma refresh_keys (olt : Z) (t : Z) (item : snmp_item)
  (st : db_session * nat) (k : str) :
  existsb (is_onu olt k) (working (fst (refresh olt t item st))) =
  existsb (is_onu olt k) (working (fst st)).
Proof.
  destruct st as [s n]. unfold refresh.
  destruct (first_onu _ _ _); simpl; [|reflexivity].
  now apply existsb_update_first.
Qed.

Lemma refresh_count (olt : Z) (t : Z) (item : snmp_item)
  (s : db_session) (n : nat) :
  snd (refresh olt t item (s, n)) =
  n + stored_count olt [item] (working s).
Proof.
  unfold refresh, stored_count, first_onu. simpl.
  rewrite existsb_find. destruct (find _ _); simpl; lia.
Qed.

Lemma stored_count_cons (olt : Z) (x : snmp_item) (items : list snmp_item)
  (rows : list Onu) :
  stored_count olt (x :: items) rows =
  stored_count olt [x] rows + stored_count olt items rows.
Proof.
  unfold stored_count. simpl.
  destruct (existsb _ rows); simpl; lia.
Qed.

Lemma stored_count_ext (olt : Z) (items : list snmp_item)
  (rows rows' : list Onu) :
  (forall k, existsb (is_onu olt k) rows' = existsb (is_onu olt k) rows) ->
  stored_count olt items rows' = stored_count olt items rows.
Proof.
  intros H. unfold stored_count. f_equal. apply filter_ext.
  intros a. apply H.
Qed.

Lemma refresh_all_count (olt : Z) (clock : nat -> Z)
  (items : list snmp_item) :
  forall k s n,
    snd (refresh_all olt clock k items (s, n)) =
    n + stored_count olt items (working s).
Proof.
  induction items as [|x items IH]; intros k s n.
  - simpl. unfold stored_count. simpl. lia.
  - cbn [refresh_all].
    pose proof (refresh_count olt (clock k) x s n) as Hn.
    pose proof (fun key => refresh_keys olt (clock k) x (s, n) key) as Hk.
    destruct (refresh olt (clock k) x (s, n)) as [s' n'].
    simpl in Hn, Hk. rewrite IH, (stored_count_cons olt x items).
    rewrite (@stored_count_ext olt items _ _ Hk). lia.
Qed.

End Payloads.

Section Payload_table.
Import Tasks Snmp.

Lemma store_fetched_cases (e : env) (olt : OLT) (vendor : Vendor)
  (db : database) (fetched : option (result fetch_result)) :
  let r := store_fetched e olt vendor (begin db) fetched in
  (exists p, fst r = Returned p) /\
  (forall msg, fst r = Returned (PError msg) -> snd r = db) /\
  match fetched with
  | None =>
      r = (Returned (PError (lit "Sync not implemented for vendor: '" ++
                             v_name vendor ++ lit "'")), db)
  | Some (Raise ex) => r = (Returned (PError (message ex)), db)
  | Some (Ok (FetchError error_msg)) => r = (Returned (PError error_msg), db)
  | Some (Ok (FetchOnus items)) =>
      match commit_fault e with
      | Some ex => r = (Returned (PError (message ex)), db)
      | None =>
          fst r = Returned (synced_message (length items) olt) /\
          onus (snd r) =
            working (upsert_all (Db.olt_id olt) (now e) 0 items (begin db))
      end
  end.
Proof.
  destruct fetched as [[[msg|items]|ex]|]; cbv zeta;
    try (split; [eexists; reflexivity | split; [reflexivity | reflexivity]]).
  unfold store_fetched, commit.
  destruct (commit_fault e) as [ex|]; simpl.
  - rewrite upsert_all_committed.
    split; [eexists; reflexivity | split; [reflexivity | reflexivity]].
  - split; [eexists; reflexivity|]. split; [discriminate|].
    split; reflexivity.
Qed.

Lemma store_refreshed_cases (e : env) (olt : OLT) (vendor_name : str)
  (db : database) (fetched : snmp_outcome) :
  let r := store_refreshed e olt vendor_name (begin db) fetched in
  (exists p, fst r = Returned p) /\
  (forall msg, fst r = Returned (PError msg) -> snd r = db) /\
  match fetched with
  | SnmpUnsupported =>
      r = (Returned (PError (lit "SNMP sync not implemented for vendor: '"
                             ++ vendor_name ++ lit "'")), db)
  | SnmpError msg => r = (Returned (PError msg), db)
  | SnmpOnus [] => r = (Returned no_onus_found, db)
  | SnmpOnus items =>
      match commit_fault e with
      | Some ex => r = (Returned (PError (message ex)), db)
      | None =>
          fst r = Returned
                    (updated_message (stored_count (Db.olt_id olt) items (onus db))
                       olt)
      end
  end.
Proof.
  destruct fetched as [|msg|[|x items]]; cbv zeta;
    try (split; [eexists; reflexivity | split; [reflexivity | reflexivity]]).
  unfold store_refreshed.
  pose proof (refresh_all_committed (Db.olt_id olt) (now e) (x :: items) 0
                (begin db, 0)) as Hc.
  pose proof (refresh_all_count (Db.olt_id olt) (now e) (x :: items) 0
                (begin db) 0) as Hn.
  destruct (refresh_all _ _ _ _ _) as [s n]. simpl in Hc, Hn.
  unfold commit. destruct (commit_fault e) as [ex|]; simpl.
  - rewrite Hc.
    split; [eexists; reflexivity | split; [reflexivity | reflexivity]].
  - split; [eexists; reflexivity|]. split; [discriminate|].
    now rewrite Hn.
Qed.

(** C3 (as amended). Both sync jobs, for every device id whose device has
    a vendor and for every outcome of the adapter and of the commit, return
    a payload and do not raise, and whenever the payload is an error the
    store is as it was before the job.  An unknown device id, a vendor
    without adapter, an exception raised by the adapter or by the commit
    (which is rolled back), and an error-flagged adapter result give an
    error payload with the message; the SNMP job also answers with an error
    when no OID row exists for a device that is not EPON.  An empty list of
    records is no error: the SNMP job answers it with the message
    "No ONUs found via SNMP or error in communication." and the interactive
    job with a success that counts 0.  A success is a message that holds
    the number of fetched records (interactive) or the number of fetched
    records that have a stored row (SNMP). *)
Theorem sync_jobs_answer_with_payloads
  (float_centi : str -> option str) (e : env) (db : database) (olt_id : Z) :
  let ri := run_ssh_telnet_sync e db olt_id in
  let rs := run_snmp_sync float_centi e db olt_id in
  match get_olt db olt_id with
  | None =>
      ri = (Returned (not_found olt_id), db) /\
      rs = (Returned (not_found olt_id), db)
  | Some olt =>
      match vendor_of db olt with
      | None => True
      | Some vendor =>
          let vendor_name := lower (v_name vendor) in
          ((exists p, fst ri = Returned p) /\
           (exists p, fst rs = Returned p)) /\
          ((forall msg, fst ri = Returned (PError msg) -> snd ri = db) /\
           (forall msg, fst rs = Returned (PError msg) -> snd rs = db)) /\
          match interactive_fetch e olt vendor_name with
          | None =>
              ri = (Returned (PError (lit "Sync not implemented for vendor: '"
                                      ++ v_name vendor ++ lit "'")), db)
          | Some (Raise ex) => ri = (Returned (PError (message ex)), db)
          | Some (Ok (FetchError error_msg)) =>
              ri = (Returned (PError error_msg), db)
          | Some (Ok (FetchOnus items)) =>
              match commit_fault e with
              | Some ex => ri = (Returned (PError (message ex)), db)
              | None =>
                  fst ri = Returned (synced_message (length items) olt) /\
                  onus (snd ri) =
                    working (upsert_all (Db.olt_id olt) (now e) 0 items
                               (begin db))
              end
          end /\
          match oids_of_olt db olt, is_epon olt with
          | [], false => rs = (Returned (oids_not_found vendor_name olt), db)
          | db_oids, _ =>
              match snmp_fetch float_centi e db olt vendor_name
                      (oids_dict db_oids) with
              | SnmpUnsupported =>
                  rs = (Returned
                          (PError (lit "SNMP sync not implemented for vendor: '"
                                   ++ vendor_name ++ lit "'")), db)
              | SnmpError msg => rs = (Returned (PError msg), db)
              | SnmpOnus [] => rs = (Returned no_onus_found, db)
              | SnmpOnus items =>
                  match commit_fault e with
                  | Some ex => rs = (Returned (PError (message ex)), db)
                  | None =>
                      fst rs =
                        Returned
                          (updated_message
                             (stored_count (Db.olt_id olt) items (onus db)) olt)
                  end
              end
          end
      end
  end.
Proof.
  cbv zeta. unfold run_ssh_telnet_sync, run_snmp_sync.
  destruct (get_olt db olt_id) as [olt|]; [|split; reflexivity].
  destruct (vendor_of db olt) as [vendor|]; [|exact I]. cbv zeta.
  pose proof (store_fetched_cases e olt vendor db
                (interactive_fetch e olt (lower (v_name vendor)))) as Hi.
  cbv zeta in Hi. destruct Hi as (Hi1 & Hi2 & Hi3).
  assert (Hs :
    forall db_oids,
      let r := store_refreshed e olt (lower (v_name vendor)) (begin db)
                 (snmp_fetch float_centi e db olt (lower (v_name vendor))
                    (oids_dict db_oids)) in
      (exists p, fst r = Returned p) /\
      (forall msg, fst r = Returned (PError msg) -> snd r = db) /\
      match snmp_fetch float_centi e db olt (lower (v_name vendor))
              (oids_dict db_oids) with
      | SnmpUnsupported =>
          r = (Returned (PError (lit "SNMP sync not implemented for vendor: '"
                                 ++ lower (v_name vendor) ++ lit "'")), db)
      | SnmpError msg => r = (Returned (PError msg), db)
      | SnmpOnus [] => r = (Returned no_onus_found, db)
      | SnmpOnus items =>
          match commit_fault e with
          | Some ex => r = (Returned (PError (message ex)), db)
          | None =>
              fst r = Returned
                        (updated_message
                           (stored_count (Db.olt_id olt) items (onus db)) olt)
          end
      end) by (intros; apply store_refreshed_cases).
  destruct (oids_of_olt db olt) as [|o os] eqn:Ho; [destruct (is_epon olt)|].
  2: { repeat split; try assumption; try reflexivity. eexists; reflexivity. }
  all: match goal with
       | |- context [oids_dict ?l] => destruct (Hs l) as (Hs1 & Hs2 & Hs3)
       end;
       repeat split; assumption.
Qed.

End Payload_table.

(** C3, counterexample: an SNMP fetch that finds nothing is answered with
    a message payload, not with an error payload; an interactive fetch
    that finds nothing is a success. *)
Lemma snmp_sync_empty_fetch_is_a_message :
  let e := Examples.gpon_env Z.of_nat in
  Tasks.snmp_fetch Examples.no_float e Examples.empty_store Examples.epon_olt
    (lit "hsgq") (oids_dict []) = Tasks.SnmpOnus [] /\
  fst (Tasks.run_snmp_sync Examples.no_float e Examples.empty_store 11) =
    Tasks.Returned
      (Tasks.PMessage (lit "No ONUs found via SNMP or error in communication.")) /\
  ~ (exists msg,
        fst (Tasks.run_snmp_sync Examples.no_float e Examples.empty_store 11) =
        Tasks.Returned (Tasks.PError msg)) /\
  Tasks.interactive_fetch e Examples.epon_olt (lit "hsgq") =
    Some (Ok (FetchOnus [])) /\
  fst (Tasks.run_ssh_telnet_sync e Examples.empty_store 11) =
    Tasks.Returned
      (Tasks.PMessage (lit "Successfully synced 0 ONUs for OLT 10.0.0.2")).
Proof.
  cbv zeta. repeat split; try reflexivity.
  intros [msg H]. vm_compute in H. discriminate H.
Qed.

(** ** The OID catalog and its fallback *)

Section Catalog.
Import Tasks Snmp.

Lemma load_oids_fallback (db : database) (query_fault : bool) :
  query_fault = true \/
  get_oids_by_vendor_and_model db (lit "hsgq") (lit "epon") = [] ->
  HsgqEponSnmp._load_oids db query_fault = HsgqEponSnmp.get_fallback_oids.
Proof.
  unfold HsgqEponSnmp._load_oids. intros [-> | H]; [reflexivity|].
  rewrite H. now destruct query_fault.
Qed.

(** C9 (as amended). For a device of vendor hsgq and model epon, when the
    OID catalog stored for (hsgq, epon) is empty, or the query for it
    raises, the SNMP adapter works with its hard-coded table and the sync
    proceeds: the job answers what the walks of the hard-coded OIDs give,
    and with a message payload unless the commit fails.  For a device of
    any other model, no OID row for its (vendor, model) makes the SNMP
    sync return the error payload "SNMP OIDs not found ..." and leaves the
    store as it was. *)
Theorem empty_catalog_falls_back_for_hsgq_epon_only
  (float_centi : str -> option str) (e : env) (db : database) (olt_id : Z)
  (olt : OLT) (vendor : Vendor) :
  get_olt db olt_id = Some olt ->
  vendor_of db olt = Some vendor ->
  oids_of_olt db olt = [] ->
  let r := run_snmp_sync float_centi e db olt_id in
  (is_epon olt = false ->
   r = (Returned (oids_not_found (lower (v_name vendor)) olt), db)) /\
  (is_epon olt = true ->
   lower (v_name vendor) = lit "hsgq" ->
   oid_query_fault e = true \/
   get_oids_by_vendor_and_model db (lit "hsgq") (lit "epon") = [] ->
   let fetched :=
     SnmpOnus
       (map as_snmp_item
          (HsgqEponSnmp.records_of float_centi
             (correlate
                (walk_all HsgqSnmp.onu_index (snmp_agent e)
                   HsgqEponSnmp.get_fallback_oids)))) in
   epon_OIDS e db = HsgqEponSnmp.get_fallback_oids /\
   snmp_fetch float_centi e db olt (lit "hsgq") (oids_dict []) = fetched /\
   r = store_refreshed e olt (lit "hsgq") (begin db) fetched /\
   (commit_fault e = None -> exists m, fst r = Returned (PMessage m))).
Proof.
  intros Holt Hvendor Hoids r. subst r. unfold run_snmp_sync.
  rewrite Holt, Hvendor. cbv zeta. rewrite Hoids. split.
  - intros ->. reflexivity.
  - intros Hepon Hname Hcat. rewrite Hepon, Hname.
    assert (HO : epon_OIDS e db = HsgqEponSnmp.get_fallback_oids)
      by (apply load_oids_fallback, Hcat).
    assert (Hfetch :
      snmp_fetch float_centi e db olt (lit "hsgq") (oids_dict []) =
      SnmpOnus
        (map as_snmp_item
           (HsgqEponSnmp.records_of float_centi
              (correlate
                 (walk_all HsgqSnmp.onu_index (snmp_agent e)
                    HsgqEponSnmp.get_fallback_oids))))).
    { unfold snmp_fetch. cbn [streq lit list_ascii_of_string]. simpl streq.
      rewrite Hepon. unfold HsgqEponSnmp.get_onus. now rewrite HO. }
    split; [exact HO|]. split; [exact Hfetch|]. rewrite Hfetch.
    split; [reflexivity|]. intros Hcommit.
    pose proof (store_refreshed_cases e olt (lit "hsgq") db
      (SnmpOnus
        (map as_snmp_item
           (HsgqEponSnmp.records_of float_centi
              (correlate
                 (walk_all HsgqSnmp.onu_index (snmp_agent e)
                    HsgqEponSnmp.get_fallback_oids)))))) as H.
    cbv zeta in H. destruct H as (_ & _ & H).
    destruct (map as_snmp_item _) as [|x items].
    + rewrite H. eexists. reflexivity.
    + rewrite Hcommit in H. rewrite H. eexists. reflexivity.
Qed.

Lemma empty_catalog_witness :
  Tasks.epon_OIDS (Examples.gpon_env Z.of_nat) Examples.empty_store =
    HsgqEponSnmp.get_fallback_oids /\
  exists m,
    fst (Tasks.run_snmp_sync Examples.no_float (Examples.gpon_env Z.of_nat)
           Examples.empty_store 11) = Tasks.Returned (Tasks.PMessage m).
Proof.
  pose proof (@empty_catalog_falls_back_for_hsgq_epon_only
                Examples.no_float (Examples.gpon_env Z.of_nat)
                Examples.empty_store 11 Examples.epon_olt
                (MkVendor 1 (lit "hsgq")) eq_refl eq_refl eq_refl) as H.
  cbv zeta in H. destruct H as (_ & H).
  destruct (H eq_refl eq_refl (or_intror eq_refl)) as (HO & _ & _ & Hm).
  split; [exact HO | exact (Hm eq_refl)].
Defined.

(** C9, counterexample: a GPON device without OID rows gets an error, not
    the fallback. *)
Lemma empty_catalog_gpon_is_an_error :
  oids_of_olt Examples.empty_store Examples.gpon_olt = [] /\
  Tasks.run_snmp_sync Examples.no_float (Examples.gpon_env Z.of_nat)
    Examples.empty_store 10 =
  (Tasks.Returned
     (Tasks.PError (lit "SNMP OIDs not found for vendor: hsgq and model: gpon")),
   Examples.empty_store).
Proof. split; reflexivity. Qed.

End Catalog.

(** ** The Hioso session *)

Section Hioso_session.
Import HiosoTelnet.
Variable d : device.
Variables username password : str.

Lemma after_writes_nil (st : session) : after_writes st [] = st.
Proof. destruct st. unfold after_writes. simpl. now rewrite app_nil_r. Qed.

Lemma after_writes_app (st : session) (a b : list str) :
  after_writes (after_writes st a) b = after_writes st (a ++ b).
Proof. unfold after_writes. simpl. now rewrite app_assoc. Qed.

Lemma write_accepted (data : str) (st : session) :
  accepts_writes d -> _write d data st = (Ok tt, after_writes st [data]).
Proof. intros Hw. unfold _write. now rewrite Hw. Qed.

(** A write never raises. *)
Lemma write_value (data : str) (st : session) : fst (_write d data st) = Ok tt.
Proof. unfold _write. now destruct (write_fault d _). Qed.

Lemma bind_ok (A B : Type) (m : M A) (k : A -> M B) (st st' : session) (a : A) :
  m st = (Ok a, st') -> bind m k st = k a st'.
Proof. unfold bind. now intros ->. Qed.

Lemma bind_raise (A B : Type) (m : M A) (k : A -> M B) (st st' : session)
  (e : exn) :
  m st = (Raise e, st') -> bind m k st = (Raise e, st').
Proof. unfold bind. now intros ->. Qed.

(** What a computation returns when the value of its first part does not
    depend on the session. *)
Lemma bind_value_ok (A B : Type) (m : M A) (k : A -> M B) (a : A)
  (v : result B) :
  (forall st, fst (m st) = Ok a) -> (forall st, fst (k a st) = v) ->
  forall st, fst (bind m k st) = v.
Proof.
  intros Hm Hk st. unfold bind. specialize (Hm st).
  destruct (m st) as [[x|e] st']; simpl in Hm; [|discriminate].
  injection Hm as ->. apply Hk.
Qed.

Lemma bind_value_raise (A B : Type) (m : M A) (k : A -> M B) (e : exn) :
  (forall st, fst (m st) = Raise e) ->
  forall st, fst (bind m k st) = Raise e.
Proof.
  intros Hm st. unfold bind. specialize (Hm st).
  destruct (m st) as [[x|e'] st']; simpl in *; [discriminate|].
  now injection Hm as ->.
Qed.

Lemma bind_write_value (B : Type) (data : str) (k : M B) (v : result B) :
  (forall st, fst (k st) = v) ->
  forall st, fst (bind (_write d data) (fun _ => k) st) = v.
Proof.
  intros Hk. apply bind_value_ok with (a := tt); [apply write_value|].
  exact Hk.
Qed.

Lemma read_until_value (o : wait_outcome) (prompt : str) (st : session) :
  fst (_read_until d o prompt st) =
  match o with
  | Seen => Ok tt
  | TimedOut =>
      Raise (Exn KTimeout (lit "Timeout waiting for prompt: " ++ prompt))
  | Broken e => Raise e
  end.
Proof. now destruct o. Qed.

Lemma read_until_2s_value (o : wait_outcome) (prompt : str) (st : session) :
  fst (_read_until_2s d o prompt st) =
  match o with
  | Seen => Ok tt
  | TimedOut => Raise (Exn KTimeout [])
  | Broken e => Raise e
  end.
Proof. now destruct o. Qed.

(** What the read loop returns does not depend on the session it runs
    in. *)
Lemma read_loop_value (prompt : str) (events : list read_event) :
  forall full st,
    fst (read_loop d prompt events full st) =
    fst (read_loop d prompt events full fresh).
Proof.
  induction events as [|ev events IH]; intros full st; [reflexivity|].
  destruct ev as [chunk| |e]; [|reflexivity|reflexivity].
  destruct chunk as [|c chunk]; [reflexivity|].
  cbn [read_loop]. unfold bind at 1 3.
  destruct (paging_detected (c :: chunk)).
  - unfold bind at 1 2, _write.
    destruct (write_fault d (length (sent st)));
      destruct (write_fault d (length (sent fresh)));
      unfold ret at 1 3; destruct (contains prompt _);
      try reflexivity; rewrite IH; symmetry; apply IH.
  - unfold ret at 1 3. destruct (contains prompt _); [reflexivity|apply IH].
Qed.

Lemma expect_seen (prompt : str) (st : session) :
  lets_in d -> expect d prompt st = (Ok tt, st).
Proof. intros [_ Hm]. unfold expect. now rewrite Hm. Qed.

Ltac accepted :=
  first [ apply write_accepted; assumption
        | apply expect_seen; assumption ].

Ltac forward := erewrite bind_ok by accepted.

(** The login script, when the device lets the adapter in. *)
Lemma connect_in (st : session) :
  lets_in d -> accepts_writes d ->
  connect d username password st =
  (Ok tt,
   {| sent := sent st ++
              [username ++ [LF]; password ++ [LF]; [LF]; password ++ [LF];
               lit "enable" ++ [LF]; password ++ [LF]];
      writer := WriterOpen |}).
Proof.
  intros Hin Hw. unfold connect.
  erewrite bind_ok by (unfold open; destruct Hin as [-> _]; reflexivity).
  repeat forward. rewrite expect_seen by assumption.
  unfold after_writes, access_password, enable_password. simpl.
  now rewrite <- !app_assoc.
Qed.

Lemma try_enter_seen (prompt : str) (h : M bool) (st : session) :
  except_timeout (_read_until d Seen prompt ;; ret true)%session h st =
  (Ok true, st).
Proof. reflexivity. Qed.

Lemma try_enter_timed_out (prompt : str) (h : M bool) (st : session) :
  except_timeout (_read_until d TimedOut prompt ;; ret true)%session h st =
  h st.
Proof. reflexivity. Qed.

(** The handler of the timeout: [exit], then two seconds for the parent
    prompt. *)
Lemma leave_skipped (o : wait_outcome) (prompt : str) (st : session) :
  accepts_writes d ->
  (_write d (lit "exit" ++ [LF]) ;; _read_until_2s d o prompt ;;
   ret false)%session st =
  (match o with
   | Seen => Ok false
   | TimedOut => Raise (Exn KTimeout [])
   | Broken e => Raise e
   end,
   match o with
   | Broken e =>
       if connection_lost d e
       then hung_up (after_writes st [lit "exit" ++ [LF]])
       else after_writes st [lit "exit" ++ [LF]]
   | _ => after_writes st [lit "exit" ++ [LF]]
   end).
Proof. intros Hw. forward. unfold bind. destruct o; reflexivity. Qed.

Lemma leave_skipped_value (o : wait_outcome) (prompt : str) (st : session) :
  fst ((_write d (lit "exit" ++ [LF]) ;; _read_until_2s d o prompt ;;
        ret false)%session st) =
  match o with
  | Seen => Ok false
  | TimedOut => Raise (Exn KTimeout [])
  | Broken e => Raise e
  end.
Proof.
  revert st. apply bind_write_value. intros st. unfold bind.
  destruct o; reflexivity.
Qed.

(** A skipped port, with every write accepted: the session gains the
    command and [exit], and the transport stays as it was unless the
    connection is lost while the parent prompt is awaited. *)
Lemma query_port_skipped (i : nat) (acc : list onu_item) (st : session) :
  accepts_writes d ->
  enter (port d i) = TimedOut ->
  query_port d i acc st =
  (skip_outcome d i acc,
   let st' := after_writes st [pon_command i ++ [LF]; lit "exit" ++ [LF]] in
   match back_after_skip (port d i) with
   | Broken e => if connection_lost d e then hung_up st' else st'
   | _ => st'
   end).
Proof.
  intros Hw Henter. unfold query_port, skip_outcome. forward.
  rewrite Henter. unfold bind at 1.
  rewrite try_enter_timed_out, leave_skipped by assumption.
  rewrite after_writes_app. cbn [app].
  destruct (back_after_skip (port d i)); reflexivity.
Qed.

(** A turn of the loop gives what the script of its port says, in
    whatever session it runs. *)
Lemma query_port_value (i : nat) (acc : list onu_item) (st : session) :
  fst (query_port d i acc st) = port_outcome d i acc.
Proof.
  revert st. unfold query_port, port_outcome, skip_outcome.
  apply bind_write_value.
  destruct (enter (port d i)) as [| |e] eqn:Henter.
  - intros st. erewrite bind_ok by apply try_enter_seen. cbv beta iota.
    revert st. apply bind_write_value. intros st.
    unfold bind at 1.
    pose proof (read_loop_value (pon_prompt i) (listing (port d i)) [] st)
      as Hl.
    fold (listed d i) in Hl.
    destruct (read_loop d (pon_prompt i) (listing (port d i)) [] st)
      as [[out|e] st1]; simpl in Hl; rewrite <- Hl; [|reflexivity].
    revert st1. apply bind_write_value. intros st1. unfold bind.
    destruct (back (port d i)); reflexivity.
  - intros st. unfold bind at 1. rewrite try_enter_timed_out.
    pose proof (leave_skipped_value (back_after_skip (port d i))
                  (lit "EPON(epon)#") st) as Hs.
    destruct ((_write d (lit "exit" ++ [LF]);;
               _read_until_2s d (back_after_skip (port d i))
                 (lit "EPON(epon)#");; ret false)%session st)
      as [[b|e] st1]; simpl in Hs;
      destruct (back_after_skip (port d i)); try discriminate;
      injection Hs as Hs; subst; reflexivity.
  - intros st. unfold bind at 1, except_timeout. cbn [_read_until].
    unfold bind at 1, broken at 1. destruct (is_timeout e).
    + match goal with
      | |- context [(_write d ?x;; ?k)%session ?s] =>
          pose proof (leave_skipped_value (back_after_skip (port d i))
                        (lit "EPON(epon)#") s) as Hs;
          destruct ((_write d x;; k)%session s) as [[b|e'] st1]
      end; simpl in Hs;
      destruct (back_after_skip (port d i)); try discriminate;
      injection Hs as Hs; subst; reflexivity.
    + reflexivity.
Qed.

(** What the body of the [try] returns once the device lets the adapter
    in. *)
Lemma fetch_all_value :
  lets_in d ->
  fst (fetch_all d username password fresh) =
  match port_outcome d 1 [] with
  | Ok acc =>
      match port_outcome d 2 acc with
      | Ok all_parsed_onus => Ok (FetchOnus all_parsed_onus)
      | Raise e => Raise e
      end
  | Raise e => Raise e
  end.
Proof.
  intros Hin. generalize fresh. unfold fetch_all, connect.
  assert (Hopen : forall st, fst (open d st) = Ok tt)
    by (intros st; unfold open; destruct Hin as [-> _]; reflexivity).
  assert (Hexp : forall prompt st, fst (expect d prompt st) = Ok tt)
    by (intros prompt st; now rewrite expect_seen).
  assert (Hlogin : forall st,
            fst (connect d username password st) = Ok tt).
  { unfold connect.
    repeat first
      [ apply bind_write_value
      | apply (@bind_value_ok unit unit _ _ tt);
        [first [exact Hopen | apply Hexp]|] ].
    apply Hexp. }
  apply (@bind_value_ok unit fetch_result _ _ tt); [exact Hlogin|].
  apply bind_write_value.
  apply (@bind_value_ok unit fetch_result _ _ tt); [apply Hexp|].
  apply bind_write_value.
  apply (@bind_value_ok unit fetch_result _ _ tt); [apply Hexp|].
  intros st. cbn [seq query_ports]. unfold bind at 1 2.
  pose proof (query_port_value 1 [] st) as H1.
  destruct (query_port d 1 [] st) as [[acc|e] st1]; simpl in H1; rewrite <- H1;
    [|reflexivity].
  unfold bind at 1.
  pose proof (query_port_value 2 acc st1) as H2.
  destruct (query_port d 2 acc st1) as [[all|e] st2]; simpl in H2;
    rewrite <- H2; reflexivity.
Qed.

(** [disconnect] never raises. *)
Lemma disconnect_value (st : session) : fst (disconnect d st) = Ok tt.
Proof.
  unfold disconnect. destruct (writer st); try reflexivity.
  unfold bind, _write. now destruct (write_fault d _).
Qed.

(** The [except] and the [finally] around the body. *)
Lemma get_onus_value :
  fst (get_onus d username password fresh) =
  Ok match fst (fetch_all d username password fresh) with
     | Ok r => r
     | Raise e => FetchError (error_text e)
     end.
Proof.
  unfold get_onus, finally, except_any.
  destruct (fetch_all d username password fresh) as [[r|e] st1]; cbn [ret fst].
  - pose proof (disconnect_value st1) as Hd.
    destruct (disconnect d st1) as [[[]|e] st2]; simpl in Hd;
      [reflexivity|discriminate].
  - pose proof (disconnect_value st1) as Hd.
    destruct (disconnect d st1) as [[[]|e'] st2]; simpl in Hd;
      [reflexivity|discriminate].
Qed.

(** The whole fetch, from what the scripts of the two ports say. *)
Lemma get_onus_outcome :
  lets_in d -> accepts_writes d ->
  fst (get_onus d username password fresh) =
  Ok match port_outcome d 1 [] with
     | Ok acc =>
         match port_outcome d 2 acc with
         | Ok all_parsed_onus => FetchOnus all_parsed_onus
         | Raise e => FetchError (error_text e)
         end
     | Raise e => FetchError (error_text e)
     end.
Proof.
  intros Hin _. rewrite get_onus_value, (fetch_all_value Hin).
  destruct (port_outcome d 1 []) as [acc|e]; [|reflexivity].
  destruct (port_outcome d 2 acc); reflexivity.
Qed.

(** With every write accepted, a read loop that returns leaves a
    session that has only gained the spaces sent. *)
Lemma read_loop_accepted (prompt : str) (events : list read_event) :
  accepts_writes d ->
  forall full st out,
    fst (read_loop d prompt events full fresh) = Ok out ->
    exists n,
      read_loop d prompt events full st =
      (Ok out, after_writes st (repeat (lit " ") n)).
Proof.
  intros Hw. induction events as [|ev events IH]; intros full st out.
  - simpl. intros [= <-]. exists 0. now rewrite after_writes_nil.
  - destruct ev as [chunk| |e].
    + destruct chunk as [|c chunk].
      * simpl. intros [= <-]. exists 0. now rewrite after_writes_nil.
      * cbn [read_loop]. unfold bind at 1 3.
        destruct (paging_detected (c :: chunk)).
        -- unfold bind at 1 2. rewrite !write_accepted by assumption.
           unfold ret at 1 3. destruct (contains prompt _).
           ++ intros [= <-]. exists 1. reflexivity.
           ++ intros H. rewrite read_loop_value in H.
              destruct (IH _ (after_writes st [lit " "]) out H) as [n Hn].
              exists (S n). rewrite Hn. now rewrite after_writes_app.
        -- unfold ret at 1 3. destruct (contains prompt _).
           ++ intros [= <-]. exists 0. unfold ret.
              now rewrite after_writes_nil.
           ++ apply IH.
    + simpl. intros [= <-]. exists 0. now rewrite after_writes_nil.
    + simpl. discriminate.
Qed.

(** A port that answers, with every write accepted: the command of the
    port, [show onu all], a space for each page break, and [exit]. *)
Lemma query_port_listed (i : nat) (acc : list onu_item) (st : session)
  (out : str) :
  accepts_writes d ->
  enter (port d i) = Seen -> listed d i = Ok out -> back (port d i) = Seen ->
  exists n,
    query_port d i acc st =
    (Ok (acc ++ HiosoParser._parse_onus out),
     after_writes st
       ([pon_command i ++ [LF]; lit "show onu all" ++ [LF]] ++
        repeat (lit " ") n ++ [lit "exit" ++ [LF]])).
Proof.
  intros Hw Henter Hout Hback. unfold query_port. forward. rewrite Henter.
  erewrite bind_ok by apply try_enter_seen. cbv beta iota. forward.
  destruct (read_loop_accepted (pon_prompt i) (listing (port d i)) Hw []
              (after_writes (after_writes st [pon_command i ++ [LF]])
                 [lit "show onu all" ++ [LF]]) Hout) as [n Hn].
  exists n. erewrite bind_ok by exact Hn. forward. rewrite Hback.
  unfold bind, _read_until, ret. rewrite !after_writes_app.
  reflexivity.
Qed.

(** The fetch from a device whose two ports answer. *)
Lemma get_onus_both_ports (out1 out2 : str) :
  lets_in d -> accepts_writes d ->
  enter (port d 1) = Seen -> listed d 1 = Ok out1 -> back (port d 1) = Seen ->
  enter (port d 2) = Seen -> listed d 2 = Ok out2 -> back (port d 2) = Seen ->
  exists n1 n2,
    get_onus d username password fresh =
    (Ok (FetchOnus
           (HiosoParser._parse_onus out1 ++ HiosoParser._parse_onus out2)),
     {| sent :=
          [username ++ [LF]; password ++ [LF]; [LF]; password ++ [LF];
           lit "enable" ++ [LF]; password ++ [LF];
           lit "configure terminal" ++ [LF]; lit "epon" ++ [LF]] ++
          [lit "pon 1/1" ++ [LF]; lit "show onu all" ++ [LF]] ++
          repeat (lit " ") n1 ++ [lit "exit" ++ [LF]] ++
          [lit "pon 1/2" ++ [LF]; lit "show onu all" ++ [LF]] ++
          repeat (lit " ") n2 ++ [lit "exit" ++ [LF]] ++
          [lit "exit" ++ [LF]];
        writer := WriterClosed |}).
Proof.
  intros Hin Hw He1 Ho1 Hb1 He2 Ho2 Hb2.
  unfold get_onus, finally, except_any, fetch_all.
  erewrite bind_ok by (apply connect_in; assumption).
  repeat forward. cbn [seq query_ports].
  match goal with
  | |- context [bind _ _ ?s] => set (s0 := s)
  end.
  destruct (@query_port_listed 1 [] s0 out1 Hw He1 Ho1 Hb1) as [n1 H1].
  match type of H1 with
  | _ = (Ok ?acc, ?s) =>
      destruct (@query_port_listed 2 acc s out2 Hw He2 Ho2 Hb2) as [n2 H2]
  end.
  exists n1, n2. unfold bind. rewrite H1, H2. cbn [ret app].
  unfold disconnect. cbn [writer after_writes s0].
  erewrite bind_ok by (apply write_accepted; assumption).
  unfold close, after_writes, s0. cbn [sent writer fresh app].
  do 2 f_equal. cbn [app].
  repeat (rewrite <- app_assoc; cbn [app]). reflexivity.
Qed.

End Hioso_session.

Section Hioso_skip.
Import HiosoTelnet.

(** C7. In the Hioso adapter, with the login done and the writes
    accepted, a timeout while the submenu of a PON port is entered makes
    the adapter leave that port with [exit] and go on: when the parent
    prompt comes back the turn adds no record and raises nothing, so the
    fetch returns the records of the other port (port 1/1 skipped: those
    of 1/2; port 1/2 skipped: those of 1/1).  Only when the parent prompt
    does not come back within the two seconds after the skip does the
    session end, with an error result and without the records already
    gathered.  The skip writes the command of the port and [exit], and
    leaves the transport as it was, unless the connection is lost while
    the parent prompt is awaited. *)
Theorem hioso_port_timeout_skips_the_port
  (d : device) (username password : str) :
  lets_in d -> accepts_writes d ->
  (forall i acc st,
      enter (port d i) = TimedOut ->
      exists st',
        query_port d i acc st =
        (match back_after_skip (port d i) with
         | Seen => Ok acc
         | TimedOut => Raise (Exn KTimeout [])
         | Broken e => Raise e
         end, st') /\
        sent st' = sent st ++ [pon_command i ++ [LF]; lit "exit" ++ [LF]] /\
        writer st' =
          match back_after_skip (port d i) with
          | Broken e =>
              if connection_lost d e then writer (hung_up st) else writer st
          | _ => writer st
          end) /\
  (forall out,
      enter (port d 1) = TimedOut -> back_after_skip (port d 1) = Seen ->
      enter (port d 2) = Seen -> listed d 2 = Ok out -> back (port d 2) = Seen ->
      fst (get_onus d username password fresh) =
      Ok (FetchOnus (HiosoParser._parse_onus out))) /\
  (forall out,
      enter (port d 1) = Seen -> listed d 1 = Ok out -> back (port d 1) = Seen ->
      enter (port d 2) = TimedOut -> back_after_skip (port d 2) = Seen ->
      fst (get_onus d username password fresh) =
      Ok (FetchOnus (HiosoParser._parse_onus out))) /\
  (enter (port d 1) = TimedOut -> back_after_skip (port d 1) = TimedOut ->
   fst (get_onus d username password fresh) =
   Ok (FetchError (lit "An exception of type TimeoutError occurred: "))) /\
  (forall out,
      enter (port d 1) = Seen -> listed d 1 = Ok out -> back (port d 1) = Seen ->
      enter (port d 2) = TimedOut -> back_after_skip (port d 2) = TimedOut ->
      fst (get_onus d username password fresh) =
      Ok (FetchError (lit "An exception of type TimeoutError occurred: "))).
Proof.
  intros Hin Hw.
  pose proof (get_onus_outcome username password Hin Hw) as Hall.
  unfold port_outcome, skip_outcome in Hall.
  split.
  { intros i acc st He. rewrite (@query_port_skipped d i acc st Hw He).
    unfold skip_outcome. cbv zeta. eexists. split; [reflexivity|].
    destruct (back_after_skip (port d i)) as [| |e];
      [split; reflexivity|split; reflexivity|].
    destruct (connection_lost d e); split; reflexivity. }
  split; [|split; [|split]].
  - intros out He1 Hb1 He2 Ho2 Hb2.
    now rewrite Hall, He1, Hb1, He2, Ho2, Hb2.
  - intros out He1 Ho1 Hb1 He2 Hb2.
    now rewrite Hall, He1, Ho1, Hb1, He2, Hb2.
  - intros He1 Hb1. now rewrite Hall, He1, Hb1.
  - intros out He1 Ho1 Hb1 He2 Hb2.
    now rewrite Hall, He1, Ho1, Hb1, He2, Hb2.
Qed.

End Hioso_skip.

(** ** Logout and release of the transport *)

Section Hioso_release.
Import HiosoTelnet.
Variable d : device.
Variables username password : str.






End Hioso_release.

(** ** Only the submenus of ports 1/1 and 1/2 are read *)

Section Hioso_two_ports.
Import HiosoTelnet.
Variables d d' : device.
Variables username password : str.
Hypothesis same_open : open_connection d = open_connection d'.
Hypothesis same_menu : forall prompt, menu d prompt = menu d' prompt.
Hypothesis same_faults : forall n, write_fault d n = write_fault d' n.
Hypothesis same_lost : forall e, connection_lost d e = connection_lost d' e.

Lemma bind_same (A B : Type) (m m' : M A) (k k' : A -> M B) :
  (forall st, m st = m' st) -> (forall a st, k a st = k' a st) ->
  forall st, bind m k st = bind m' k' st.
Proof.
  intros Hm Hk st. unfold bind. rewrite Hm.
  destruct (m' st) as [[a|e] st']; [apply Hk|reflexivity].
Qed.

Lemma write_same (data : str) (st : session) : _write d data st = _write d' data st.
Proof. unfold _write. now rewrite same_faults. Qed.

Lemma expect_same (prompt : str) (st : session) :
  expect d prompt st = expect d' prompt st.
Proof.
  unfold expect. rewrite same_menu.
  destruct (menu d' prompt); try reflexivity. unfold _read_until.
  unfold broken. now rewrite same_lost.
Qed.

Lemma broken_same (A : Type) (e : exn) (st : session) :
  @broken d A e st = @broken d' A e st.
Proof. unfold broken. now rewrite same_lost. Qed.

Lemma read_until_same (o : wait_outcome) (prompt : str) (st : session) :
  _read_until d o prompt st = _read_until d' o prompt st.
Proof. destruct o; try reflexivity. apply broken_same. Qed.

Lemma read_until_2s_same (o : wait_outcome) (prompt : str) (st : session) :
  _read_until_2s d o prompt st = _read_until_2s d' o prompt st.
Proof. destruct o; try reflexivity. apply broken_same. Qed.

Lemma read_loop_same (prompt : str) (events : list read_event) :
  forall full st,
    read_loop d prompt events full st = read_loop d' prompt events full st.
Proof.
  induction events as [|ev events IH]; intros full st; [reflexivity|].
  destruct ev as [[|c chunk]| |e]; try reflexivity; [|apply broken_same].
  cbn [read_loop]. apply bind_same.
  - intros st0. destruct (paging_detected (c :: chunk)); [|reflexivity].
    apply bind_same; [apply write_same|reflexivity].
  - intros out st0. destruct (contains prompt out); [reflexivity|apply IH].
Qed.

Lemma query_port_same (i : nat) (acc : list onu_item) (st : session) :
  port d i = port d' i ->
  query_port d i acc st = query_port d' i acc st.
Proof.
  intros Hp. unfold query_port. rewrite Hp.
  apply bind_same; [apply write_same|]. intros _ st0.
  apply bind_same.
  - intros st1. unfold except_timeout.
    rewrite (bind_same (_read_until d (enter (port d' i)) (pon_prompt i))
               (_read_until d' (enter (port d' i)) (pon_prompt i))
               (fun _ => ret true) (fun _ => ret true))
      by (intros; first [apply read_until_same|reflexivity]).
    destruct ((_read_until d' (enter (port d' i)) (pon_prompt i);;
               ret true)%session st1)
      as [[b|e] st2]; [reflexivity|].
    destruct (is_timeout e); [|reflexivity].
    apply bind_same; [apply write_same|]. intros _ st3.
    apply bind_same; [apply read_until_2s_same|reflexivity].
  - intros [|] st1; [|reflexivity].
    apply bind_same; [apply write_same|]. intros _ st2.
    apply bind_same; [apply read_loop_same|]. intros out st3.
    apply bind_same; [apply write_same|]. intros _ st4.
    apply bind_same; [apply read_until_same|reflexivity].
Qed.

Lemma connect_same (st : session) :
  connect d username password st = connect d' username password st.
Proof.
  unfold connect.
  repeat (apply bind_same;
          [ first [ intros; apply write_same | intros; apply expect_same
                  | intros st0; unfold open; now rewrite same_open ]
          | intros _ ]).
  intros st0. apply expect_same.
Qed.

Lemma disconnect_same (st : session) : disconnect d st = disconnect d' st.
Proof.
  unfold disconnect. destruct (writer st); try reflexivity.
  apply bind_same; [apply write_same|reflexivity].
Qed.

(** The fetch reads the script of no port but 1/1 and 1/2. *)
Lemma get_onus_same :
  port d 1 = port d' 1 -> port d 2 = port d' 2 ->
  forall st, get_onus d username password st = get_onus d' username password st.
Proof.
  intros H1 H2 st. unfold get_onus, finally, except_any.
  assert (Hbody : forall st0,
            fetch_all d username password st0 = fetch_all d' username password st0).
  { intros st0. unfold fetch_all.
    apply bind_same; [apply connect_same|]. intros _.
    apply bind_same; [apply write_same|]. intros _.
    apply bind_same; [apply expect_same|]. intros _.
    apply bind_same; [apply write_same|]. intros _.
    apply bind_same; [apply expect_same|]. intros _.
    apply bind_same; [|reflexivity]. intros st1. cbn [seq query_ports].
    apply bind_same; [intros; now apply query_port_same|]. intros acc.
    apply bind_same; [intros; now apply query_port_same|reflexivity]. }
  rewrite Hbody.
  destruct (fetch_all d' username password st) as [[r|e] st1].
  - now rewrite disconnect_same.
  - unfold ret. now rewrite disconnect_same.
Qed.

End Hioso_two_ports.

Section Hioso_provenance.
Import HiosoTelnet.

Lemma port_outcome_In (d : device) (i : nat) (acc all : list onu_item) :
  port_outcome d i acc = Ok all ->
  forall r, In r all ->
    In r acc \/ exists out, listed d i = Ok out /\ In r (HiosoParser._parse_onus out).
Proof.
  unfold port_outcome, skip_outcome. intros H r Hr.
  destruct (enter (port d i)) as [| |e].
  - destruct (listed d i) as [out|e]; [|discriminate].
    destruct (back (port d i)); try discriminate.
    injection H as <-. apply in_app_or in Hr as [Hr|Hr]; eauto.
  - destruct (back_after_skip (port d i)); try discriminate.
    injection H as <-. now left.
  - destruct (is_timeout e); [|discriminate].
    destruct (back_after_skip (port d i)); try discriminate.
    injection H as <-. now left.
Qed.

Lemma get_onus_provenance (d : device) (username password : str)
  (rs : list onu_item) :
  lets_in d -> accepts_writes d ->
  fst (get_onus d username password fresh) = Ok (FetchOnus rs) ->
  forall r, In r rs ->
    exists i out,
      (i = 1 \/ i = 2) /\ listed d i = Ok out /\
      In r (HiosoParser._parse_onus out).
Proof.
  intros Hin Hw Hres r Hr.
  rewrite (get_onus_outcome username password Hin Hw) in Hres.
  destruct (port_outcome d 1 []) as [acc|e] eqn:H1; [|discriminate].
  destruct (port_outcome d 2 acc) as [all|e] eqn:H2; [|discriminate].
  injection Hres as <-.
  destruct (port_outcome_In _ _ _ H2 r Hr) as [Hacc|(out & Ho & Hin2)].
  - destruct (port_outcome_In _ _ _ H1 r Hacc) as [[]|(out & Ho & Hin1)].
    exists 1, out. auto.
  - exists 2, out. auto.
Qed.

End Hioso_provenance.

(** ** What the Hioso parser emits *)

Section Hioso_parser.
Import HiosoParser.

Lemma parse_lines_In (lines : list str) (r : onu_item) :
  In r (parse_lines lines) <->
  exists line, In line lines /\ parse_line line = Some r.
Proof.
  induction lines as [|l lines IH]; simpl.
  - split; [tauto | intros (? & [] & _)].
  - destruct (parse_line l) as [r0|] eqn:Hl; simpl; rewrite IH; split.
    + intros [<-|(line & Hin & Hp)]; eauto.
    + intros (line & [<-|Hin] & Hp); [left; congruence | right; eauto].
    + intros (line & Hin & Hp). eauto.
    + intros (line & [<-|Hin] & Hp); [congruence | eauto].
Qed.

(** A record comes from a line that fits the grammar, and copies its
    columns. *)
Lemma parse_line_Some (line : str) (r : onu_item) :
  parse_line line = Some r ->
  exists rest caps,
    match_at onu_pattern (clean_line line) = Some (rest, caps) /\
    r = record_of caps.
Proof.
  unfold parse_line. destruct (clean_line line) as [|c l]; [discriminate|].
  destruct (match_at onu_pattern (c :: l)) as [[rest caps]|]; [|discriminate].
  intros [= <-]. eauto.
Qed.

(** A line that does not fit the grammar gives no record. *)
Lemma parse_line_no_match (line : str) :
  match_at onu_pattern (clean_line line) = None -> parse_line line = None.
Proof.
  unfold parse_line. destruct (clean_line line) as [|c l]; [reflexivity|].
  now intros ->.
Qed.

Lemma parse_onus_In (raw : str) (r : onu_item) :
  In r (_parse_onus raw) ->
  exists line rest caps,
    In line (splitlines (sub paging_banner [LF] raw)) /\
    match_at onu_pattern (clean_line line) = Some (rest, caps) /\
    r = record_of caps.
Proof.
  unfold _parse_onus. intros H. apply parse_lines_In in H as (line & Hin & Hp).
  apply parse_line_Some in Hp as (rest & caps & Hm & ->). eauto 6.
Qed.

End Hioso_parser.

Section Hioso_ports_claim.
Import HiosoTelnet.

(** C10 (as amended). The Hioso fetch enters the submenus of ports 1/1
    and 1/2, in this order, and no other.  From a device that lets the
    adapter in, accepts its writes and answers in both submenus, it returns
    the records of 1/1 followed by those of 1/2, and what it has written is
    the login, [configure terminal], [epon], then for 1/1 and for 1/2 the
    command of the port, [show onu all], a space for each page break and
    [exit], and at last the logout.  Two devices that differ only in what
    their other ports would answer give the same fetch, so nothing attached
    to another port can reach the result.  Every record returned was parsed
    from a line the device printed inside the submenu of 1/1 or of 1/2, and
    its interface locator is the ONU id column of that line as printed; it
    is on port 1/1 or 1/2 whenever the device lists, inside the submenu of
    a port, ONU ids of that port only. *)
Theorem hioso_fetch_reads_ports_1_and_2_only :
  (forall (d : device) (username password out1 out2 : str),
      lets_in d -> accepts_writes d ->
      enter (port d 1) = Seen -> listed d 1 = Ok out1 ->
      back (port d 1) = Seen ->
      enter (port d 2) = Seen -> listed d 2 = Ok out2 ->
      back (port d 2) = Seen ->
      exists n1 n2,
        get_onus d username password fresh =
        (Ok (FetchOnus
               (HiosoParser._parse_onus out1 ++
                HiosoParser._parse_onus out2)),
         {| sent :=
              [username ++ [LF]; password ++ [LF]; [LF]; password ++ [LF];
               lit "enable" ++ [LF]; password ++ [LF];
               lit "configure terminal" ++ [LF]; lit "epon" ++ [LF]] ++
              [lit "pon 1/1" ++ [LF]; lit "show onu all" ++ [LF]] ++
              repeat (lit " ") n1 ++ [lit "exit" ++ [LF]] ++
              [lit "pon 1/2" ++ [LF]; lit "show onu all" ++ [LF]] ++
              repeat (lit " ") n2 ++ [lit "exit" ++ [LF]] ++
              [lit "exit" ++ [LF]];
            writer := WriterClosed |})) /\
  (forall (d d' : device) (username password : str),
      open_connection d = open_connection d' ->
      (forall prompt, menu d prompt = menu d' prompt) ->
      (forall n, write_fault d n = write_fault d' n) ->
      (forall e, connection_lost d e = connection_lost d' e) ->
      port d 1 = port d' 1 -> port d 2 = port d' 2 ->
      get_onus d username password fresh = get_onus d' username password fresh) /\
  (forall (d : device) (username password : str) (rs : list onu_item),
      lets_in d -> accepts_writes d ->
      fst (get_onus d username password fresh) = Ok (FetchOnus rs) ->
      forall r, In r rs ->
        exists i out line rest caps,
          (i = 1 \/ i = 2) /\ listed d i = Ok out /\
          In line (splitlines (sub HiosoParser.paging_banner [LF] out)) /\
          match_at HiosoParser.onu_pattern (HiosoParser.clean_line line) =
            Some (rest, caps) /\
          r = HiosoParser.record_of caps /\
          pon_interface r = HiosoParser.grp 1 caps) /\
  (forall (d : device) (username password : str) (rs : list onu_item),
      lets_in d -> accepts_writes d ->
      fst (get_onus d username password fresh) = Ok (FetchOnus rs) ->
      (forall i out r,
          i = 1 \/ i = 2 -> listed d i = Ok out ->
          In r (HiosoParser._parse_onus out) -> on_port i (pon_interface r)) ->
      forall r, In r rs ->
        on_port 1 (pon_interface r) \/ on_port 2 (pon_interface r)).
Proof.
  split; [|split; [|split]].
  - intros d u p out1 out2 Hin Hw He1 Ho1 Hb1 He2 Ho2 Hb2.
    now apply get_onus_both_ports.
  - intros d d' u p Ho Hm Hf Hl H1 H2. now apply get_onus_same.
  - intros d u p rs Hin Hw Hres r Hr.
    destruct (get_onus_provenance u p Hin Hw Hres r Hr)
      as (i & out & Hi & Hout & Hp).
    destruct (parse_onus_In _ _ Hp) as (line & rest & caps & Hl & Hm & ->).
    exists i, out, line, rest, caps. repeat split; assumption.
  - intros d u p rs Hin Hw Hres Hhonest r Hr.
    destruct (get_onus_provenance u p Hin Hw Hres r Hr)
      as (i & out & [-> | ->] & Hout & Hp); [left|right];
      eapply Hhonest; eauto.
Qed.

(** C10, counterexample: the locator of a record is the one the device
    printed, on whatever port that is. *)
Lemma hioso_fetch_keeps_the_printed_locator :
  exists r,
    fst (get_onus Examples.misfiling_device (lit "admin") (lit "secret") fresh) =
      Ok (FetchOnus [r]) /\
    pon_interface r = lit "1/3:5" /\
    ~ (on_port 1 (pon_interface r) \/ on_port 2 (pon_interface r)).
Proof.
  eexists. split; [vm_compute; reflexivity|]. split; [reflexivity|].
  intros [H|H]; vm_compute in H; discriminate H.
Qed.

End Hioso_ports_claim.

Lemma hioso_fetch_both_ports_witness :
  exists n1 n2,
    map pon_interface
      (match fst (HiosoTelnet.get_onus Examples.two_port_device (lit "admin")
                    (lit "secret") HiosoTelnet.fresh) with
       | Ok (FetchOnus rs) => rs
       | _ => []
       end) = [lit "1/1:1"; lit "1/1:2"; lit "1/2:1"] /\
    HiosoTelnet.sent
      (snd (HiosoTelnet.get_onus Examples.two_port_device (lit "admin")
              (lit "secret") HiosoTelnet.fresh)) =
      [lit "admin" ++ [LF]; lit "secret" ++ [LF]; [LF]; lit "secret" ++ [LF];
       lit "enable" ++ [LF]; lit "secret" ++ [LF];
       lit "configure terminal" ++ [LF]; lit "epon" ++ [LF]] ++
      [lit "pon 1/1" ++ [LF]; lit "show onu all" ++ [LF]] ++
      repeat (lit " ") n1 ++ [lit "exit" ++ [LF]] ++
      [lit "pon 1/2" ++ [LF]; lit "show onu all" ++ [LF]] ++
      repeat (lit " ") n2 ++ [lit "exit" ++ [LF]] ++
      [lit "exit" ++ [LF]].
Proof.
  assert (Hin : lets_in Examples.two_port_device)
    by (split; [reflexivity | intros; reflexivity]).
  assert (Hw : accepts_writes Examples.two_port_device)
    by (intros n; reflexivity).
  destruct hioso_fetch_reads_ports_1_and_2_only as (H & _).
  destruct (H Examples.two_port_device (lit "admin") (lit "secret") _ _
              Hin Hw eq_refl eq_refl eq_refl eq_refl eq_refl eq_refl)
    as (n1 & n2 & E).
  exists n1, n2. rewrite E. split; [vm_compute; reflexivity|reflexivity].
Defined.

Lemma hioso_port_timeout_witness :
  exists r,
    fst (HiosoTelnet.get_onus Examples.one_port_device (lit "admin")
           (lit "secret") HiosoTelnet.fresh) = Ok (FetchOnus [r]) /\
    pon_interface r = lit "1/2:1".
Proof.
  assert (Hin : lets_in Examples.one_port_device)
    by (split; [reflexivity | intros; reflexivity]).
  assert (Hw : accepts_writes Examples.one_port_device)
    by (intros n; reflexivity).
  destruct (@hioso_port_timeout_skips_the_port Examples.one_port_device
              (lit "admin") (lit "secret") Hin Hw) as (_ & H & _).
  eexists. split.
  - rewrite (H _ eq_refl eq_refl eq_refl eq_refl eq_refl). vm_compute. reflexivity.
  - reflexivity.
Defined.

(** The connection drops as the logout command is written, or while the
    password prompt is awaited: the fetch returns, and the transport is
    closing.  After the loss nothing more is written. *)
Example hioso_release_after_a_lost_connection :
  HiosoTelnet.get_onus Examples.reset_at_logout (lit "admin") (lit "secret")
    HiosoTelnet.fresh =
  (Ok (FetchOnus []),
   {| HiosoTelnet.sent :=
        [lit "admin" ++ [LF]; lit "secret" ++ [LF]; [LF];
         lit "secret" ++ [LF]; lit "enable" ++ [LF]; lit "secret" ++ [LF];
         lit "configure terminal" ++ [LF]; lit "epon" ++ [LF];
         lit "pon 1/1" ++ [LF]; lit "show onu all" ++ [LF];
         lit "exit" ++ [LF];
         lit "pon 1/2" ++ [LF]; lit "show onu all" ++ [LF];
         lit "exit" ++ [LF];
         lit "exit" ++ [LF]];
      HiosoTelnet.writer := HiosoTelnet.WriterClosed |}) /\
  HiosoTelnet.get_onus Examples.hangs_up_at_password (lit "admin")
    (lit "secret") HiosoTelnet.fresh =
  (Ok (FetchError
         (lit "An exception of type IncompleteReadError occurred: " ++
          lit "0 bytes read on a total of undefined expected bytes")),
   {| HiosoTelnet.sent := [lit "admin" ++ [LF]];
      HiosoTelnet.writer := HiosoTelnet.WriterClosed |}).
Proof. split; vm_compute; reflexivity. Qed.

(** ** Identifiers of the emitted records *)

Section Identifiers.

Lemma lower_char_idempotent (c : ascii) :
  lower_char (lower_char c) = lower_char c.
Proof. destruct c as [[] [] [] [] [] [] [] []]; reflexivity. Qed.

Lemma lower_idempotent (s : str) : case_normalized (lower s).
Proof.
  unfold case_normalized, lower. rewrite map_map.
  apply map_ext. intros c. apply lower_char_idempotent.
Qed.

Lemma pairs_map (f : ascii -> ascii) (s : str) :
  pairs (map f s) = map (map f) (pairs s).
Proof.
  assert (H : forall n s, length s <= n ->
            pairs (map f s) = map (map f) (pairs s)).
  { clear s. induction n as [|n IH]; intros s Hn.
    - destruct s; [reflexivity | simpl in Hn; lia].
    - destruct s as [|a [|b s]]; try reflexivity.
      simpl in Hn. simpl. f_equal. apply IH. lia. }
  apply (H (length s)). lia.
Qed.

Lemma lower_join (sep : str) (parts : list str) :
  lower (join sep parts) = join (lower sep) (map lower parts).
Proof.
  induction parts as [|p parts IH]; [reflexivity|].
  destruct parts as [|q parts]; [reflexivity|].
  change (join sep (p :: q :: parts)) with (p ++ sep ++ join sep (q :: parts)).
  unfold lower at 1. rewrite !map_app. fold (lower p) (lower sep).
  fold (lower (join sep (q :: parts))). rewrite IH. reflexivity.
Qed.

Lemma lower_join_pairs (s : str) :
  lower (join (lit ":") (pairs s)) = join (lit ":") (pairs (lower s)).
Proof. rewrite lower_join. unfold lower at 3. now rewrite pairs_map. Qed.

Lemma length_join_pairs_12 (s : str) :
  length s = 12 -> length (join (lit ":") (pairs s)) = 17.
Proof.
  do 12 (destruct s as [|? s]; [discriminate|]).
  destruct s; [reflexivity|discriminate].
Qed.

Lemma hex_only_is_hex (mac : str) :
  Forall (fun c => is_hex c = true) (HiosoParser.hex_only mac).
Proof.
  unfold HiosoParser.hex_only. apply Forall_forall. intros c Hc.
  now apply filter_In in Hc.
Qed.

Lemma epon_records_of_In (float_centi : str -> option str)
  (onus_by_index : PyDict.dict (PyDict.dict str)) (r : onu_item) :
  In r (HsgqEponSnmp.records_of float_centi onus_by_index) ->
  exists index data,
    In (index, data) onus_by_index /\
    HsgqEponSnmp.record_of float_centi index data = Some r.
Proof.
  induction onus_by_index as [|[index data] rest IH]; simpl; [tauto|].
  destruct (HsgqEponSnmp.record_of float_centi index data) as [r0|] eqn:Hr.
  - intros [<-|H]; [eauto|]. destruct (IH H) as (i & dt & Hin & Hrec). eauto.
  - intros H. destruct (IH H) as (i & dt & Hin & Hrec). eauto.
Qed.

(** What the EPON correlator asks of an index before it emits a record,
    and the identifier it gives it. *)
Lemma epon_record_of_Some (float_centi : str -> option str) (index : str)
  (data : PyDict.dict str) (r : onu_item) :
  HsgqEponSnmp.record_of float_centi index data = Some r ->
  exists raw_mac,
    PyDict.get (lit "mac_address") data = Some raw_mac /\
    raw_mac <> [] /\
    length (HsgqEponSnmp.clean_mac raw_mac) = 12 /\
    identifier r =
      join (lit ":") (pairs (HsgqEponSnmp.clean_mac raw_mac)).
Proof.
  unfold HsgqEponSnmp.record_of.
  destruct (PyDict.get (lit "mac_address") data) as [[|c raw]|]; try discriminate.
  destruct (length (HsgqEponSnmp.clean_mac (c :: raw)) =? 12) eqn:Hlen;
    [|discriminate].
  destruct (HsgqEponSnmp.powers float_centi data) as [tx rx].
  intros [= <-]. exists (c :: raw). repeat split; try discriminate.
  now apply Nat.eqb_eq.
Qed.

Lemma epon_record_of_None (float_centi : str -> option str) (index : str)
  (data : PyDict.dict str) :
  match PyDict.get (lit "mac_address") data with
  | None => True
  | Some raw_mac =>
      raw_mac = [] \/ length (HsgqEponSnmp.clean_mac raw_mac) <> 12
  end ->
  HsgqEponSnmp.record_of float_centi index data = None.
Proof.
  unfold HsgqEponSnmp.record_of.
  destruct (PyDict.get (lit "mac_address") data) as [[|c raw]|];
    try reflexivity.
  intros [H|H]; [discriminate|].
  destruct (length (HsgqEponSnmp.clean_mac (c :: raw)) =? 12) eqn:Hlen;
    [|reflexivity].
  apply Nat.eqb_eq in Hlen. contradiction.
Qed.

(** C4 (as amended). Every record the Hioso parser emits comes from a
    line that fits the column grammar, and its identifier is the MAC column
    of that line with every character that is no hexadecimal digit removed:
    hexadecimal digits only, in the letter case the device printed, without
    separators; a line that does not fit the grammar gives no record.
    Every record the HSGQ EPON correlator emits comes from an index whose
    MAC address is present, not empty, and 12 characters long once [0x],
    blanks and colons are removed; its identifier is that text in lower
    case as six pairs joined by colons, 17 characters; an index whose MAC
    address is missing, empty or of another length gives no record. *)
Theorem emitted_identifiers :
  (forall (raw : str) (r : onu_item),
      In r (HiosoParser._parse_onus raw) ->
      exists line rest caps,
        In line (splitlines (sub HiosoParser.paging_banner [LF] raw)) /\
        match_at HiosoParser.onu_pattern (HiosoParser.clean_line line) =
          Some (rest, caps) /\
        identifier r = HiosoParser.hex_only (HiosoParser.grp 2 caps) /\
        Forall (fun c => is_hex c = true) (identifier r)) /\
  (forall line : str,
      match_at HiosoParser.onu_pattern (HiosoParser.clean_line line) = None ->
      HiosoParser.parse_line line = None) /\
  (forall (float_centi : str -> option str)
          (onus_by_index : PyDict.dict (PyDict.dict str)) (r : onu_item),
      In r (HsgqEponSnmp.records_of float_centi onus_by_index) ->
      exists index data raw_mac,
        In (index, data) onus_by_index /\
        PyDict.get (lit "mac_address") data = Some raw_mac /\
        raw_mac <> [] /\
        length (HsgqEponSnmp.clean_mac raw_mac) = 12 /\
        identifier r =
          join (lit ":") (pairs (HsgqEponSnmp.clean_mac raw_mac)) /\
        length (identifier r) = 17 /\
        case_normalized (identifier r)) /\
  (forall (float_centi : str -> option str) (index : str)
          (data : PyDict.dict str),
      match PyDict.get (lit "mac_address") data with
      | None => True
      | Some raw_mac =>
          raw_mac = [] \/ length (HsgqEponSnmp.clean_mac raw_mac) <> 12
      end ->
      HsgqEponSnmp.record_of float_centi index data = None).
Proof.
  split; [|split; [|split]].
  - intros raw r Hr.
    destruct (parse_onus_In _ _ Hr) as (line & rest & caps & Hl & Hm & ->).
    exists line, rest, caps. repeat split; try assumption.
    apply hex_only_is_hex.
  - apply parse_line_no_match.
  - intros fc obi r Hr.
    destruct (epon_records_of_In _ _ _ Hr) as (index & data & Hin & Hrec).
    destruct (epon_record_of_Some _ _ _ Hrec) as (raw & Hg & Hne & Hlen & Hid).
    exists index, data, raw. repeat split; try assumption.
    + rewrite Hid. now apply length_join_pairs_12.
    + rewrite Hid. unfold case_normalized. rewrite lower_join_pairs.
      unfold HsgqEponSnmp.clean_mac.
      now rewrite (lower_idempotent _).
  - intros. now apply epon_record_of_None.
Qed.

(** C4, counterexample: the Hioso parser keeps the letter case of the MAC
    column, so two spellings of one address give two identifiers, none of
    them colon-separated; and a MAC column made of separators alone gives a
    record whose identifier is empty. *)
Lemma hioso_identifier_keeps_case :
  map identifier
    (HiosoParser._parse_onus (Examples.onu_line "1/1:13" "98C7A4.5E30B8")) =
    [lit "98C7A45E30B8"] /\
  map identifier
    (HiosoParser._parse_onus (Examples.onu_line "1/1:13" "98c7a4.5e30b8")) =
    [lit "98c7a45e30b8"] /\
  ~ case_normalized (lit "98C7A45E30B8") /\
  map identifier
    (HiosoParser._parse_onus (Examples.onu_line "1/1:13" "-")) = [[]].
Proof.
  repeat split; try (vm_compute; reflexivity).
  intros H. vm_compute in H. discriminate H.
Qed.

(** The EPON correlator on an agent with three MAC values: both
    spellings of an address are brought to one form, the value that is no
    address is dropped. *)
Example epon_correlator_on_three_macs :
  match
    HsgqEponSnmp.get_onus Examples.no_float HsgqEponSnmp.get_fallback_oids
      Examples.mac_agent
  with
  | FetchOnus onus => map identifier onus
  | FetchError _ => []
  end = [lit "98:c7:a4:5e:30:b8"; lit "98:c7:a4:5e:30:b9"].
Proof. vm_compute. reflexivity. Qed.

End Identifiers.

(** ** Backtracking over character classes *)

Section Greedy.
Variable A : Type.

(** A greedy repetition takes the whole run when what follows cannot
    start with a character of the class. *)
Lemma star_k_greedy (p : ascii -> bool) (k : str -> option A)
  (ds rest : str) :
  Forall (fun c => p c = true) ds ->
  (forall c t, p c = true -> k (c :: t) = None) ->
  match rest with c :: _ => p c = false | [] => True end ->
  star_k p (ds ++ rest) k = k rest.
Proof.
  intros Hds Hk Hrest. induction Hds as [|d ds Hd _ IH]; simpl.
  - destruct rest as [|c t]; [reflexivity|]. simpl. now rewrite Hrest.
  - rewrite Hd, IH. destruct (k rest) eqn:E; [reflexivity|].
    now apply Hk.
Qed.

Lemma run_Lit (a s : str) (caps : captures)
  (k : str -> captures -> option A) :
  run (Lit a) s caps k =
  if starts_with a s then k (skipn (length a) s) caps else None.
Proof.
  revert s. induction a as [|x a IH]; intros s; [reflexivity|].
  destruct s as [|y s]; [reflexivity|].
  cbn [Lit run Chr starts_with length skipn]. unfold is_char.
  destruct (Ascii.eqb x y); [apply IH|reflexivity].
Qed.

End Greedy.

Lemma starts_with_split (a s : str) :
  starts_with a s = true -> s = a ++ skipn (length a) s.
Proof.
  revert s. induction a as [|x a IH]; intros s; [reflexivity|].
  destruct s as [|y s]; [discriminate|]. simpl.
  intros H. apply andb_true_iff in H as [Hxy H].
  apply Ascii.eqb_eq in Hxy as ->. f_equal. now apply IH.
Qed.

Lemma starts_with_app (a t : str) : starts_with a (a ++ t) = true.
Proof.
  induction a as [|x a IH]; [reflexivity|]. simpl.
  now rewrite Ascii.eqb_refl, IH.
Qed.

(** ** The index of an OID *)

Section Oid_index.
Import HsgqSnmp.

Lemma digit_not_dot (c : ascii) : is_digit c = true -> is_char "." c = false.
Proof. destruct c as [[] [] [] [] [] [] [] []]; vm_compute; congruence. Qed.

Lemma digit_not_newline (c : ascii) : is_digit c = true -> (code c =? 10) = false.
Proof. destruct c as [[] [] [] [] [] [] [] []]; vm_compute; congruence. Qed.

Lemma dot_not_digit (c : ascii) : is_char "." c = true -> is_digit c = false.
Proof. destruct c as [[] [] [] [] [] [] [] []]; vm_compute; congruence. Qed.

(** The text of an OID: digits and dots. *)
Let oid_text (s : str) : Prop :=
  Forall (fun c => is_digit c = true \/ c = "."%char) s.

Let found (i : nat) (n : str) : option (str * captures) := Some ([], [(i, n)]).

Lemma firstn_run (ds rest : str) :
  firstn (length (ds ++ rest) - length rest) (ds ++ rest) = ds.
Proof.
  rewrite length_app, Nat.add_sub. rewrite firstn_app, Nat.sub_diag.
  rewrite firstn_all. simpl. apply app_nil_r.
Qed.

(** The first alternative, [\.(\d+)$], at a dot followed by a number. *)
Lemma first_alternative_at_dot (n rest : str) :
  is_number n ->
  match rest with c :: _ => is_digit c = false | [] => True end ->
  match_at onu_index_pattern ("."%char :: n ++ rest) =
  match rest with
  | [] => found 1 n
  | [c] => if code c =? 10 then Some ([c], [(1, n)]) else None
  | _ => None
  end.
Proof.
  intros [Hne Hd] Hrest. destruct n as [|c ds]; [contradiction|].
  inversion Hd as [|? ? Hc Hds]; subst.
  unfold match_at, onu_index_pattern. cbn [seqs run Chr is_char].
  change (Ascii.eqb "." ".") with true. cbv iota.
  cbn [app]. rewrite Hc.
  rewrite star_k_greedy with (rest := rest); try assumption.
  - change (c :: ds ++ rest) with ((c :: ds) ++ rest).
    rewrite firstn_run. cbn [run].
    change (is_char "." ".") with true. change (is_digit ".") with false.
    cbv iota. destruct rest as [|x [|y rest]]; try reflexivity.
    destruct (code x =? 10); reflexivity.
  - intros x t Hx. cbn [run].
    destruct t; [now rewrite (digit_not_newline _ Hx)|reflexivity].
Qed.

Let sentinel (T : str) : bool :=
  streq T (lit "0.0") || streq T (lit "65535.65535").

Let at_end (s : str) (caps : captures) : option (str * captures) :=
  match s with
  | [] => Some (s, caps)
  | [c] => if code c =? 10 then Some (s, caps) else None
  | _ => None
  end.

Lemma at_end_oid_text (s : str) (caps : captures) :
  oid_text s -> at_end s caps = match s with [] => Some ([], caps) | _ => None end.
Proof.
  intros H. destruct s as [|x [|y s]]; try reflexivity.
  inversion H as [|? ? [Hx| ->] _]; subst; simpl.
  - now rewrite (digit_not_newline _ Hx).
  - reflexivity.
Qed.

Lemma streq_starts_with (a s : str) : streq s a = true -> starts_with a s = true.
Proof.
  intros H. apply streq_eq in H as ->.
  rewrite <- (app_nil_r a) at 2. apply starts_with_app.
Qed.

(** The tail [(?:0\.0|65535\.65535)$] *)
Lemma sentinel_tail (T : str) (caps : captures) :
  oid_text T ->
  match
    (if starts_with (lit "0.0") T
     then at_end (skipn (length (lit "0.0")) T) caps else None)
  with
  | Some x => Some x
  | None =>
      if starts_with (lit "65535.65535") T
      then at_end (skipn (length (lit "65535.65535")) T) caps else None
  end = if sentinel T then Some ([], caps) else None.
Proof.
  intros HT. unfold sentinel.
  destruct (starts_with (lit "0.0") T) eqn:H0.
  - pose proof (starts_with_split _ _ H0) as Hs.
    assert (Ht : oid_text (skipn (length (lit "0.0")) T)).
    { unfold oid_text in *. rewrite Hs in HT. apply Forall_app in HT. tauto. }
    rewrite at_end_oid_text by exact Ht.
    destruct (skipn (length (lit "0.0")) T) as [|x t] eqn:Hk.
    + rewrite Hs. reflexivity.
    + rewrite Hs. cbn. reflexivity.
  - destruct (streq T (lit "0.0")) eqn:E0.
    { apply streq_starts_with in E0. congruence. }
    destruct (starts_with (lit "65535.65535") T) eqn:H6.
    + pose proof (starts_with_split _ _ H6) as Hs.
      assert (Ht : oid_text (skipn (length (lit "65535.65535")) T)).
      { unfold oid_text in *. rewrite Hs in HT. apply Forall_app in HT. tauto. }
      rewrite at_end_oid_text by exact Ht.
      destruct (skipn (length (lit "65535.65535")) T) as [|x t] eqn:Hk.
      * rewrite Hs. reflexivity.
      * rewrite Hs. cbn. reflexivity.
    + destruct (streq T (lit "65535.65535")) eqn:E6; [|reflexivity].
      apply streq_starts_with in E6. congruence.
Qed.

(** The pattern at the first character of a number. *)
Lemma match_at_number (n rest : str) :
  is_number n ->
  match rest with
  | c :: T => is_digit c = false /\ oid_text T
  | [] => True
  end ->
  match_at onu_index_pattern (n ++ rest) =
  match rest with
  | c :: T =>
      if is_char "." c && sentinel T then found 2 n else None
  | [] => None
  end.
Proof.
  intros [Hne Hd] Hrest. destruct n as [|c ds]; [contradiction|].
  inversion Hd as [|? ? Hc Hds]; subst.
  unfold match_at, onu_index_pattern. cbn [seqs run Chr app].
  rewrite (digit_not_dot _ Hc), Hc.
  rewrite star_k_greedy with (rest := rest); try assumption.
  - destruct rest as [|x T]; [reflexivity|].
    destruct Hrest as [Hx HT].
    destruct (is_char "." x); [|reflexivity].
    change (c :: ds ++ x :: T) with ((c :: ds) ++ x :: T).
    rewrite firstn_run, !run_Lit. cbn [andb].
    apply (sentinel_tail [(2, c :: ds)] HT).
  - intros x t Hx. now rewrite (digit_not_dot _ Hx).
  - destruct rest; tauto.
Qed.

Lemma search_nil : search onu_index_pattern [] = None.
Proof. reflexivity. Qed.

(** Searching from the first character of a number: either the sentinel
    tail follows it, or nothing matches before the number ends. *)
Lemma search_number (n rest : str) :
  is_number n ->
  match rest with
  | c :: T => is_digit c = false /\ oid_text T
  | [] => True
  end ->
  search onu_index_pattern (n ++ rest) =
  match rest with
  | c :: T =>
      if is_char "." c && sentinel T then found 2 n
      else search onu_index_pattern rest
  | [] => None
  end.
Proof.
  intros [Hne Hd] Hrest. induction Hd as [|c ds Hc Hds IH]; [contradiction|].
  assert (Hn : is_number (c :: ds)) by (split; [discriminate | now constructor]).
  change ((c :: ds) ++ rest) with (c :: ds ++ rest).
  cbn [search]. change (c :: ds ++ rest) with ((c :: ds) ++ rest).
  rewrite (@match_at_number (c :: ds) rest Hn Hrest).
  destruct ds as [|d ds].
  - destruct rest as [|x T]; [reflexivity|].
    destruct (is_char "." x && sentinel T); reflexivity.
  - specialize (IH ltac:(discriminate)).
    destruct rest as [|x T]; [exact IH|].
    destruct (is_char "." x && sentinel T) eqn:E; [reflexivity|].
    exact IH.
Qed.

Lemma is_number_nonempty_oid (cs : list str) :
  Forall is_number cs -> cs <> [] -> oid_of cs <> [].
Proof.
  intros H Hne. destruct cs as [|c cs]; [contradiction|].
  inversion H as [|? ? [Hc _] _]; subst.
  unfold oid_of. destruct cs; simpl; [assumption|].
  destruct c; [contradiction|discriminate].
Qed.

Lemma oid_text_number (c : str) : is_number c -> oid_text c.
Proof.
  intros [_ H]. unfold oid_text. eapply Forall_impl; [|exact H].
  simpl. tauto.
Qed.

Lemma oid_text_oid_of (cs : list str) : Forall is_number cs -> oid_text (oid_of cs).
Proof.
  unfold oid_of. induction 1 as [|c cs Hc Hcs IH]; [constructor|].
  destruct cs as [|c2 cs]; [now apply oid_text_number|].
  change (join (lit ".") (c :: c2 :: cs))
    with (c ++ lit "." ++ join (lit ".") (c2 :: cs)).
  unfold oid_text. apply Forall_app. split; [now apply oid_text_number|].
  constructor; [now right | exact IH].
Qed.

Lemma oid_of_cons (n c : str) (cs : list str) :
  oid_of (n :: c :: cs) = n ++ "."%char :: oid_of (c :: cs).
Proof. reflexivity. Qed.

(** The search over the text of an OID, component by component. *)
Lemma search_oid (n : str) (cs : list str) :
  Forall is_number (n :: cs) ->
  search onu_index_pattern (oid_of (n :: cs)) =
  match cs with
  | [] => None
  | [m] => if sentinel m then found 2 n else found 1 m
  | _ =>
      if sentinel (oid_of cs) then found 2 n
      else search onu_index_pattern (oid_of cs)
  end.
Proof.
  intros H. inversion H as [|? ? Hn Hcs]; subst.
  destruct cs as [|m cs'].
  - unfold oid_of. simpl join. rewrite <- (app_nil_r n).
    now rewrite search_number.
  - rewrite oid_of_cons, search_number; try assumption.
    2: { split; [reflexivity | now apply oid_text_oid_of]. }
    change (is_char "." ".") with true. cbn [andb].
    inversion Hcs as [|? ? Hm Hcs']; subst.
    destruct cs' as [|m' cs''].
    + change (oid_of [m]) with m.
      destruct (sentinel m); [reflexivity|].
      cbn [search].
      pose proof (@first_alternative_at_dot m [] Hm I) as E.
      rewrite app_nil_r in E. rewrite E. reflexivity.
    + destruct (sentinel (oid_of (m :: m' :: cs''))); [reflexivity|].
      assert (Hne : oid_of (m' :: cs'') <> [])
        by (apply is_number_nonempty_oid; [assumption|discriminate]).
      cbn [search].
      pose proof (@first_alternative_at_dot m ("."%char :: oid_of (m' :: cs''))
                    Hm eq_refl) as E.
      rewrite <- oid_of_cons in E. rewrite E.
      destruct (oid_of (m' :: cs'')); [contradiction|reflexivity].
Qed.

Lemma search_oid_long (n : str) (cs : list str) :
  Forall is_number (n :: cs) -> 2 <= length cs ->
  search onu_index_pattern (oid_of (n :: cs)) =
  if sentinel (oid_of cs) then found 2 n
  else search onu_index_pattern (oid_of cs).
Proof.
  intros H Hlen. rewrite (search_oid H).
  destruct cs as [|a [|b cs]]; simpl in Hlen; try lia. reflexivity.
Qed.

(** *** Components and their text *)

Lemma split_from_app (sep : ascii) (c rest cur : str) :
  Forall (fun x => Ascii.eqb x sep = false) c ->
  split_from sep (c ++ rest) cur = split_from sep rest (rev c ++ cur).
Proof.
  intros H. revert cur. induction H as [|x c Hx Hc IH]; intros cur; [reflexivity|].
  simpl. rewrite Hx, IH, <- app_assoc. reflexivity.
Qed.

Lemma split_from_join (sep : ascii) (p : str) (ps : list str) (cur : str) :
  Forall (Forall (fun x => Ascii.eqb x sep = false)) (p :: ps) ->
  split_from sep (join [sep] (p :: ps)) cur = (rev cur ++ p) :: ps.
Proof.
  revert p cur. induction ps as [|q ps IH]; intros p cur H;
    inversion H as [|? ? Hp Hps]; subst.
  - simpl join. rewrite <- (app_nil_r p) at 1.
    rewrite split_from_app by assumption.
    simpl. now rewrite rev_app_distr, rev_involutive.
  - change (join [sep] (p :: q :: ps)) with (p ++ sep :: join [sep] (q :: ps)).
    rewrite split_from_app by assumption.
    cbn [split_from]. rewrite Ascii.eqb_refl, (IH q [] Hps).
    now rewrite rev_app_distr, rev_involutive.
Qed.

Lemma number_has_no_dot (c : str) :
  is_number c -> Forall (fun x => Ascii.eqb x "." = false) c.
Proof.
  intros [_ H]. eapply Forall_impl; [|exact H].
  intros x Hx. simpl. destruct (Ascii.eqb x ".") eqn:E; [|reflexivity].
  apply Ascii.eqb_eq in E. subst x. discriminate.
Qed.

(** [str(oid).split('.')] gives the components back. *)
Lemma split_oid_of (comps : list str) :
  Forall is_number comps -> comps <> [] ->
  split "." (oid_of comps) = comps.
Proof.
  intros H Hne. destruct comps as [|p ps]; [contradiction|].
  unfold split, oid_of. change (lit ".") with ["."%char].
  rewrite split_from_join; [reflexivity|].
  eapply Forall_impl; [|exact H]. apply number_has_no_dot.
Qed.

Lemma sentinel_components (cs : list str) :
  Forall is_number cs -> sentinel (oid_of cs) = true ->
  cs = [lit "0"; lit "0"] \/ cs = [lit "65535"; lit "65535"].
Proof.
  intros H Hs. destruct cs as [|c cs]; [discriminate|].
  rewrite <- (split_oid_of H) by discriminate.
  unfold sentinel in Hs. apply orb_true_iff in Hs as [E|E];
    apply streq_eq in E; rewrite E; [left|right]; reflexivity.
Qed.

(** *** The HSGQ correlators *)

Lemma search_sentinel (before : list str) (n : str) (zs : list str) :
  Forall is_number (before ++ n :: zs) ->
  zs = [lit "0"; lit "0"] \/ zs = [lit "65535"; lit "65535"] ->
  search onu_index_pattern (oid_of (before ++ n :: zs)) = found 2 n.
Proof.
  intros H Hzs. induction before as [|b before IH].
  - simpl app in *. rewrite search_oid_long; [|assumption|].
    + now destruct Hzs as [-> | ->].
    + now destruct Hzs as [-> | ->].
  - change ((b :: before) ++ n :: zs) with (b :: (before ++ n :: zs)) in *.
    rewrite search_oid_long; [|assumption|].
    2: { rewrite length_app. simpl. destruct Hzs as [-> | ->]; simpl; lia. }
    inversion H as [|? ? _ Hcs]; subst.
    destruct (sentinel (oid_of (before ++ n :: zs))) eqn:E; [|now apply IH].
    apply sentinel_components in E; [|assumption].
    assert (Hlen : 3 <= length (before ++ n :: zs)).
    { rewrite length_app. simpl. destruct Hzs as [-> | ->]; simpl; lia. }
    destruct E as [E|E]; rewrite E in Hlen; simpl in Hlen; lia.
Qed.

Lemma search_last (comps : list str) :
  Forall is_number comps -> 2 <= length comps ->
  (forall n, ~ ends_in_sentinel comps n) ->
  search onu_index_pattern (oid_of comps) = found 1 (last comps []).
Proof.
  induction comps as [|n cs IH]; intros H Hlen Hno; [simpl in Hlen; lia|].
  rewrite (search_oid H). inversion H as [|? ? Hn Hcs]; subst.
  destruct cs as [|m [|m' cs]]; [simpl in Hlen; lia| |].
  - destruct (sentinel m) eqn:E; [|reflexivity].
    apply (@sentinel_components [m]) in E; [|assumption].
    destruct E; discriminate.
  - destruct (sentinel (oid_of (m :: m' :: cs))) eqn:E.
    + apply sentinel_components in E; [|assumption].
      exfalso. apply (Hno n). exists []. simpl.
      destruct E as [-> | ->]; [now left | now right].
    + rewrite IH; [reflexivity|assumption|simpl; lia|].
      intros k [before Hk]. apply (Hno k). exists (n :: before).
      simpl. destruct Hk as [-> | ->]; [now left | now right].
Qed.

End Oid_index.

(** ** Recording a value under its index *)

Section Recording.
Variable V : Type.

Lemma get_set_same (k : str) (v : V) (d : PyDict.dict V) :
  PyDict.get k (PyDict.set k v d) = Some v.
Proof.
  induction d as [|[k' v'] d IH]; simpl.
  - now rewrite streq_refl.
  - destruct (streq k k') eqn:E; simpl; [now rewrite streq_refl|].
    now rewrite E.
Qed.

End Recording.

Lemma record_binding_get (index_of : str -> option str)
  (results : PyDict.dict str) (oid value index : str) :
  index_of oid = Some index ->
  PyDict.get index (Snmp.record_binding index_of results (oid, value)) =
    Some value.
Proof.
  intros H. unfold Snmp.record_binding. simpl. rewrite H. apply get_set_same.
Qed.

Lemma record_value_get (field index value : str)
  (acc : PyDict.dict (PyDict.dict str)) :
  exists row,
    PyDict.get index (Snmp.record_value field acc (index, value)) = Some row /\
    PyDict.get field row = Some value.
Proof.
  unfold Snmp.record_value. simpl. eexists. split; apply get_set_same.
Qed.

(** ** The index of an OID *)

Section Index_claim.

Lemma hsgq_index_of_search (s : str) (i : nat) (n : str) :
  n <> [] -> (i = 1 \/ i = 2) ->
  search HsgqSnmp.onu_index_pattern s = Some ([], [(i, n)]) ->
  HsgqSnmp.onu_index s = Some n.
Proof.
  intros Hn Hi H. unfold HsgqSnmp.onu_index. rewrite H.
  destruct n as [|c n]; [contradiction|].
  destruct Hi as [-> | ->]; reflexivity.
Qed.

Lemma last_is_number (comps : list str) :
  Forall is_number comps -> comps <> [] -> is_number (last comps []).
Proof.
  induction 1 as [|c cs Hc Hcs IH]; intros Hne; [contradiction|].
  destruct cs as [|c' cs]; [exact Hc|].
  apply IH. discriminate.
Qed.

(** C5 (as amended). For an OID of numeric components, the two HSGQ
    correlators take the component before a trailing [.0.0] or
    [.65535.65535] as the index, and the last component of any other OID of
    at least two components (an OID of one component has no index and is
    skipped); the Hioso correlator takes the last two components, joined by
    a dot, of an OID of at least three components, and skips shorter ones.
    The binding is then stored so that the index leads to the value, and
    folding stores it under index, then field. *)
Theorem snmp_index_of_oid (comps : list str) :
  Forall is_number comps ->
  (forall n, ends_in_sentinel comps n ->
     HsgqSnmp.onu_index (oid_of comps) = Some n) /\
  ((forall n, ~ ends_in_sentinel comps n) ->
     HsgqSnmp.onu_index (oid_of comps) =
       if 2 <=? length comps then Some (last comps []) else None) /\
  HiosoSnmp.onu_index (oid_of comps) =
    (if 2 <? length comps
     then Some (oid_of (HiosoSnmp.last_two comps)) else None) /\
  (forall index_of results value index,
     index_of (oid_of comps) = Some index ->
     PyDict.get index
       (Snmp.record_binding index_of results (oid_of comps, value)) =
       Some value) /\
  (forall field index value acc,
     exists row,
       PyDict.get index (Snmp.record_value field acc (index, value)) =
         Some row /\
       PyDict.get field row = Some value).
Proof.
  intros H. repeat split.
  - intros n [before Hn].
    assert (Hnum : is_number n).
    { rewrite Forall_forall in H. apply H.
      destruct Hn as [-> | ->]; apply in_or_app; right; now left. }
    apply hsgq_index_of_search with (i := 2);
      [exact (proj1 Hnum) | now right |].
    destruct Hn as [-> | ->]; apply search_sentinel;
      solve [assumption | now left | now right].
  - intros Hno. destruct (2 <=? length comps) eqn:E.
    + apply Nat.leb_le in E.
      apply hsgq_index_of_search with (i := 1); [| now left |].
      * apply last_is_number; [assumption|].
        intros ->. simpl in E. lia.
      * now apply search_last.
    + apply Nat.leb_gt in E. unfold HsgqSnmp.onu_index.
      destruct comps as [|n [|m cs]]; [reflexivity| |simpl in E; lia].
      now rewrite (search_oid H).
  - unfold HiosoSnmp.onu_index.
    destruct comps as [|c cs]; [reflexivity|].
    rewrite split_oid_of by (assumption || discriminate). reflexivity.
  - intros. now apply record_binding_get.
  - intros. apply record_value_get.
Qed.

Lemma snmp_index_of_oid_witness :
  HsgqSnmp.onu_index (lit "1.3.6.1.4.1.50224.3.3.2.1.7.16.0.0") =
    Some (lit "16") /\
  HsgqSnmp.onu_index (lit "1.3.6.1.4.1.50224.3.3.2.1.7.16") =
    Some (lit "16") /\
  HiosoSnmp.onu_index (lit "1.3.6.1.4.1.3320.101.10.1.1.3.1.5") =
    Some (lit "1.5").
Proof.
  assert (Hnum : forall cs,
             forallb (fun c => negb (streq c []) && forallb is_digit c) cs = true ->
             Forall is_number cs).
  { intros cs Hcs. rewrite forallb_forall in Hcs. apply Forall_forall.
    intros c Hc. specialize (Hcs c Hc). apply andb_true_iff in Hcs as [Hne Hd].
    split.
    - intros ->. discriminate Hne.
    - apply Forall_forall. now apply forallb_forall. }
  split; [|split].
  - apply (proj1 (@snmp_index_of_oid
                    (split "." (lit "1.3.6.1.4.1.50224.3.3.2.1.7.16.0.0"))
                    (Hnum (split "." (lit "1.3.6.1.4.1.50224.3.3.2.1.7.16.0.0"))
                       eq_refl))).
    exists (split "." (lit "1.3.6.1.4.1.50224.3.3.2.1.7")). now left.
  - apply (proj1 (proj2 (@snmp_index_of_oid
                    (split "." (lit "1.3.6.1.4.1.50224.3.3.2.1.7.16"))
                    (Hnum (split "." (lit "1.3.6.1.4.1.50224.3.3.2.1.7.16"))
                       eq_refl)))).
    intros n [before [E|E]]; apply (f_equal (@rev str)) in E;
      rewrite rev_app_distr in E; vm_compute in E; discriminate E.
  - exact (proj1 (proj2 (proj2 (@snmp_index_of_oid
                    (split "." (lit "1.3.6.1.4.1.3320.101.10.1.1.3.1.5"))
                    (Hnum (split "." (lit "1.3.6.1.4.1.3320.101.10.1.1.3.1.5"))
                       eq_refl))))).
Defined.

(** C5, counterexample: the Hioso correlator does not take the last
    component of the OID as the index, it takes the last two. *)
Lemma hioso_index_is_two_components :
  HiosoSnmp.onu_index (lit "1.3.6.1.4.1.3320.101.10.1.1.3.1.5") =
    Some (lit "1.5") /\
  last (split "." (lit "1.3.6.1.4.1.3320.101.10.1.1.3.1.5")) [] = lit "5" /\
  HsgqSnmp.onu_index (lit "1.3.6.1.4.1.3320.101.10.1.1.3.1.5") =
    Some (lit "5").
Proof. repeat split; vm_compute; reflexivity. Qed.

End Index_claim.

(** ** Pagination *)

Section Occurrences.

Lemma starts_with_app_l (p s t : str) :
  starts_with p s = true -> starts_with p (s ++ t) = true.
Proof.
  revert s. induction p as [|a p IH]; intros s H; [reflexivity|].
  destruct s as [|b s]; [discriminate|]. simpl in *.
  apply andb_true_iff in H as [Hab H]. now rewrite Hab, IH.
Qed.

Lemma starts_with_shorten (p s : str) (x : ascii) :
  starts_with p (s ++ [x]) = true -> length p <= length s ->
  starts_with p s = true.
Proof.
  revert s. induction p as [|a p IH]; intros s H Hlen; [reflexivity|].
  destruct s as [|b s]; [simpl in Hlen; lia|]. simpl in *.
  apply andb_true_iff in H as [Hab H]. rewrite Hab. apply IH; [assumption|lia].
Qed.

Lemma contains_app_l (p s t : str) :
  contains p s = true -> contains p (s ++ t) = true.
Proof.
  induction s as [|c s IH]; simpl; intros H.
  - rewrite orb_false_r in H. destruct p; [|discriminate].
    destruct t; reflexivity.
  - apply orb_true_iff in H as [H|H].
    + change (c :: s ++ t) with ((c :: s) ++ t).
      now rewrite (starts_with_app_l _ _ t H).
    + rewrite (IH H). apply orb_true_r.
Qed.

Lemma contains_app_r (p s t : str) :
  contains p t = true -> contains p (s ++ t) = true.
Proof.
  intros H. induction s as [|c s IH]; [exact H|].
  simpl. rewrite IH. apply orb_true_r.
Qed.

Lemma contains_prefix_false (p s t : str) :
  contains p (s ++ t) = false -> contains p s = false.
Proof.
  intros H. destruct (contains p s) eqn:E; [|reflexivity].
  now rewrite (contains_app_l _ _ t E) in H.
Qed.

Lemma contains_self (p : str) : contains p p = true.
Proof.
  destruct p as [|a p]; [reflexivity|].
  unfold contains; fold contains.
  rewrite <- (app_nil_r (a :: p)) at 2. now rewrite starts_with_app.
Qed.

Lemma existsb_contains_prefix (prompts : list str) (s t : str) :
  existsb (fun p => contains p (s ++ t)) prompts = false ->
  existsb (fun p => contains p s) prompts = false.
Proof.
  induction prompts as [|p ps IH]; [reflexivity|]. simpl.
  intros H. apply orb_false_iff in H as [H1 H2].
  now rewrite (contains_prefix_false _ _ _ H1), IH.
Qed.

Lemma replace_from_skip_all (old new s : str) (k : nat) :
  length s <= k -> replace_from old new s k = [].
Proof.
  revert k. induction s as [|c s IH]; intros k H; [reflexivity|].
  destruct k as [|k]; [simpl in H; lia|]. simpl. apply IH. simpl in H. lia.
Qed.

(** An occurrence that the last character completes is the only one, and
    [replace] takes it away. *)
Lemma replace_at_end (pre : str) (x : ascii) (b : str) :
  contains (pre ++ [x]) (b ++ pre) = false ->
  replace (pre ++ [x]) [] (b ++ pre ++ [x]) = b.
Proof.
  unfold replace. induction b as [|c b IH]; intros H.
  - simpl app. destruct (pre ++ [x]) as [|a old] eqn:E.
    + destruct pre; discriminate.
    + cbn [replace_from]. rewrite <- (app_nil_r (a :: old)) at 2.
      rewrite starts_with_app. simpl.
      apply replace_from_skip_all. lia.
  - change ((c :: b) ++ pre ++ [x]) with (c :: b ++ pre ++ [x]).
    cbn [replace_from].
    simpl in H. apply orb_false_iff in H as [Hs Hc].
    destruct (starts_with (pre ++ [x]) (c :: b ++ pre ++ [x])) eqn:E.
    + exfalso.
      change (c :: b ++ pre ++ [x]) with ((c :: b) ++ pre ++ [x]) in E.
      rewrite app_assoc in E. apply starts_with_shorten in E.
      * simpl in E. congruence.
      * rewrite !length_app. simpl. lia.
    + f_equal. now apply IH.
Qed.

End Occurrences.

(** *** The HSGQ EPON engine *)

Section Epon_paging.
Import HsgqEponSsh.
Variable prompts : list str.

(** A single character holds no escape sequence: the engine removes
    none. *)
Lemma ansi_escape_single (c : ascii) : sub ansi_escape [] [c] = [c].
Proof.
  unfold sub. cbn [sub_from]. unfold match_at, ansi_escape, Chr.
  cbn [seqs run].
  destruct (is_char (ascii_of_nat 27) c); reflexivity.
Qed.

Lemma quiet_prefix (s t : str) :
  quiet prompts (s ++ t) = true -> quiet prompts s = true.
Proof.
  unfold quiet. intros H. apply andb_true_iff in H as [Hm Hp].
  apply negb_true_iff in Hm, Hp.
  now rewrite (contains_prefix_false _ _ _ Hm),
    (existsb_contains_prefix _ _ _ Hp).
Qed.

Lemma quiet_inv (s : str) :
  quiet prompts s = true ->
  contains more s = false /\
  existsb (fun p => contains p s) prompts = false.
Proof.
  unfold quiet. intros H. apply andb_true_iff in H as [Hm Hp].
  now apply negb_true_iff in Hm, Hp.
Qed.

(** A character that completes neither the marker nor a prompt is
    appended, and reading goes on. *)
Lemma wait_plain_char (c : ascii) (rest : list tick) (buf : str)
  (stdin : list str) :
  quiet prompts (buf ++ [c]) = true ->
  wait_for_prompt prompts (Got c :: rest) buf stdin =
  wait_for_prompt prompts rest (buf ++ [c]) stdin.
Proof.
  intros H. apply quiet_inv in H as [Hm Hp].
  cbn [wait_for_prompt]. rewrite ansi_escape_single, Hm, Hp. reflexivity.
Qed.

Lemma wait_plain (t : str) (rest : list tick) (buf : str)
  (stdin : list str) :
  quiet prompts (buf ++ t) = true ->
  wait_for_prompt prompts (map Got t ++ rest) buf stdin =
  wait_for_prompt prompts rest (buf ++ t) stdin.
Proof.
  revert buf. induction t as [|c t IH]; intros buf H.
  - now rewrite app_nil_r.
  - change (map Got (c :: t) ++ rest) with (Got c :: map Got t ++ rest).
    change (buf ++ c :: t) with (buf ++ [c] ++ t) in *.
    rewrite app_assoc in *.
    rewrite wait_plain_char by (now apply quiet_prefix with (t := t)).
    now apply IH.
Qed.

(** The character that completes [--More--]: the marker leaves the
    buffer, Enter is sent, and reading goes on or ends on a prompt. *)
Lemma wait_marker_char (c : ascii) (rest : list tick) (buf : str)
  (stdin : list str) :
  contains more (buf ++ [c]) = true ->
  wait_for_prompt prompts (Got c :: rest) buf stdin =
  let out := replace more [] (buf ++ [c]) in
  if existsb (fun p => contains p out) prompts
  then (out, stdin ++ [[CR; LF]])
  else wait_for_prompt prompts rest out (stdin ++ [[CR; LF]]).
Proof.
  intros H. cbn [wait_for_prompt]. rewrite ansi_escape_single, H. reflexivity.
Qed.

Lemma wait_marker (rest : list tick) (buf : str) (stdin : list str) :
  quiet prompts (buf ++ lit "--More-") = true ->
  wait_for_prompt prompts (map Got more ++ rest) buf stdin =
  wait_for_prompt prompts rest buf (stdin ++ [[CR; LF]]).
Proof.
  intros H.
  change more with (lit "--More-" ++ ["-"%char]).
  rewrite map_app, <- app_assoc. rewrite wait_plain by assumption.
  change (map Got ["-"%char] ++ rest) with (Got "-"%char :: rest).
  destruct (quiet_inv _ H) as [Hm _].
  destruct (quiet_inv _ (quiet_prefix _ _ H)) as [_ Hp].
  rewrite wait_marker_char.
  - cbv zeta. rewrite <- app_assoc.
    change more with (lit "--More-" ++ ["-"%char]) in *.
    rewrite (replace_at_end (lit "--More-") "-" buf Hm), Hp. reflexivity.
  - rewrite <- app_assoc. apply contains_app_r. reflexivity.
Qed.

Lemma wait_pages (pages : list str) (t : str) (rest : list tick) :
  forall (acc : str) (stdin : list str),
  Forall (fun b => quiet prompts (b ++ lit "--More-") = true)
    (page_breaks acc pages) ->
  wait_for_prompt prompts
    (map Got (concat (map (fun p => p ++ more) pages) ++ t) ++ rest)
    acc stdin =
  wait_for_prompt prompts (map Got t ++ rest) (acc ++ concat pages)
    (stdin ++ repeat [CR; LF] (length pages)).
Proof.
  induction pages as [|p ps IH]; intros acc stdin H.
  - simpl. now rewrite !app_nil_r.
  - cbn [page_breaks] in H. inversion H as [|? ? Hp Hps]; subst.
    cbn [map concat]. rewrite <- !app_assoc, !map_app, <- !app_assoc.
    rewrite wait_plain
      by (apply quiet_prefix with (t := lit "--More-"); exact Hp).
    rewrite wait_marker by assumption.
    rewrite (app_assoc (map Got _) (map Got t) rest), <- map_app.
    rewrite (IH _ _ Hps).
    cbn [length repeat]. rewrite <- !app_assoc. reflexivity.
Qed.

Lemma wait_prompt_char (body : str) (c : ascii) (rest : list tick)
  (buf : str) (stdin : list str) :
  quiet prompts (buf ++ body) = true ->
  contains more (buf ++ body ++ [c]) = false ->
  existsb (fun p => contains p (buf ++ body ++ [c])) prompts = true ->
  wait_for_prompt prompts (map Got (body ++ [c]) ++ rest) buf stdin =
  (buf ++ body ++ [c], stdin).
Proof.
  intros Hq Hm Hp. rewrite map_app, <- app_assoc, wait_plain by assumption.
  cbn [map app wait_for_prompt].
  rewrite ansi_escape_single, <- app_assoc, Hm, Hp. reflexivity.
Qed.

End Epon_paging.

(** *** The Hioso read loop *)

Section Stripping.
Variable r : re.

Lemma sub_from_skip (repl x t : str) :
  sub_from r repl (x ++ t) (length x) = sub_from r repl t 0.
Proof.
  induction x as [|c x IH]; [reflexivity|]. exact IH.
Qed.

Lemma sub_no_match_inside (repl b t : str) :
  no_match_inside r b t = true ->
  sub r repl (b ++ t) = b ++ sub r repl t.
Proof.
  unfold sub. induction b as [|c b IH]; intros H; [reflexivity|].
  cbn [no_match_inside] in H.
  change ((c :: b) ++ t) with (c :: b ++ t) in *. cbn [sub_from].
  destruct (match_at r (c :: b ++ t)); [discriminate|].
  simpl. f_equal. now apply IH.
Qed.

Lemma sub_whole_match (M : str) (caps : captures) :
  match_at r M = Some ([], caps) -> sub r [] M = [].
Proof.
  intros H. unfold sub. destruct M as [|c M]; [reflexivity|].
  cbn [sub_from]. rewrite H. simpl length. rewrite Nat.sub_0_r.
  rewrite <- (app_nil_r M) at 1. apply (sub_from_skip [] M []).
Qed.

(** A marker that closes the text is the one thing taken away. *)
Lemma sub_closing_marker (b M : str) (caps : captures) :
  match_at r M = Some ([], caps) ->
  no_match_inside r b M = true ->
  sub r [] (b ++ M) = b.
Proof.
  intros HM Hb. rewrite (sub_no_match_inside _ _ _ Hb).
  rewrite (sub_whole_match _ HM). apply app_nil_r.
Qed.

End Stripping.

Section Hioso_paging.
Import HiosoTelnet.
Variable d : device.
Variable prompt : str.
Hypothesis Hw : accepts_writes d.

(** A chunk that holds a marker: the matches leave the buffer, a space is
    sent, and the loop goes on unless the prompt has arrived. *)
Lemma read_marker_chunk (chunk : str) (rest : list read_event)
  (full : str) (st : session) :
  paging_detected chunk = true ->
  read_loop d prompt (Chunk chunk :: rest) full st =
  let out := sub paging_marker [] (full ++ chunk) in
  if contains prompt out
  then (Ok out, after_writes st [lit " "])
  else read_loop d prompt rest out (after_writes st [lit " "]).
Proof.
  intros H. destruct chunk as [|c chunk]; [discriminate|].
  cbn [read_loop]. rewrite H. unfold bind at 1 2.
  rewrite write_accepted by assumption. unfold ret at 1.
  cbv zeta. destruct (contains prompt _); reflexivity.
Qed.

Lemma read_plain_chunk (chunk : str) (rest : list read_event)
  (full : str) (st : session) :
  chunk <> [] -> paging_detected chunk = false ->
  read_loop d prompt (Chunk chunk :: rest) full st =
  if contains prompt (full ++ chunk)
  then (Ok (full ++ chunk), st)
  else read_loop d prompt rest (full ++ chunk) st.
Proof.
  intros Hne H. destruct chunk as [|c chunk]; [contradiction|].
  cbn [read_loop]. rewrite H. unfold bind at 1. unfold ret at 1.
  destruct (contains prompt _); reflexivity.
Qed.

Variable M : str.
Variable caps : captures.
Hypothesis Hmatch : match_at paging_marker M = Some ([], caps).
Hypothesis Hseen : paging_detected M = true.

Lemma paging_detected_app (p : str) : paging_detected (p ++ M) = true.
Proof.
  unfold paging_detected in *. apply orb_true_iff in Hseen as [H|H].
  - now rewrite (contains_app_r _ p _ H).
  - rewrite (contains_app_r _ p _ H). apply orb_true_r.
Qed.

Lemma read_pages (pages : list str) (rest : list read_event) :
  forall (acc : str) (st : session),
  Forall (fun b => no_match_inside paging_marker b M = true /\
                   contains prompt b = false)
    (page_breaks acc pages) ->
  read_loop d prompt (map (fun p => Chunk (p ++ M)) pages ++ rest) acc st =
  read_loop d prompt rest (acc ++ concat pages)
    (after_writes st (repeat (lit " ") (length pages))).
Proof.
  induction pages as [|p ps IH]; intros acc st H.
  - simpl. now rewrite app_nil_r, after_writes_nil.
  - cbn [page_breaks] in H. inversion H as [|? ? [Hb Hp] Hps]; subst.
    cbn [map app]. rewrite read_marker_chunk by apply paging_detected_app.
    cbv zeta. rewrite app_assoc, (@sub_closing_marker paging_marker (acc ++ p) M caps Hmatch Hb), Hp.
    rewrite (IH _ _ Hps), after_writes_app.
    cbn [concat length repeat]. now rewrite <- app_assoc.
Qed.

End Hioso_paging.

Section Paging_claim.
Import HiosoTelnet HsgqEponSsh.

Lemma contains_suffix_false (p s t : str) :
  contains p (s ++ t) = false -> contains p t = false.
Proof.
  intros H. destruct (contains p t) eqn:E; [|reflexivity].
  now rewrite (contains_app_r _ s _ E) in H.
Qed.

Lemma paging_detected_suffix (s t : str) :
  paging_detected (s ++ t) = false -> paging_detected t = false.
Proof.
  unfold paging_detected. intros H. apply orb_false_iff in H as [H1 H2].
  now rewrite (contains_suffix_false _ _ _ H1), (contains_suffix_false _ _ _ H2).
Qed.

(** C6 (as amended). In the Hioso read loop a chunk that holds
    [---- More ----] or [Press Enter Or Space To Continue] has every match
    of the marker pattern taken out of the accumulated buffer and is
    answered with a space, and the loop goes on unless the prompt is in the
    buffer; the HSGQ EPON engine takes [--More--] out of its buffer as soon
    as it is complete and answers it with Enter (CR LF), and goes on unless
    a prompt is in the buffer.  For a listing that arrives in pages, each
    page but the last closed by a marker that arrives whole, the buffer
    handed to the parser is the listing itself, as if it had come in one
    page: so are the parsed records. *)
Theorem pagination_is_answered_and_stripped :
  (forall d prompt chunk rest full st,
     accepts_writes d ->
     paging_detected chunk = true ->
     read_loop d prompt (Chunk chunk :: rest) full st =
     let out := sub paging_marker [] (full ++ chunk) in
     if contains prompt out
     then (Ok out, after_writes st [lit " "])
     else read_loop d prompt rest out (after_writes st [lit " "])) /\
  (forall d prompt M caps pages last_page st,
     accepts_writes d ->
     match_at paging_marker M = Some ([], caps) ->
     paging_detected M = true ->
     Forall (fun b => no_match_inside paging_marker b M = true /\
                      contains prompt b = false)
       (page_breaks [] pages) ->
     last_page <> [] ->
     paging_detected (concat pages ++ last_page) = false ->
     contains prompt (concat pages ++ last_page) = true ->
     read_loop d prompt (hioso_paged M pages last_page) [] st =
       (Ok (concat pages ++ last_page),
        after_writes st (repeat (lit " ") (length pages))) /\
     read_loop d prompt (hioso_paged M [] (concat pages ++ last_page)) [] st =
       (Ok (concat pages ++ last_page), st)) /\
  (forall prompts c rest buf stdin,
     contains more (buf ++ [c]) = true ->
     wait_for_prompt prompts (Got c :: rest) buf stdin =
     let out := replace more [] (buf ++ [c]) in
     if existsb (fun p => contains p out) prompts
     then (out, stdin ++ [[CR; LF]])
     else wait_for_prompt prompts rest out (stdin ++ [[CR; LF]])) /\
  (forall prompts pages body c rest stdin,
     Forall (fun b => quiet prompts (b ++ lit "--More-") = true)
       (page_breaks [] pages) ->
     quiet prompts (concat pages ++ body) = true ->
     contains more (concat pages ++ body ++ [c]) = false ->
     existsb (fun p => contains p (concat pages ++ body ++ [c])) prompts =
       true ->
     wait_for_prompt prompts (epon_paged pages (body ++ [c]) ++ rest) []
       stdin =
       (concat pages ++ body ++ [c],
        stdin ++ repeat [CR; LF] (length pages)) /\
     wait_for_prompt prompts
       (epon_paged [] (concat pages ++ body ++ [c]) ++ rest) [] stdin =
       (concat pages ++ body ++ [c], stdin)).
Proof.
  split; [|split; [|split]].
  - intros. now apply read_marker_chunk.
  - intros d prompt M caps pages last_page st Hw HM Hseen Hb Hne Hno Hp.
    split.
    + unfold hioso_paged.
      rewrite (@read_pages d prompt Hw M caps HM Hseen pages _ [] st Hb).
      rewrite read_plain_chunk;
        [|assumption|now apply paging_detected_suffix with (s := concat pages)].
      simpl app. now rewrite Hp.
    + unfold hioso_paged. cbn [map app].
      rewrite read_plain_chunk; [|destruct (concat pages)|assumption].
      * simpl app. now rewrite Hp.
      * assumption.
      * discriminate.
  - intros. now apply wait_marker_char.
  - intros prompts pages body c rest stdin Hb Hq Hm Hp. split.
    + unfold epon_paged.
      rewrite (@wait_pages prompts pages (body ++ [c]) rest [] stdin Hb).
      now apply wait_prompt_char.
    + unfold epon_paged. cbn [map concat app].
      rewrite (app_assoc (concat pages) body [c]).
      rewrite (@wait_prompt_char prompts (concat pages ++ body) c rest [] stdin);
        try assumption.
      * now rewrite <- app_assoc.
      * now rewrite <- app_assoc.
      * now rewrite <- app_assoc.
Qed.

Lemma pagination_witness :
  read_loop Examples.quiet_device (pon_prompt 1)
    (hioso_paged (lit "---- More ----")
       [Examples.first_page; Examples.second_page] Examples.closing_page)
    [] fresh =
    (Ok (concat [Examples.first_page; Examples.second_page] ++
         Examples.closing_page),
     after_writes fresh [lit " "; lit " "]) /\
  wait_for_prompt [lit "(config)#"]
    (epon_paged [Examples.first_page; Examples.second_page]
       (Examples.epon_closing_body ++ ["#"%char]) ++ [])
    [] [] =
    (concat [Examples.first_page; Examples.second_page] ++
     Examples.epon_closing_body ++ ["#"%char],
     [[CR; LF]; [CR; LF]]).
Proof.
  destruct pagination_is_answered_and_stripped as (_ & H & _ & E). split.
  - assert (Hd : accepts_writes Examples.quiet_device)
      by (intros n; reflexivity).
    assert (HM : match_at paging_marker (lit "---- More ----") = Some ([], []))
      by (vm_compute; reflexivity).
    assert (Hs : paging_detected (lit "---- More ----") = true)
      by (vm_compute; reflexivity).
    assert (Hb : Forall
                   (fun b =>
                      no_match_inside paging_marker b (lit "---- More ----") =
                        true /\
                      contains (pon_prompt 1) b = false)
                   (page_breaks []
                      [Examples.first_page; Examples.second_page]))
      by (repeat constructor; vm_compute; reflexivity).
    assert (Hne : Examples.closing_page <> []) by discriminate.
    assert (Hno : paging_detected
                    (concat [Examples.first_page; Examples.second_page] ++
                     Examples.closing_page) = false)
      by (vm_compute; reflexivity).
    assert (Hp : contains (pon_prompt 1)
                   (concat [Examples.first_page; Examples.second_page] ++
                    Examples.closing_page) = true)
      by (vm_compute; reflexivity).
    exact (proj1 (H _ _ _ _ _ _ fresh Hd HM Hs Hb Hne Hno Hp)).
  - assert (Hb : Forall
                   (fun b => quiet [lit "(config)#"] (b ++ lit "--More-") = true)
                   (page_breaks []
                      [Examples.first_page; Examples.second_page]))
      by (repeat constructor; vm_compute; reflexivity).
    assert (Hq : quiet [lit "(config)#"]
                   (concat [Examples.first_page; Examples.second_page] ++
                    Examples.epon_closing_body) = true)
      by (vm_compute; reflexivity).
    assert (Hm : contains more
                   (concat [Examples.first_page; Examples.second_page] ++
                    Examples.epon_closing_body ++ ["#"%char]) = false)
      by (vm_compute; reflexivity).
    assert (Hp : existsb
                   (fun p =>
                      contains p
                        (concat [Examples.first_page; Examples.second_page] ++
                         Examples.epon_closing_body ++ ["#"%char]))
                   [lit "(config)#"] = true)
      by (vm_compute; reflexivity).
    exact (proj1 (E _ _ _ _ [] [] Hb Hq Hm Hp)).
Defined.

(** C6, counterexample: the HSGQ EPON engine answers [--More--] with Enter
    (CR LF), not with a space; and a marker that the Hioso device delivers
    in two reads is neither answered nor taken out of the buffer. *)
Lemma epon_more_is_answered_with_enter :
  wait_for_prompt [lit "(config)#"]
    (epon_paged [Examples.first_page]
       (Examples.epon_closing_body ++ ["#"%char]))
    [] [] =
    (Examples.first_page ++ Examples.epon_closing_body ++ ["#"%char],
     [[CR; LF]]) /\
  [CR; LF] <> lit " " /\
  read_loop Examples.quiet_device (pon_prompt 1)
    [Chunk (Examples.first_page ++ lit "---- Mo"); Chunk (lit "re ----")]
    [] fresh =
    (Ok (Examples.first_page ++ lit "---- More ----"), fresh).
Proof.
  split; [vm_compute; reflexivity|]. split; [discriminate|].
  vm_compute. reflexivity.
Qed.

End Paging_claim.

(** ** What a sync leaves alone *)

Section Row_frame.
Import Tasks Snmp.

Lemma nth_error_update_first_miss (p : Onu -> bool) (f : Onu -> Onu)
  (rows : list Onu) (n : nat) (r : Onu) :
  nth_error rows n = Some r -> p r = false ->
  nth_error (update_first p f rows) n = Some r.
Proof.
  revert n. induction rows as [|x rows IH]; intros n Hn Hp; [destruct n; discriminate|].
  destruct n as [|n]; simpl in *.
  - injection Hn as ->. now rewrite Hp.
  - destruct (p x); [exact Hn | now apply IH].
Qed.

Lemma nth_error_update_first (p : Onu -> bool) (f : Onu -> Onu)
  (rows : list Onu) (n : nat) (r : Onu) :
  nth_error rows n = Some r ->
  nth_error (update_first p f rows) n = Some r \/
  (p r = true /\ nth_error (update_first p f rows) n = Some (f r)).
Proof.
  revert n. induction rows as [|x rows IH]; intros n Hn; [destruct n; discriminate|].
  destruct n as [|n]; simpl in *.
  - injection Hn as ->. destruct (p r) eqn:E; [right|left]; auto.
  - destruct (p x); [now left | now apply IH].
Qed.

Lemma nth_error_grown (rows more : list Onu) (n : nat) (r : Onu) :
  nth_error rows n = Some r -> nth_error (rows ++ more) n = Some r.
Proof.
  intros H. rewrite nth_error_app1; [exact H|].
  apply nth_error_Some. congruence.
Qed.

Lemma get_olt_id (db : database) (id : Z) (olt : OLT) :
  get_olt db id = Some olt -> Db.olt_id olt = id.
Proof.
  unfold get_olt. intros H. apply find_some in H as [_ H].
  now apply Z.eqb_eq.
Qed.

Lemma same_but_details_refl (r : Onu) : same_but_details r r.
Proof. repeat split. Qed.

Lemma same_but_details_trans (a b c : Onu) :
  same_but_details a b -> same_but_details b c -> same_but_details a c.
Proof.
  unfold same_but_details. intros (?&?&?&?&?&?) (?&?&?&?&?&?).
  repeat split; congruence.
Qed.

Lemma is_onu_same_key (olt : Z) (k : str) (r r' : Onu) :
  onu_olt_id r = onu_olt_id r' -> onu_identifier r = onu_identifier r' ->
  is_onu olt k r' = is_onu olt k r.
Proof. unfold is_onu. now intros -> ->. Qed.

Lemma is_onu_inv (olt : Z) (k : str) (r : Onu) :
  is_onu olt k r = true -> onu_identifier r = k /\ onu_olt_id r = olt.
Proof.
  unfold is_onu. intros H. apply andb_true_iff in H as [Hk Ho].
  split; [now apply streq_eq | now apply Z.eqb_eq].
Qed.

(** One turn of the interactive loop, seen from one row. *)
Lemma upsert_row (olt t : Z) (x : onu_item) (s : db_session) (n : nat)
  (r : Onu) :
  nth_error (working s) n = Some r ->
  nth_error (working (upsert olt t x s)) n = Some r \/
  (is_onu olt (identifier x) r = true /\
   nth_error (working (upsert olt t x s)) n =
     Some (set_details (details x) t r)).
Proof.
  intros Hn. unfold upsert. destruct (first_onu _ _ _).
  - simpl. now apply nth_error_update_first.
  - left. simpl. now apply nth_error_grown.
Qed.

Lemma upsert_all_row (olt : Z) (clock : nat -> Z) (items : list onu_item) :
  forall (k : nat) (s : db_session) (n : nat) (r : Onu),
  nth_error (working s) n = Some r ->
  nth_error (working (upsert_all olt clock k items s)) n = Some r \/
  exists r' x,
    nth_error (working (upsert_all olt clock k items s)) n = Some r' /\
    same_but_details r r' /\
    In x items /\ is_onu olt (identifier x) r = true /\
    onu_details r' = Some (details x).
Proof.
  induction items as [|y items IH]; intros k s n r Hn; [now left|].
  cbn [upsert_all].
  destruct (upsert_row olt (clock k) y s n Hn) as [H|[Hy H]].
  - destruct (IH (S k) _ n r H) as [H'|(r' & x & H' & Hs & Hx & Hk & Hd)];
      [now left|].
    right. exists r', x. repeat split; try assumption; try apply Hs.
    now right.
  - destruct (IH (S k) _ n _ H) as [H'|(r' & x & H' & Hs & Hx & Hk & Hd)].
    + right. exists (set_details (details y) (clock k) r), y.
      split; [exact H'|]. split; [repeat split|].
      split; [now left|]. split; [exact Hy|reflexivity].
    + right. exists r', x. split; [exact H'|].
      split; [apply same_but_details_trans with (2 := Hs); repeat split|].
      split; [now right|]. split; [exact Hk|exact Hd].
Qed.

(** One turn of the SNMP loop, seen from one row. *)
Lemma refresh_row (olt t : Z) (x : snmp_item) (st : db_session * nat)
  (n : nat) (r : Onu) :
  nth_error (working (fst st)) n = Some r ->
  nth_error (working (fst (refresh olt t x st))) n = Some r \/
  (is_onu olt (snmp_identifier x) r = true /\
   nth_error (working (fst (refresh olt t x st))) n =
     Some (set_details_snmp (snmp_details x) t r)).
Proof.
  destruct st as [s c]. intros Hn. unfold refresh.
  destruct (first_onu _ _ _); simpl.
  - now apply nth_error_update_first.
  - now left.
Qed.

Lemma refresh_all_row (olt : Z) (clock : nat -> Z) (items : list snmp_item) :
  forall (k : nat) (st : db_session * nat) (n : nat) (r : Onu),
  nth_error (working (fst st)) n = Some r ->
  nth_error (working (fst (refresh_all olt clock k items st))) n = Some r \/
  exists r' x,
    nth_error (working (fst (refresh_all olt clock k items st))) n = Some r' /\
    same_but_snmp r r' /\
    In x items /\ is_onu olt (snmp_identifier x) r = true /\
    onu_details_snmp r' = Some (snmp_details x).
Proof.
  induction items as [|y items IH]; intros k st n r Hn; [now left|].
  cbn [refresh_all].
  destruct (refresh_row olt (clock k) y st n Hn) as [H|[Hy H]].
  - destruct (IH (S k) _ n r H) as [H'|(r' & x & H' & Hs & Hx & Hk & Hd)];
      [now left|].
    right. exists r', x. repeat split; try assumption; try apply Hs.
    now right.
  - destruct (IH (S k) _ n _ H) as [H'|(r' & x & H' & Hs & Hx & Hk & Hd)].
    + right. exists (set_details_snmp (snmp_details y) (clock k) r), y.
      split; [exact H'|]. split; [repeat split|].
      split; [now left|]. split; [exact Hy|reflexivity].
    + right. exists r', x. split; [exact H'|].
      split; [apply same_but_snmp_trans with (2 := Hs); repeat split|].
      split; [now right|]. split; [exact Hk|exact Hd].
Qed.

End Row_frame.

Section Sync_frame.
Import Tasks Snmp.

(** What the interactive job commits, or the store as it was. *)
Lemma run_ssh_telnet_sync_store (e : env) (db : database) (olt_id : Z) :
  let db' := snd (run_ssh_telnet_sync e db olt_id) in
  db' = db \/
  exists olt,
    get_olt db olt_id = Some olt /\
    onus db' =
      working (upsert_all (Db.olt_id olt) (now e) 0
                 (fetched_interactively e db olt_id) (begin db)).
Proof.
  cbv zeta. unfold run_ssh_telnet_sync, fetched_interactively.
  destruct (get_olt db olt_id) as [olt|] eqn:Holt; [|now left].
  destruct (vendor_of db olt) as [vendor|]; [|now left].
  pose proof (store_fetched_cases e olt vendor db
                (interactive_fetch e olt (lower (v_name vendor)))) as H.
  cbv zeta in H. destruct H as (_ & _ & H).
  destruct (interactive_fetch e olt (lower (v_name vendor)))
    as [[[msg|items]|ex]|]; try (left; now rewrite H).
  destruct (commit_fault e); [left; now rewrite H|].
  right. exists olt. split; [reflexivity|apply H].
Qed.

(** What the SNMP job commits, or the store as it was. *)
Lemma run_snmp_sync_store (float_centi : str -> option str) (e : env)
  (db : database) (olt_id : Z) :
  let db' := snd (run_snmp_sync float_centi e db olt_id) in
  db' = db \/
  exists olt,
    get_olt db olt_id = Some olt /\
    onus db' =
      working (fst (refresh_all (Db.olt_id olt) (now e) 0
                      (fetched_by_snmp float_centi e db olt_id)
                      (begin db, 0))).
Proof.
  cbv zeta. unfold run_snmp_sync, fetched_by_snmp.
  destruct (get_olt db olt_id) as [olt|] eqn:Holt; [|now left].
  destruct (vendor_of db olt) as [vendor|]; [|now left].
  cbv zeta.
  assert (Hstore : forall fetched,
    snd (store_refreshed e olt (lower (v_name vendor)) (begin db) fetched) = db \/
    onus (snd (store_refreshed e olt (lower (v_name vendor)) (begin db) fetched)) =
      working (fst (refresh_all (Db.olt_id olt) (now e) 0
                      match fetched with SnmpOnus items => items | _ => [] end
                      (begin db, 0)))).
  { intros [|msg|[|x items]]; try (left; reflexivity).
    unfold store_refreshed.
    pose proof (refresh_all_committed (Db.olt_id olt) (now e) (x :: items) 0
                  (begin db, 0)) as Hc.
    destruct (refresh_all _ _ _ _ _) as [s c]. simpl in Hc.
    unfold commit. destruct (commit_fault e); simpl.
    - left. exact Hc.
    - right. reflexivity. }
  destruct (oids_of_olt db olt) as [|o os], (is_epon olt);
    try (now left);
    match goal with
    | |- context [store_refreshed _ _ _ _ ?f] =>
        destruct (Hstore f) as [H|H];
          [left; exact H | right; exists olt; split; [reflexivity|exact H]]
    end.
Qed.

End Sync_frame.

Section Row_frame_claims.
Import Tasks Snmp.

(** X1. The interactive sync deletes and moves no row.  Every stored row is
    found again at its place: untouched, or, when it is a row of the synced
    device whose identifier the adapter reported, with the reported detail
    map as its primary detail map and nothing changed but that map and the
    timestamp.  Rows of other devices and ONUs the device no longer reports
    stay as they are. *)
Theorem interactive_sync_keeps_every_row (e : env) (db : database)
  (olt_id : Z) (n : nat) (r : Onu) :
  nth_error (onus db) n = Some r ->
  let db' := snd (run_ssh_telnet_sync e db olt_id) in
  nth_error (onus db') n = Some r \/
  exists r' x,
    nth_error (onus db') n = Some r' /\
    same_but_details r r' /\
    In x (fetched_interactively e db olt_id) /\
    onu_olt_id r = olt_id /\
    onu_identifier r = identifier x /\
    onu_details r' = Some (details x).
Proof.
  intros Hn. cbv zeta.
  destruct (run_ssh_telnet_sync_store e db olt_id) as [->|(olt & Holt & ->)];
    [now left|].
  destruct (upsert_all_row (Db.olt_id olt) (now e)
              (fetched_interactively e db olt_id) 0 (begin db) n Hn)
    as [H|(r' & x & H & Hs & Hx & Hk & Hd)]; [now left|].
  right. exists r', x. apply is_onu_inv in Hk as [Hid Ho].
  rewrite (get_olt_id _ _ Holt) in Ho. repeat split; try assumption;
    apply Hs.
Qed.

Lemma interactive_sync_keeps_every_row_witness :
  nth_error
    (onus (snd (run_ssh_telnet_sync (Examples.gpon_env Z.of_nat)
                  Examples.stocked_store 10))) 1 =
    nth_error (onus Examples.stocked_store) 1 /\
  nth_error
    (onus (snd (run_ssh_telnet_sync (Examples.gpon_env Z.of_nat)
                  Examples.stocked_store 10))) 2 =
    nth_error (onus Examples.stocked_store) 2 /\
  option_map onu_details
    (nth_error
       (onus (snd (run_ssh_telnet_sync (Examples.gpon_env Z.of_nat)
                     Examples.stocked_store 10))) 0) =
    Some (Some (JStr (lit "second"))).
Proof.
  pose proof (fun n r =>
    @interactive_sync_keeps_every_row (Examples.gpon_env Z.of_nat)
      Examples.stocked_store 10 n r) as H.
  cbv zeta in H. split; [|split].
  - destruct (nth_error (onus Examples.stocked_store) 1) as [r|] eqn:E;
      [|discriminate E].
    destruct (H 1 r E) as [H1|(r' & x & _ & _ & Hx & _ & Hid & _)];
      [exact H1|].
    exfalso. injection E as <-.
    vm_compute in Hx. vm_compute in Hid.
    destruct Hx as [<-|[<-|[<-|[]]]]; discriminate Hid.
  - destruct (nth_error (onus Examples.stocked_store) 2) as [r|] eqn:E;
      [|discriminate E].
    destruct (H 2 r E) as [H1|(r' & x & _ & _ & _ & Ho & _)]; [exact H1|].
    exfalso. injection E as <-. discriminate Ho.
  - vm_compute. reflexivity.
Defined.

(** X2. The SNMP sync leaves every row in its place: untouched, or, when it is
    a row of the synced device whose identifier the adapter reported, with
    the reported detail map as its SNMP detail map and nothing changed but
    that map and the timestamp. *)
Theorem snmp_sync_keeps_every_row (float_centi : str -> option str)
  (e : env) (db : database) (olt_id : Z) (n : nat) (r : Onu) :
  nth_error (onus db) n = Some r ->
  let db' := snd (run_snmp_sync float_centi e db olt_id) in
  nth_error (onus db') n = Some r \/
  exists r' x,
    nth_error (onus db') n = Some r' /\
    same_but_snmp r r' /\
    In x (fetched_by_snmp float_centi e db olt_id) /\
    onu_olt_id r = olt_id /\
    onu_identifier r = snmp_identifier x /\
    onu_details_snmp r' = Some (snmp_details x).
Proof.
  intros Hn. cbv zeta.
  destruct (run_snmp_sync_store float_centi e db olt_id)
    as [->|(olt & Holt & ->)]; [now left|].
  destruct (refresh_all_row (Db.olt_id olt) (now e)
              (fetched_by_snmp float_centi e db olt_id) 0 (begin db, 0) n Hn)
    as [H|(r' & x & H & Hs & Hx & Hk & Hd)]; [now left|].
  right. exists r', x. apply is_onu_inv in Hk as [Hid Ho].
  rewrite (get_olt_id _ _ Holt) in Ho. repeat split; try assumption;
    apply Hs.
Qed.

Lemma snmp_sync_keeps_every_row_witness :
  nth_error
    (onus (snd (run_snmp_sync Examples.no_float Examples.mac_env
                  Examples.stocked_store 11))) 0 =
    nth_error (onus Examples.stocked_store) 0 /\
  option_map onu_identifier
    (nth_error
       (onus (snd (run_snmp_sync Examples.no_float Examples.mac_env
                     Examples.stocked_store 11))) 2) =
    Some (lit "98:c7:a4:5e:30:b8") /\
  option_map onu_details_snmp
    (nth_error
       (onus (snd (run_snmp_sync Examples.no_float Examples.mac_env
                     Examples.stocked_store 11))) 2) <> Some None.
Proof.
  pose proof (fun n r =>
    @snmp_sync_keeps_every_row Examples.no_float Examples.mac_env
      Examples.stocked_store 11 n r) as H.
  cbv zeta in H. split; [|split].
  - destruct (nth_error (onus Examples.stocked_store) 0) as [r|] eqn:E;
      [|discriminate E].
    destruct (H 0 r E) as [H1|(r' & x & _ & _ & _ & Ho & _)]; [exact H1|].
    exfalso. injection E as <-. discriminate Ho.
  - vm_compute. reflexivity.
  - vm_compute. discriminate.
Defined.

End Row_frame_claims.

(** ** One row per key *)

Section Keys.
Import Tasks Snmp.

Lemma map_update_first (B : Type) (g : Onu -> B) (p : Onu -> bool)
  (f : Onu -> Onu) (rows : list Onu) :
  (forall r, g (f r) = g r) ->
  map g (update_first p f rows) = map g rows.
Proof.
  intros Hg. induction rows as [|x rows IH]; simpl; [reflexivity|].
  destruct (p x); simpl; [now rewrite Hg | now rewrite IH].
Qed.

Lemma find_none_key (olt : Z) (k : str) (rows : list Onu) :
  find (is_onu olt k) rows = None -> ~ In (olt, k) (map onu_key rows).
Proof.
  intros Hf Hin. apply in_map_iff in Hin as (r & Hr & Hin).
  pose proof (find_none _ _ Hf r Hin) as H.
  unfold onu_key in Hr. injection Hr as Ho Hk.
  unfold is_onu in H. rewrite Ho, Hk, Z.eqb_refl, streq_refl in H.
  discriminate H.
Qed.

Lemma NoDup_snoc (A : Type) (l : list A) (a : A) :
  NoDup l -> ~ In a l -> NoDup (l ++ [a]).
Proof.
  induction 1 as [|x l Hx Hl IH]; intros Ha; simpl.
  - constructor; [intros []|constructor].
  - constructor.
    + intros Hin. apply in_app_or in Hin as [Hin|[->|[]]]; [tauto|].
      apply Ha. now left.
    + apply IH. intros Hin. apply Ha. now right.
Qed.

Lemma upsert_keys (olt t : Z) (x : onu_item) (s : db_session) :
  NoDup (map onu_key (working s)) ->
  NoDup (map onu_key (working (upsert olt t x s))).
Proof.
  intros H. unfold upsert, first_onu.
  destruct (find _ _) eqn:E; simpl.
  - now rewrite map_update_first by reflexivity.
  - rewrite map_app. simpl. apply NoDup_snoc; [exact H|].
    now apply find_none_key.
Qed.

Lemma upsert_all_keys (olt : Z) (clock : nat -> Z) (items : list onu_item) :
  forall k s,
    NoDup (map onu_key (working s)) ->
    NoDup (map onu_key (working (upsert_all olt clock k items s))).
Proof.
  induction items as [|x items IH]; intros k s H; [exact H|].
  cbn [upsert_all]. now apply IH, upsert_keys.
Qed.

(** X3. If no two stored rows share the key (device, identifier), none do
    after an interactive sync, whatever the adapter reported: an identifier
    listed twice in one fetch gives one row. *)
Theorem interactive_sync_keeps_keys_unique (e : env) (db : database)
  (olt_id : Z) :
  NoDup (map onu_key (onus db)) ->
  NoDup (map onu_key (onus (snd (run_ssh_telnet_sync e db olt_id)))).
Proof.
  intros H.
  destruct (run_ssh_telnet_sync_store e db olt_id) as [->|(olt & _ & ->)];
    [exact H|].
  now apply upsert_all_keys.
Qed.

Lemma interactive_sync_keeps_keys_unique_witness :
  NoDup
    (map onu_key
       (onus (snd (run_ssh_telnet_sync (Examples.gpon_env Z.of_nat)
                     Examples.stocked_store 10)))) /\
  length
    (onus (snd (run_ssh_telnet_sync (Examples.gpon_env Z.of_nat)
                  Examples.stocked_store 10))) = 4.
Proof.
  split; [|reflexivity].
  apply interactive_sync_keeps_keys_unique.
  repeat constructor; simpl; intuition discriminate.
Defined.

End Keys.

(** ** An SNMP sync after an interactive sync *)

Section Sync_then_snmp.
Import Tasks Snmp.

Lemma run_ssh_telnet_sync_success (e : env) (db : database) (olt_id : Z)
  (x : onu_item) (items : list onu_item) :
  fetched_interactively e db olt_id = x :: items ->
  commit_fault e = None ->
  exists olt,
    get_olt db olt_id = Some olt /\
    snd (run_ssh_telnet_sync e db olt_id) =
      {| vendors := vendors db; olts := olts db; oids := oids db;
         onus := working (upsert_all (Db.olt_id olt) (now e) 0 (x :: items)
                            (begin db)) |}.
Proof.
  unfold fetched_interactively, run_ssh_telnet_sync.
  destruct (get_olt db olt_id) as [olt|]; [|discriminate].
  destruct (vendor_of db olt) as [vendor|]; [|discriminate].
  destruct (interactive_fetch e olt (lower (v_name vendor)))
    as [[[msg|its]|ex]|]; try discriminate.
  intros -> Hc. exists olt. split; [reflexivity|].
  cbv zeta. unfold store_fetched, commit. rewrite Hc. cbn [fst snd close committed].
  now rewrite upsert_all_committed.
Qed.

Lemma run_snmp_sync_answer (float_centi : str -> option str) (e : env)
  (db : database) (olt_id : Z) (x : snmp_item) (items : list snmp_item) :
  fetched_by_snmp float_centi e db olt_id = x :: items ->
  commit_fault e = None ->
  exists olt,
    get_olt db olt_id = Some olt /\
    fst (run_snmp_sync float_centi e db olt_id) =
      Returned
        (updated_message
           (stored_count (Db.olt_id olt) (x :: items) (onus db)) olt).
Proof.
  unfold fetched_by_snmp, run_snmp_sync.
  destruct (get_olt db olt_id) as [olt|]; [|discriminate].
  destruct (vendor_of db olt) as [vendor|]; [|discriminate].
  cbv zeta. intros Hf Hc. exists olt. split; [reflexivity|].
  assert (Hstore : forall fetched,
    match fetched with SnmpOnus its => its | _ => [] end = x :: items ->
    fst (store_refreshed e olt (lower (v_name vendor)) (begin db) fetched) =
      Returned
        (updated_message
           (stored_count (Db.olt_id olt) (x :: items) (onus db)) olt)).
  { intros fetched Hits.
    pose proof (store_refreshed_cases e olt (lower (v_name vendor)) db fetched)
      as H. cbv zeta in H. destruct H as (_ & _ & H).
    destruct fetched as [|msg|its]; try discriminate. subst its.
    now rewrite Hc in H. }
  destruct (oids_of_olt db olt) as [|o os], (is_epon olt);
    try discriminate; now apply Hstore.
Qed.

Lemma upsert_stores (olt t : Z) (x : onu_item) (s : db_session) :
  existsb (is_onu olt (identifier x)) (working (upsert olt t x s)) = true.
Proof.
  unfold upsert, first_onu. destruct (find _ _) eqn:E; simpl.
  - rewrite existsb_update_first by reflexivity.
    now rewrite existsb_find, E.
  - rewrite existsb_app. simpl. unfold is_onu at 2. simpl.
    now rewrite streq_refl, Z.eqb_refl, orb_true_r.
Qed.

Lemma upsert_keeps_stored (olt t : Z) (x : onu_item) (s : db_session)
  (k : str) :
  existsb (is_onu olt k) (working s) = true ->
  existsb (is_onu olt k) (working (upsert olt t x s)) = true.
Proof.
  intros H. unfold upsert. destruct (first_onu _ _ _); simpl.
  - now rewrite existsb_update_first by reflexivity.
  - rewrite existsb_app, H. reflexivity.
Qed.

Lemma upsert_all_keeps_stored (olt : Z) (clock : nat -> Z)
  (items : list onu_item) (key : str) :
  forall k s,
    existsb (is_onu olt key) (working s) = true ->
    existsb (is_onu olt key) (working (upsert_all olt clock k items s)) = true.
Proof.
  induction items as [|x items IH]; intros k s H; [exact H|].
  cbn [upsert_all]. now apply IH, upsert_keeps_stored.
Qed.

Lemma upsert_all_stores (olt : Z) (clock : nat -> Z) (items : list onu_item)
  (key : str) :
  forall k s,
    In key (map identifier items) ->
    existsb (is_onu olt key) (working (upsert_all olt clock k items s)) = true.
Proof.
  induction items as [|x items IH]; intros k s Hin; [destruct Hin|].
  cbn [upsert_all]. destruct Hin as [<-|Hin].
  - apply upsert_all_keeps_stored, upsert_stores.
  - now apply IH.
Qed.

Lemma stored_count_all (olt : Z) (items : list snmp_item) (rows : list Onu) :
  (forall x, In x items ->
     existsb (is_onu olt (snmp_identifier x)) rows = true) ->
  stored_count olt items rows = length items.
Proof.
  unfold stored_count. induction items as [|x items IH]; intros H;
    [reflexivity|].
  simpl. rewrite (H x (or_introl eq_refl)). simpl. f_equal.
  apply IH. intros y Hy. apply H. now right.
Qed.

(** X4. After an interactive sync that committed, an SNMP sync of the same
    device skips none of its records whose identifiers the interactive
    adapter had reported: when all of them were, it reports every one of
    them as updated. *)
Theorem snmp_sync_finds_what_interactive_sync_stored
  (float_centi : str -> option str) (e1 e2 : env) (db : database)
  (olt_id : Z) :
  let db1 := snd (run_ssh_telnet_sync e1 db olt_id) in
  let items := fetched_interactively e1 db olt_id in
  let sitems := fetched_by_snmp float_centi e2 db1 olt_id in
  commit_fault e1 = None ->
  commit_fault e2 = None ->
  sitems <> [] ->
  incl (map snmp_identifier sitems) (map identifier items) ->
  exists olt,
    get_olt db olt_id = Some olt /\
    fst (run_snmp_sync float_centi e2 db1 olt_id) =
      Returned (updated_message (length sitems) olt).
Proof.
  cbv zeta. intros Hc1 Hc2 Hne Hincl.
  destruct (fetched_by_snmp float_centi e2 _ olt_id) as [|y sitems] eqn:Hs;
    [contradiction|].
  destruct (fetched_interactively e1 db olt_id) as [|x items] eqn:Hi.
  { exfalso. apply (Hincl (snmp_identifier y)). now left. }
  destruct (run_ssh_telnet_sync_success _ _ _ Hi Hc1) as (olt & Holt & Hdb1).
  destruct (run_snmp_sync_answer _ _ _ _ Hs Hc2) as (olt' & Holt' & Hans).
  assert (Heq : get_olt (snd (run_ssh_telnet_sync e1 db olt_id)) olt_id =
                get_olt db olt_id) by (now rewrite Hdb1).
  rewrite Heq, Holt in Holt'. injection Holt' as <-.
  exists olt. split; [exact Holt|].
  rewrite Hans. f_equal. f_equal.
  apply stored_count_all. intros z Hz. rewrite Hdb1. cbn [onus].
  apply (upsert_all_stores (Db.olt_id olt) (now e1) (x :: items)).
  apply Hincl. now apply in_map.
Qed.

Lemma snmp_sync_after_interactive_sync_witness :
  fst (run_snmp_sync Examples.no_float Examples.mac_env
         (snd (run_ssh_telnet_sync Examples.mac_env Examples.empty_store 11))
         11) =
  Returned (updated_message 2 Examples.epon_olt).
Proof.
  destruct (@snmp_sync_finds_what_interactive_sync_stored
              Examples.no_float Examples.mac_env Examples.mac_env
              Examples.empty_store 11 eq_refl eq_refl)
    as (olt & Holt & H).
  - vm_compute. discriminate.
  - vm_compute. intros a [<-|[<-|[]]]; simpl; tauto.
  - injection Holt as <-. exact H.
Defined.

End Sync_then_snmp.

(** ** Dictionaries *)

Section Dict_laws.
Variable V : Type.
Implicit Types d : PyDict.dict V.

Lemma streq_false (a b : str) : streq a b = false <-> a <> b.
Proof.
  split.
  - intros H E. apply streq_eq in E. congruence.
  - intros H. destruct (streq a b) eqn:E; [|reflexivity].
    apply streq_eq in E. contradiction.
Qed.

Lemma streq_sym (a b : str) : streq a b = streq b a.
Proof.
  destruct (streq a b) eqn:E.
  - apply streq_eq in E. subst. symmetry. apply streq_refl.
  - symmetry. apply streq_false. apply streq_false in E. congruence.
Qed.

Lemma get_set (k k' : str) (v : V) d :
  PyDict.get k (PyDict.set k' v d) =
  if streq k k' then Some v else PyDict.get k d.
Proof.
  induction d as [|[k0 v0] d IH]; simpl.
  - destruct (streq k k'); reflexivity.
  - destruct (streq k' k0) eqn:E0; simpl.
    + apply streq_eq in E0. subst k0. destruct (streq k k'); reflexivity.
    + destruct (streq k k0) eqn:E1.
      * apply streq_eq in E1. subst k0.
        rewrite streq_sym, E0. reflexivity.
      * exact IH.
Qed.

Lemma get_In k (v : V) d : PyDict.get k d = Some v -> In (k, v) d.
Proof.
  induction d as [|[k0 v0] d IH]; simpl; [discriminate|].
  destruct (streq k k0) eqn:E.
  - apply streq_eq in E. subst. intros [= ->]. now left.
  - intros H. right. now apply IH.
Qed.

Lemma get_None k d : PyDict.get k d = None <-> ~ In k (map fst d).
Proof.
  induction d as [|[k0 v0] d IH]; simpl; [tauto|].
  destruct (streq k k0) eqn:E.
  - apply streq_eq in E. subst. split; [discriminate|]. intros H. tauto.
  - apply streq_false in E. rewrite IH. split; [|tauto].
    intros H [H1|H1]; [congruence|tauto].
Qed.

Lemma In_get k (v : V) d :
  NoDup (map fst d) -> In (k, v) d -> PyDict.get k d = Some v.
Proof.
  induction d as [|[k0 v0] d IH]; simpl; [intros _ []|].
  intros Hnd [H|H]; inversion Hnd as [|? ? Hk Hd]; subst.
  - injection H as -> ->. now rewrite streq_refl.
  - destruct (streq k k0) eqn:E; [|now apply IH].
    apply streq_eq in E. subst. exfalso. apply Hk.
    apply in_map_iff. now exists (k0, v).
Qed.

Lemma keys_set (k : str) (v : V) d :
  map fst (PyDict.set k v d) =
  if PyDict.mem k d then map fst d else map fst d ++ [k].
Proof.
  unfold PyDict.mem. induction d as [|[k0 v0] d IH]; simpl; [reflexivity|].
  destruct (streq k k0) eqn:E; simpl.
  - apply streq_eq in E. now subst.
  - rewrite IH. destruct (PyDict.get k d); reflexivity.
Qed.

Lemma NoDup_keys_set (k : str) (v : V) d :
  NoDup (map fst d) -> NoDup (map fst (PyDict.set k v d)).
Proof.
  intros H. rewrite keys_set. unfold PyDict.mem.
  destruct (PyDict.get k d) eqn:E; [exact H|].
  apply NoDup_snoc; [exact H | now apply get_None].
Qed.

End Dict_laws.

(** ** Folding the walks into rows *)

Section Correlation.
Import Snmp.
Implicit Types acc : PyDict.dict (PyDict.dict str).

Let onu_index_key : str := lit "onu_index".

Lemma cell_record_value (k i v : str) acc (i' k' : str) :
  k' <> onu_index_key ->
  cell (record_value k acc (i, v)) i' k' =
  if streq i' i && streq k' k then Some v else cell acc i' k'.
Proof.
  intros Hk'. unfold cell, record_value. cbn [fst snd].
  rewrite get_set. destruct (streq i' i) eqn:Ei; [|reflexivity].
  apply streq_eq in Ei. subst i'. rewrite get_set. cbn [andb].
  destruct (streq k' k); [reflexivity|].
  destruct (PyDict.get i acc); [reflexivity|].
  cbn [PyDict.get]. change (lit "onu_index") with onu_index_key.
  apply streq_false in Hk'. now rewrite Hk'.
Qed.

Lemma cell_fold_table (k : str) (tbl : PyDict.dict str) (i' k' : str) :
  forall acc,
  k' <> onu_index_key ->
  NoDup (map fst tbl) ->
  cell (fold_left (record_value k) tbl acc) i' k' =
  if streq k' k
  then match PyDict.get i' tbl with
       | Some v => Some v
       | None => cell acc i' k'
       end
  else cell acc i' k'.
Proof.
  induction tbl as [|[i v] tbl IH]; intros acc Hk' Hnd.
  - simpl. destruct (streq k' k); reflexivity.
  - inversion Hnd as [|? ? Hi Htbl]; subst. cbn [fold_left].
    rewrite IH by assumption. rewrite cell_record_value by assumption.
    destruct (streq k' k); [|now rewrite andb_false_r].
    rewrite andb_true_r. cbn [PyDict.get].
    destruct (streq i' i) eqn:Ei; [|reflexivity].
    apply streq_eq in Ei. subst i'.
    simpl in Hi. apply get_None in Hi. now rewrite Hi.
Qed.

Lemma cell_correlate_from (data : PyDict.dict (PyDict.dict str))
  (i' k' : str) :
  forall acc,
  k' <> onu_index_key ->
  NoDup (map fst data) ->
  Forall (fun kv => NoDup (map fst (snd kv))) data ->
  cell
    (fold_left (fun acc kv => fold_left (record_value (fst kv)) (snd kv) acc)
       data acc) i' k' =
  match PyDict.get k' data with
  | Some tbl =>
      match PyDict.get i' tbl with
      | Some v => Some v
      | None => cell acc i' k'
      end
  | None => cell acc i' k'
  end.
Proof.
  induction data as [|[k tbl] data IH]; intros acc Hk' Hnd Htbls;
    [reflexivity|].
  inversion Hnd as [|? ? Hk Hdata]; subst.
  inversion Htbls as [|? ? Htbl Hrest]; subst.
  cbn [fold_left fst snd]. rewrite IH by assumption.
  rewrite !cell_fold_table by assumption. cbn [PyDict.get].
  destruct (streq k' k) eqn:Ek.
  - apply streq_eq in Ek. subst k'.
    simpl in Hk. apply get_None in Hk. now rewrite Hk.
  - destruct (PyDict.get k' data) as [tbl'|]; reflexivity.
Qed.

Lemma cell_correlate (data : PyDict.dict (PyDict.dict str)) (i k : str) :
  k <> onu_index_key ->
  NoDup (map fst data) ->
  Forall (fun kv => NoDup (map fst (snd kv))) data ->
  cell (correlate data) i k =
  match PyDict.get k data with
  | Some tbl => PyDict.get i tbl
  | None => None
  end.
Proof.
  intros Hk Hnd Htbls. unfold correlate.
  rewrite cell_correlate_from by assumption.
  destruct (PyDict.get k data) as [tbl|]; [|reflexivity].
  destruct (PyDict.get i tbl); reflexivity.
Qed.

(** The tables of a walk have each index once. *)
Lemma record_binding_keys (index_of : str -> option str)
  (results : PyDict.dict str) (vb : str * str) :
  NoDup (map fst results) ->
  NoDup (map fst (record_binding index_of results vb)).
Proof.
  intros H. unfold record_binding. destruct (index_of (fst vb)); [|exact H].
  now apply NoDup_keys_set.
Qed.

Lemma walk_keys (index_of : str -> option str) (steps : list walk_step) :
  forall results,
    NoDup (map fst results) ->
    NoDup (map fst (walk index_of steps results)).
Proof.
  induction steps as [|[vbs| |] steps IH]; intros results H; try exact H.
  cbn [walk]. apply IH. clear IH. revert results H.
  induction vbs as [|vb vbs IH]; intros results H; [exact H|].
  cbn [fold_left]. now apply IH, record_binding_keys.
Qed.

Lemma walk_all_tables (index_of : str -> option str) (a : agent)
  (oids : PyDict.dict str) :
  Forall (fun kv => NoDup (map fst (snd kv))) (walk_all index_of a oids).
Proof.
  unfold walk_all. apply Forall_forall. intros kv Hin.
  apply in_map_iff in Hin as (ko & <- & _). simpl.
  apply walk_keys. constructor.
Qed.

Lemma walk_all_fields (index_of : str -> option str) (a : agent)
  (oids : PyDict.dict str) :
  map fst (walk_all index_of a oids) = map fst oids.
Proof. unfold walk_all. rewrite map_map. reflexivity. Qed.

Lemma get_walk_all (index_of : str -> option str) (a : agent)
  (oids : PyDict.dict str) (k : str) :
  PyDict.get k (walk_all index_of a oids) =
  option_map (fun oid => walk index_of (a oid) []) (PyDict.get k oids).
Proof.
  unfold walk_all. induction oids as [|[k0 o] oids IH]; [reflexivity|].
  simpl. destruct (streq k k0); [reflexivity|exact IH].
Qed.

Lemma mem_cons (V : Type) (i' i : str) (v : V) (d : PyDict.dict V) :
  PyDict.mem i' ((i, v) :: d) = streq i' i || PyDict.mem i' d.
Proof. unfold PyDict.mem. simpl. destruct (streq i' i); reflexivity. Qed.

Lemma mem_record_value (k i v : str) acc (i' : str) :
  PyDict.mem i' (record_value k acc (i, v)) = streq i' i || PyDict.mem i' acc.
Proof.
  unfold PyDict.mem, record_value. cbn [fst snd]. rewrite get_set.
  destruct (streq i' i); reflexivity.
Qed.

Lemma mem_fold_table (k : str) (tbl : PyDict.dict str) (i' : str) :
  forall acc,
  PyDict.mem i' (fold_left (record_value k) tbl acc) =
  PyDict.mem i' tbl || PyDict.mem i' acc.
Proof.
  induction tbl as [|[i v] tbl IH]; intros acc; [reflexivity|].
  cbn [fold_left]. rewrite IH, mem_record_value, mem_cons.
  destruct (streq i' i), (PyDict.mem i' tbl); reflexivity.
Qed.

Lemma mem_correlate (data : PyDict.dict (PyDict.dict str)) (i : str) :
  PyDict.mem i (correlate data) =
  existsb (fun kv => PyDict.mem i (snd kv)) data.
Proof.
  unfold correlate.
  assert (H : forall acc,
    PyDict.mem i
      (fold_left (fun acc kv => fold_left (record_value (fst kv)) (snd kv) acc)
         data acc) =
    existsb (fun kv => PyDict.mem i (snd kv)) data || PyDict.mem i acc).
  { induction data as [|[k tbl] data IH]; intros acc; [reflexivity|].
    cbn [fold_left existsb fst snd]. rewrite IH, mem_fold_table.
    destruct (PyDict.mem i tbl), (existsb _ data); reflexivity. }
  rewrite H. apply orb_false_r.
Qed.

Lemma record_value_keys (k : str) acc (iv : str * str) :
  NoDup (map fst acc) -> NoDup (map fst (record_value k acc iv)).
Proof. intros H. unfold record_value. now apply NoDup_keys_set. Qed.

Lemma correlate_keys (data : PyDict.dict (PyDict.dict str)) :
  NoDup (map fst (correlate data)).
Proof.
  unfold correlate.
  assert (H : forall acc, NoDup (map fst acc) ->
    NoDup (map fst
      (fold_left (fun acc kv => fold_left (record_value (fst kv)) (snd kv) acc)
         data acc))).
  { induction data as [|[k tbl] data IH]; intros acc Hacc; [exact Hacc|].
    cbn [fold_left fst snd]. apply IH. clear IH. revert acc Hacc.
    induction tbl as [|iv tbl IH]; intros acc Hacc; [exact Hacc|].
    cbn [fold_left]. now apply IH, record_value_keys. }
  apply H. constructor.
Qed.

(** Every row carries its own index, unless a field of that name is
    walked. *)
Let indexed acc : Prop :=
  forall i row, PyDict.get i acc = Some row ->
    PyDict.get onu_index_key row = Some i.

Lemma indexed_record_value (k : str) acc (iv : str * str) :
  k <> onu_index_key -> indexed acc -> indexed (record_value k acc iv).
Proof.
  intros Hk Hacc i row. unfold record_value. rewrite get_set.
  destruct (streq i (fst iv)) eqn:Ei.
  - apply streq_eq in Ei. subst i. intros [= <-]. rewrite get_set.
    assert (E : streq onu_index_key k = false)
      by (apply streq_false; congruence).
    rewrite E. destruct (PyDict.get (fst iv) acc) as [row0|] eqn:E0.
    + now apply Hacc.
    + cbn [PyDict.get]. change (lit "onu_index") with onu_index_key.
      now rewrite streq_refl.
  - apply Hacc.
Qed.

Lemma indexed_correlate (data : PyDict.dict (PyDict.dict str)) :
  PyDict.get onu_index_key data = None -> indexed (correlate data).
Proof.
  unfold correlate.
  assert (H : forall acc, indexed acc ->
    PyDict.get onu_index_key data = None ->
    indexed
      (fold_left (fun acc kv => fold_left (record_value (fst kv)) (snd kv) acc)
         data acc)).
  { induction data as [|[k tbl] data IH]; intros acc Hacc Hno; [exact Hacc|].
    cbn [PyDict.get] in Hno.
    destruct (streq onu_index_key k) eqn:Ek; [discriminate|].
    apply streq_false in Ek.
    cbn [fold_left fst snd]. apply IH; [|exact Hno]. clear IH Hno.
    revert acc Hacc.
    induction tbl as [|iv tbl IH]; intros acc Hacc; [exact Hacc|].
    cbn [fold_left]. apply IH, indexed_record_value; [congruence|exact Hacc]. }
  intros Hno. apply H; [|exact Hno]. intros i row. discriminate.
Qed.

End Correlation.

Section Correlator_claims.
Import Snmp.

Lemma correlated_rows (index_of : str -> option str)
  (a : agent) (oids : PyDict.dict str) :
  NoDup (map fst oids) ->
  let rows := correlate (walk_all index_of a oids) in
  (forall index field,
     field <> lit "onu_index" ->
     cell rows index field = walked index_of a oids field index) /\
  (forall index,
     PyDict.mem index rows =
     existsb (fun ko => PyDict.mem index (walk index_of (a (snd ko)) []))
       oids) /\
  NoDup (map fst rows) /\
  (PyDict.get (lit "onu_index") oids = None ->
   forall index row,
     PyDict.get index rows = Some row ->
     PyDict.get (lit "onu_index") row = Some index).
Proof.
  intros Hnd. cbv zeta. split; [|split; [|split]].
  - intros index field Hf. unfold walked. rewrite cell_correlate.
    + rewrite get_walk_all. destruct (PyDict.get field oids); reflexivity.
    + exact Hf.
    + now rewrite walk_all_fields.
    + apply walk_all_tables.
  - intros index. rewrite mem_correlate. unfold walk_all.
    induction oids as [|ko oids' IH]; [reflexivity|].
    inversion Hnd; subst. simpl. f_equal. now apply IH.
  - apply correlate_keys.
  - intros Hno. apply indexed_correlate.
    rewrite get_walk_all. now rewrite Hno.
Qed.

(** X5. The correlator transposes the walks.  For a catalog that names no
    field twice, the row of an index holds under a field exactly the value
    the walk of that field recorded for the index; an index has a row
    exactly when some walk recorded it, and only one; and every row holds
    its own index under [onu_index], unless the catalog walks a field of
    that name. *)
Theorem correlation_transposes_the_walks (index_of : str -> option str)
  (a : agent) (oids : PyDict.dict str) :
  NoDup (map fst oids) ->
  let rows := correlate (walk_all index_of a oids) in
  (forall index field,
     field <> lit "onu_index" ->
     cell rows index field = walked index_of a oids field index) /\
  (forall index,
     PyDict.mem index rows =
     existsb (fun ko => PyDict.mem index (walk index_of (a (snd ko)) []))
       oids) /\
  NoDup (map fst rows) /\
  (PyDict.get (lit "onu_index") oids = None ->
   forall index row,
     PyDict.get index rows = Some row ->
     PyDict.get (lit "onu_index") row = Some index).
Proof. exact (@correlated_rows index_of a oids). Qed.

Lemma correlation_transposes_the_walks_witness :
  cell
    (correlate
       (walk_all HsgqSnmp.onu_index Examples.mac_agent
          HsgqEponSnmp.get_fallback_oids))
    (lit "16777474") (lit "mac_address") =
  Some (lit "98:C7:A4:5E:30:B9").
Proof.
  assert (Hnd : NoDup (map fst HsgqEponSnmp.get_fallback_oids)).
  { repeat constructor; simpl; intuition discriminate. }
  destruct (@correlation_transposes_the_walks HsgqSnmp.onu_index
              Examples.mac_agent HsgqEponSnmp.get_fallback_oids Hnd)
    as (H & _).
  rewrite H by discriminate. vm_compute. reflexivity.
Defined.

Lemma mem_In (V : Type) (k : str) (d : PyDict.dict V) :
  PyDict.mem k d = true <-> In k (map fst d).
Proof.
  unfold PyDict.mem. pose proof (get_None k d) as H.
  destruct (PyDict.get k d).
  - split; [|reflexivity]. intros _.
    destruct (in_dec (list_eq_dec ascii_dec) k (map fst d)) as [Hin|Hout];
      [exact Hin|]. apply H in Hout. discriminate.
  - split; [discriminate|]. intros Hin. exfalso. now apply (proj1 H).
Qed.

Lemma mem_get (V : Type) (k : str) (d : PyDict.dict V) :
  PyDict.mem k d = true -> exists v, PyDict.get k d = Some v.
Proof.
  unfold PyDict.mem. destruct (PyDict.get k d) as [v|]; [|discriminate].
  now exists v.
Qed.

Lemma length_flat_map_option (A B : Type) (f : A -> option B) (l : list A) :
  length (flat_map (fun x => match f x with Some y => [y] | None => [] end) l) =
  length (filter (fun x => match f x with Some _ => true | None => false end) l).
Proof.
  induction l as [|x l IH]; [reflexivity|]. simpl.
  destruct (f x); simpl; now rewrite IH.
Qed.

Lemma filter_map_fst (V : Type) (p : str -> bool) (d : PyDict.dict V) :
  map fst (filter (fun kv => p (fst kv)) d) = filter p (map fst d).
Proof.
  induction d as [|[k v] d IH]; [reflexivity|]. simpl.
  destruct (p k); simpl; now rewrite IH.
Qed.

(** X6. The generic adapters emit one record for each index the walk of the
    identifier field recorded, with the recorded value as identifier, and
    none for any other index; without an OID for the identifier field in
    the catalog they emit nothing. *)
Theorem snmp_records_are_the_identified_indexes
  (index_of : str -> option str) (default_key : str) (a : agent)
  (oids : PyDict.dict str) :
  NoDup (map fst oids) ->
  let identifier_key :=
    match PyDict.get (lit "identifier_key") oids with
    | Some k => k
    | None => default_key
    end in
  identifier_key <> lit "onu_index" ->
  let table :=
    match PyDict.get identifier_key oids with
    | Some oid => walk index_of (a oid) []
    | None => []
    end in
  let items := get_onus_snmp index_of default_key a oids in
  (forall v, In v (map snmp_identifier items) <-> In v (map snd table)) /\
  length items = length table /\
  (forall x, In x items ->
     exists index row,
       PyDict.get index (correlate (walk_all index_of a oids)) = Some row /\
       PyDict.get index table = Some (snmp_identifier x) /\
       snmp_details x = json_of_row row).
Proof.
  intros Hnd. cbv zeta. intros Hkey.
  set (identifier_key :=
         match PyDict.get (lit "identifier_key") oids with
         | Some k => k
         | None => default_key
         end) in *.
  set (table := match PyDict.get identifier_key oids with
                | Some oid => walk index_of (a oid) []
                | None => []
                end).
  destruct (@correlated_rows index_of a oids Hnd)
    as (Hcell & Hmem & Hrows & _).
  set (rows := correlate (walk_all index_of a oids)) in *.
  assert (Htable : NoDup (map fst table)).
  { unfold table. destruct (PyDict.get identifier_key oids);
      [apply walk_keys|]; constructor. }
  assert (Hrow : forall i row, In (i, row) rows ->
            PyDict.get identifier_key row = PyDict.get i table).
  { intros i row Hin. pose proof (Hcell i identifier_key Hkey) as H.
    unfold cell in H. rewrite (In_get _ _ _ Hrows Hin) in H. rewrite H.
    unfold walked, table.
    destruct (PyDict.get identifier_key oids); reflexivity. }
  assert (Hhas : forall i, PyDict.mem i table = true -> PyDict.mem i rows = true).
  { intros i Hi. rewrite Hmem. unfold table in Hi.
    destruct (PyDict.get identifier_key oids) as [oid|] eqn:E;
      [|discriminate Hi].
    apply existsb_exists. exists (identifier_key, oid).
    split; [now apply get_In|exact Hi]. }
  unfold get_onus_snmp. fold identifier_key. fold rows.
  split; [|split].
  - intros v. rewrite in_map_iff. split.
    + intros (x & <- & Hx). apply in_flat_map in Hx as ([i row] & Hin & Hx).
      cbn [snd] in Hx. rewrite (Hrow _ _ Hin) in Hx.
      destruct (PyDict.get i table) as [w|] eqn:E; [|destruct Hx].
      destruct Hx as [<-|[]]. cbn [snmp_identifier].
      apply in_map_iff. exists (i, w). split; [reflexivity|now apply get_In].
    + intros Hv. apply in_map_iff in Hv as ([i w] & <- & Hin).
      pose proof (In_get _ _ _ Htable Hin) as Hget.
      assert (Hi : PyDict.mem i table = true)
        by (unfold PyDict.mem; now rewrite Hget).
      destruct (mem_get _ _ (Hhas _ Hi)) as [row Hr].
      exists {| snmp_identifier := w; snmp_details := json_of_row row |}.
      split; [reflexivity|]. apply in_flat_map. exists (i, row).
      split; [now apply get_In|]. cbn [snd].
      rewrite (Hrow i row (get_In _ _ Hr)), Hget. now left.
  - assert (Hlen : forall l, incl l rows ->
      length
        (flat_map
           (fun ir : str * PyDict.dict str =>
              match PyDict.get identifier_key (snd ir) with
              | Some v => [{| snmp_identifier := v;
                              snmp_details := json_of_row (snd ir) |}]
              | None => []
              end) l) =
      length (filter (fun ir => PyDict.mem (fst ir) table) l)).
    { induction l as [|[i row] l IH]; intros Hl; [reflexivity|].
      simpl. rewrite (Hrow i row) by (apply Hl; now left).
      unfold PyDict.mem at 1.
      destruct (PyDict.get i table); simpl; rewrite IH;
        try reflexivity; intros x Hx; apply Hl; now right. }
    rewrite Hlen by apply incl_refl.
    rewrite <- (length_map fst),
      (filter_map_fst (fun i => PyDict.mem i table) rows),
      <- (length_map fst table).
    apply Nat.le_antisymm.
    + apply NoDup_incl_length; [now apply NoDup_filter|].
      intros i Hi. apply filter_In in Hi as [_ Hi]. now apply mem_In.
    + apply NoDup_incl_length; [exact Htable|].
      intros i Hi. apply mem_In in Hi. apply filter_In.
      split; [apply mem_In; now apply Hhas|exact Hi].
  - intros x Hx. apply in_flat_map in Hx as ([i row] & Hin & Hx).
    cbn [snd] in Hx.
    destruct (PyDict.get identifier_key row) as [w|] eqn:E; [|destruct Hx].
    destruct Hx as [<-|[]]. exists i, row. cbn [snmp_identifier snmp_details].
    split; [now apply In_get|]. split; [|reflexivity].
    now rewrite <- (Hrow _ _ Hin).
Qed.

Lemma snmp_records_witness :
  length
    (HiosoSnmp.get_onus_snmp Examples.mac_agent
       HsgqEponSnmp.get_fallback_oids) = 3.
Proof.
  assert (Hnd : NoDup (map fst HsgqEponSnmp.get_fallback_oids)).
  { repeat constructor; simpl; intuition discriminate. }
  destruct (@snmp_records_are_the_identified_indexes HiosoSnmp.onu_index
              (lit "mac_address") Examples.mac_agent
              HsgqEponSnmp.get_fallback_oids Hnd) as (_ & H & _).
  - discriminate.
  - exact H.
Defined.

Lemma walk_stops (index_of : str -> option str) (pre : list walk_step)
  (stop : walk_step) (post : list walk_step) :
  stop = WalkError \/ stop = WalkException ->
  forall results,
    walk index_of (pre ++ stop :: post) results = walk index_of pre results.
Proof.
  intros Hstop. induction pre as [|[vbs| |] pre IH]; intros results;
    try reflexivity.
  - destruct Hstop as [-> | ->]; reflexivity.
  - cbn [app walk]. apply IH.
Qed.

(** X7. A walk that meets an error indication, an error status or an
    exception keeps what it had recorded and reads nothing that follows:
    the rows hold, under the field of that walk, the values recorded before
    the error. *)
Theorem walk_stops_at_the_first_error (index_of : str -> option str)
  (a : agent) (oids : PyDict.dict str) (field oid : str)
  (pre : list walk_step) (stop : walk_step) (post : list walk_step) :
  NoDup (map fst oids) ->
  field <> lit "onu_index" ->
  PyDict.get field oids = Some oid ->
  stop = WalkError \/ stop = WalkException ->
  a oid = pre ++ stop :: post ->
  walk index_of (a oid) [] = walk index_of pre [] /\
  forall index,
    cell (correlate (walk_all index_of a oids)) index field =
    PyDict.get index (walk index_of pre []).
Proof.
  intros Hnd Hf Hoid Hstop Ha.
  assert (Hw : walk index_of (a oid) [] = walk index_of pre [])
    by (rewrite Ha; now apply walk_stops).
  split; [exact Hw|]. intros index.
  destruct (@correlated_rows index_of a oids Hnd) as (Hcell & _).
  rewrite Hcell by exact Hf. unfold walked. now rewrite Hoid, Hw.
Qed.

Lemma walk_stops_at_the_first_error_witness :
  cell
    (correlate
       (walk_all HsgqSnmp.onu_index Examples.failing_agent
          HsgqEponSnmp.get_fallback_oids))
    (lit "1") (lit "mac_address") = Some (lit "0x98c7a45e30b8") /\
  cell
    (correlate
       (walk_all HsgqSnmp.onu_index Examples.failing_agent
          HsgqEponSnmp.get_fallback_oids))
    (lit "2") (lit "mac_address") = None.
Proof.
  assert (Hnd : NoDup (map fst HsgqEponSnmp.get_fallback_oids)).
  { repeat constructor; simpl; intuition discriminate. }
  destruct (@walk_stops_at_the_first_error HsgqSnmp.onu_index
              Examples.failing_agent HsgqEponSnmp.get_fallback_oids
              (lit "mac_address") (lit "1.3.6.1.4.1.50224.3.3.2.1.7")
              [VarBinds [(lit "1.3.6.1.4.1.50224.3.3.2.1.7.1",
                          lit "0x98c7a45e30b8")]]
              WalkError
              [VarBinds [(lit "1.3.6.1.4.1.50224.3.3.2.1.7.2",
                          lit "0x98c7a45e30b9")]]
              Hnd) as (_ & H).
  - discriminate.
  - reflexivity.
  - now left.
  - reflexivity.
  - split; rewrite H; reflexivity.
Defined.

(** *** The EPON correlator *)

Lemma epon_records_of_complete (float_centi : str -> option str)
  (onus_by_index : PyDict.dict (PyDict.dict str)) (index : str)
  (data : PyDict.dict str) (r : onu_item) :
  In (index, data) onus_by_index ->
  HsgqEponSnmp.record_of float_centi index data = Some r ->
  In r (HsgqEponSnmp.records_of float_centi onus_by_index).
Proof.
  induction onus_by_index as [|[i d] rest IH]; simpl; [tauto|].
  intros [[= -> ->]|Hin] Hr.
  - rewrite Hr. now left.
  - destruct (HsgqEponSnmp.record_of float_centi i d); [right|]; auto.
Qed.

(** X8. The EPON correlator joins the walks by index: every record it emits is
    built from one row, which holds under each field what the walk of that
    field recorded for one and the same index; and every index whose MAC
    value is not empty and cleans to 12 characters gets a record. *)
Theorem epon_records_join_the_walks_by_index
  (float_centi : str -> option str) (OIDS : PyDict.dict str) (a : agent) :
  NoDup (map fst OIDS) ->
  exists onus,
    HsgqEponSnmp.get_onus float_centi OIDS a = FetchOnus onus /\
    (forall r, In r onus ->
       exists index row,
         HsgqEponSnmp.record_of float_centi index row = Some r /\
         forall field,
           field <> lit "onu_index" ->
           PyDict.get field row =
             walked HsgqSnmp.onu_index a OIDS field index) /\
    (forall index raw_mac,
       walked HsgqSnmp.onu_index a OIDS (lit "mac_address") index =
         Some raw_mac ->
       raw_mac <> [] ->
       length (HsgqEponSnmp.clean_mac raw_mac) = 12 ->
       exists r,
         In r onus /\
         identifier r =
           HsgqEponSnmp.format_mac (HsgqEponSnmp.clean_mac raw_mac)).
Proof.
  intros Hnd. eexists. split; [reflexivity|].
  destruct (@correlated_rows HsgqSnmp.onu_index a OIDS Hnd)
    as (Hcell & Hmem & Hrows & _).
  set (rows := correlate (walk_all HsgqSnmp.onu_index a OIDS)) in *.
  split.
  - intros r Hr. apply epon_records_of_In in Hr as (index & row & Hin & Hr).
    exists index, row. split; [exact Hr|]. intros field Hf.
    rewrite <- (Hcell index field Hf). unfold cell.
    now rewrite (In_get _ _ _ Hrows Hin).
  - intros index raw Hraw Hne Hlen.
    assert (Hrow : PyDict.mem index rows = true).
    { rewrite Hmem. unfold walked in Hraw.
      destruct (PyDict.get (lit "mac_address") OIDS) as [oid|] eqn:E;
        [|discriminate].
      apply existsb_exists. exists (lit "mac_address", oid).
      split; [now apply get_In|]. unfold PyDict.mem. cbn [snd].
      now rewrite Hraw. }
    apply mem_get in Hrow as [row Hrow].
    assert (Hmac : PyDict.get (lit "mac_address") row = Some raw).
    { pose proof (Hcell index (lit "mac_address")) as H.
      unfold cell in H. rewrite Hrow in H. rewrite H by discriminate.
      exact Hraw. }
    destruct (HsgqEponSnmp.record_of float_centi index row) as [r|] eqn:Hr.
    + exists r. split.
      * apply epon_records_of_complete with (index := index) (data := row);
          [now apply get_In|exact Hr].
      * destruct (epon_record_of_Some _ _ _ Hr) as (raw' & Hm & _ & _ & Hid).
        rewrite Hmac in Hm. injection Hm as <-. exact Hid.
    + exfalso. unfold HsgqEponSnmp.record_of in Hr. rewrite Hmac in Hr.
      destruct raw as [|c raw]; [contradiction|].
      rewrite Hlen in Hr. simpl in Hr.
      destruct (HsgqEponSnmp.powers float_centi row). discriminate.
Qed.

Lemma epon_records_join_the_walks_witness :
  exists onus,
    HsgqEponSnmp.get_onus Examples.no_float HsgqEponSnmp.get_fallback_oids
      Examples.mac_agent = FetchOnus onus /\
    exists r, In r onus /\ identifier r = lit "98:c7:a4:5e:30:b8".
Proof.
  assert (Hnd : NoDup (map fst HsgqEponSnmp.get_fallback_oids)).
  { repeat constructor; simpl; intuition discriminate. }
  destruct (@epon_records_join_the_walks_by_index Examples.no_float
              HsgqEponSnmp.get_fallback_oids Examples.mac_agent Hnd)
    as (onus & Hget & _ & H).
  exists onus. split; [exact Hget|].
  apply (H (lit "16777473") (lit "0x98c7a45e30b8"));
    [reflexivity|discriminate|reflexivity].
Defined.

(** *** The catalog as a dictionary *)

Lemma find_snoc (A : Type) (p : A -> bool) (l : list A) (x : A) :
  find p (l ++ [x]) =
  match find p l with
  | Some y => Some y
  | None => if p x then Some x else None
  end.
Proof.
  induction l as [|y l IH]; [reflexivity|]. simpl.
  destruct (p y); [reflexivity|exact IH].
Qed.

Lemma get_of_list_from (V : Type) (kvs : list (str * V)) (k : str) :
  forall d : PyDict.dict V,
  PyDict.get k (fold_left (fun d kv => PyDict.set (fst kv) (snd kv) d) kvs d) =
  match find (fun kv => streq k (fst kv)) (rev kvs) with
  | Some kv => Some (snd kv)
  | None => PyDict.get k d
  end.
Proof.
  induction kvs as [|kv kvs IH]; intros d; [reflexivity|].
  cbn [fold_left rev]. rewrite IH, find_snoc.
  destruct (find _ (rev kvs)); [reflexivity|].
  rewrite get_set. destruct (streq k (fst kv)); reflexivity.
Qed.

Lemma of_list_keys (V : Type) (kvs : list (str * V)) :
  NoDup (map fst (PyDict.of_list kvs)).
Proof.
  unfold PyDict.of_list.
  assert (H : forall d : PyDict.dict V, NoDup (map fst d) ->
    NoDup (map fst
      (fold_left (fun d kv => PyDict.set (fst kv) (snd kv) d) kvs d))).
  { induction kvs as [|kv kvs IH]; intros d Hd; [exact Hd|].
    cbn [fold_left]. now apply IH, NoDup_keys_set. }
  apply H. constructor.
Qed.

(** X9. The catalog handed to an adapter names each function once: of several
    OID rows stored for one function, the last one read gives the OID. *)
Theorem catalog_keeps_the_last_row_of_a_function (records : list OID)
  (fungsi : str) :
  PyDict.get fungsi (oids_dict records) =
    option_map oid_oid
      (find (fun o => streq fungsi (oid_fungsi o)) (rev records)) /\
  NoDup (map fst (oids_dict records)).
Proof.
  split; [|apply of_list_keys].
  unfold oids_dict, PyDict.of_list. rewrite get_of_list_from.
  rewrite <- map_rev. generalize (rev records) as l.
  induction l as [|o l IH]; [reflexivity|]. simpl.
  destruct (streq fungsi (oid_fungsi o)); [reflexivity|exact IH].
Qed.

End Correlator_claims.

(** ** What the Hioso adapter writes *)

Section Hioso_writes.
Import HiosoTelnet.
Variable d : device.
Variable P : str -> Prop.

Lemma only_sends_ret (A : Type) (a : A) : only_sends P (ret a).
Proof. intros st H. exact H. Qed.

Lemma only_sends_raise (A : Type) (e : exn) : only_sends P (@raise A e).
Proof. intros st H. exact H. Qed.

Lemma only_sends_bind (A B : Type) (m : M A) (k : A -> M B) :
  only_sends P m -> (forall a, only_sends P (k a)) -> only_sends P (bind m k).
Proof.
  intros Hm Hk st H. unfold bind. specialize (Hm st H).
  destruct (m st) as [[a|e] st']; [now apply Hk|exact Hm].
Qed.

Lemma only_sends_except_timeout (A : Type) (m h : M A) :
  only_sends P m -> only_sends P h -> only_sends P (except_timeout m h).
Proof.
  intros Hm Hh st H. unfold except_timeout. specialize (Hm st H).
  destruct (m st) as [[a|e] st']; [exact Hm|].
  destruct (is_timeout e); [now apply Hh|exact Hm].
Qed.

Lemma only_sends_except_any (A : Type) (m : M A) (h : exn -> M A) :
  only_sends P m -> (forall e, only_sends P (h e)) -> only_sends P (except_any m h).
Proof.
  intros Hm Hh st H. unfold except_any. specialize (Hm st H).
  destruct (m st) as [[a|e] st']; [exact Hm|now apply Hh].
Qed.

Lemma only_sends_finally (A : Type) (m : M A) (f : M unit) :
  only_sends P m -> only_sends P f -> only_sends P (finally m f).
Proof.
  intros Hm Hf st H. unfold finally. specialize (Hm st H).
  destruct (m st) as [r st']. specialize (Hf st' Hm).
  destruct (f st') as [[u|e] st'']; exact Hf.
Qed.

Lemma only_sends_write (data : str) : P data -> only_sends P (_write d data).
Proof.
  intros Hd st H. unfold _write.
  destruct (write_fault d _); simpl; apply Forall_app; split; auto.
Qed.

Lemma only_sends_broken (A : Type) (e : exn) : only_sends P (@broken d A e).
Proof.
  intros st H. unfold broken. now destruct (connection_lost d e).
Qed.

Lemma only_sends_read_until (o : wait_outcome) (prompt : str) :
  only_sends P (_read_until d o prompt).
Proof.
  destruct o; [intros st H; exact H..|apply only_sends_broken].
Qed.

Lemma only_sends_read_until_2s (o : wait_outcome) (prompt : str) :
  only_sends P (_read_until_2s d o prompt).
Proof.
  destruct o; [intros st H; exact H..|apply only_sends_broken].
Qed.

Lemma only_sends_open : only_sends P (open d).
Proof. intros st H. unfold open. destruct (open_connection d); exact H. Qed.

Lemma only_sends_close : only_sends P close.
Proof. intros st H. exact H. Qed.

Lemma only_sends_read_loop (prompt : str) (events : list read_event) :
  P (lit " ") -> forall full, only_sends P (read_loop d prompt events full).
Proof.
  intros Hsp. induction events as [|[chunk| |e] events IH]; intros full;
    try apply only_sends_ret; try apply only_sends_broken.
  destruct chunk as [|c chunk]; [apply only_sends_ret|].
  cbn [read_loop]. apply only_sends_bind.
  - destruct (paging_detected (c :: chunk)); [|apply only_sends_ret].
    apply only_sends_bind; [now apply only_sends_write|].
    intros _. apply only_sends_ret.
  - intros out. destruct (contains prompt out); [apply only_sends_ret|apply IH].
Qed.

End Hioso_writes.

Section Hioso_vocabulary.
Import HiosoTelnet.
Variable d : device.
Variables username password : str.

Let P (w : str) : Prop := In w (hioso_vocabulary username password).

Ltac in_vocabulary := unfold P, hioso_vocabulary; simpl; tauto.

Ltac sends :=
  repeat first
    [ apply only_sends_ret
    | apply only_sends_raise
    | apply only_sends_read_until
    | apply only_sends_read_until_2s
    | apply only_sends_open
    | apply only_sends_close
    | apply only_sends_write; in_vocabulary
    | apply only_sends_read_loop; in_vocabulary
    | apply only_sends_bind; [|intros ?]
    | apply only_sends_except_timeout
    | apply only_sends_except_any; [|intros ?]
    | apply only_sends_finally ].

Lemma connect_sends : only_sends P (connect d username password).
Proof. unfold connect, expect, access_password, enable_password. sends. Qed.

Lemma query_port_sends (i : nat) (acc : list onu_item) :
  i = 1 \/ i = 2 -> only_sends P (query_port d i acc).
Proof.
  intros [-> | ->]; unfold query_port; sends;
    match goal with
    | |- only_sends _ (if ?b then _ else _) => destruct b; sends
    end.
Qed.

Lemma disconnect_sends : only_sends P (disconnect d).
Proof.
  intros st H. unfold disconnect. destruct (writer st); try exact H.
  revert st H. change (only_sends P (_write d (lit "exit" ++ [LF]) ;; close)%session).
  sends.
Qed.

Lemma get_onus_sends : only_sends P (get_onus d username password).
Proof.
  unfold get_onus. apply only_sends_finally; [|apply disconnect_sends].
  apply only_sends_except_any; [|intros e; apply only_sends_ret].
  unfold fetch_all, expect.
  apply only_sends_bind; [apply connect_sends|intros _].
  apply only_sends_bind; [apply only_sends_write; in_vocabulary|intros _].
  apply only_sends_bind; [apply only_sends_read_until|intros _].
  apply only_sends_bind; [apply only_sends_write; in_vocabulary|intros _].
  apply only_sends_bind; [apply only_sends_read_until|intros _].
  apply only_sends_bind; [|intros all; apply only_sends_ret].
  cbn [seq query_ports].
  apply only_sends_bind; [apply query_port_sends; auto|intros acc].
  apply only_sends_bind; [apply query_port_sends; auto|intros acc'].
  apply only_sends_ret.
Qed.

End Hioso_vocabulary.

(** X10. Whatever the device answers and wherever the connection is lost,
    the Hioso adapter hands to the writer nothing but the credentials, an empty
    line, [enable], [configure terminal], [epon], [pon 1/1], [pon 1/2],
    [show onu all], a space and [exit]. *)
Theorem hioso_adapter_sends_only_its_commands (d : HiosoTelnet.device)
  (username password : str) :
  Forall (fun w => In w (hioso_vocabulary username password))
    (HiosoTelnet.sent
       (snd (HiosoTelnet.get_onus d username password HiosoTelnet.fresh))).
Proof. apply get_onus_sends. constructor. Qed.

(** ** A login that does not get through *)

Section Hioso_login.
Import HiosoTelnet.
Variable d : device.
Variables username password : str.
Hypothesis Hopen : open_connection d = None.
Hypothesis Hw : accepts_writes d.

Lemma step_open (A : Type) (k : unit -> M A) (st : session) :
  bind (open d) k st = k tt {| sent := sent st; writer := WriterOpen |}.
Proof. unfold bind, open. now rewrite Hopen. Qed.

Lemma step_write (A : Type) (data : str) (k : unit -> M A) (st : session) :
  bind (_write d data) k st = k tt (after_writes st [data]).
Proof. unfold bind. now rewrite write_accepted. Qed.

Lemma step_seen (A : Type) (prompt : str) (k : unit -> M A) (st : session) :
  menu d prompt = Seen -> bind (expect d prompt) k st = k tt st.
Proof. intros H. unfold bind, expect. now rewrite H. Qed.

Lemma step_timed_out (A : Type) (prompt : str) (k : unit -> M A)
  (st : session) :
  menu d prompt = TimedOut ->
  bind (expect d prompt) k st =
  (Raise (Exn KTimeout (lit "Timeout waiting for prompt: " ++ prompt)), st).
Proof. intros H. unfold bind, expect. now rewrite H. Qed.

Lemma bind_assoc_at (A B C : Type) (m : M A) (f : A -> M B) (g : B -> M C)
  (st : session) :
  bind (bind m f) g st = bind m (fun a => bind (f a) g) st.
Proof. unfold bind. destruct (m st) as [[a|e] st']; reflexivity. Qed.

Ltac run_script :=
  repeat (first
    [ rewrite bind_assoc_at
    | rewrite step_open
    | rewrite step_write
    | rewrite step_seen by assumption
    | rewrite step_timed_out by assumption ]; cbv beta).

(** What the [try] makes of a missing prompt, and what the [finally] adds. *)
Lemma get_onus_after_raise (e : exn) (st : session) :
  fetch_all d username password fresh = (Raise e, st) ->
  writer st = WriterOpen ->
  get_onus d username password fresh =
  (Ok (FetchError (error_text e)),
   {| sent := sent st ++ [lit "exit" ++ [LF]]; writer := WriterClosed |}).
Proof.
  intros Hf Ho. unfold get_onus, finally, except_any. rewrite Hf.
  cbn [ret]. unfold disconnect. rewrite Ho. rewrite step_write.
  reflexivity.
Qed.

End Hioso_login.

(** X11. The Hioso adapter walks a fixed script of prompts and replies.
    When the connection opens, the writes are accepted and the prompts come
    up to one that times out, the adapter has written the replies to the
    prompts before it and nothing else, then writes [exit], closes the
    transport and returns an error result that names the missing prompt:
    a password is written only after its prompt was seen. *)
Theorem hioso_fetch_stops_at_the_first_missing_prompt
  (d : HiosoTelnet.device) (username password : str) (j : nat)
  (prompt reply : str) :
  HiosoTelnet.open_connection d = None ->
  accepts_writes d ->
  nth_error (hioso_script username password) j = Some (prompt, reply) ->
  (forall k q r, k < j ->
     nth_error (hioso_script username password) k = Some (q, r) ->
     HiosoTelnet.menu d q = HiosoTelnet.Seen) ->
  HiosoTelnet.menu d prompt = HiosoTelnet.TimedOut ->
  HiosoTelnet.get_onus d username password HiosoTelnet.fresh =
  (Ok (FetchError
         (lit "An exception of type TimeoutError occurred: " ++
          lit "Timeout waiting for prompt: " ++ prompt)),
   {| HiosoTelnet.sent :=
        map snd (firstn j (hioso_script username password)) ++
        [lit "exit" ++ [LF]];
      HiosoTelnet.writer := HiosoTelnet.WriterClosed |}).
Proof.
  intros Hopen Hw Hj Hseen Hout.
  assert (H0 : 0 < j -> HiosoTelnet.menu d (lit "login:") = HiosoTelnet.Seen)
    by (intros; eapply (Hseen 0); [lia|reflexivity]).
  assert (H1 : 1 < j -> HiosoTelnet.menu d (lit "Password:") = HiosoTelnet.Seen)
    by (intros; eapply (Hseen 1); [lia|reflexivity]).
  assert (H2 : 2 < j -> HiosoTelnet.menu d (lit "Revision:") = HiosoTelnet.Seen)
    by (intros; eapply (Hseen 2); [lia|reflexivity]).
  assert (H3 : 3 < j ->
               HiosoTelnet.menu d (lit "Access Password:") = HiosoTelnet.Seen)
    by (intros; eapply (Hseen 3); [lia|reflexivity]).
  assert (H4 : 4 < j -> HiosoTelnet.menu d (lit "EPON>") = HiosoTelnet.Seen)
    by (intros; eapply (Hseen 4); [lia|reflexivity]).
  assert (H5 : 5 < j ->
               HiosoTelnet.menu d (lit "Enable Password:") = HiosoTelnet.Seen)
    by (intros; eapply (Hseen 5); [lia|reflexivity]).
  assert (H6 : 6 < j -> HiosoTelnet.menu d (lit "EPON#") = HiosoTelnet.Seen)
    by (intros; eapply (Hseen 6); [lia|reflexivity]).
  assert (H7 : 7 < j ->
               HiosoTelnet.menu d (lit "EPON(config)#") = HiosoTelnet.Seen)
    by (intros; eapply (Hseen 7); [lia|reflexivity]).
  clear Hseen.
  destruct j as [|[|[|[|[|[|[|[|[|j]]]]]]]]];
    cbn [nth_error hioso_script] in Hj; [..|destruct j; discriminate Hj].
  all: injection Hj as <- <-.
  all: repeat match goal with
              | H : ?a < ?b -> _ |- _ =>
                  first [ specialize (H ltac:(lia)) | clear H ]
              end.
  all: match goal with
       | |- _ = (Ok (FetchError (_ ++ _ ++ ?q)),
                 {| HiosoTelnet.sent := ?s ++ _; HiosoTelnet.writer := _ |}) =>
           rewrite (@get_onus_after_raise d username password Hw
                      (Exn KTimeout (lit "Timeout waiting for prompt: " ++ q))
                      {| HiosoTelnet.sent := s;
                         HiosoTelnet.writer := HiosoTelnet.WriterOpen |});
           [reflexivity| |reflexivity]
       end.
  all: unfold HiosoTelnet.fetch_all, HiosoTelnet.connect,
         HiosoTelnet.access_password, HiosoTelnet.enable_password.
  all: repeat (first
    [ rewrite bind_assoc_at
    | rewrite step_open by assumption
    | rewrite step_write by assumption
    | rewrite step_seen by assumption
    | rewrite step_timed_out by assumption ]; cbv beta).
  all: reflexivity.
Qed.

Lemma hioso_fetch_stops_witness :
  HiosoTelnet.get_onus Examples.stuck_at_password (lit "admin") (lit "secret")
    HiosoTelnet.fresh =
  (Ok (FetchError
         (lit "An exception of type TimeoutError occurred: " ++
          lit "Timeout waiting for prompt: " ++ lit "Password:")),
   {| HiosoTelnet.sent := [lit "admin" ++ [LF]; lit "exit" ++ [LF]];
      HiosoTelnet.writer := HiosoTelnet.WriterClosed |}).
Proof.
  apply (@hioso_fetch_stops_at_the_first_missing_prompt
           Examples.stuck_at_password (lit "admin") (lit "secret") 1
           (lit "Password:") (lit "secret" ++ [LF])).
  - reflexivity.
  - intros n. reflexivity.
  - reflexivity.
  - intros k q r Hk Hq. destruct k as [|k]; [|lia].
    injection Hq as <- _. reflexivity.
  - reflexivity.
Defined.

(** X12. When the connection cannot be opened, the Hioso adapter returns an
    error result that carries the type and the message of the exception;
    it has written nothing and has no transport to close. *)
Theorem hioso_fetch_without_connection (d : HiosoTelnet.device)
  (username password : str) (e : exn) :
  HiosoTelnet.open_connection d = Some e ->
  HiosoTelnet.get_onus d username password HiosoTelnet.fresh =
  (Ok (FetchError
         (lit "An exception of type " ++ type_name_of e ++
          lit " occurred: " ++ message e)),
   HiosoTelnet.fresh).
Proof.
  intros H.
  unfold HiosoTelnet.get_onus, HiosoTelnet.finally, HiosoTelnet.except_any,
    HiosoTelnet.fetch_all, HiosoTelnet.connect.
  rewrite !bind_assoc_at. unfold HiosoTelnet.bind at 1, HiosoTelnet.open.
  rewrite H. reflexivity.
Qed.

Lemma hioso_fetch_without_connection_witness :
  HiosoTelnet.get_onus Examples.unreachable_device (lit "admin")
    (lit "secret") HiosoTelnet.fresh =
  (Ok (FetchError
         (lit "An exception of type ConnectionRefusedError occurred: " ++
          lit "[Errno 111] Connect call failed")),
   HiosoTelnet.fresh).
Proof.
  exact (@hioso_fetch_without_connection Examples.unreachable_device
           (lit "admin") (lit "secret") _ eq_refl).
Defined.

(** ** The periodic jobs *)

Section Subscriptions.
Import Tasks Periodic.

Lemma is_expired_expire (now : Z) (s : Subscription) :
  is_expired now (expire s) = false.
Proof. unfold is_expired. simpl. apply andb_false_r. Qed.

Lemma filter_nil_Forall (A : Type) (p : A -> bool) (l : list A) :
  filter p l = [] -> Forall (fun x => p x = false) l.
Proof.
  induction l as [|x l IH]; simpl; [constructor|].
  destruct (p x) eqn:E; [discriminate|]. intros H. constructor; auto.
Qed.

Lemma Forall_filter_nil (A : Type) (p : A -> bool) (l : list A) :
  Forall (fun x => p x = false) l -> filter p l = [].
Proof.
  induction 1 as [|x l Hx _ IH]; simpl; [reflexivity|]. now rewrite Hx.
Qed.

Lemma expire_all_clean (now : Z) (subs : list Subscription) :
  Forall (fun s => is_expired now s = false)
    (map (fun sub => if is_expired now sub then expire sub else sub) subs).
Proof.
  induction subs as [|s subs IH]; simpl; constructor; [|exact IH].
  destruct (is_expired now s) eqn:E; [apply is_expired_expire|exact E].
Qed.

Lemma expire_all_frame (now : Z) (subs : list Subscription) :
  Forall2
    (fun s s' => if is_expired now s then s' = expire s else s' = s)
    subs (map (fun sub => if is_expired now sub then expire sub else sub) subs).
Proof.
  induction subs as [|s subs IH]; simpl; constructor; [|exact IH].
  destruct (is_expired now s); reflexivity.
Qed.

(** X13. The subscription check, when the commit goes through, leaves no
    subscription active whose period has ended before [now]: each such row
    has its status set to [expired] and nothing else changed, every other
    row (one whose period ends at [now] or later, or that is not active) is
    as before, and the answer counts the rows changed.  Run again at the
    same time it finds nothing to do.  When the commit fails the table is
    as before and the answer is the error. *)
Theorem expired_subscriptions_are_deactivated (now : Z)
  (subscriptions : list Subscription) :
  let r := check_expired_subscriptions now None subscriptions in
  Forall (fun s => is_expired now s = false) (snd r) /\
  Forall2 (fun s s' => if is_expired now s then s' = expire s else s' = s)
    subscriptions (snd r) /\
  (fst r =
     match length (filter (is_expired now) subscriptions) with
     | 0 => PMessage (lit "No expired subscriptions found.")
     | n => PMessage (lit "Deactivated " ++ of_nat n ++
                      lit " expired subscriptions.")
     end) /\
  check_expired_subscriptions now None (snd r) =
    (PMessage (lit "No expired subscriptions found."), snd r) /\
  forall e,
    check_expired_subscriptions now (Some e) subscriptions =
    (match filter (is_expired now) subscriptions with
     | [] => PMessage (lit "No expired subscriptions found.")
     | _ => PError (message e)
     end, subscriptions).
Proof.
  cbv zeta.
  assert (Hclean :
    Forall (fun s => is_expired now s = false)
      (snd (check_expired_subscriptions now None subscriptions))).
  { unfold check_expired_subscriptions.
    destruct (filter (is_expired now) subscriptions) eqn:E.
    - now apply filter_nil_Forall.
    - apply expire_all_clean. }
  split; [exact Hclean|]. split; [|split; [|split]].
  - unfold check_expired_subscriptions.
    destruct (filter (is_expired now) subscriptions) eqn:E.
    + simpl. apply filter_nil_Forall in E. clear Hclean.
      induction E as [|s l Hs _ IH]; constructor; [now rewrite Hs|exact IH].
    + apply expire_all_frame.
  - unfold check_expired_subscriptions.
    destruct (filter (is_expired now) subscriptions); reflexivity.
  - unfold check_expired_subscriptions at 1.
    now rewrite (Forall_filter_nil _ Hclean).
  - intros e. unfold check_expired_subscriptions.
    destruct (filter (is_expired now) subscriptions); reflexivity.
Qed.

End Subscriptions.

Section Status_and_queue.
Import Tasks Periodic.

Lemma ping_status_online (r : ping_result) :
  streq (ping_status r) (lit "online") = true <-> r = PingExit 0.
Proof.
  destruct r as [[|p|p]| |]; simpl; split; intros H;
    try reflexivity; try discriminate H.
Qed.

Lemma check_one_status (ping : str -> ping_result) (t : Z) (o : OltRow) :
  olt_status (check_one ping t o) =
  Some (ping_status (ping (olt_ip (olt_row o)))).
Proof.
  unfold check_one. cbn [olt_status].
  destruct (opt_eqb streq (olt_status o) _) eqn:E; [|reflexivity].
  cbn [negb]. destruct (olt_status o) as [s|]; [|discriminate E].
  simpl in E. apply streq_eq in E. now subst.
Qed.

Lemma check_one_online (ping : str -> ping_result) (t : Z) (o : OltRow) :
  is_online (check_one ping t o) =
  match ping (olt_ip (olt_row o)) with
  | PingExit 0 => true
  | _ => false
  end.
Proof.
  unfold is_online. rewrite check_one_status. cbn [opt_eqb].
  destruct (ping (olt_ip (olt_row o))) as [[|p|p]| |]; reflexivity.
Qed.

Lemma check_each_nth (ping : str -> ping_result) (clock : nat -> Z)
  (olts : list OltRow) :
  forall k n o,
    nth_error olts n = Some o ->
    nth_error (check_each ping clock k olts) n =
      Some (check_one ping (clock (k + n)) o).
Proof.
  induction olts as [|x olts IH]; intros k n o Hn; [destruct n; discriminate|].
  destruct n as [|n]; simpl in *.
  - injection Hn as ->. now rewrite Nat.add_0_r.
  - rewrite (IH (S k) n o Hn). do 3 f_equal. lia.
Qed.

Lemma check_each_length (ping : str -> ping_result) (clock : nat -> Z)
  (olts : list OltRow) :
  forall k, length (check_each ping clock k olts) = length olts.
Proof. induction olts as [|x olts IH]; intros k; simpl; auto. Qed.

(** X14. The status check, when the commit goes through, gives every device
    a status: [online] if its ping ended with return code 0, [offline] if
    it ended with another code, timed out or raised; it stamps each row
    with the time of its check, leaves the other columns, the number and
    the order of the rows as they were, and reports the number of rows.
    When the commit fails the table is as before and the answer is the
    error. *)
Theorem status_check_marks_every_device (ping : str -> ping_result)
  (clock : nat -> Z) (olts : list OltRow) :
  let r := check_all_olts_status ping clock None olts in
  fst r = PMessage (lit "Checked " ++ of_nat (length olts) ++ lit " OLTs.") /\
  length (snd r) = length olts /\
  (forall n o,
     nth_error olts n = Some o ->
     exists o',
       nth_error (snd r) n = Some o' /\
       olt_row o' = olt_row o /\
       olt_name o' = olt_name o /\
       olt_last_checked o' = Some (clock n) /\
       olt_status o' =
         Some (match ping (olt_ip (olt_row o)) with
               | PingExit 0 => lit "online"
               | _ => lit "offline"
               end)) /\
  forall e,
    check_all_olts_status ping clock (Some e) olts =
    (PError (message e), olts).
Proof.
  cbv zeta. unfold check_all_olts_status. cbn [fst snd].
  split; [reflexivity|]. split; [apply check_each_length|].
  split; [|reflexivity].
  intros n o Hn. exists (check_one ping (clock n) o).
  split; [exact (check_each_nth ping clock olts 0 n Hn)|].
  repeat split. rewrite check_one_status. reflexivity.
Qed.

(** *** Queueing the syncs *)

(** The two tasks of a device, in the order they are queued. *)
Let tasks_of (o : OltRow) : list queued :=
  [QueuedSshTelnetSync (olt_id (olt_row o));
   QueuedSnmpSync (olt_id (olt_row o))].

Lemma queue_each_prefix (delay_fault : nat -> option exn)
  (olts : list OltRow) :
  forall n queue,
    exists k,
      snd (queue_each delay_fault olts n queue) =
      queue ++ firstn k (flat_map tasks_of olts).
Proof.
  induction olts as [|o olts IH]; intros n queue.
  - exists 0. simpl. now rewrite app_nil_r.
  - cbn [queue_each]. destruct (delay_fault n).
    + exists 0. simpl. now rewrite app_nil_r.
    + destruct (delay_fault (S n)).
      * exists 1. reflexivity.
      * destruct (IH (S (S n))
                    ((queue ++ [QueuedSshTelnetSync (olt_id (olt_row o))]) ++
                     [QueuedSnmpSync (olt_id (olt_row o))])) as [k Hk].
        exists (S (S k)). rewrite Hk. cbn [flat_map tasks_of app firstn].
        now rewrite <- !app_assoc.
Qed.

Lemma queue_each_all (olts : list OltRow) :
  forall n queue,
    queue_each (fun _ => None) olts n queue =
    (Ok tt, queue ++ flat_map tasks_of olts).
Proof.
  induction olts as [|o olts IH]; intros n queue.
  - simpl. now rewrite app_nil_r.
  - cbn [queue_each]. rewrite IH. cbn [flat_map tasks_of app].
    now rewrite <- !app_assoc.
Qed.

Lemma filter_check_each (ping : str -> ping_result) (clock : nat -> Z)
  (olts : list OltRow) :
  forall k,
    flat_map tasks_of (filter is_online (check_each ping clock k olts)) =
    flat_map tasks_of
      (filter (fun o => match ping (olt_ip (olt_row o)) with
                        | PingExit 0 => true
                        | _ => false
                        end) olts).
Proof.
  induction olts as [|o olts IH]; intros k; [reflexivity|].
  cbn [check_each filter]. rewrite check_one_online.
  destruct (ping (olt_ip (olt_row o))) as [[|p|p]| |]; cbn [flat_map];
    now rewrite IH.
Qed.

(** X15. After a status check, the sync round queues tasks for the devices
    whose ping ended with return code 0 and for no other: for each of
    them, in table order, the interactive sync and then the SNMP sync.
    What was on the queue stays in front; when a [delay] raises, the tasks
    queued before it stay queued and the answer is the error. *)
Theorem sync_round_queues_the_reachable_devices
  (ping : str -> ping_result) (clock : nat -> Z)
  (delay_fault : nat -> option exn) (olts : list OltRow)
  (queue : list queued) :
  let checked := snd (check_all_olts_status ping clock None olts) in
  let reachable :=
    filter (fun o => match ping (olt_ip (olt_row o)) with
                     | PingExit 0 => true
                     | _ => false
                     end) olts in
  let wanted :=
    flat_map
      (fun o => [QueuedSshTelnetSync (olt_id (olt_row o));
                 QueuedSnmpSync (olt_id (olt_row o))]) reachable in
  (exists k,
     snd (sync_all_olts_data delay_fault checked queue) =
     queue ++ firstn k wanted) /\
  sync_all_olts_data (fun _ => None) checked queue =
    (match reachable with
     | [] => PMessage (lit "No online OLTs found to sync.")
     | _ => PMessage (lit "Queued data sync for " ++
                      of_nat (length reachable) ++ lit " OLTs.")
     end,
     queue ++ wanted).
Proof.
  cbv zeta. unfold check_all_olts_status. cbn [snd].
  fold tasks_of.
  assert (Hlen : length (filter is_online (check_each ping clock 0 olts)) =
                 length (filter (fun o => match ping (olt_ip (olt_row o)) with
                                          | PingExit 0 => true
                                          | _ => false
                                          end) olts)).
  { generalize 0 as k. induction olts as [|o l IH]; intros k; [reflexivity|].
    cbn [check_each filter]. rewrite check_one_online.
    destruct (ping (olt_ip (olt_row o))) as [[|p|p]| |]; cbn [length];
      now rewrite IH. }
  pose proof (filter_check_each ping clock olts 0) as Hf.
  unfold sync_all_olts_data. split.
  - destruct (filter is_online (check_each ping clock 0 olts)) as [|o l] eqn:E.
    + exists 0. simpl. now rewrite app_nil_r.
    + destruct (queue_each_prefix delay_fault (o :: l) 0 queue) as [k Hk].
      exists k. rewrite <- Hf. rewrite <- Hk.
      destruct (queue_each delay_fault (o :: l) 0 queue) as [[u|e] q];
        reflexivity.
  - rewrite <- Hf.
    destruct (filter is_online (check_each ping clock 0 olts)) as [|o l] eqn:E.
    + destruct (filter _ olts); [|discriminate Hlen].
      simpl. now rewrite app_nil_r.
    + rewrite queue_each_all.
      destruct (filter _ olts) as [|o' l'] eqn:E'; [discriminate Hlen|].
      now rewrite Hlen.
Qed.

End Status_and_queue.

(** ** Spellings of a MAC address *)

Section Mac_spellings.
Import HsgqEponSnmp.

Lemma replace_single (c : ascii) (s : str) :
  replace [c] [] s = filter (fun x => negb (Ascii.eqb c x)) s.
Proof.
  unfold replace. induction s as [|x s IH]; [reflexivity|].
  cbn [replace_from starts_with filter length].
  destruct (Ascii.eqb c x); cbn [andb negb].
  - destruct s; exact IH.
  - destruct s; cbn [app]; now rewrite IH.
Qed.

Lemma filter_id (A : Type) (p : A -> bool) (l : list A) :
  Forall (fun x => p x = true) l -> filter p l = l.
Proof.
  induction 1 as [|x l Hx _ IH]; simpl; [reflexivity|]. now rewrite Hx, IH.
Qed.

Lemma replace_0x_absent (s : str) :
  Forall (fun c => Ascii.eqb "x" c = false) s ->
  replace (lit "0x") [] s = s.
Proof.
  unfold replace. change (lit "0x") with ["0"%char; "x"%char].
  induction 1 as [|c s Hc Hs IH]; [reflexivity|].
  cbn [replace_from]. replace (starts_with ["0"%char; "x"%char] (c :: s)) with false.
  - now rewrite IH.
  - cbn [starts_with]. destruct (Ascii.eqb "0" c); [|reflexivity].
    destruct Hs as [|d s Hd _]; [reflexivity|]. cbn [starts_with andb].
    now rewrite Hd.
Qed.

Lemma replace_0x_prefix (s : str) :
  Forall (fun c => Ascii.eqb "x" c = false) s ->
  replace (lit "0x") [] (lit "0x" ++ s) = s.
Proof.
  intros H. pose proof (replace_0x_absent H) as Hs. unfold replace in *.
  change (lit "0x") with ["0"%char; "x"%char] in *.
  cbn [app replace_from starts_with length Nat.sub].
  rewrite !Ascii.eqb_refl. cbn [andb app]. exact Hs.
Qed.

Lemma pairs_ind (P : str -> Prop) :
  P [] -> (forall a, P [a]) -> (forall a b s, P s -> P (a :: b :: s)) ->
  forall s, P s.
Proof.
  intros H0 H1 H2.
  assert (H : forall n s, length s <= n -> P s).
  { induction n as [|n IH]; intros s Hn.
    - destruct s; [exact H0|simpl in Hn; lia].
    - destruct s as [|a [|b s]]; auto. apply H2, IH. simpl in Hn. lia. }
  intros s. apply (H (length s)). lia.
Qed.

Lemma filter_join_pairs (p : ascii -> bool) (sep : ascii) (m : str) :
  p sep = false -> Forall (fun c => p c = true) m ->
  filter p (join [sep] (pairs m)) = m.
Proof.
  intros Hsep. induction m as [|a|a b s IH] using pairs_ind; intros H.
  - reflexivity.
  - inversion H; subst. simpl. now rewrite H2.
  - inversion H as [|? ? Ha H']; subst. inversion H' as [|? ? Hb H'']; subst.
    cbn [pairs]. destruct (pairs s) as [|q qs] eqn:E.
    + destruct s as [|? [|? ?]]; try discriminate E.
      simpl. now rewrite Ha, Hb.
    + change (join [sep] ([a; b] :: q :: qs))
        with (a :: b :: sep :: join [sep] (q :: qs)).
      cbn [filter]. rewrite Ha, Hb, Hsep. f_equal. f_equal. now apply IH.
Qed.

Lemma Forall_join_pairs (P : ascii -> Prop) (sep : ascii) (m : str) :
  P sep -> Forall P m -> Forall P (join [sep] (pairs m)).
Proof.
  intros Hsep. induction m as [|a|a b s IH] using pairs_ind; intros H.
  - constructor.
  - exact H.
  - inversion H as [|? ? Ha H']; subst. inversion H' as [|? ? Hb H'']; subst.
    cbn [pairs]. destruct (pairs s) as [|q qs] eqn:E.
    + repeat constructor; assumption.
    + change (join [sep] ([a; b] :: q :: qs))
        with (a :: b :: sep :: join [sep] (q :: qs)).
      repeat constructor; auto.
Qed.

Lemma hex_is_plain (c : ascii) :
  is_hex c = true ->
  Ascii.eqb "x" c = false /\ Ascii.eqb ":" c = false /\
  Ascii.eqb " " c = false.
Proof.
  destruct c as [[] [] [] [] [] [] [] []]; vm_compute; intros H;
    repeat split; congruence.
Qed.

Lemma lower_hex (c : ascii) : is_hex c = true -> is_hex (lower_char c) = true.
Proof.
  destruct c as [[] [] [] [] [] [] [] []]; vm_compute; congruence.
Qed.

Lemma clean_mac_plain (s : str) :
  Forall (fun c => is_hex c = true) s -> clean_mac s = lower s.
Proof.
  intros H. unfold clean_mac.
  assert (Hx : Forall (fun c => Ascii.eqb "x" c = false) s)
    by (eapply Forall_impl; [|exact H]; intros c Hc; apply (hex_is_plain c Hc)).
  assert (Hsp : Forall (fun c => negb (Ascii.eqb " " c) = true) s).
  { eapply Forall_impl; [|exact H]. intros c Hc. cbv beta.
    destruct (hex_is_plain c Hc) as (_ & _ & H2). now rewrite H2. }
  assert (Hco : Forall (fun c => negb (Ascii.eqb ":" c) = true) s).
  { eapply Forall_impl; [|exact H]. intros c Hc. cbv beta.
    destruct (hex_is_plain c Hc) as (_ & H1 & _). now rewrite H1. }
  rewrite (replace_0x_absent Hx).
  change (lit " ") with [" "%char]. change (lit ":") with [":"%char].
  rewrite (replace_single " "), (filter_id _ Hsp).
  rewrite (replace_single ":"), (filter_id _ Hco). reflexivity.
Qed.

Lemma clean_mac_0x (s : str) :
  Forall (fun c => is_hex c = true) s -> clean_mac (lit "0x" ++ s) = lower s.
Proof.
  intros H. pose proof (clean_mac_plain H) as Hp. unfold clean_mac in *.
  assert (Hx : Forall (fun c => Ascii.eqb "x" c = false) s)
    by (eapply Forall_impl; [|exact H]; intros c Hc; apply (hex_is_plain c Hc)).
  rewrite (replace_0x_prefix Hx). now rewrite (replace_0x_absent Hx) in Hp.
Qed.

Lemma lower_filter (p : ascii -> bool) (s : str) :
  (forall c, p (lower_char c) = p c) ->
  lower (filter p s) = filter p (lower s).
Proof.
  intros Hp. induction s as [|c s IH]; [reflexivity|]. simpl.
  rewrite Hp. destruct (p c); simpl; now rewrite IH.
Qed.

Lemma clean_mac_colons (s : str) :
  Forall (fun c => is_hex c = true) s ->
  clean_mac (join (lit ":") (pairs s)) = lower s.
Proof.
  intros H. unfold clean_mac.
  change (lit " ") with [" "%char]. change (lit ":") with [":"%char].
  rewrite replace_0x_absent.
  2: { apply Forall_join_pairs; [reflexivity|].
       eapply Forall_impl; [|exact H]. intros c Hc. apply (hex_is_plain c Hc). }
  rewrite (replace_single " "), filter_id.
  2: { apply Forall_join_pairs; [reflexivity|].
       eapply Forall_impl; [|exact H]. intros c Hc. cbv beta.
       destruct (hex_is_plain c Hc) as (_ & _ & H2). now rewrite H2. }
  rewrite (replace_single ":"), filter_join_pairs; [reflexivity|reflexivity|].
  eapply Forall_impl; [|exact H]. intros c Hc. cbv beta.
  destruct (hex_is_plain c Hc) as (_ & H1 & _). now rewrite H1.
Qed.

Lemma clean_mac_spaces (s : str) :
  Forall (fun c => is_hex c = true) s ->
  clean_mac (join (lit " ") (pairs s)) = lower s.
Proof.
  intros H. unfold clean_mac.
  change (lit " ") with [" "%char]. change (lit ":") with [":"%char].
  rewrite replace_0x_absent.
  2: { apply Forall_join_pairs; [reflexivity|].
       eapply Forall_impl; [|exact H]. intros c Hc. apply (hex_is_plain c Hc). }
  rewrite (replace_single " "), filter_join_pairs; [|reflexivity|].
  2: { eapply Forall_impl; [|exact H]. intros c Hc. cbv beta.
       destruct (hex_is_plain c Hc) as (_ & _ & H2). now rewrite H2. }
  rewrite (replace_single ":"), filter_id; [reflexivity|].
  eapply Forall_impl; [|exact H]. intros c Hc. cbv beta.
  destruct (hex_is_plain c Hc) as (_ & H1 & _). now rewrite H1.
Qed.

Lemma lower_is_hex (s : str) :
  Forall (fun c => is_hex c = true) s ->
  Forall (fun c => is_hex c = true) (lower s).
Proof.
  intros H. unfold lower. apply Forall_map.
  eapply Forall_impl; [|exact H]. apply lower_hex.
Qed.

(** X16. The EPON correlator gives one identifier to every usual spelling of
    a MAC address of hexadecimal digits: with the [0x] prefix, with colons
    or spaces between the pairs, or plain, in either letter case; and the
    identifier, read as a MAC value, gives itself. *)
Theorem epon_mac_spellings_agree (m : str) :
  Forall (fun c => is_hex c = true) m ->
  let identifier := join (lit ":") (pairs (lower m)) in
  format_mac (clean_mac (lit "0x" ++ m)) = identifier /\
  format_mac (clean_mac (join (lit ":") (pairs m))) = identifier /\
  format_mac (clean_mac (join (lit " ") (pairs m))) = identifier /\
  format_mac (clean_mac m) = identifier /\
  format_mac (clean_mac identifier) = identifier.
Proof.
  intros H. cbv zeta. unfold format_mac.
  rewrite (clean_mac_0x H), (clean_mac_colons H), (clean_mac_spaces H),
    (clean_mac_plain H).
  repeat split.
  rewrite (clean_mac_colons (lower_is_hex H)).
  pose proof (lower_idempotent m) as Hl. unfold case_normalized in Hl.
  now rewrite Hl.
Qed.

Lemma epon_mac_spellings_witness :
  HsgqEponSnmp.format_mac (HsgqEponSnmp.clean_mac (lit "0x98C7A45E30B8")) =
    lit "98:c7:a4:5e:30:b8" /\
  HsgqEponSnmp.format_mac (HsgqEponSnmp.clean_mac (lit "98:C7:A4:5E:30:B8")) =
    lit "98:c7:a4:5e:30:b8".
Proof.
  assert (H : Forall (fun c => is_hex c = true) (lit "98C7A45E30B8"))
    by (repeat constructor).
  destruct (epon_mac_spellings_agree H) as (H1 & H2 & _).
  split; [exact H1|exact H2].
Defined.

End Mac_spellings.

(** ** Matching a line column by column *)

Section Columns.
Variable A : Type.
Implicit Types k : str -> captures -> option A.

Lemma star_k_take (p : ascii -> bool) (k' : str -> option A) (ds rest : str)
  (r : A) :
  Forall (fun c => p c = true) ds -> starts_outside p rest ->
  k' rest = Some r -> star_k p (ds ++ rest) k' = Some r.
Proof.
  intros Hds Hrest Hk. induction Hds as [|d ds Hd _ IH]; simpl.
  - destruct rest as [|c t]; [exact Hk|]. simpl in *. now rewrite Hrest.
  - now rewrite Hd, IH.
Qed.

Lemma run_Plus_take (p : ascii -> bool) (col rest : str) (caps : captures) k
  (r : A) :
  is_token p col -> starts_outside p rest ->
  k rest caps = Some r -> run (Plus p) (col ++ rest) caps k = Some r.
Proof.
  intros [Hne Hcol] Hrest Hk. destruct col as [|c ds]; [contradiction|].
  inversion Hcol as [|? ? Hc Hds]; subst. cbn [app run]. rewrite Hc.
  now apply star_k_take.
Qed.

Lemma firstn_prefix (x y : str) :
  firstn (length (x ++ y) - length y) (x ++ y) = x.
Proof.
  rewrite length_app, Nat.add_sub, firstn_app, Nat.sub_diag, firstn_all.
  simpl. apply app_nil_r.
Qed.

(** A column that is a run of one class. *)
Lemma run_column (i : nat) (p : ascii -> bool) (col rest : str)
  (caps : captures) k (r : A) :
  is_token p col -> starts_outside p rest ->
  k rest ((i, col) :: caps) = Some r ->
  run (Grp i (Plus p)) (col ++ rest) caps k = Some r.
Proof.
  intros Hcol Hrest Hk.
  change (run (Grp i (Plus p)) (col ++ rest) caps k)
    with (run (Plus p) (col ++ rest) caps
            (fun s' caps' =>
               k s' ((i, firstn (length (col ++ rest) - length s')
                           (col ++ rest)) :: caps'))).
  apply run_Plus_take; [assumption|assumption|].
  now rewrite firstn_prefix.
Qed.

(** One blank between two columns. *)
Lemma run_blank (rest : str) (caps : captures) k :
  starts_outside is_space rest ->
  run (Plus is_space) (" "%char :: rest) caps k = k rest caps.
Proof.
  intros Hrest. cbn [run]. change (is_space " ") with true. cbv iota.
  destruct rest as [|c t]; [reflexivity|]. simpl in Hrest. simpl.
  now rewrite Hrest.
Qed.

Lemma run_Chr_here (c : ascii) (rest : str) (caps : captures) k :
  run (Chr c) (c :: rest) caps k = k rest caps.
Proof. cbn [run Chr]. unfold is_char. now rewrite Ascii.eqb_refl. Qed.

End Columns.

Section More_columns.
Variable A : Type.
Implicit Types k : str -> captures -> option A.

Lemma run_Seq (a b : re) (s : str) (caps : captures) k :
  run (Seq a b) s caps k = run a s caps (fun s' caps' => run b s' caps' k).
Proof. reflexivity. Qed.

Lemma run_Grp (i : nat) (r : re) (s : str) (caps : captures) k :
  run (Grp i r) s caps k =
  run r s caps
    (fun s' caps' => k s' ((i, firstn (length s - length s') s) :: caps')).
Proof. reflexivity. Qed.

Lemma run_Star_skip (p : ascii -> bool) (s : str) (caps : captures) k :
  starts_outside p s -> run (Star p) s caps k = k s caps.
Proof.
  intros H. cbn [run]. destruct s as [|c t]; [reflexivity|].
  simpl in *. now rewrite H.
Qed.

Lemma token_starts_outside (p q : ascii -> bool) (col rest : str) :
  is_token p col -> (forall c, p c = true -> q c = false) ->
  starts_outside q (col ++ rest).
Proof.
  intros [Hne Hcol] Hpq. destruct col as [|c ds]; [contradiction|].
  inversion Hcol; subst. simpl. auto.
Qed.

End More_columns.

Section Classes.

Lemma digit_not_space (c : ascii) : is_digit c = true -> is_space c = false.
Proof. destruct c as [[] [] [] [] [] [] [] []]; vm_compute; congruence. Qed.

Lemma word_not_space (c : ascii) : is_word c = true -> is_space c = false.
Proof. destruct c as [[] [] [] [] [] [] [] []]; vm_compute; congruence. Qed.

Lemma mac_char_not_space (c : ascii) :
  HiosoParser.is_mac_char c = true -> is_space c = false.
Proof. destruct c as [[] [] [] [] [] [] [] []]; vm_compute; congruence. Qed.

Lemma digit_not_control (c : ascii) : is_digit c = true -> is_control c = false.
Proof. destruct c as [[] [] [] [] [] [] [] []]; vm_compute; congruence. Qed.

Lemma word_not_control (c : ascii) : is_word c = true -> is_control c = false.
Proof. destruct c as [[] [] [] [] [] [] [] []]; vm_compute; congruence. Qed.

Lemma mac_char_not_control (c : ascii) :
  HiosoParser.is_mac_char c = true -> is_control c = false.
Proof. destruct c as [[] [] [] [] [] [] [] []]; vm_compute; congruence. Qed.

Lemma not_control_is_any (c : ascii) : is_control c = false -> is_any c = true.
Proof. destruct c as [[] [] [] [] [] [] [] []]; vm_compute; congruence. Qed.

Lemma last_app_r (A : Type) (x y : list A) (d : A) :
  y <> [] -> last (x ++ y) d = last y d.
Proof.
  intros Hy. induction x as [|a x IH]; [reflexivity|].
  simpl. rewrite IH. destruct (x ++ y) eqn:E; [|reflexivity].
  apply app_eq_nil in E as [_ E]. contradiction.
Qed.

Lemma lstrip_id (s : str) : is_space (hd " "%char s) = false -> lstrip s = s.
Proof. destruct s as [|c s]; [reflexivity|]. simpl. now intros ->. Qed.

(** [strip] leaves a text without blanks at its ends as it is. *)
Lemma strip_id (s : str) :
  s <> [] -> is_space (hd " "%char s) = false ->
  is_space (last s " "%char) = false -> strip s = s.
Proof.
  intros Hne Hh Hl. unfold strip, rstrip. rewrite (lstrip_id s Hh).
  rewrite lstrip_id; [apply rev_involutive|].
  rewrite (app_removelast_last " "%char Hne) at 1.
  rewrite rev_app_distr. exact Hl.
Qed.

End Classes.

(** ** A well-formed line of the Hioso listing *)

Section Hioso_line.
Import HiosoParser.
Variables slot port onu mac status ports chip version flags auth distance
  time : str.
Hypothesis Hslot : is_token is_digit slot.
Hypothesis Hport : is_token is_digit port.
Hypothesis Honu : is_token is_digit onu.
Hypothesis Hmac : is_token is_mac_char mac.
Hypothesis Hstatus : is_token is_word status.
Hypothesis Hports : is_token is_digit ports.
Hypothesis Hchip : is_token is_word chip.
Hypothesis Hversion : is_token is_word version.
Hypothesis Hflags : is_token is_digit flags.
Hypothesis Hauth : is_token is_word auth.
Hypothesis Hdistance : is_token is_digit distance.
Hypothesis Htime : is_remark time.

Let onu_id : str := slot ++ lit "/" ++ port ++ lit ":" ++ onu.

Let line : str :=
  hioso_line slot port onu mac status ports chip version flags auth distance
    time.

Let found : captures :=
  [(10, time); (9, distance); (8, auth); (7, flags); (6, version);
   (5, chip); (4, ports); (3, status); (2, mac); (1, onu_id)].

Lemma time_is_token : is_token is_any time.
Proof.
  destruct Htime as (Hne & Hc & _). split; [exact Hne|].
  eapply Forall_impl; [|exact Hc]. apply not_control_is_any.
Qed.

Ltac outside :=
  first
    [ exact I
    | reflexivity
    | eapply token_starts_outside;
        [eassumption|first [exact digit_not_space | exact word_not_space
                           | exact mac_char_not_space]] ].

Lemma run_blank_lit (A : Type) (rest : str) (caps : captures)
  (k : str -> captures -> option A) :
  starts_outside is_space rest ->
  run (Plus is_space) (lit " " ++ rest) caps k = k rest caps.
Proof. apply run_blank. Qed.

Ltac column :=
  rewrite run_Seq; apply run_column; [assumption|reflexivity|];
  rewrite run_Seq; rewrite run_blank_lit by outside.

Lemma onu_pattern_matches : match_at onu_pattern line = Some ([], found).
Proof.
  unfold match_at, onu_pattern, line, hioso_line. cbn [seqs].
  rewrite run_Seq, run_Star_skip by outside.
  rewrite run_Seq, run_Grp. cbn [seqs].
  rewrite run_Seq. apply run_Plus_take; [assumption|reflexivity|].
  rewrite run_Seq. change (lit "/" ++ ?x) with ("/"%char :: x).
  rewrite run_Chr_here.
  rewrite run_Seq. apply run_Plus_take; [assumption|reflexivity|].
  rewrite run_Seq. change (lit ":" ++ ?x) with (":"%char :: x).
  rewrite run_Chr_here.
  apply run_Plus_take; [assumption|reflexivity|].
  rewrite run_Seq, run_blank_lit by outside.
  do 7 column.
  rewrite run_Seq. apply run_column; [assumption|reflexivity|].
  rewrite run_Seq, run_blank_lit.
  2: { destruct Htime as (Hne & _ & Hh & _).
       destruct time; [contradiction|exact Hh]. }
  rewrite <- (app_nil_r time).
  apply run_column; [exact time_is_token|exact I|].
  unfold found, onu_id. do 9 f_equal. f_equal. f_equal.
  set (rest := lit " " ++ mac ++ _).
  replace (slot ++ "/"%char :: port ++ ":"%char :: onu ++ rest)
    with ((slot ++ lit "/" ++ port ++ lit ":" ++ onu) ++ rest)
    by (now rewrite <- !app_assoc).
  now rewrite firstn_prefix.
Qed.

Lemma line_is_clean : strip line = line.
Proof.
  destruct Hslot as [Hne Hd]. destruct Htime as (Hnt & _ & _ & Hl).
  apply strip_id.
  - unfold line, hioso_line. destruct slot; [contradiction|discriminate].
  - unfold line, hioso_line. destruct slot as [|c ds]; [contradiction|].
    inversion Hd; subst. simpl. now apply digit_not_space.
  - unfold line, hioso_line. rewrite !app_assoc.
    rewrite last_app_r by exact Hnt. exact Hl.
Qed.

(** X17. A line that, control characters apart, holds the ten columns of the
    listing one blank apart, gives one record: the identifier is the MAC
    column without its separators, the interface locator the ONU id, and
    the detail map holds every column, the three counters as numbers. *)
Theorem hioso_line_is_parsed (raw : str) :
  filter (fun c => negb (is_control c)) raw =
    hioso_line slot port onu mac status ports chip version flags auth
      distance time ->
  parse_line raw =
  Some {| identifier := hex_only mac;
          pon_interface := slot ++ lit "/" ++ port ++ lit ":" ++ onu;
          vendor_name := lit "hioso";
          details :=
            JObj [(lit "onuId",
                   JStr (slot ++ lit "/" ++ port ++ lit ":" ++ onu));
                  (lit "onuMac", JStr mac);
                  (lit "status", JStr status);
                  (lit "ports", JInt (Z.of_N (int_of_digits ports)));
                  (lit "chipId", JStr chip);
                  (lit "version", JStr version);
                  (lit "flags", JInt (Z.of_N (int_of_digits flags)));
                  (lit "authMode", JStr auth);
                  (lit "distance", JInt (Z.of_N (int_of_digits distance)));
                  (lit "time", JStr time)] |}.
Proof.
  intros Hraw. unfold parse_line, clean_line. rewrite Hraw.
  fold line. rewrite line_is_clean.
  destruct line as [|c l] eqn:E.
  { exfalso. unfold line, hioso_line in E. destruct Hslot as [Hne _].
    destruct slot; [contradiction|discriminate]. }
  rewrite <- E, onu_pattern_matches.
  unfold record_of, details_of, found, grp. cbn [group Nat.eqb].
  destruct Htime as (Hnt & _ & Hh & Hl).
  now rewrite (strip_id Hnt Hh Hl).
Qed.

End Hioso_line.

Lemma hioso_line_is_parsed_witness :
  option_map identifier
    (HiosoParser.parse_line (Examples.onu_line "1/1:13" "98c7a4.5e30b8")) =
  Some (lit "98c7a45e30b8").
Proof.
  assert (H := @hioso_line_is_parsed
    (lit "1") (lit "1") (lit "13") (lit "98c7a4.5e30b8") (lit "Up") (lit "1")
    (lit "0x0") (lit "0x4853") (lit "0") (lit "Undef") (lit "120")
    (lit "22 hours 2 minites 15 seconds")).
  rewrite H; try reflexivity;
    try (split; [discriminate|repeat constructor]).
Defined.

(** ** Lines that are not part of the listing *)

Section Skipped_lines.
Import HiosoParser.

Lemma lstrip_head (s : str) (c : ascii) (l : str) :
  lstrip s = c :: l -> is_space c = false.
Proof.
  induction s as [|a s IH]; [discriminate|]. simpl.
  destruct (is_space a) eqn:E; [exact IH|].
  intros H. now injection H as <- _.
Qed.

Lemma lstrip_snoc (s : str) (c : ascii) :
  is_space c = false -> exists s', lstrip (s ++ [c]) = s' ++ [c].
Proof.
  intros Hc. induction s as [|a s IH]; simpl.
  - rewrite Hc. now exists [].
  - destruct (is_space a); [exact IH|]. now exists (a :: s).
Qed.

(** What [strip] returns does not start with a blank. *)
Lemma strip_head (s : str) (c : ascii) (l : str) :
  strip s = c :: l -> is_space c = false.
Proof.
  unfold strip, rstrip. destruct (lstrip s) as [|a t] eqn:E; [discriminate|].
  apply lstrip_head in E. simpl rev.
  destruct (@lstrip_snoc (rev t) a E) as [s1 ->].
  rewrite rev_app_distr. simpl. intros H. now injection H as <- _.
Qed.

(** X18. A line whose first character, control characters and the blanks at
    its ends apart, is not a digit gives no record: the banner, the
    column titles, the rules and the prompts of the listing are passed
    over, and so is an empty line. *)
Theorem line_without_onu_id_is_skipped (raw : str) :
  (forall c l, clean_line raw = c :: l -> is_digit c = false) ->
  parse_line raw = None.
Proof.
  intros H. unfold parse_line.
  destruct (clean_line raw) as [|c l] eqn:E; [reflexivity|].
  assert (Hs : is_space c = false) by exact (strip_head _ E).
  specialize (H c l eq_refl).
  unfold match_at, onu_pattern. cbn [seqs].
  cbn [run star_k]. rewrite Hs. now rewrite H.
Qed.

End Skipped_lines.

Lemma line_without_onu_id_is_skipped_witness :
  HiosoParser.parse_line
    (lit "  ONU        MAC            Status Ports" ++ [CR; LF]) = None.
Proof.
  apply line_without_onu_id_is_skipped.
  intros c l H. vm_compute in H. now injection H as <- _.
Defined.

(** ** Patterns read as relations *)

Section Soundness.
Variable A : Type.
Implicit Types k : str -> captures -> option A.

Lemma star_k_sound (p : ascii -> bool) (s : str) (k' : str -> option A)
  (x : A) :
  star_k p s k' = Some x ->
  exists m rest,
    s = m ++ rest /\ Forall (fun c => p c = true) m /\ k' rest = Some x.
Proof.
  induction s as [|c s IH]; simpl; intros H.
  - now exists [], [].
  - destruct (p c) eqn:Hc; [|now exists [], (c :: s)].
    destruct (star_k p s k') as [y|] eqn:E.
    + injection H as ->. destruct (IH eq_refl) as (m & rest & -> & Hm & Hk).
      exists (c :: m), rest. now repeat split; [constructor|].
    + now exists [], (c :: s).
Qed.

Lemma code_10 (c : ascii) : (code c =? 10) = true -> c = LF.
Proof.
  intros H. apply Nat.eqb_eq in H. unfold code in H.
  rewrite <- (ascii_nat_embedding c), H. reflexivity.
Qed.

(** Whatever the matcher finds, the pattern matches. *)
Lemma run_sound (r : re) :
  forall (s : str) (caps : captures) k (x : A),
    run r s caps k = Some x ->
    exists m rest caps',
      s = m ++ rest /\ matches r m rest caps caps' /\ k rest caps' = Some x.
Proof.
  induction r as [|p|p|p|a IHa b IHb|a IHa b IHb|i r IH|];
    intros s caps k x H; cbn [run] in H.
  - exists [], s, caps. repeat split; [constructor|exact H].
  - destruct s as [|c s]; [discriminate|]. destruct (p c) eqn:Hc; [|discriminate].
    exists [c], s, caps. repeat split; [now constructor|exact H].
  - apply star_k_sound in H as (m & rest & -> & Hm & Hk).
    exists m, rest, caps. repeat split; [now constructor|exact Hk].
  - destruct s as [|c s]; [discriminate|]. destruct (p c) eqn:Hc; [|discriminate].
    apply star_k_sound in H as (m & rest & -> & Hm & Hk).
    exists (c :: m), rest, caps. repeat split; [|exact Hk].
    constructor. split; [discriminate|now constructor].
  - apply IHa in H as (m1 & rest1 & c1 & -> & Ha & H).
    apply IHb in H as (m2 & rest & c2 & -> & Hb & H).
    exists (m1 ++ m2), rest, c2. rewrite app_assoc.
    repeat split; [|exact H]. econstructor; eassumption.
  - destruct (run a s caps k) as [y|] eqn:E.
    + injection H as ->. apply IHa in E as (m & rest & c1 & -> & Ha & H).
      exists m, rest, c1. repeat split; [now apply M_Alt_l|exact H].
    + apply IHb in H as (m & rest & c1 & -> & Hb & H).
      exists m, rest, c1. repeat split; [now apply M_Alt_r|exact H].
  - apply IH in H as (m & rest & c1 & -> & Hr & H).
    rewrite firstn_prefix in H.
    exists m, rest, ((i, m) :: c1). repeat split; [now constructor|exact H].
  - destruct s as [|c [|d s]]; try discriminate.
    + exists [], [], caps. repeat split; [constructor; now left|exact H].
    + destruct (code c =? 10) eqn:E; [|discriminate]. apply code_10 in E as ->.
      exists [], [LF], caps. repeat split; [constructor; now right|exact H].
Qed.

End Soundness.

Section Reading.

Lemma match_at_sound (r : re) (s rest : str) (caps : captures) :
  match_at r s = Some (rest, caps) ->
  exists m, s = m ++ rest /\ matches r m rest [] caps.
Proof.
  unfold match_at. intros H.
  apply run_sound in H as (m & rest' & caps' & -> & Hm & H).
  injection H as -> ->. now exists m.
Qed.

Lemma matches_Chr (c : ascii) (m rest : str) (c0 c1 : captures) :
  matches (Chr c) m rest c0 c1 -> m = [c] /\ c1 = c0.
Proof.
  unfold Chr. inversion 1; subst. split; [|reflexivity].
  unfold is_char in *. f_equal. symmetry. now apply Ascii.eqb_eq.
Qed.

Lemma matches_Plus (p : ascii -> bool) (m rest : str) (c0 c1 : captures) :
  matches (Plus p) m rest c0 c1 -> is_token p m /\ c1 = c0.
Proof. inversion 1; subst. now split. Qed.

Lemma matches_Seq (a b : re) (m rest : str) (c0 c2 : captures) :
  matches (Seq a b) m rest c0 c2 ->
  exists m1 m2 c1,
    m = m1 ++ m2 /\ matches a m1 (m2 ++ rest) c0 c1 /\ matches b m2 rest c1 c2.
Proof.
  intros H. inversion H; subst. do 3 eexists.
  repeat split; eassumption.
Qed.

Lemma matches_Grp (i : nat) (r : re) (m rest : str) (c0 c : captures) :
  matches (Grp i r) m rest c0 c ->
  exists c1, c = (i, m) :: c1 /\ matches r m rest c0 c1.
Proof. inversion 1; subst. now eexists. Qed.

Lemma matches_Lit (w m rest : str) (c0 c1 : captures) :
  matches (Lit w) m rest c0 c1 -> m = w /\ c1 = c0.
Proof.
  revert m c1. induction w as [|c w IH]; intros m c1 H; cbn [Lit] in H.
  - inversion H; subst. now split.
  - apply matches_Seq in H as (m1 & m2 & c' & -> & H1 & H2).
    apply matches_Chr in H1 as [-> ->]. apply IH in H2 as [-> ->]. now split.
Qed.

Lemma matches_times_Cls (p : ascii -> bool) (n : nat) (m rest : str)
  (c0 c1 : captures) :
  matches (times n (Cls p)) m rest c0 c1 ->
  length m = n /\ Forall (fun c => p c = true) m /\ c1 = c0.
Proof.
  revert m c1. induction n as [|n IH]; intros m c1 H; cbn [times] in H.
  - inversion H; subst. now repeat split.
  - apply matches_Seq in H as (m1 & m2 & c' & -> & H1 & H2).
    inversion H1; subst. apply IH in H2 as (<- & Hm & ->).
    repeat split. now constructor.
Qed.

Lemma matches_Alt_Lit (v w m rest : str) (c0 c1 : captures) :
  matches (Alt (Lit v) (Lit w)) m rest c0 c1 -> (m = v \/ m = w) /\ c1 = c0.
Proof.
  inversion 1; subst.
  - match goal with H : matches (Lit v) _ _ _ _ |- _ =>
      apply matches_Lit in H as [-> ->] end. now split; [left|].
  - match goal with H : matches (Lit w) _ _ _ _ |- _ =>
      apply matches_Lit in H as [-> ->] end. now split; [right|].
Qed.

End Reading.

(** ** Scanning a text for matches *)

Section Scanning.
Variable r : re.

Lemma findall_from_skip (s : str) (k : nat) :
  k <= length s -> findall_from r s k = findall_from r (skipn k s) 0.
Proof.
  revert k. induction s as [|c s IH]; intros [|k] Hk; try reflexivity.
  - simpl in Hk. lia.
  - simpl in Hk. cbn [findall_from skipn]. apply IH. lia.
Qed.

(** After a match the scan goes on behind it. *)
Lemma findall_hit (w t : str) (caps : captures) :
  w <> [] -> match_at r (w ++ t) = Some (t, caps) ->
  findall r (w ++ t) = caps :: findall r t.
Proof.
  intros Hw H. destruct w as [|c w]; [contradiction|].
  unfold findall. cbn [app findall_from].
  change (c :: w ++ t) with ((c :: w) ++ t). rewrite H. f_equal.
  rewrite length_app. cbn [length].
  replace (S (length w) + length t - length t - 1) with (length w) by lia.
  rewrite findall_from_skip by (rewrite length_app; lia).
  now rewrite skipn_app, Nat.sub_diag, skipn_all.
Qed.

Lemma findall_miss (c : ascii) (t : str) :
  match_at r (c :: t) = None -> findall r (c :: t) = findall r t.
Proof. intros H. unfold findall. cbn [findall_from]. now rewrite H. Qed.

(** Every tuple of [findall] is a match of the pattern somewhere in the
    text. *)
Lemma findall_from_In (caps : captures) (s : str) :
  forall k, In caps (findall_from r s k) ->
  exists pre m rest, s = pre ++ m ++ rest /\ matches r m rest [] caps.
Proof.
  induction s as [|c s IH]; intros k H.
  - cbn [findall_from] in H. destruct k; [|destruct H].
    destruct (match_at r []) as [[rest caps']|] eqn:E; [|destruct H].
    destruct H as [<-|[]]. apply match_at_sound in E as (m & E & Hm).
    exists [], m, rest. now split.
  - cbn [findall_from] in H. destruct k as [|k].
    + destruct (match_at r (c :: s)) as [[rest caps']|] eqn:E.
      * destruct H as [<-|H].
        -- apply match_at_sound in E as (m & E & Hm).
           exists [], m, rest. now split.
        -- apply IH in H as (pre & m & rest' & -> & Hm).
           now exists (c :: pre), m, rest'.
      * apply IH in H as (pre & m & rest' & -> & Hm).
        now exists (c :: pre), m, rest'.
    + apply IH in H as (pre & m & rest' & -> & Hm).
      now exists (c :: pre), m, rest'.
Qed.

Section Listing.
Variable T : Type.
Variable text : T -> str.
Variable groups : T -> captures.
Variable ok : T -> Prop.
Hypothesis text_nonempty : forall row, ok row -> text row <> [].
Hypothesis needs_digit :
  forall c t, is_digit c = false -> match_at r (c :: t) = None.
Hypothesis needs_text : match_at r [] = None.
Hypothesis row_matches :
  forall row t, ok row -> starts_outside is_nonspace t ->
    match_at r (text row ++ t) = Some (t, groups row).

Lemma findall_noise (noise t : str) :
  no_digit noise -> findall r (noise ++ t) = findall r t.
Proof.
  induction 1 as [|c noise Hc _ IH]; [reflexivity|].
  cbn [app]. rewrite findall_miss; [exact IH|now apply needs_digit].
Qed.

Lemma findall_nil : findall r [] = [].
Proof. unfold findall. cbn [findall_from]. now rewrite needs_text. Qed.

(** A table without digits outside its rows gives the groups of its
    rows, in order. *)
Lemma findall_listing (head foot : str) (rows : list T) :
  Forall ok rows -> no_digit head -> no_digit foot ->
  findall r (listing head (map text rows) foot) = map groups rows.
Proof.
  intros Hrows Hh Hf. unfold listing. rewrite findall_noise by exact Hh.
  induction Hrows as [|row rows Hrow _ IH]; cbn [map concat app].
  - rewrite <- (app_nil_r foot), findall_noise by exact Hf. apply findall_nil.
  - rewrite <- !app_assoc.
    erewrite findall_hit;
      [|now apply text_nonempty|now apply row_matches].
    f_equal. cbn [app]. rewrite findall_miss; [exact IH|].
    now apply needs_digit.
Qed.

End Listing.
End Scanning.

(** ** Matching a row column by column *)

Section Pieces.
Variable A : Type.
Implicit Types k : str -> captures -> option A.

Lemma run_times_Cls (p : ascii -> bool) (col rest : str) (caps : captures) k :
  Forall (fun c => p c = true) col ->
  run (times (length col) (Cls p)) (col ++ rest) caps k = k rest caps.
Proof.
  induction 1 as [|c col Hc _ IH]; [reflexivity|].
  cbn [length times app]. rewrite run_Seq. cbn [run]. now rewrite Hc.
Qed.

Lemma run_digits (n : nat) (col rest : str) (caps : captures) k :
  has_digits n col ->
  run (HsgqEponSshParser.digits n) (col ++ rest) caps k = k rest caps.
Proof. intros [<- H]. now apply run_times_Cls. Qed.

Lemma run_Lit_here (w rest : str) (caps : captures) k :
  run (Lit w) (w ++ rest) caps k = k rest caps.
Proof.
  induction w as [|c w IH]; [reflexivity|].
  cbn [Lit app]. now rewrite run_Seq, run_Chr_here.
Qed.

Lemma run_Alt_l (a b : re) (s : str) (caps : captures) k (x : A) :
  run a s caps k = Some x -> run (Alt a b) s caps k = Some x.
Proof. intros H. cbn [run]. now rewrite H. Qed.

Lemma run_Alt_r (a b : re) (s : str) (caps : captures) k :
  run a s caps k = None -> run (Alt a b) s caps k = run b s caps k.
Proof. intros H. cbn [run]. now rewrite H. Qed.

(** A literal fails on a text that starts with another word. *)
Lemma run_Lit_other (w v rest : str) (caps : captures) k :
  starts_with w v = false -> length w <= length v ->
  run (Lit w) (v ++ rest) caps k = None.
Proof.
  revert v. induction w as [|c w IH]; intros v H Hl; [discriminate|].
  destruct v as [|d v]; [simpl in Hl; lia|].
  cbn [Lit app]. rewrite run_Seq. cbn [run Chr]. unfold is_char.
  cbn [starts_with] in H. rewrite Ascii.eqb_sym.
  destruct (Ascii.eqb d c) eqn:E.
  - rewrite Ascii.eqb_sym in E. rewrite E in H. apply IH; [exact H|].
    simpl in Hl. lia.
  - reflexivity.
Qed.

(** One of two words. *)
Lemma run_either (v w col rest : str) (caps : captures) k (x : A) :
  col = v \/ col = w -> starts_with v w = false -> length v <= length w ->
  k rest caps = Some x ->
  run (Alt (Lit v) (Lit w)) (col ++ rest) caps k = Some x.
Proof.
  intros [->| ->] Hvw Hl Hk.
  - apply run_Alt_l. now rewrite run_Lit_here.
  - rewrite run_Alt_r by now apply run_Lit_other. now rewrite run_Lit_here.
Qed.

Lemma run_Chr_lit (c : ascii) (rest : str) (caps : captures) k :
  run (Chr c) (lit (String c EmptyString) ++ rest) caps k = k rest caps.
Proof. apply run_Chr_here. Qed.

(** A group around a pattern that sets no group itself. *)
Lemma run_group (i : nat) (r : re) (col rest : str) (caps : captures) k
  (x : A) :
  (forall k', k' rest caps = Some x -> run r (col ++ rest) caps k' = Some x) ->
  k rest ((i, col) :: caps) = Some x ->
  run (Grp i r) (col ++ rest) caps k = Some x.
Proof.
  intros Hr Hk. rewrite run_Grp. apply Hr. now rewrite firstn_prefix.
Qed.

Lemma app_group3 (a b c rest : str) :
  a ++ b ++ c ++ rest = (a ++ b ++ c) ++ rest.
Proof. now rewrite <- !app_assoc. Qed.

End Pieces.

Section More_classes.

Lemma space_not_digit (c : ascii) : is_space c = true -> is_digit c = false.
Proof. destruct c as [[] [] [] [] [] [] [] []]; vm_compute; congruence. Qed.

Lemma space_not_nonspace (c : ascii) :
  is_space c = true -> is_nonspace c = false.
Proof. unfold is_nonspace. now intros ->. Qed.

Lemma nonspace_not_space (c : ascii) :
  is_nonspace c = true -> is_space c = false.
Proof. unfold is_nonspace. now destruct (is_space c). Qed.

Lemma epon_mac_char_not_space (c : ascii) :
  HsgqEponSshParser.is_mac_char c = true -> is_space c = false.
Proof. destruct c as [[] [] [] [] [] [] [] []]; vm_compute; congruence. Qed.

Lemma has_digits_token (n : nat) (s : str) :
  has_digits (S n) s -> is_token is_digit s.
Proof. intros [Hl H]. split; [|exact H]. now destruct s. Qed.

End More_classes.

(** ** The rows of [show onu-info all] *)

Section Epon_row.
Import HsgqEponSshParser.

Ltac after H class :=
  eapply token_starts_outside; [exact H|exact class].

Ltac gap Hgap :=
  rewrite run_Seq; apply run_Plus_take; [apply Hgap| |].

Ltac word H :=
  rewrite run_Seq; apply run_group;
  [intros k' Hk'; apply run_either;
   [exact H|reflexivity|simpl; lia|exact Hk']|].

Lemma epon_row_matches (o : epon_onu) (t : str) :
  epon_row_ok o -> starts_outside is_nonspace t ->
  match_at onu_info_pattern (epon_row o ++ t) =
  Some (t, [(8, e_desc o); (7, e_name o);
            (6, e_date o ++ e_gap o 6 ++ e_clock o);
            (5, e_cfg o); (4, e_auth o); (3, e_status o); (2, e_mac o);
            (1, e_pon o ++ lit "/" ++ e_onu o)]).
Proof.
  intros (Hpon & Honu & Hlen & Hmac & Hstatus & Hauth & Hcfg & Hdate & Hclock
          & Hname & Hdesc & Hgap) Ht.
  destruct Hdate as (y & mo & d & Ed & Hy & Hmo & Hd).
  destruct Hclock as (h & mi & sec & Ec & Hh & Hmi & Hsec).
  unfold match_at, onu_info_pattern, epon_row. cbn [seqs].
  rewrite <- !app_assoc.
  rewrite (app_group3 (e_pon o)), run_Seq. apply run_group.
  { intros k' Hk'. rewrite <- !app_assoc, run_Seq.
    apply run_Plus_take; [assumption|reflexivity|].
    rewrite run_Seq, run_Chr_lit.
    apply run_Plus_take; [assumption| |exact Hk'].
    after (Hgap 1) space_not_digit. }
  gap Hgap.
  { eapply token_starts_outside; [|exact epon_mac_char_not_space].
    split; [now destruct (e_mac o)|exact Hmac]. }
  rewrite run_Seq. apply run_group.
  { intros k' Hk'. now rewrite <- Hlen, run_times_Cls. }
  gap Hgap.
  { destruct Hstatus as [-> | ->]; reflexivity. }
  word Hstatus.
  gap Hgap.
  { destruct Hauth as [-> | ->]; reflexivity. }
  word Hauth.
  gap Hgap.
  { destruct Hcfg as [-> | ->]; reflexivity. }
  word Hcfg.
  gap Hgap.
  { rewrite Ed, <- app_assoc. after (has_digits_token Hy) digit_not_space. }
  rewrite (app_group3 (e_date o)), run_Seq. apply run_group.
  { intros k' Hk'. rewrite Ed, Ec in Hk'. rewrite Ed, Ec.
    rewrite <- !app_assoc in Hk'. rewrite <- !app_assoc.
    rewrite run_Seq, (run_digits _ _ _ Hy); cbv beta.
    rewrite run_Seq, run_Chr_lit; cbv beta.
    rewrite run_Seq, (run_digits _ _ _ Hmo); cbv beta.
    rewrite run_Seq, run_Chr_lit; cbv beta.
    rewrite run_Seq, (run_digits _ _ _ Hd); cbv beta.
    gap Hgap.
    { after (has_digits_token Hh) digit_not_space. }
    rewrite run_Seq, (run_digits _ _ _ Hh); cbv beta.
    rewrite run_Seq, run_Chr_lit; cbv beta.
    rewrite run_Seq, (run_digits _ _ _ Hmi); cbv beta.
    rewrite run_Seq, run_Chr_lit; cbv beta.
    rewrite (run_digits _ _ _ Hsec). exact Hk'. }
  gap Hgap.
  { after Hname nonspace_not_space. }
  rewrite run_Seq. apply run_column; [assumption| |].
  { after (Hgap 8) space_not_nonspace. }
  gap Hgap.
  { after Hdesc nonspace_not_space. }
  apply run_column; [assumption|exact Ht|reflexivity].
Qed.

Lemma epon_row_nonempty (o : epon_onu) : epon_row_ok o -> epon_row o <> [].
Proof.
  intros ([Hne _] & _). unfold epon_row. now destruct (e_pon o).
Qed.

Lemma epon_needs_digit (c : ascii) (t : str) :
  is_digit c = false -> match_at onu_info_pattern (c :: t) = None.
Proof.
  intros H. unfold match_at, onu_info_pattern. cbn [seqs run]. now rewrite H.
Qed.

Lemma epon_findall_listing (head foot : str) (rows : list epon_onu) :
  Forall epon_row_ok rows -> no_digit head -> no_digit foot ->
  map record_of
    (findall onu_info_pattern (listing head (map epon_row rows) foot)) =
  map epon_record rows.
Proof.
  intros Hrows Hh Hf.
  rewrite (@findall_listing onu_info_pattern epon_onu epon_row
             (fun o => [(8, e_desc o); (7, e_name o);
                        (6, e_date o ++ e_gap o 6 ++ e_clock o);
                        (5, e_cfg o); (4, e_auth o); (3, e_status o);
                        (2, e_mac o); (1, e_pon o ++ lit "/" ++ e_onu o)])
             epon_row_ok epon_row_nonempty epon_needs_digit eq_refl
             epon_row_matches head foot rows Hrows Hh Hf).
  rewrite map_map. reflexivity.
Qed.

(** X19. A listing of [show onu-info all] without digits outside its rows
    gives the records of its rows, one for each row and in their order:
    the MAC column in lower case as identifier, the first column as
    interface locator, and the columns as details. *)
Theorem epon_listing_is_parsed (raw head foot : str) (rows : list epon_onu) :
  Forall epon_row_ok rows -> no_digit head -> no_digit foot ->
  replace (lit "--More--") [] (replace [CR] [] raw) =
    listing head (map epon_row rows) foot ->
  _parse_onu_info raw = map epon_record rows.
Proof.
  intros Hrows Hh Hf Hraw. unfold _parse_onu_info. cbv zeta. rewrite Hraw.
  now apply epon_findall_listing.
Qed.

Ltac peel :=
  repeat match goal with
  | H : matches (Seq _ _) _ _ _ _ |- _ =>
      apply matches_Seq in H as (? & ? & ? & -> & ? & ?)
  | H : matches (Grp _ _) _ _ _ _ |- _ =>
      apply matches_Grp in H as (? & -> & ?)
  | H : matches (Plus _) _ _ _ _ |- _ => apply matches_Plus in H as [? ->]
  | H : matches (Chr _) _ _ _ _ |- _ => apply matches_Chr in H as [-> ->]
  | H : matches (times _ (Cls _)) _ _ _ _ |- _ =>
      apply matches_times_Cls in H as (? & ? & ->)
  | H : matches (Alt (Lit _) (Lit _)) _ _ _ _ |- _ =>
      apply matches_Alt_Lit in H as [? ->]
  | H : matches (Lit _) _ _ _ _ |- _ => apply matches_Lit in H as [-> ->]
  end.

(** X20. Every record of the parser is the record of a well-formed row that
    stands in the text, carriage returns and pagination markers apart: its
    identifier is the 17 characters of the MAC column in lower case. *)
Theorem epon_records_are_rows (raw : str) (r : onu_item) :
  In r (_parse_onu_info raw) ->
  exists (pre : str) (o : epon_onu) (post : str),
    replace (lit "--More--") [] (replace [CR] [] raw) =
      pre ++ epon_row o ++ post /\
    epon_row_ok o /\ r = epon_record o /\ length (identifier r) = 17.
Proof.
  unfold _parse_onu_info. cbv zeta. intros H.
  apply in_map_iff in H as (caps & <- & H).
  apply findall_from_In in H as (pre & m & post & -> & H).
  unfold onu_info_pattern, truth, digits in H. cbn [seqs] in H. peel.
  match goal with
  | |- exists _ _ _,
        pre ++ ((?pon ++ _ ++ ?onu) ++ ?g1 ++ ?mac ++ ?g2 ++ ?st ++ ?g3 ++
                ?au ++ ?g4 ++ ?cf ++ ?g5 ++
                (?y ++ _ ++ ?mo ++ _ ++ ?d ++ ?g6 ++
                 ?h ++ _ ++ ?mi ++ _ ++ ?se) ++
                ?g7 ++ ?nm ++ ?g8 ++ ?ds) ++ post = _ /\ _ =>
      exists pre,
        (EponOnu pon onu mac st au cf
           (y ++ lit "/" ++ mo ++ lit "/" ++ d)
           (h ++ lit ":" ++ mi ++ lit ":" ++ se) nm ds
           (fun i =>
              match i with
              | 1 => g1 | 2 => g2 | 3 => g3 | 4 => g4 | 5 => g5 | 6 => g6
              | 7 => g7 | _ => g8
              end)), post
  end.
  split; [|split; [|split]].
  - unfold epon_row. cbn [e_pon e_onu e_mac e_status e_auth e_cfg e_date
                          e_clock e_name e_desc e_gap].
    now rewrite <- !app_assoc.
  - unfold epon_row_ok. cbn [e_pon e_onu e_mac e_status e_auth e_cfg e_date
                             e_clock e_name e_desc e_gap].
    repeat match goal with |- _ /\ _ => split end; try assumption.
    + do 3 eexists. repeat split; eassumption.
    + do 3 eexists. repeat split; eassumption.
    + intros [|[|[|[|[|[|[|[|i]]]]]]]]; assumption.
  - unfold record_of, epon_record, item.
    cbn [group Nat.eqb e_pon e_onu e_mac e_status e_auth e_cfg e_date
         e_clock e_name e_desc e_gap].
    now rewrite <- !app_assoc.
  - unfold record_of, item. cbn [group Nat.eqb identifier].
    unfold lower. now rewrite length_map.
Qed.

End Epon_row.

(** ** The rows of [show ont-optical all] *)

Section Gpon_row.
Import HsgqSsh.

Lemma number_char_not_space (c : ascii) :
  is_number_char c = true -> is_space c = false.
Proof. destruct c as [[] [] [] [] [] [] [] []]; vm_compute; congruence. Qed.

Lemma power_char_not_space (c : ascii) :
  is_power_char c = true -> is_space c = false.
Proof. destruct c as [[] [] [] [] [] [] [] []]; vm_compute; congruence. Qed.

Lemma space_not_number_char (c : ascii) :
  is_space c = true -> is_number_char c = false.
Proof. destruct c as [[] [] [] [] [] [] [] []]; vm_compute; congruence. Qed.

Lemma space_not_power_char (c : ascii) :
  is_space c = true -> is_power_char c = false.
Proof. destruct c as [[] [] [] [] [] [] [] []]; vm_compute; congruence. Qed.

Lemma name_char_is_nonspace (c : ascii) :
  is_nonspace c = false -> is_name_char c = false.
Proof. destruct c as [[] [] [] [] [] [] [] []]; vm_compute; congruence. Qed.

Lemma starts_outside_name (t : str) :
  starts_outside is_nonspace t -> starts_outside is_name_char t.
Proof. destruct t as [|c t]; [trivial|]. apply name_char_is_nonspace. Qed.

Ltac after H class :=
  eapply token_starts_outside; [exact H|exact class].

Ltac gap Hgap :=
  rewrite run_Seq; apply run_Plus_take; [apply Hgap| |].

Ltac column H :=
  rewrite run_Seq; apply run_column; [exact H| |].

Lemma gpon_row_matches (o : gpon_ont) (t : str) :
  gpon_row_ok o -> starts_outside is_nonspace t ->
  match_at onu_pattern (gpon_row o ++ t) =
  Some (t, [(8, g_name o); (7, g_rx o); (6, g_tx o); (5, g_bias o);
            (4, g_voltage o); (3, g_temp o); (2, g_sn o);
            (1, g_pon o ++ lit "/" ++ g_onu o)]).
Proof.
  intros (Hpon & Honu & Hsn & Htemp & Hvolt & Hbias & Htx & Hrx & Hname
          & Hgap) Ht.
  unfold match_at, onu_pattern, gpon_row. cbn [seqs].
  rewrite <- !app_assoc.
  rewrite (app_group3 (g_pon o)), run_Seq. apply run_group.
  { intros k' Hk'. rewrite <- !app_assoc, run_Seq.
    apply run_Plus_take; [assumption|reflexivity|].
    rewrite run_Seq, run_Chr_lit.
    apply run_Plus_take; [assumption| |exact Hk'].
    after (Hgap 1) space_not_digit. }
  gap Hgap. { after Hsn nonspace_not_space. }
  column Hsn. { after (Hgap 2) space_not_nonspace. }
  gap Hgap. { after Htemp digit_not_space. }
  column Htemp. { after (Hgap 3) space_not_digit. }
  gap Hgap. { reflexivity. }
  rewrite run_Seq, run_Chr_lit; cbv beta.
  gap Hgap. { after Hvolt number_char_not_space. }
  column Hvolt. { after (Hgap 5) space_not_number_char. }
  gap Hgap. { reflexivity. }
  rewrite run_Seq, run_Chr_lit; cbv beta.
  gap Hgap. { after Hbias number_char_not_space. }
  column Hbias. { after (Hgap 7) space_not_number_char. }
  gap Hgap. { reflexivity. }
  rewrite run_Seq, run_Lit_here; cbv beta.
  gap Hgap. { after Htx power_char_not_space. }
  column Htx. { after (Hgap 9) space_not_power_char. }
  gap Hgap. { reflexivity. }
  rewrite run_Seq, run_Lit_here; cbv beta.
  gap Hgap. { after Hrx power_char_not_space. }
  column Hrx. { after (Hgap 11) space_not_power_char. }
  gap Hgap. { reflexivity. }
  rewrite run_Seq, run_Lit_here; cbv beta.
  gap Hgap.
  { eapply token_starts_outside; [exact Hname|].
    intros c Hc. destruct (is_space c) eqn:E; [|reflexivity].
    apply space_not_nonspace, name_char_is_nonspace in E. congruence. }
  apply run_column; [exact Hname|now apply starts_outside_name|reflexivity].
Qed.

Lemma gpon_row_nonempty (o : gpon_ont) : gpon_row_ok o -> gpon_row o <> [].
Proof.
  intros ([Hne _] & _). unfold gpon_row. now destruct (g_pon o).
Qed.

Lemma gpon_needs_digit (c : ascii) (t : str) :
  is_digit c = false -> match_at onu_pattern (c :: t) = None.
Proof.
  intros H. unfold match_at, onu_pattern. cbn [seqs run]. now rewrite H.
Qed.

(** X21. A listing of [show ont-optical all] without digits outside its rows
    gives the records of its rows, one for each row and in their order:
    the serial number as printed is the identifier, the first column the
    interface locator, and the readings carry their units. *)
Theorem gpon_listing_is_parsed (raw head foot : str) (rows : list gpon_ont) :
  Forall gpon_row_ok rows -> no_digit head -> no_digit foot ->
  replace [CR] [] raw = listing head (map gpon_row rows) foot ->
  _parse_onus raw = map gpon_record rows.
Proof.
  intros Hrows Hh Hf Hraw. unfold _parse_onus. cbv zeta. rewrite Hraw.
  rewrite (@findall_listing onu_pattern gpon_ont gpon_row
             (fun o => [(8, g_name o); (7, g_rx o); (6, g_tx o);
                        (5, g_bias o); (4, g_voltage o); (3, g_temp o);
                        (2, g_sn o); (1, g_pon o ++ lit "/" ++ g_onu o)])
             gpon_row_ok gpon_row_nonempty gpon_needs_digit eq_refl
             gpon_row_matches head foot rows Hrows Hh Hf).
  rewrite map_map. reflexivity.
Qed.

Ltac peel :=
  repeat match goal with
  | H : matches (Seq _ _) _ _ _ _ |- _ =>
      apply matches_Seq in H as (? & ? & ? & -> & ? & ?)
  | H : matches (Grp _ _) _ _ _ _ |- _ =>
      apply matches_Grp in H as (? & -> & ?)
  | H : matches (Plus _) _ _ _ _ |- _ => apply matches_Plus in H as [? ->]
  | H : matches (Chr _) _ _ _ _ |- _ => apply matches_Chr in H as [-> ->]
  | H : matches (Lit _) _ _ _ _ |- _ => apply matches_Lit in H as [-> ->]
  end.

(** X22. Every record of the parser is the record of a well-formed row that
    stands in the text, carriage returns apart: its identifier is the
    serial number column as printed, not empty and without blanks. *)
Theorem gpon_records_are_rows (raw : str) (r : onu_item) :
  In r (_parse_onus raw) ->
  exists (pre : str) (o : gpon_ont) (post : str),
    replace [CR] [] raw = pre ++ gpon_row o ++ post /\
    gpon_row_ok o /\ r = gpon_record o /\ is_token is_nonspace (identifier r).
Proof.
  unfold _parse_onus. cbv zeta. intros H.
  apply in_map_iff in H as (caps & <- & H).
  apply findall_from_In in H as (pre & m & post & -> & H).
  unfold onu_pattern in H. cbn [seqs] in H. peel.
  match goal with
  | |- exists _ _ _,
        pre ++ ((?pon ++ _ ++ ?onu) ++ ?g1 ++ ?sn ++ ?g2 ++ ?temp ++ ?g3 ++
                _ ++ ?g4 ++ ?volt ++ ?g5 ++ _ ++ ?g6 ++ ?bias ++ ?g7 ++
                _ ++ ?g8 ++ ?tx ++ ?g9 ++ _ ++ ?g10 ++ ?rx ++ ?g11 ++
                _ ++ ?g12 ++ ?name) ++ post = _ /\ _ =>
      exists pre,
        (GponOnt pon onu sn temp volt bias tx rx name
           (fun i =>
              match i with
              | 1 => g1 | 2 => g2 | 3 => g3 | 4 => g4 | 5 => g5 | 6 => g6
              | 7 => g7 | 8 => g8 | 9 => g9 | 10 => g10 | 11 => g11
              | _ => g12
              end)), post
  end.
  split; [|split; [|split]].
  - unfold gpon_row. cbn [g_pon g_onu g_sn g_temp g_voltage g_bias g_tx g_rx
                          g_name g_gap].
    now rewrite <- !app_assoc.
  - unfold gpon_row_ok. cbn [g_pon g_onu g_sn g_temp g_voltage g_bias g_tx
                             g_rx g_name g_gap].
    repeat match goal with |- _ /\ _ => split end; try assumption.
    intros [|[|[|[|[|[|[|[|[|[|[|[|i]]]]]]]]]]]]; assumption.
  - reflexivity.
  - assumption.
Qed.

End Gpon_row.

(** ** One key for the two EPON adapters *)

Section Epon_keys.
Import HsgqEponSshParser HsgqEponSnmp.

(** X23. For an ONU whose MAC address the listing prints as six pairs joined
    by colons, the SSH parser and the SNMP correlator arrive at the same
    identifier, whichever way the agent spells the address: with [0x],
    with colons, with blanks or plain. *)
Theorem epon_adapters_key_alike (float_centi : str -> option str)
  (raw head foot : str) (rows : list epon_onu) (o : epon_onu)
  (m raw_mac index : str) (data : PyDict.dict str) :
  Forall epon_row_ok rows -> no_digit head -> no_digit foot ->
  replace (lit "--More--") [] (replace [CR] [] raw) =
    listing head (map epon_row rows) foot ->
  In o rows -> e_mac o = join (lit ":") (pairs m) ->
  Forall (fun c => is_hex c = true) m -> length m = 12 ->
  PyDict.get (lit "mac_address") data = Some raw_mac ->
  raw_mac = lit "0x" ++ m \/ raw_mac = join (lit ":") (pairs m) \/
  raw_mac = join (lit " ") (pairs m) \/ raw_mac = m ->
  exists r r',
    In r (_parse_onu_info raw) /\
    pon_interface r = e_pon o ++ lit "/" ++ e_onu o /\
    record_of float_centi index data = Some r' /\
    identifier r = identifier r'.
Proof.
  intros Hrows Hh Hf Hraw Ho Emac Hm Hlen Hget Hspell.
  assert (Hclean : clean_mac raw_mac = lower m).
  { destruct Hspell as [->|[->|[->| ->]]].
    - now apply clean_mac_0x.
    - now apply clean_mac_colons.
    - now apply clean_mac_spaces.
    - now apply clean_mac_plain. }
  assert (Hne : raw_mac <> []).
  { intros ->. apply (f_equal (@length _)) in Hclean.
    unfold lower in Hclean. rewrite length_map, Hlen in Hclean.
    discriminate Hclean. }
  assert (Hparsed : _parse_onu_info raw = map epon_record rows).
  { unfold _parse_onu_info. cbv zeta. rewrite Hraw.
    now apply epon_findall_listing. }
  unfold record_of. rewrite Hget.
  destruct raw_mac as [|c raw_mac]; [contradiction|].
  cbv zeta. rewrite Hclean.
  replace (length (lower m) =? 12) with true
    by (unfold lower; now rewrite length_map, Hlen).
  destruct (powers float_centi data) as [tx rx].
  eexists (epon_record o), _. split; [|split; [|split]].
  - rewrite Hparsed. now apply in_map.
  - reflexivity.
  - reflexivity.
  - cbn [identifier epon_record]. rewrite Emac. apply lower_join_pairs.
Qed.

End Epon_keys.

(** ** The listings at work *)

Section Listing_examples.
Import Examples.

Ltac token := split; [discriminate|repeat constructor].

Lemma epon_onu_a_ok : epon_row_ok epon_onu_a.
Proof.
  unfold epon_row_ok, epon_onu_a. cbn [e_pon e_onu e_mac e_status e_auth
    e_cfg e_date e_clock e_name e_desc e_gap].
  split; [token|]. split; [token|]. split; [reflexivity|].
  split; [repeat constructor|]. split; [now left|]. split; [now left|].
  split; [now left|]. split; [|split; [|split; [token|split; [token|]]]].
  - exists (lit "2024"), (lit "01"), (lit "31").
    repeat split; repeat constructor.
  - exists (lit "23"), (lit "59"), (lit "07").
    repeat split; repeat constructor.
  - intros i. token.
Qed.

Lemma epon_onu_b_ok : epon_row_ok epon_onu_b.
Proof.
  unfold epon_row_ok, epon_onu_b. cbn [e_pon e_onu e_mac e_status e_auth
    e_cfg e_date e_clock e_name e_desc e_gap].
  split; [token|]. split; [token|]. split; [reflexivity|].
  split; [repeat constructor|]. split; [now right|]. split; [now right|].
  split; [now left|]. split; [|split; [|split; [token|split; [token|]]]].
  - exists (lit "2023"), (lit "12"), (lit "01").
    repeat split; repeat constructor.
  - exists (lit "08"), (lit "00"), (lit "00").
    repeat split; repeat constructor.
  - intros i. token.
Qed.

Lemma gpon_ont_a_ok : gpon_row_ok gpon_ont_a.
Proof.
  unfold gpon_row_ok, gpon_ont_a. cbn [g_pon g_onu g_sn g_temp g_voltage
    g_bias g_tx g_rx g_name g_gap].
  do 9 (split; [token|]). intros i. token.
Qed.

Lemma epon_heading_plain : no_digit epon_heading.
Proof. repeat constructor. Qed.

Lemma epon_prompt_plain : no_digit epon_prompt.
Proof. repeat constructor. Qed.

Lemma gpon_heading_plain : no_digit gpon_heading.
Proof. repeat constructor. Qed.

Lemma gpon_prompt_plain : no_digit gpon_prompt.
Proof. repeat constructor. Qed.

End Listing_examples.

Lemma epon_listing_is_parsed_witness :
  map identifier (HsgqEponSshParser._parse_onu_info Examples.epon_transcript) =
  [lit "98:c7:a4:5e:30:b8"; lit "a4:5e:30:b8:98:c7"].
Proof.
  rewrite (@epon_listing_is_parsed Examples.epon_transcript
             Examples.epon_heading Examples.epon_prompt
             [Examples.epon_onu_a; Examples.epon_onu_b]).
  - reflexivity.
  - constructor; [exact epon_onu_a_ok|].
    constructor; [exact epon_onu_b_ok|constructor].
  - exact epon_heading_plain.
  - exact epon_prompt_plain.
  - vm_compute. reflexivity.
Defined.

Lemma epon_records_are_rows_witness :
  exists (pre : str) (o : epon_onu) (post : str),
    replace (lit "--More--") [] (replace [CR] [] Examples.epon_transcript) =
      pre ++ epon_row o ++ post /\
    epon_row_ok o /\ epon_record Examples.epon_onu_b = epon_record o /\
    length (identifier (epon_record Examples.epon_onu_b)) = 17.
Proof.
  apply epon_records_are_rows. vm_compute. right. left. reflexivity.
Defined.

Lemma gpon_listing_is_parsed_witness :
  map identifier (HsgqSsh._parse_onus Examples.gpon_transcript) =
  [lit "HWTC1234ABCD"].
Proof.
  rewrite (@gpon_listing_is_parsed Examples.gpon_transcript
             Examples.gpon_heading Examples.gpon_prompt
             [Examples.gpon_ont_a]).
  - reflexivity.
  - constructor; [exact gpon_ont_a_ok|constructor].
  - exact gpon_heading_plain.
  - exact gpon_prompt_plain.
  - vm_compute. reflexivity.
Defined.

Lemma gpon_records_are_rows_witness :
  exists (pre : str) (o : gpon_ont) (post : str),
    replace [CR] [] Examples.gpon_transcript = pre ++ gpon_row o ++ post /\
    gpon_row_ok o /\ gpon_record Examples.gpon_ont_a = gpon_record o /\
    is_token is_nonspace (identifier (gpon_record Examples.gpon_ont_a)).
Proof.
  apply gpon_records_are_rows. vm_compute. left. reflexivity.
Defined.

Lemma epon_adapters_key_alike_witness :
  exists r r',
    In r (HsgqEponSshParser._parse_onu_info Examples.epon_transcript) /\
    pon_interface r = lit "1/1" /\
    HsgqEponSnmp.record_of (fun _ => None) (lit "7")
      [(lit "mac_address", lit "0x98C7A45E30B8")] = Some r' /\
    identifier r = identifier r'.
Proof.
  apply (@epon_adapters_key_alike (fun _ => None) Examples.epon_transcript
           Examples.epon_heading Examples.epon_prompt
           [Examples.epon_onu_a; Examples.epon_onu_b] Examples.epon_onu_a
           (lit "98C7A45E30B8") (lit "0x98C7A45E30B8") (lit "7")
           [(lit "mac_address", lit "0x98C7A45E30B8")]).
  - constructor; [exact epon_onu_a_ok|].
    constructor; [exact epon_onu_b_ok|constructor].
  - exact epon_heading_plain.
  - exact epon_prompt_plain.
  - vm_compute. reflexivity.
  - now left.
  - reflexivity.
  - repeat constructor.
  - reflexivity.
  - reflexivity.
  - now left.
Defined.
